(** * A paged B+ tree store: shallow embedding of [final/db.py]

    The development follows the source file top to bottom: layout
    constants, the [struct] codec on byte buffers, the pager, the node
    accessors, the B+ tree operations, the executor and the statement
    parser.  Page buffers are Python [bytearray]s that live in the pager's
    cache; a Python variable bound to such a buffer is modelled by the page
    number under which the buffer is cached, and every read or write goes
    through the cache, so that two variables naming the same page alias as
    they do in the source. *)

From Stdlib Require Import ZArith Lia Bool.
From Stdlib Require Import Strings.Byte Strings.Ascii Strings.String.
From Stdlib Require DecimalString.
From stdpp Require Import base option list gmap strings.

Local Open Scope Z_scope.

(** ** Constants & configuration *)

Definition COLUMN_USERNAME_SIZE : Z := 32.
Definition COLUMN_EMAIL_SIZE : Z := 255.
(** [struct.calcsize('<I32s255s')]: no alignment padding with [<]. *)
Definition ROW_SIZE : Z := 4 + COLUMN_USERNAME_SIZE + COLUMN_EMAIL_SIZE.

Definition PAGE_SIZE : Z := 4096.
Definition TABLE_MAX_PAGES : Z := 400.
Definition INVALID_PAGE_NUM : Z := 4294967295.

Definition NODE_TYPE_SIZE : Z := 1.
Definition NODE_TYPE_OFFSET : Z := 0.
Definition IS_ROOT_SIZE : Z := 1.
Definition IS_ROOT_OFFSET : Z := NODE_TYPE_SIZE.
Definition PARENT_POINTER_SIZE : Z := 4.
Definition PARENT_POINTER_OFFSET : Z := IS_ROOT_OFFSET + IS_ROOT_SIZE.
Definition COMMON_NODE_HEADER_SIZE : Z :=
  NODE_TYPE_SIZE + IS_ROOT_SIZE + PARENT_POINTER_SIZE.

Definition INTERNAL_NODE_NUM_KEYS_SIZE : Z := 4.
Definition INTERNAL_NODE_NUM_KEYS_OFFSET : Z := COMMON_NODE_HEADER_SIZE.
Definition INTERNAL_NODE_RIGHT_CHILD_SIZE : Z := 4.
Definition INTERNAL_NODE_RIGHT_CHILD_OFFSET : Z :=
  INTERNAL_NODE_NUM_KEYS_OFFSET + INTERNAL_NODE_NUM_KEYS_SIZE.
Definition INTERNAL_NODE_HEADER_SIZE : Z :=
  COMMON_NODE_HEADER_SIZE + INTERNAL_NODE_NUM_KEYS_SIZE
  + INTERNAL_NODE_RIGHT_CHILD_SIZE.

Definition INTERNAL_NODE_KEY_SIZE : Z := 4.
Definition INTERNAL_NODE_CHILD_SIZE : Z := 4.
Definition INTERNAL_NODE_CELL_SIZE : Z :=
  INTERNAL_NODE_CHILD_SIZE + INTERNAL_NODE_KEY_SIZE.
Definition INTERNAL_NODE_MAX_KEYS : Z := 3.

Definition LEAF_NODE_NUM_CELLS_SIZE : Z := 4.
Definition LEAF_NODE_NUM_CELLS_OFFSET : Z := COMMON_NODE_HEADER_SIZE.
Definition LEAF_NODE_NEXT_LEAF_SIZE : Z := 4.
Definition LEAF_NODE_NEXT_LEAF_OFFSET : Z :=
  LEAF_NODE_NUM_CELLS_OFFSET + LEAF_NODE_NUM_CELLS_SIZE.
Definition LEAF_NODE_HEADER_SIZE : Z :=
  COMMON_NODE_HEADER_SIZE + LEAF_NODE_NUM_CELLS_SIZE + LEAF_NODE_NEXT_LEAF_SIZE.

Definition LEAF_NODE_KEY_SIZE : Z := 4.
Definition LEAF_NODE_KEY_OFFSET : Z := 0.
Definition LEAF_NODE_VALUE_SIZE : Z := ROW_SIZE.
Definition LEAF_NODE_VALUE_OFFSET : Z := LEAF_NODE_KEY_OFFSET + LEAF_NODE_KEY_SIZE.
Definition LEAF_NODE_CELL_SIZE : Z := LEAF_NODE_KEY_SIZE + LEAF_NODE_VALUE_SIZE.
Definition LEAF_NODE_SPACE_FOR_CELLS : Z := PAGE_SIZE - LEAF_NODE_HEADER_SIZE.
Definition LEAF_NODE_MAX_CELLS : Z :=
  LEAF_NODE_SPACE_FOR_CELLS / LEAF_NODE_CELL_SIZE.

Definition LEAF_NODE_RIGHT_SPLIT_COUNT : Z := (LEAF_NODE_MAX_CELLS + 1) / 2.
Definition LEAF_NODE_LEFT_SPLIT_COUNT : Z :=
  (LEAF_NODE_MAX_CELLS + 1) - LEAF_NODE_RIGHT_SPLIT_COUNT.

(** ** Enums *)

Inductive NodeType := INTERNAL | LEAF.

Inductive PrepareResult :=
| PREPARE_SUCCESS
| NEGATIVE_ID
| STRING_TOO_LONG
| SYNTAX_ERROR
| UNRECOGNIZED_STATEMENT.

Inductive ExecuteResult := EXECUTE_SUCCESS | TABLE_FULL | DUPLICATE_KEY.

Inductive StatementType := INSERT | SELECT.

Inductive MetaCommandResult := META_SUCCESS | UNRECOGNIZED_COMMAND.

(** ** Data objects *)

(** [Row.id] is a Python [int], hence unbounded; a Python [str] is modelled
    by a [string] whose characters are the code points 0..255. *)
Record Row := mkRow { id : Z; username : string; email : string }.

Record Statement := mkStatement {
  stmt_type : option StatementType;
  row_to_insert : option Row
}.

Abbreviation bytes := (list byte).

Record Pager := mkPager {
  file : bytes;                (* content of the backing file *)
  num_pages : Z;
  pages : gmap Z bytes         (* the page cache, a dict *)
}.

Record Table := mkTable { pager : Pager; root_page_num : Z }.

Record Cursor := mkCursor {
  page_num : Z;
  cell_num : Z;
  end_of_table : bool
}.

(** ** Bytes, slices and the [struct] codec *)

Definition byte_of_Z (z : Z) : byte :=
  match Byte.of_N (Z.to_N z) with Some b => b | None => x00 end.
Definition Z_of_byte (b : byte) : Z := Z.of_N (Byte.to_N b).

Definition blen (b : bytes) : Z := Z.of_nat (length b).

Definition zero_bytes (n : Z) : bytes := replicate (Z.to_nat n) x00.

(** Python clamps the bounds of a slice: a negative bound counts from the
    end, and the result is confined to [0, len]. *)
Definition py_clamp (len x : Z) : Z :=
  if x <? 0 then Z.max (x + len) 0 else Z.min x len.

(** [b[a:c]] *)
Definition getslice (b : bytes) (a c : Z) : bytes :=
  let a' := py_clamp (blen b) a in
  let c' := py_clamp (blen b) c in
  take (Z.to_nat (c' - a')) (drop (Z.to_nat a') b).

(** [b[a:c] = chunk] on a bytearray: the slice is replaced by the chunk
    whatever their lengths. *)
Definition setslice (b : bytes) (a c : Z) (chunk : bytes) : bytes :=
  let a' := py_clamp (blen b) a in
  let c' := py_clamp (blen b) c in
  take (Z.to_nat a') b ++ chunk ++ drop (Z.to_nat (Z.max a' c')) b.

(** Offset rule shared by [struct.pack_into] and [struct.unpack_from]: a
    negative offset counts from the end of the buffer, and the [size] bytes
    must lie inside the buffer; otherwise [struct.error]. *)
Definition struct_offset (len off size : Z) : option Z :=
  if off <? 0 then
    if (off + size >? 0) || (off + len <? 0) then None else Some (off + len)
  else if len - off <? size then None else Some off.

Definition le_bytes_of_u32 (v : Z) : bytes :=
  [byte_of_Z (v mod 256); byte_of_Z ((v / 256) mod 256);
   byte_of_Z ((v / 65536) mod 256); byte_of_Z ((v / 16777216) mod 256)].

Definition u32_of_le_bytes (l : bytes) : Z :=
  match l with
  | [b0; b1; b2; b3] =>
      Z_of_byte b0 + 256 * Z_of_byte b1 + 65536 * Z_of_byte b2
      + 16777216 * Z_of_byte b3
  | _ => 0
  end.

(** Overwrite [length chunk] bytes at a position already validated by
    [struct_offset]. *)
Definition blit (b : bytes) (pos : Z) (chunk : bytes) : bytes :=
  take (Z.to_nat pos) b ++ chunk
  ++ drop (Z.to_nat pos + length chunk) b.

(** [struct.pack_into('<I', buf, off, v)]; [None] is [struct.error]. *)
Definition pack_into_I (buf : bytes) (off v : Z) : option bytes :=
  if (v <? 0) || (4294967295 <? v) then None
  else pos ← struct_offset (blen buf) off 4;
       Some (blit buf pos (le_bytes_of_u32 v)).

(** [struct.unpack_from('<I', buf, off)[0]] *)
Definition unpack_from_I (buf : bytes) (off : Z) : option Z :=
  pos ← struct_offset (blen buf) off 4;
  Some (u32_of_le_bytes (take 4 (drop (Z.to_nat pos) buf))).

(** [struct.pack_into('B', buf, off, v)] *)
Definition pack_into_B (buf : bytes) (off v : Z) : option bytes :=
  if (v <? 0) || (255 <? v) then None
  else pos ← struct_offset (blen buf) off 1;
       Some (blit buf pos [byte_of_Z v]).

(** [struct.unpack_from('B', buf, off)[0]] *)
Definition unpack_from_B (buf : bytes) (off : Z) : option Z :=
  pos ← struct_offset (blen buf) off 1;
  match drop (Z.to_nat pos) buf with
  | b :: _ => Some (Z_of_byte b)
  | [] => None
  end.

(** The [Ns] field of [struct.pack]: truncated, or padded with NUL. *)
Definition pack_s (n : Z) (s : bytes) : bytes :=
  take (Z.to_nat n) s ++ zero_bytes (n - blen (take (Z.to_nat n) s)).

(** [struct.pack_into(ROW_STRUCT_FORMAT, buf, off, id, ub, eb)] *)
Definition pack_into_row (buf : bytes) (off v : Z) (ub eb : bytes)
  : option bytes :=
  if (v <? 0) || (4294967295 <? v) then None
  else pos ← struct_offset (blen buf) off ROW_SIZE;
       Some (blit buf pos (le_bytes_of_u32 v
                           ++ pack_s COLUMN_USERNAME_SIZE ub
                           ++ pack_s COLUMN_EMAIL_SIZE eb)).

(** [struct.unpack(ROW_STRUCT_FORMAT, data)]: the buffer must have exactly
    [ROW_SIZE] bytes. *)
Definition unpack_row (data : bytes) : option (Z * bytes * bytes) :=
  if blen data =? ROW_SIZE then
    Some (u32_of_le_bytes (take 4 data),
          take (Z.to_nat COLUMN_USERNAME_SIZE) (drop 4 data),
          take (Z.to_nat COLUMN_EMAIL_SIZE)
               (drop (4 + Z.to_nat COLUMN_USERNAME_SIZE) data))
  else None.

(** ** Strings *)

Definition chars (s : string) : list ascii := list_ascii_of_string s.

Definition is_ascii_char (c : ascii) : bool := (N_of_ascii c <? 128)%N.

(** [s.encode('ascii')]; [None] is [UnicodeEncodeError]. *)
Definition encode_ascii (s : string) : option bytes :=
  if forallb is_ascii_char (chars s)
  then Some (map byte_of_ascii (chars s)) else None.

(** [b.decode('ascii')]; [None] is [UnicodeDecodeError]. *)
Definition decode_ascii (b : bytes) : option string :=
  if forallb (fun x => (Byte.to_N x <? 128)%N) b
  then Some (string_of_list_ascii (map ascii_of_byte b)) else None.

Fixpoint rstrip_nul_chars (l : list ascii) : list ascii :=
  match l with
  | [] => []
  | c :: l' =>
      match rstrip_nul_chars l' with
      | [] => if Ascii.eqb c zero then [] else [c]
      | r => c :: r
      end
  end.

(** [s.rstrip('\x00')] *)
Definition rstrip_nul (s : string) : string :=
  string_of_list_ascii (rstrip_nul_chars (chars s)).

(** ** Effects

    A computation runs on the table (the module-level [table] of the
    source, which is also the [table] argument every function receives)
    and either returns a value and the new table, or stops the process. *)

Inductive py_exception :=
| StructError | UnicodeEncodeError | UnicodeDecodeError | OSError | ValueError
| AttributeError.

Inductive outcome (A : Type) :=
| Ok (a : A) (t : Table)
| Fatal                                  (* diagnostic, then [sys.exit(1)] *)
| Raise (e : py_exception) (fn : string) (* unhandled exception raised in [fn] *)
| Exit0 (t : Table)                      (* [sys.exit(0)] *)
| OutOfFuel                              (* the model's recursion budget ran out *)
| Unbound.                               (* a page variable used before [get_page] bound it *)
Arguments Ok {A} a t.
Arguments Fatal {A}.
Arguments Raise {A} e fn.
Arguments Exit0 {A} t.
Arguments OutOfFuel {A}.
Arguments Unbound {A}.

Definition M (A : Type) : Type := Table → outcome A.

#[export] Instance M_ret : MRet M := λ A a t, Ok a t.
#[export] Instance M_bind : MBind M := λ A B f m t,
  match m t with
  | Ok a t' => f a t'
  | Fatal => Fatal
  | Raise e fn => Raise e fn
  | Exit0 t' => Exit0 t'
  | OutOfFuel => OutOfFuel
  | Unbound => Unbound
  end.

Definition fatal {A} : M A := λ _, Fatal.
Definition raise {A} (e : py_exception) (fn : string) : M A := λ _, Raise e fn.
Definition out_of_fuel {A} : M A := λ _, OutOfFuel.
Definition exit0 {A} : M A := λ t, Exit0 t.

(** [for x in l: body(x)] *)
Fixpoint for_each {A} (l : list A) (body : A → M unit) : M unit :=
  match l with
  | [] => mret ()
  | x :: l' => body x;; for_each l' body
  end.

(** The same loop when the body updates a local variable. *)
Fixpoint for_fold {A S} (l : list A) (acc : S) (body : A → S → M S) : M S :=
  match l with
  | [] => mret acc
  | x :: l' => acc' ← body x acc; for_fold l' acc' body
  end.

(** [range(n)] and [range(a, b, -1)] *)
Definition py_range (n : Z) : list Z := seqZ 0 n.
Definition py_range_down (a b : Z) : list Z := (λ k, a - k) <$> seqZ 0 (a - b).

(** The buffer cached under a page number (empty when there is none). *)
Definition page_bytes (t : Table) (node : Z) : bytes :=
  default [] (pages (pager t) !! node).

(** The table with buffer [b] cached under page number [node]. *)
Definition set_page (t : Table) (node : Z) (b : bytes) : Table :=
  let p := pager t in
  mkTable (mkPager (file p) (num_pages p) (<[node := b]> (pages p)))
          (root_page_num t).

(** The buffer a page variable is bound to.  Every page variable of the
    source is bound by [get_page], which caches the buffer first; the
    outcome [Unbound] marks a use outside that discipline and is never
    produced by the functions below. *)
Definition buf (node : Z) : M bytes := λ t,
  match pages (pager t) !! node with
  | Some b => Ok b t
  | None => Unbound
  end.

(** Replacing the content of a bound buffer in place. *)
Definition set_buf (node : Z) (b : bytes) : M unit := λ t,
  match pages (pager t) !! node with
  | Some _ => Ok () (set_page t node b)
  | None => Unbound
  end.

(** In-place update of a buffer by a [struct] or slice operation;
    [fn] names the source function performing it. *)
Definition update_buf (fn : string) (node : Z) (f : bytes → option bytes)
  : M unit :=
  b ← buf node;
  match f b with
  | Some b' => set_buf node b'
  | None => raise StructError fn
  end.

Definition read_buf {A} (fn : string) (node : Z) (f : bytes → option A) : M A :=
  b ← buf node;
  match f b with
  | Some v => mret v
  | None => raise StructError fn
  end.

(** ** Pager *)

(** [Pager.__init__] on a file with the given content (a missing file is
    created empty); [None] is the fatal "Corrupt file" exit. *)
Definition Pager_init (content : bytes) : option Pager :=
  let file_length := blen content in
  if negb (file_length mod PAGE_SIZE =? 0) then None
  else Some (mkPager content (file_length / PAGE_SIZE) ∅).

(** [file.seek(pos); file.read(n)] *)
Definition file_read (f : bytes) (pos n : Z) : bytes :=
  take (Z.to_nat n) (drop (Z.to_nat pos) f).

(** [file.seek(pos); file.write(data)]: a gap past the end reads as zeros. *)
Definition file_write (f : bytes) (pos : Z) (data : bytes) : bytes :=
  let f' := f ++ zero_bytes (pos - blen f) in
  take (Z.to_nat pos) f' ++ data ++ drop (Z.to_nat pos + length data) f'.

(** The buffer [get_page] builds on a cache miss: zero-filled, then
    overlaid with what the file holds for that page when the page number
    is below [num_pages]. *)
Definition miss_page (p : Pager) (page_num : Z) : bytes :=
  let page := zero_bytes PAGE_SIZE in
  if page_num <? num_pages p then
    let bytes_read := file_read (file p) (page_num * PAGE_SIZE) PAGE_SIZE in
    setslice page 0 (blen bytes_read) bytes_read
  else page.

Definition get_page (page_num : Z) : M Z := λ t,
  let p := pager t in
  if page_num >? TABLE_MAX_PAGES then Fatal
  else match pages p !! page_num with
  | Some _ => Ok page_num t
  | None =>
      if (page_num <? num_pages p) && (page_num <? 0)
      then Raise OSError "get_page"      (* seek to a negative position *)
      else
        let page := miss_page p page_num in
        let num_pages' :=
          if page_num >=? num_pages p then page_num + 1 else num_pages p in
        Ok page_num
           (mkTable (mkPager (file p) num_pages' (<[page_num := page]> (pages p)))
                    (root_page_num t))
  end.

Definition flush (page_num : Z) : M unit := λ t,
  let p := pager t in
  match pages p !! page_num with
  | None => Fatal
  | Some page =>
      if page_num <? 0 then Raise OSError "flush"
      else Ok () (mkTable (mkPager (file_write (file p) (page_num * PAGE_SIZE) page)
                                   (num_pages p) (pages p))
                          (root_page_num t))
  end.

Definition get_unused_page_num : M Z := λ t, Ok (num_pages (pager t)) t.

Definition get_root_page_num : M Z := λ t, Ok (root_page_num t) t.

(** ** Serialization *)

Definition serialize_row (row : Row) (page : Z) (offset : Z) : M unit :=
  match encode_ascii (username row) with
  | None => raise UnicodeEncodeError "serialize_row"
  | Some username_bytes =>
      match encode_ascii (email row) with
      | None => raise UnicodeEncodeError "serialize_row"
      | Some email_bytes =>
          update_buf "serialize_row" page
            (λ b, pack_into_row b offset (id row) username_bytes email_bytes)
      end
  end.

Inductive py_result (A : Type) := Returns (a : A) | Raises (e : py_exception).
Arguments Returns {A} a.
Arguments Raises {A} e.

Definition deserialize_row (data : bytes) : py_result Row :=
  match unpack_row data with
  | None => Raises StructError
  | Some (i, ub, eb) =>
      match decode_ascii ub with
      | None => Raises UnicodeDecodeError
      | Some u =>
          match decode_ascii eb with
          | None => Raises UnicodeDecodeError
          | Some e => Returns (mkRow i (rstrip_nul u) (rstrip_nul e))
          end
      end
  end.

(** ** Common node accessors *)

Definition get_node_type (node : Z) : M NodeType :=
  v ← read_buf "get_node_type" node (λ b, unpack_from_B b NODE_TYPE_OFFSET);
  if v =? 0 then mret INTERNAL
  else if v =? 1 then mret LEAF
  else raise ValueError "get_node_type".

Definition NodeType_value (ty : NodeType) : Z :=
  match ty with INTERNAL => 0 | LEAF => 1 end.

Definition set_node_type (node : Z) (node_type : NodeType) : M unit :=
  update_buf "set_node_type" node
    (λ b, pack_into_B b NODE_TYPE_OFFSET (NodeType_value node_type)).

Definition is_node_root (node : Z) : M bool :=
  v ← read_buf "is_node_root" node (λ b, unpack_from_B b IS_ROOT_OFFSET);
  mret (negb (v =? 0)).

Definition set_node_root (node : Z) (is_root : bool) : M unit :=
  let val := if is_root then 1 else 0 in
  update_buf "set_node_root" node (λ b, pack_into_B b IS_ROOT_OFFSET val).

Definition node_parent (node : Z) : M Z :=
  read_buf "node_parent" node (λ b, unpack_from_I b PARENT_POINTER_OFFSET).

Definition set_node_parent (node : Z) (parent_page_num : Z) : M unit :=
  update_buf "set_node_parent" node
    (λ b, pack_into_I b PARENT_POINTER_OFFSET parent_page_num).

(** ** Leaf node accessors *)

Definition leaf_node_num_cells (node : Z) : M Z :=
  read_buf "leaf_node_num_cells" node
    (λ b, unpack_from_I b LEAF_NODE_NUM_CELLS_OFFSET).

Definition set_leaf_node_num_cells (node : Z) (num : Z) : M unit :=
  update_buf "set_leaf_node_num_cells" node
    (λ b, pack_into_I b LEAF_NODE_NUM_CELLS_OFFSET num).

Definition leaf_node_next_leaf (node : Z) : M Z :=
  read_buf "leaf_node_next_leaf" node
    (λ b, unpack_from_I b LEAF_NODE_NEXT_LEAF_OFFSET).

Definition set_leaf_node_next_leaf (node : Z) (next_leaf : Z) : M unit :=
  update_buf "set_leaf_node_next_leaf" node
    (λ b, pack_into_I b LEAF_NODE_NEXT_LEAF_OFFSET next_leaf).

Definition initialize_leaf_node (node : Z) : M unit :=
  set_node_type node LEAF;;
  set_node_root node false;;
  set_leaf_node_num_cells node 0;;
  set_leaf_node_next_leaf node 0.

Definition leaf_node_cell_offset (cell_num : Z) : Z :=
  LEAF_NODE_HEADER_SIZE + cell_num * LEAF_NODE_CELL_SIZE.

Definition leaf_node_key (node : Z) (cell_num : Z) : M Z :=
  let offset := leaf_node_cell_offset cell_num in
  read_buf "leaf_node_key" node (λ b, unpack_from_I b offset).

Definition set_leaf_node_key (node : Z) (cell_num key : Z) : M unit :=
  let offset := leaf_node_cell_offset cell_num in
  update_buf "set_leaf_node_key" node (λ b, pack_into_I b offset key).

Definition leaf_node_value_offset (cell_num : Z) : Z :=
  leaf_node_cell_offset cell_num + LEAF_NODE_KEY_SIZE.

(** ** Internal node accessors *)

Definition internal_node_num_keys (node : Z) : M Z :=
  read_buf "internal_node_num_keys" node
    (λ b, unpack_from_I b INTERNAL_NODE_NUM_KEYS_OFFSET).

Definition set_internal_node_num_keys (node : Z) (num : Z) : M unit :=
  update_buf "set_internal_node_num_keys" node
    (λ b, pack_into_I b INTERNAL_NODE_NUM_KEYS_OFFSET num).

Definition internal_node_right_child (node : Z) : M Z :=
  read_buf "internal_node_right_child" node
    (λ b, unpack_from_I b INTERNAL_NODE_RIGHT_CHILD_OFFSET).

Definition set_internal_node_right_child (node : Z) (right_child : Z) : M unit :=
  update_buf "set_internal_node_right_child" node
    (λ b, pack_into_I b INTERNAL_NODE_RIGHT_CHILD_OFFSET right_child).

Definition initialize_internal_node (node : Z) : M unit :=
  set_node_type node INTERNAL;;
  set_node_root node false;;
  set_internal_node_num_keys node 0;;
  set_internal_node_right_child node INVALID_PAGE_NUM.

Definition internal_node_cell_offset (cell_num : Z) : Z :=
  INTERNAL_NODE_HEADER_SIZE + cell_num * INTERNAL_NODE_CELL_SIZE.

Definition internal_node_child (node : Z) (child_num : Z) : M Z :=
  num_keys ← internal_node_num_keys node;
  if child_num >? num_keys then fatal
  else if child_num =? num_keys then internal_node_right_child node
  else
    let offset := internal_node_cell_offset child_num in
    read_buf "internal_node_child" node (λ b, unpack_from_I b offset).

Definition set_internal_node_child (node : Z) (child_num child_page_num : Z)
  : M unit :=
  num_keys ← internal_node_num_keys node;
  if child_num =? num_keys then set_internal_node_right_child node child_page_num
  else
    let offset := internal_node_cell_offset child_num in
    update_buf "set_internal_node_child" node
      (λ b, pack_into_I b offset child_page_num).

Definition internal_node_key (node : Z) (key_num : Z) : M Z :=
  let offset := internal_node_cell_offset key_num + INTERNAL_NODE_CHILD_SIZE in
  read_buf "internal_node_key" node (λ b, unpack_from_I b offset).

Definition set_internal_node_key (node : Z) (key_num key : Z) : M unit :=
  let offset := internal_node_cell_offset key_num + INTERNAL_NODE_CHILD_SIZE in
  update_buf "set_internal_node_key" node (λ b, pack_into_I b offset key).

(** [get_node_max_key] follows right children down to a leaf; [d] bounds
    the depth of that descent. *)
Fixpoint get_node_max_key (d : nat) (node : Z) : M Z :=
  match d with
  | O => out_of_fuel
  | S d' =>
      ty ← get_node_type node;
      match ty with
      | LEAF =>
          n ← leaf_node_num_cells node;
          leaf_node_key node (n - 1)
      | INTERNAL =>
          right_child_page ← internal_node_right_child node;
          right_child_node ← get_page right_child_page;
          get_node_max_key d' right_child_node
      end
  end.

(** ** B-tree logic *)

(** The two binary searches are [while] loops over an interval that at
    least halves at every round; the interval is shorter than [2^32]
    because its bound is read from an unsigned 32-bit field. *)
Definition search_fuel : nat := 33.

Fixpoint find_child_loop (fuel : nat) (node key min_idx max_idx : Z) : M Z :=
  match fuel with
  | O => out_of_fuel
  | S fuel' =>
      if negb (min_idx =? max_idx) then
        let index := (min_idx + max_idx) / 2 in
        key_to_right ← internal_node_key node index;
        if key_to_right >=? key
        then find_child_loop fuel' node key min_idx index
        else find_child_loop fuel' node key (index + 1) max_idx
      else mret min_idx
  end.

Definition internal_node_find_child (node key : Z) : M Z :=
  num_keys ← internal_node_num_keys node;
  find_child_loop search_fuel node key 0 num_keys.

Fixpoint leaf_find_loop (fuel : nat) (node key min_idx one_past_max : Z) : M Z :=
  match fuel with
  | O => out_of_fuel
  | S fuel' =>
      if negb (one_past_max =? min_idx) then
        let index := (min_idx + one_past_max) / 2 in
        key_at_index ← leaf_node_key node index;
        if key =? key_at_index then mret index
        else if key <? key_at_index
        then leaf_find_loop fuel' node key min_idx index
        else leaf_find_loop fuel' node key (index + 1) one_past_max
      else mret min_idx
  end.

Definition leaf_node_find (page_num key : Z) : M Cursor :=
  node ← get_page page_num;
  num_cells ← leaf_node_num_cells node;
  cell ← leaf_find_loop search_fuel node key 0 num_cells;
  mret (mkCursor page_num cell false).

Fixpoint internal_node_find (d : nat) (page_num key : Z) : M Cursor :=
  match d with
  | O => out_of_fuel
  | S d' =>
      node ← get_page page_num;
      child_index ← internal_node_find_child node key;
      child_num ← internal_node_child node child_index;
      child ← get_page child_num;
      ty ← get_node_type child;
      match ty with
      | LEAF => leaf_node_find child_num key
      | INTERNAL => internal_node_find d' child_num key
      end
  end.

Definition table_find (d : nat) (key : Z) : M Cursor :=
  root_page_num ← get_root_page_num;
  root_node ← get_page root_page_num;
  ty ← get_node_type root_node;
  match ty with
  | LEAF => leaf_node_find root_page_num key
  | INTERNAL => internal_node_find d root_page_num key
  end.

Definition create_new_root (d : nat) (right_child_page_num : Z) : M unit :=
  root_page_num ← get_root_page_num;
  root ← get_page root_page_num;
  right_child ← get_page right_child_page_num;
  left_child_page_num ← get_unused_page_num;
  left_child ← get_page left_child_page_num;
  ty ← get_node_type root;
  match ty with
  | INTERNAL =>
      initialize_internal_node right_child;;
      initialize_internal_node left_child
  | LEAF => mret ()
  end;;
  (* left_child[:] = root[:] *)
  root_bytes ← buf root;
  set_buf left_child root_bytes;;
  set_node_root left_child false;;
  ty_left ← get_node_type left_child;
  match ty_left with
  | INTERNAL =>
      n ← internal_node_num_keys left_child;
      for_each (py_range n) (λ i,
        child_page_num ← internal_node_child left_child i;
        child_node ← get_page child_page_num;
        set_node_parent child_node left_child_page_num);;
      right_child_of_left ← internal_node_right_child left_child;
      child_node ← get_page right_child_of_left;
      set_node_parent child_node left_child_page_num
  | LEAF => mret ()
  end;;
  initialize_internal_node root;;
  set_node_root root true;;
  set_internal_node_num_keys root 1;;
  set_internal_node_child root 0 left_child_page_num;;
  left_child_max ← get_node_max_key d left_child;
  set_internal_node_key root 0 left_child_max;;
  set_internal_node_right_child root right_child_page_num;;
  set_node_parent left_child root_page_num;;
  set_node_parent right_child root_page_num.

Definition update_internal_node_key (node old_key new_key : Z) : M unit :=
  old_child_index ← internal_node_find_child node old_key;
  set_internal_node_key node old_child_index new_key.

(** [internal_node_split_and_insert], with the calls it makes back to
    [internal_node_insert] taken as the argument [insert]. *)
Definition internal_node_split_and_insert_with
    (insert : Z → Z → M unit) (d : nat)
    (parent_page_num child_page_num : Z) : M unit :=
  let old_page_num := parent_page_num in
  old_node ← get_page parent_page_num;
  old_max ← get_node_max_key d old_node;
  child ← get_page child_page_num;
  child_max ← get_node_max_key d child;
  new_page_num ← get_unused_page_num;
  splitting_root ← is_node_root old_node;
  '(parent, old_page_num, old_node) ←
    (if splitting_root : bool then
       create_new_root d new_page_num;;
       root_page_num ← get_root_page_num;
       parent ← get_page root_page_num;
       old_page_num ← internal_node_child parent 0;
       old_node ← get_page old_page_num;
       mret (parent, old_page_num, old_node)
     else
       parent_page ← node_parent old_node;
       parent ← get_page parent_page;
       new_node ← get_page new_page_num;
       initialize_internal_node new_node;;
       mret (parent, old_page_num, old_node));
  old_num_keys ← internal_node_num_keys old_node;
  cur_page_num ← internal_node_right_child old_node;
  cur ← get_page cur_page_num;
  (* First put right child into new node *)
  insert new_page_num cur_page_num;;
  set_node_parent cur new_page_num;;
  set_internal_node_right_child old_node INVALID_PAGE_NUM;;
  (* Move upper half of keys to new node *)
  old_num_keys ←
    for_fold (py_range_down (INTERNAL_NODE_MAX_KEYS - 1) (INTERNAL_NODE_MAX_KEYS / 2))
      old_num_keys
      (λ i old_num_keys,
        cur_page_num ← internal_node_child old_node i;
        cur ← get_page cur_page_num;
        insert new_page_num cur_page_num;;
        set_node_parent cur new_page_num;;
        let old_num_keys := old_num_keys - 1 in
        set_internal_node_num_keys old_node old_num_keys;;
        mret old_num_keys);
  new_right ← internal_node_child old_node (old_num_keys - 1);
  set_internal_node_right_child old_node new_right;;
  let old_num_keys := old_num_keys - 1 in
  set_internal_node_num_keys old_node old_num_keys;;
  max_after_split ← get_node_max_key d old_node;
  let dest_page_num :=
    if child_max <? max_after_split then old_page_num else new_page_num in
  insert dest_page_num child_page_num;;
  set_node_parent child dest_page_num;;
  new_old_max ← get_node_max_key d old_node;
  update_internal_node_key parent old_max new_old_max;;
  if negb splitting_root then
    grandparent ← node_parent old_node;
    insert grandparent new_page_num;;
    new_node ← get_page new_page_num;
    new_parent ← node_parent old_node;
    set_node_parent new_node new_parent
  else mret ().

(** [fuel] bounds the depth of the mutual recursion between
    [internal_node_insert] and [internal_node_split_and_insert]. *)
Fixpoint internal_node_insert (d fuel : nat) (parent_page_num child_page_num : Z)
  : M unit :=
  match fuel with
  | O => out_of_fuel
  | S fuel' =>
      parent ← get_page parent_page_num;
      child ← get_page child_page_num;
      child_max_key ← get_node_max_key d child;
      index ← internal_node_find_child parent child_max_key;
      original_num_keys ← internal_node_num_keys parent;
      if original_num_keys >=? INTERNAL_NODE_MAX_KEYS then
        internal_node_split_and_insert_with (internal_node_insert d fuel') d
          parent_page_num child_page_num
      else
        right_child_page_num ← internal_node_right_child parent;
        if right_child_page_num =? INVALID_PAGE_NUM then
          set_internal_node_right_child parent child_page_num
        else
          right_child ← get_page right_child_page_num;
          set_internal_node_num_keys parent (original_num_keys + 1);;
          right_max ← get_node_max_key d right_child;
          if child_max_key >? right_max then
            (* Replace right child *)
            set_internal_node_child parent original_num_keys right_child_page_num;;
            right_max' ← get_node_max_key d right_child;
            set_internal_node_key parent original_num_keys right_max';;
            set_internal_node_right_child parent child_page_num
          else
            (* Make room for new cell *)
            for_each (py_range_down original_num_keys index) (λ i,
              let src_off := internal_node_cell_offset (i - 1) in
              let dest_off := internal_node_cell_offset i in
              b ← buf parent;
              let chunk := getslice b src_off (src_off + INTERNAL_NODE_CELL_SIZE) in
              set_buf parent
                (setslice b dest_off (dest_off + INTERNAL_NODE_CELL_SIZE) chunk));;
            set_internal_node_child parent index child_page_num;;
            set_internal_node_key parent index child_max_key
  end.

Definition internal_node_split_and_insert (d fuel : nat)
    (parent_page_num child_page_num : Z) : M unit :=
  internal_node_split_and_insert_with (internal_node_insert d fuel) d
    parent_page_num child_page_num.

(** Lines 501-536 of [leaf_node_split_and_insert]: allocate the sibling,
    splice it into the leaf chain and distribute the cells.  Returns the
    values of [old_node], [old_max] and [new_page_num]. *)
Definition leaf_node_split_cells (d : nat) (cursor : Cursor) (key : Z) (value : Row)
  : M (Z * Z * Z) :=
  old_node ← get_page (page_num cursor);
  old_max ← get_node_max_key d old_node;
  new_page_num ← get_unused_page_num;
  new_node ← get_page new_page_num;
  initialize_leaf_node new_node;;
  old_parent ← node_parent old_node;
  set_node_parent new_node old_parent;;
  old_next ← leaf_node_next_leaf old_node;
  set_leaf_node_next_leaf new_node old_next;;
  set_leaf_node_next_leaf old_node new_page_num;;
  (* Split cells *)
  for_each (py_range_down LEAF_NODE_MAX_CELLS (-1)) (λ i,
    let destination_node :=
      if i >=? LEAF_NODE_LEFT_SPLIT_COUNT then new_node else old_node in
    let index_within := i mod LEAF_NODE_LEFT_SPLIT_COUNT in
    let dest_off := leaf_node_cell_offset index_within in
    if i =? cell_num cursor then
      (* Insert new value *)
      update_buf "leaf_node_split_and_insert" destination_node
        (λ b, pack_into_I b dest_off key);;
      serialize_row value destination_node (dest_off + LEAF_NODE_KEY_SIZE)
    else
      let src_off :=
        if i >? cell_num cursor then leaf_node_cell_offset (i - 1)
        else leaf_node_cell_offset i in
      old_bytes ← buf old_node;
      let chunk := getslice old_bytes src_off (src_off + LEAF_NODE_CELL_SIZE) in
      dest_bytes ← buf destination_node;
      set_buf destination_node
        (setslice dest_bytes dest_off (dest_off + LEAF_NODE_CELL_SIZE) chunk));;
  set_leaf_node_num_cells old_node LEAF_NODE_LEFT_SPLIT_COUNT;;
  set_leaf_node_num_cells new_node LEAF_NODE_RIGHT_SPLIT_COUNT;;
  mret (old_node, old_max, new_page_num).

(** Lines 538-546: link the new sibling into the tree. *)
Definition leaf_node_split_link (d fuel : nat) (old_node old_max new_page_num : Z)
  : M unit :=
  is_root ← is_node_root old_node;
  if is_root : bool then create_new_root d new_page_num
  else
    parent_page_num ← node_parent old_node;
    new_max ← get_node_max_key d old_node;
    parent ← get_page parent_page_num;
    update_internal_node_key parent old_max new_max;;
    internal_node_insert d fuel parent_page_num new_page_num.

Definition leaf_node_split_and_insert (d fuel : nat)
    (cursor : Cursor) (key : Z) (value : Row) : M unit :=
  '(old_node, old_max, new_page_num) ← leaf_node_split_cells d cursor key value;
  leaf_node_split_link d fuel old_node old_max new_page_num.

Definition leaf_node_insert (d fuel : nat) (cursor : Cursor) (key : Z) (value : Row)
  : M unit :=
  node ← get_page (page_num cursor);
  num_cells ← leaf_node_num_cells node;
  if num_cells >=? LEAF_NODE_MAX_CELLS then
    leaf_node_split_and_insert d fuel cursor key value
  else
    (if cell_num cursor <? num_cells then
       (* Shift cells right *)
       for_each (py_range_down num_cells (cell_num cursor)) (λ i,
         let src_off := leaf_node_cell_offset (i - 1) in
         let dest_off := leaf_node_cell_offset i in
         b ← buf node;
         let chunk := getslice b src_off (src_off + LEAF_NODE_CELL_SIZE) in
         set_buf node (setslice b dest_off (dest_off + LEAF_NODE_CELL_SIZE) chunk))
     else mret ());;
    set_leaf_node_num_cells node (num_cells + 1);;
    set_leaf_node_key node (cell_num cursor) key;;
    serialize_row value node (leaf_node_value_offset (cell_num cursor)).

(** ** Application logic *)

Definition table_start (d : nat) : M Cursor :=
  cursor ← table_find d 0;
  node ← get_page (page_num cursor);
  num_cells ← leaf_node_num_cells node;
  mret (mkCursor (page_num cursor) (cell_num cursor) (num_cells =? 0)).

Definition cursor_advance (cursor : Cursor) : M Cursor :=
  node ← get_page (page_num cursor);
  let cursor := mkCursor (page_num cursor) (cell_num cursor + 1)
                         (end_of_table cursor) in
  num_cells ← leaf_node_num_cells node;
  if cell_num cursor >=? num_cells then
    next_page ← leaf_node_next_leaf node;
    if next_page =? 0
    then mret (mkCursor (page_num cursor) (cell_num cursor) true)
    else mret (mkCursor next_page 0 (end_of_table cursor))
  else mret cursor.

Definition execute_insert (d fuel : nat) (statement : Statement)
  : M ExecuteResult :=
  match row_to_insert statement with
  | None => raise AttributeError "execute_insert"  (* [row] is [None] *)
  | Some row =>
      let key := id row in
      cursor ← table_find d key;
      node ← get_page (page_num cursor);
      num_cells ← leaf_node_num_cells node;
      duplicate ←
        (if cell_num cursor <? num_cells then
           key_at_index ← leaf_node_key node (cell_num cursor);
           mret (key_at_index =? key)
         else mret false);
      if duplicate : bool then mret DUPLICATE_KEY
      else
        leaf_node_insert d fuel cursor key row;;
        mret EXECUTE_SUCCESS
  end.

(** The [while not cursor.end_of_table] loop of [execute_select]; [n]
    bounds the number of rounds.  Returns the rows handed to [print]. *)
Fixpoint select_loop (n : nat) (cursor : Cursor) : M (list Row) :=
  match n with
  | O => out_of_fuel
  | S n' =>
      if negb (end_of_table cursor) then
        node ← get_page (page_num cursor);
        b ← buf node;
        let data := getslice b (leaf_node_value_offset (cell_num cursor))
                      (leaf_node_value_offset (cell_num cursor) + ROW_SIZE) in
        match deserialize_row data with
        | Raises e => raise e "deserialize_row"
        | Returns row =>
            cursor ← cursor_advance cursor;
            rows ← select_loop n' cursor;
            mret (row :: rows)
        end
      else mret []
  end.

Definition execute_select_rows (d n : nat) : M (list Row) :=
  cursor ← table_start d;
  select_loop n cursor.


(** [str(n)] for an integer. *)
Definition str_of_Z (z : Z) : string :=
  DecimalString.NilZero.string_of_int (Z.to_int z).

(** [Row.__repr__] *)
Definition Row_repr (r : Row) : string :=
  "(" +:+ str_of_Z (id r) +:+ ", " +:+ username r +:+ ", " +:+ email r +:+ ")".

(** [execute_select]: returns the lines printed and the result. *)
Definition execute_select (d n : nat) : M (list string * ExecuteResult) :=
  rows ← execute_select_rows d n;
  mret (Row_repr <$> rows, EXECUTE_SUCCESS).

(** [execute_statement] returns [None] when the statement has no type. *)
Definition execute_statement (d fuel n : nat) (statement : Statement)
  : M (list string * option ExecuteResult) :=
  match stmt_type statement with
  | Some INSERT => r ← execute_insert d fuel statement; mret ([], Some r)
  | Some SELECT => '(out, r) ← execute_select d n; mret (out, Some r)
  | None => mret ([], None)
  end.

(** [Table.__init__] on a database file with the given content. *)
Definition Table_init (content : bytes) : outcome unit :=
  match Pager_init content with
  | None => Fatal
  | Some p =>
      let t := mkTable p 0 in
      if num_pages p =? 0 then
        (root_node ← get_page 0;
         initialize_leaf_node root_node;;
         set_node_root root_node true) t
      else Ok () t
  end.

Definition del_page (page_num : Z) : M unit := λ t,
  let p := pager t in
  Ok () (mkTable (mkPager (file p) (num_pages p) (delete page_num (pages p)))
                 (root_page_num t)).

Definition is_cached (page_num : Z) : M bool := λ t,
  Ok (bool_decide (is_Some (pages (pager t) !! page_num))) t.

(** [Table.close] *)
Definition Table_close : M unit :=
  n ← get_unused_page_num;
  for_each (py_range n) (λ i,
    cached ← is_cached i;
    if cached : bool then flush i;; del_page i else mret ()).

(** ** CLI and debugging *)

Fixpoint str_repeat (s : string) (n : nat) : string :=
  match n with O => "" | S n' => s +:+ str_repeat s n' end.

Definition indent (level : Z) : string := str_repeat "  " (Z.to_nat level).

(** [for i in l: out += body(i)] for loops that only print. *)
Fixpoint for_lines {A} (l : list A) (body : A → M (list string))
  : M (list string) :=
  match l with
  | [] => mret []
  | x :: l' => o ← body x; os ← for_lines l' body; mret (o ++ os)
  end.

(** [print_tree]: returns the lines printed; [d] bounds the depth. *)
Fixpoint print_tree (d : nat) (page_num indentation_level : Z)
  : M (list string) :=
  match d with
  | O => out_of_fuel
  | S d' =>
      node ← get_page page_num;
      ty ← get_node_type node;
      match ty with
      | LEAF =>
          num_keys ← leaf_node_num_cells node;
          keys ← for_lines (py_range num_keys) (λ i,
            k ← leaf_node_key node i;
            mret [indent (indentation_level + 1) +:+ "- " +:+ str_of_Z k]);
          mret ((indent indentation_level +:+ "- leaf (size "
                 +:+ str_of_Z num_keys +:+ ")") :: keys)
      | INTERNAL =>
          num_keys ← internal_node_num_keys node;
          let head := indent indentation_level +:+ "- internal (size "
                      +:+ str_of_Z num_keys +:+ ")" in
          if num_keys >? 0 then
            body ← for_lines (py_range num_keys) (λ i,
              child ← internal_node_child node i;
              sub ← print_tree d' child (indentation_level + 1);
              k ← internal_node_key node i;
              mret (sub ++ [indent (indentation_level + 1) +:+ "- key "
                            +:+ str_of_Z k]));
            child ← internal_node_right_child node;
            sub ← print_tree d' child (indentation_level + 1);
            mret (head :: body ++ sub)
          else mret [head]
      end
  end.

Definition print_constants : list string :=
  ["ROW_SIZE: " +:+ str_of_Z ROW_SIZE;
   "COMMON_NODE_HEADER_SIZE: " +:+ str_of_Z COMMON_NODE_HEADER_SIZE;
   "LEAF_NODE_HEADER_SIZE: " +:+ str_of_Z LEAF_NODE_HEADER_SIZE;
   "LEAF_NODE_CELL_SIZE: " +:+ str_of_Z LEAF_NODE_CELL_SIZE;
   "LEAF_NODE_SPACE_FOR_CELLS: " +:+ str_of_Z LEAF_NODE_SPACE_FOR_CELLS;
   "LEAF_NODE_MAX_CELLS: " +:+ str_of_Z LEAF_NODE_MAX_CELLS].

Definition do_meta_command (d : nat) (user_input : string)
  : M (list string * MetaCommandResult) :=
  if String.eqb user_input ".exit" then
    Table_close;; exit0
  else if String.eqb user_input ".btree" then
    lines ← print_tree d 0 0;
    mret ("Tree:" :: lines, META_SUCCESS)
  else if String.eqb user_input ".constants" then
    mret ("Constants:" :: print_constants, META_SUCCESS)
  else mret ([], UNRECOGNIZED_COMMAND).

(** *** The statement parser *)

(** Whitespace as [str.split()] sees it, among the code points 0..255. *)
Definition is_space (c : ascii) : bool :=
  let n := N_of_ascii c in
  ((9 <=? n) && (n <=? 13) || (28 <=? n) && (n <=? 32)
   || (n =? 133) || (n =? 160))%N.

Fixpoint split_chars (cur : option (list ascii)) (l : list ascii) : list string :=
  match l with
  | [] =>
      match cur with
      | Some w => [string_of_list_ascii (rev w)]
      | None => []
      end
  | c :: l' =>
      if is_space c then
        match cur with
        | Some w => string_of_list_ascii (rev w) :: split_chars None l'
        | None => split_chars None l'
        end
      else split_chars (Some (c :: default [] cur)) l'
  end.

(** [s.split()] *)
Definition py_split (s : string) : list string := split_chars None (chars s).

Definition is_digit (c : ascii) : bool :=
  let n := N_of_ascii c in ((48 <=? n) && (n <=? 57))%N.

Definition digit_value (c : ascii) : Z := Z.of_N (N_of_ascii c) - 48.

(** Decimal digits, with single underscores allowed between digits. *)
Fixpoint parse_digits (acc : Z) (after_digit : bool) (l : list ascii) : option Z :=
  match l with
  | [] => if after_digit then Some acc else None
  | c :: l' =>
      if is_digit c then parse_digits (10 * acc + digit_value c) true l'
      else if Ascii.eqb c "_" then
        if after_digit then parse_digits acc false l' else None
      else None
  end.

(** [int(s)] on a token without whitespace; [None] is [ValueError]. *)
Definition py_int (s : string) : option Z :=
  match chars s with
  | "-"%char :: l => Z.opp <$> parse_digits 0 false l
  | "+"%char :: l => parse_digits 0 false l
  | l => parse_digits 0 false l
  end.

(** [len(s)] *)
Definition py_len (s : string) : Z := Z.of_nat (String.length s).

Definition nth_part (parts : list string) (i : nat) : string :=
  default "" (parts !! i).

(** [prepare_statement] returns its result and the statement as it leaves
    it. *)
Definition prepare_statement (user_input : string) (statement : Statement)
  : PrepareResult * Statement :=
  if String.prefix "insert" user_input then
    let statement := mkStatement (Some INSERT) (row_to_insert statement) in
    let parts := py_split user_input in
    if negb (Z.of_nat (length parts) =? 4) then (SYNTAX_ERROR, statement)
    else
      match py_int (nth_part parts 1) with
      | None => (SYNTAX_ERROR, statement)
      | Some r_id =>
          if r_id <? 0 then (NEGATIVE_ID, statement)
          else if py_len (nth_part parts 2) >? COLUMN_USERNAME_SIZE
          then (STRING_TOO_LONG, statement)
          else if py_len (nth_part parts 3) >? COLUMN_EMAIL_SIZE
          then (STRING_TOO_LONG, statement)
          else (PREPARE_SUCCESS,
                mkStatement (Some INSERT)
                  (Some (mkRow r_id (nth_part parts 2) (nth_part parts 3))))
      end
  else if String.prefix "select" user_input then
    (PREPARE_SUCCESS, mkStatement (Some SELECT) (row_to_insert statement))
  else (UNRECOGNIZED_STATEMENT, statement).

(** A fresh [Statement()]. *)
Definition new_statement : Statement := mkStatement None None.

(** One round of the main loop on the input line [user_input]: the lines
    printed. *)
Definition repl_round (d fuel n : nat) (user_input : string) : M (list string) :=
  meta ←
    (if String.prefix "." user_input then
       '(out, result) ← do_meta_command d user_input;
       match result with
       | META_SUCCESS => mret (Some out)
       | UNRECOGNIZED_COMMAND =>
           mret (Some (out ++ ["Unrecognized command '" +:+ user_input +:+ "'"]))
       end
     else mret None);
  match meta with
  | Some out => mret out
  | None =>
      let '(result, statement) := prepare_statement user_input new_statement in
      match result with
      | PREPARE_SUCCESS =>
          '(out, exec_res) ← execute_statement d fuel n statement;
          mret (out ++ match exec_res with
                       | Some EXECUTE_SUCCESS => ["Executed."]
                       | Some DUPLICATE_KEY => ["Error: Duplicate key."]
                       | Some TABLE_FULL => ["Error: Table full."]
                       | None => []
                       end)
      | SYNTAX_ERROR => mret ["Syntax error. Could not parse statement."]
      | NEGATIVE_ID => mret ["ID must be positive."]
      | STRING_TOO_LONG => mret ["String is too long."]
      | UNRECOGNIZED_STATEMENT =>
          mret ["Unrecognized keyword at start of '" +:+ user_input +:+ "'."]
      end
  end.

(** The main loop fed with the given input lines, on a database file with
    the given content: everything printed. *)
Definition session (d fuel n : nat) (content : bytes) (inputs : list string)
  : outcome (list string) :=
  match Table_init content with
  | Ok _ t => for_lines inputs (repl_round d fuel n) t
  | Fatal => Fatal
  | Raise e fn => Raise e fn
  | Exit0 t => Exit0 t
  | OutOfFuel => OutOfFuel
  | Unbound => Unbound
  end.

(** * Specification-level definitions *)

(** The value a computation returns, when it returns. *)
Definition result_of {A} (o : outcome A) : option A :=
  match o with Ok a _ => Some a | _ => None end.

(** The table a computation leaves, when it returns. *)
Definition table_of {A} (o : outcome A) : option Table :=
  match o with Ok _ t => Some t | _ => None end.

(** The input line [insert <i> user<i> person<i>@example.com]. *)
Definition insert_line (i : Z) : string :=
  "insert " +:+ str_of_Z i +:+ " user" +:+ str_of_Z i
  +:+ " person" +:+ str_of_Z i +:+ "@example.com".

(** The statement the parser builds from an input line. *)
Definition statement_of_line (line : string) : Statement :=
  (prepare_statement line new_statement).2.

Definition accepted (line : string) : bool :=
  match (prepare_statement line new_statement).1 with
  | PREPARE_SUCCESS => true
  | _ => false
  end.

(** Executing a list of statements one after the other. *)
Fixpoint execute_inserts (d fuel : nat) (stmts : list Statement)
  : M (list ExecuteResult) :=
  match stmts with
  | [] => mret []
  | s :: stmts' =>
      r ← execute_insert d fuel s;
      rs ← execute_inserts d fuel stmts';
      mret (r :: rs)
  end.

(** A fresh database: [Table.__init__] on a file that does not exist yet. *)
Definition on_fresh_table {A} (m : M A) : outcome A :=
  match Table_init [] with
  | Ok _ t => m t
  | Fatal => Fatal
  | Raise e fn => Raise e fn
  | Exit0 t => Exit0 t
  | OutOfFuel => OutOfFuel
  | Unbound => Unbound
  end.

(** Insert the given ids (through the parser) into a fresh database, then
    select: the results of the inserts and the ids of the rows printed. *)
Definition insert_then_select (d fuel n : nat) (ids : list Z)
  : option (list ExecuteResult * list Z) :=
  result_of (on_fresh_table (
    rs ← execute_inserts d fuel (statement_of_line ∘ insert_line <$> ids);
    rows ← execute_select_rows d n;
    mret (rs, id <$> rows))).

(** Ids 100, 200, ..., 7500 in ascending order, then 2201 .. 2235. *)
Definition skewed_ids : list Z := ((λ i, 100 * i) <$> seqZ 1 75) ++ seqZ 2201 35.

(** What sits at the root after the inserts: the node type of page 0, its
    number of keys, its first key and the types of its two children. *)
Definition root_shape : M (NodeType * Z * Z * NodeType * NodeType) :=
  root ← get_page 0;
  ty ← get_node_type root;
  num_keys ← internal_node_num_keys root;
  key0 ← internal_node_key root 0;
  left ← internal_node_child root 0;
  left_node ← get_page left;
  ty_left ← get_node_type left_node;
  right ← internal_node_right_child root;
  right_node ← get_page right;
  ty_right ← get_node_type right_node;
  mret (ty, num_keys, key0, ty_left, ty_right).

(** A string that fits a column of [n] bytes: at most [n] characters, all
    ASCII, none of them NUL. *)
Definition ascii_field (n : Z) (s : string) : bool :=
  (py_len s <=? n)
  && forallb (λ c, is_ascii_char c && negb (Ascii.eqb c zero)) (chars s).

(** The 291 bytes of a row: the id as 4 little-endian bytes, then the two
    NUL-padded columns. *)
Definition row_image (row : Row) : bytes :=
  le_bytes_of_u32 (id row)
  ++ pack_s COLUMN_USERNAME_SIZE (byte_of_ascii <$> chars (username row))
  ++ pack_s COLUMN_EMAIL_SIZE (byte_of_ascii <$> chars (email row)).

Definition serializable (row : Row) : Prop :=
  0 ≤ id row < 4294967296
  ∧ ascii_field COLUMN_USERNAME_SIZE (username row) = true
  ∧ ascii_field COLUMN_EMAIL_SIZE (email row) = true.

(** Every cached buffer is a whole page, cached under a page number
    below [num_pages]. *)
Definition cache_ok (t : Table) : Prop :=
  ∀ n b, pages (pager t) !! n = Some b →
    blen b = PAGE_SIZE ∧ 0 ≤ n < num_pages (pager t).

(** The tokens of an insert line. *)
Definition id_token (user_input : string) : string := nth_part (py_split user_input) 1.
Definition username_token (user_input : string) : string :=
  nth_part (py_split user_input) 2.
Definition email_token (user_input : string) : string :=
  nth_part (py_split user_input) 3.
Definition token_count (user_input : string) : Z :=
  Z.of_nat (length (py_split user_input)).

(** The letter [a], [n] times. *)
Definition a_times (n : nat) : string := str_repeat "a" n.

(** A one-character string outside ASCII: code point 233. *)
Definition e_acute : string := String "233"%char "".

(** ** Weakest preconditions

    [wp_gen F U G m Q t]: running [m] on [t] returns a value and a table
    that satisfy [Q]; or it runs out of fuel and [F] holds; or it uses an
    unbound page variable and [U] holds; or it stops the process (fatal
    exit, exception, exit) and [G] holds. *)
Definition wp_gen {A} (F U G : Prop) (m : M A) (Q : A → Table → Prop)
    (t : Table) : Prop :=
  match m t with
  | Ok a t' => Q a t'
  | OutOfFuel => F
  | Unbound => U
  | _ => G
  end.

(** Partial correctness: what holds whenever [m] returns. *)
Definition hoare {A} (P : Table → Prop) (m : M A) (Q : A → Table → Prop) : Prop :=
  ∀ t, P t → wp_gen True True True m Q t.

(** [m] keeps the invariant [I] and returns a value satisfying [R]. *)
Definition keeps {A} (I : Table → Prop) (m : M A) (R : A → Prop) : Prop :=
  hoare I m (λ a t', I t' ∧ R a).

(** The table after [get_page n] has returned. *)
Definition load (t : Table) (n : Z) : Table :=
  let p := pager t in
  match pages p !! n with
  | Some _ => t
  | None =>
      mkTable (mkPager (file p)
                 (if n >=? num_pages p then n + 1 else num_pages p)
                 (<[n := miss_page p n]> (pages p)))
              (root_page_num t)
  end.

(** The content of page [n] of the database: the cached buffer, or what
    [get_page] would load for it. *)
Definition node_view (t : Table) (n : Z) : bytes :=
  match pages (pager t) !! n with
  | Some b => b
  | None => miss_page (pager t) n
  end.

(** The [is_root] flag of a node buffer, as [is_node_root] reads it. *)
Definition is_root_of (b : bytes) : bool :=
  match unpack_from_B b IS_ROOT_OFFSET with
  | Some v => negb (v =? 0)
  | None => false
  end.

(** The node at page 0 is the unique node with [is_root] set, among all
    the pages of the database. *)
Definition unique_root (t : Table) : Prop :=
  root_page_num t = 0
  ∧ ∀ n, 0 ≤ n → is_root_of (node_view t n) = bool_decide (n = 0).

(** The same, except for the pages in [X]. *)
Definition root_flags (X : Z → Prop) (t : Table) : Prop :=
  ∀ n, 0 ≤ n → ¬ X n → is_root_of (node_view t n) = bool_decide (n = 0).

(** What the pager guarantees throughout: page 0 is allocated, the file is
    not longer than [num_pages] pages, and every cached buffer still has
    its header. *)
Definition pager_inv (t : Table) : Prop :=
  root_page_num t = 0
  ∧ 1 ≤ num_pages (pager t)
  ∧ blen (file (pager t)) ≤ num_pages (pager t) * PAGE_SIZE
  ∧ ∀ n b, pages (pager t) !! n = Some b → LEAF_NODE_HEADER_SIZE ≤ blen b.

Definition root_inv (X : Z → Prop) (t : Table) : Prop :=
  pager_inv t ∧ root_flags X t.

Definition no_page : Z → Prop := λ _, False.
Definition only_page (x : Z) : Z → Prop := λ n, n = x.

(** One round of the main loop that returns to the prompt. *)
Definition top_step (t t' : Table) : Prop :=
  ∃ d fuel n user_input out, repl_round d fuel n user_input t = Ok out t'.

(** A database file whose pages carry the root flag on page 0 only. *)
Definition file_page (content : bytes) (n : Z) : bytes :=
  file_read content (n * PAGE_SIZE) PAGE_SIZE.

Definition well_formed_file (content : bytes) : Prop :=
  PAGE_SIZE ≤ blen content
  ∧ ∀ n, 0 ≤ n → (n + 1) * PAGE_SIZE ≤ blen content →
      is_root_of (file_page content n) = bool_decide (n = 0).

(** A buffer update that keeps the 14-byte header in place and does not
    touch the [is_root] byte. *)
Definition flag_safe (f : bytes → option bytes) : Prop :=
  ∀ b b', f b = Some b' → LEAF_NODE_HEADER_SIZE ≤ blen b →
    LEAF_NODE_HEADER_SIZE ≤ blen b' ∧ b' !! 1%nat = b !! 1%nat.

(** [m] turns the invariant [I] into [I'] and returns a value satisfying
    [R]. *)
Definition keeps2 {A} (I I' : Table → Prop) (m : M A) (R : A → Prop) : Prop :=
  hoare I m (λ a t', I' t' ∧ R a).

(** ** Fields of a node buffer *)

(** The unsigned 32-bit integer stored at byte offset [off]. *)
Definition u32_at (b : bytes) (off : Z) : Z :=
  u32_of_le_bytes (take 4 (drop (Z.to_nat off) b)).

(** The byte stored at byte offset [off]. *)
Definition u8_at (b : bytes) (off : Z) : Z :=
  match b !! Z.to_nat off with Some x => Z_of_byte x | None => 0 end.

(** The bytes of leaf cell [i]: key and value. *)
Definition leaf_cell (b : bytes) (i : Z) : bytes :=
  take (Z.to_nat LEAF_NODE_CELL_SIZE) (drop (Z.to_nat (leaf_node_cell_offset i)) b).

(** The first [n] leaf cells of a node buffer. *)
Definition leaf_cells (b : bytes) (n : Z) : list bytes :=
  leaf_cell b <$> seqZ 0 n.

(** A leaf cell holding [key] and the serialized [row]. *)
Definition make_cell (key : Z) (row : Row) : bytes :=
  le_bytes_of_u32 key ++ row_image row.

(** The key of a cell. *)
Definition cell_key (c : bytes) : Z := u32_of_le_bytes (take 4 c).

(** Insertion of a cell into a list of cells sorted by key, before the
    first cell whose key is not smaller. *)
Fixpoint sorted_insert (c : bytes) (cells : list bytes) : list bytes :=
  match cells with
  | [] => [c]
  | c' :: cells' =>
      if cell_key c <? cell_key c' then c :: c' :: cells'
      else c' :: sorted_insert c cells'
  end.

(** Keys in strictly ascending order. *)
Fixpoint ascending (keys : list Z) : Prop :=
  match keys with
  | [] => True
  | k :: keys' => (∀ k', k' ∈ keys' → k < k') ∧ ascending keys'
  end.

(** Page [n] is cached with content [b]. *)
Definition pg (t : Table) (n : Z) (b : bytes) : Prop :=
  pages (pager t) !! n = Some b.

(** The key stored in leaf cell [i]. *)
Definition leaf_key (b : bytes) (i : Z) : Z := u32_at b (leaf_node_cell_offset i).

(** The keys of the first [n] cells are in strictly ascending order. *)
Definition leaf_keys_ascending (b : bytes) (n : Z) : Prop :=
  ∀ i j, 0 ≤ i → i < j → j < n → leaf_key b i < leaf_key b j.

(** What [leaf_node_split_and_insert] puts at target index [i] of the 14
    cells it distributes, for a cursor at cell [c]. *)
Definition split_target (b : bytes) (c key : Z) (value : Row) (i : Z) : bytes :=
  if i =? c then make_cell key value
  else if i >? c then leaf_cell b (i - 1)
  else leaf_cell b i.

(** Total correctness: [m] returns, with a value and table satisfying [Q]. *)
Definition returns {A} (m : M A) (Q : A → Table → Prop) (t : Table) : Prop :=
  wp_gen False False False m Q t.

(** The table [t] after a leaf split: page [p] holds [bo], the page
    allocated by the split (number [num_pages]) holds [bn]. *)
Definition split_pages (t : Table) (p : Z) (bo bn : bytes) : Table :=
  let np := num_pages (pager t) in
  mkTable (mkPager (file (pager t)) (np + 1)
             (<[p := bo]> (<[np := bn]> (pages (pager t)))))
          (root_page_num t).

(** The old leaf [bo] and the new leaf [bn] after splitting the full leaf
    [b] for a new cell at cursor position [c]; [np] is the page number of
    the new leaf. *)
Definition split_post (b : bytes) (np c key : Z) (value : Row) (bo bn : bytes)
  : Prop :=
  blen bo = PAGE_SIZE ∧ blen bn = PAGE_SIZE
  ∧ u8_at bo NODE_TYPE_OFFSET = 1 ∧ u8_at bn NODE_TYPE_OFFSET = 1
  ∧ u8_at bo IS_ROOT_OFFSET = u8_at b IS_ROOT_OFFSET
  ∧ u8_at bn IS_ROOT_OFFSET = 0
  ∧ u32_at bo PARENT_POINTER_OFFSET = u32_at b PARENT_POINTER_OFFSET
  ∧ u32_at bn PARENT_POINTER_OFFSET = u32_at b PARENT_POINTER_OFFSET
  ∧ u32_at bo LEAF_NODE_NUM_CELLS_OFFSET = LEAF_NODE_LEFT_SPLIT_COUNT
  ∧ u32_at bn LEAF_NODE_NUM_CELLS_OFFSET = LEAF_NODE_RIGHT_SPLIT_COUNT
  ∧ u32_at bo LEAF_NODE_NEXT_LEAF_OFFSET = np
  ∧ u32_at bn LEAF_NODE_NEXT_LEAF_OFFSET = u32_at b LEAF_NODE_NEXT_LEAF_OFFSET
  ∧ (∀ i, 0 ≤ i < LEAF_NODE_LEFT_SPLIT_COUNT →
       leaf_cell bo i = split_target b c key value i)
  ∧ (∀ i, 0 ≤ i < LEAF_NODE_RIGHT_SPLIT_COUNT →
       leaf_cell bn i = split_target b c key value (i + LEAF_NODE_LEFT_SPLIT_COUNT)).

(** The table [t] with [n] as its number of pages. *)
Definition grow (t : Table) (n : Z) : Table :=
  mkTable (mkPager (file (pager t)) n (pages (pager t))) (root_page_num t).

(** A full leaf that does not hold [key]: the node [leaf_node_split_and_insert]
    is called on. *)
Definition full_leaf (b : bytes) (key : Z) : Prop :=
  u8_at b NODE_TYPE_OFFSET = 1
  ∧ u32_at b LEAF_NODE_NUM_CELLS_OFFSET = LEAF_NODE_MAX_CELLS
  ∧ leaf_keys_ascending b LEAF_NODE_MAX_CELLS
  ∧ ∀ i, 0 ≤ i < LEAF_NODE_MAX_CELLS → leaf_key b i ≠ key.

(** What the split of the full leaf [b] for [(key, value)] leaves in the
    node with the lower half, [lo], and the new node, [hi], at page [np]. *)
Definition split_result (b : bytes) (key : Z) (value : Row) (np : Z)
    (lo hi : bytes) : Prop :=
  u8_at lo NODE_TYPE_OFFSET = 1 ∧ u8_at hi NODE_TYPE_OFFSET = 1
  ∧ u32_at lo LEAF_NODE_NUM_CELLS_OFFSET = LEAF_NODE_LEFT_SPLIT_COUNT
  ∧ u32_at hi LEAF_NODE_NUM_CELLS_OFFSET = LEAF_NODE_RIGHT_SPLIT_COUNT
  ∧ leaf_cells lo LEAF_NODE_LEFT_SPLIT_COUNT
      ++ leaf_cells hi LEAF_NODE_RIGHT_SPLIT_COUNT
    = sorted_insert (make_cell key value) (leaf_cells b LEAF_NODE_MAX_CELLS)
  ∧ u32_at hi LEAF_NODE_NEXT_LEAF_OFFSET = u32_at b LEAF_NODE_NEXT_LEAF_OFFSET
  ∧ u32_at lo LEAF_NODE_NEXT_LEAF_OFFSET = np.

(** The child pointer and the key of cell [i] of an internal node. *)
Definition internal_child (b : bytes) (i : Z) : Z :=
  u32_at b (internal_node_cell_offset i).

Definition internal_key (b : bytes) (i : Z) : Z :=
  u32_at b (internal_node_cell_offset i + INTERNAL_NODE_CHILD_SIZE).

(** An internal root with one key: children [left] and [right]. *)
Definition root_of_two (b : bytes) (left key right : Z) : Prop :=
  u8_at b NODE_TYPE_OFFSET = 0
  ∧ u8_at b IS_ROOT_OFFSET = 1
  ∧ u32_at b INTERNAL_NODE_NUM_KEYS_OFFSET = 1
  ∧ internal_child b 0 = left
  ∧ internal_key b 0 = key
  ∧ u32_at b INTERNAL_NODE_RIGHT_CHILD_OFFSET = right.

(** The root leaf of a database after inserting the 13 ids 2, 4, ..., 26:
    a full leaf. *)
Definition full_root_leaf : bytes := Eval vm_compute in
  match on_fresh_table (execute_inserts 4 4
          (statement_of_line ∘ insert_line <$> ((λ i, 2 * i) <$> seqZ 1 13)))
  with
  | Ok _ t => page_bytes t 0
  | _ => []
  end.

(** A table whose only page is that leaf. *)
Definition full_root_table : Table :=
  mkTable (mkPager [] 1 {[ 0 := full_root_leaf ]}) 0.

(** ** The tree as the pages show it *)

(** The pager of a table whose cached buffers are whole pages, cached
    under page numbers below [num_pages]. *)
Definition pages_ok (t : Table) : Prop := pager_inv t ∧ cache_ok t.

(** [get_node_max_key] on page [n], read off the contents [v] of the
    pages: the key of the last cell of the leaf that the right children
    lead to, within [d] steps. *)
Fixpoint max_key_in (d : nat) (v : Z → bytes) (n : Z) : option Z :=
  match d with
  | O => None
  | S d' =>
      ty ← unpack_from_B (v n) NODE_TYPE_OFFSET;
      if ty =? 1 then
        num ← unpack_from_I (v n) LEAF_NODE_NUM_CELLS_OFFSET;
        unpack_from_I (v n) (leaf_node_cell_offset (num - 1))
      else if ty =? 0 then
        rc ← unpack_from_I (v n) INTERNAL_NODE_RIGHT_CHILD_OFFSET;
        if rc >? TABLE_MAX_PAGES then None else max_key_in d' v rc
      else None
  end.

(** Two node buffers that differ at most in the parent pointer. *)
Definition same_but_parent (b b' : bytes) : Prop :=
  blen b = blen b'
  ∧ ∀ i : nat, (i < 2 ∨ 6 ≤ i)%nat → b !! i = b' !! i.

(** [c] is a child of the internal node [r]: one of the children of its
    cells, or its right child. *)
Definition child_of (r : bytes) (c : Z) : Prop :=
  u8_at r NODE_TYPE_OFFSET = 0
  ∧ ((∃ i, 0 ≤ i < u32_at r INTERNAL_NODE_NUM_KEYS_OFFSET ∧ c = internal_child r i)
     ∨ c = u32_at r INTERNAL_NODE_RIGHT_CHILD_OFFSET).

(** What [create_new_root right] makes of a table whose root page held
    [r]: the bytes of the old root are at the page [left], allocated for
    them, with [is_root] cleared and the root as parent; the children of the
    old root have [left] as parent; page 0 is an internal root with one key
    over [left] and [right], the key being the maximum key of [left]. *)
Definition new_root_post (d : nat) (r : bytes) (left right : Z) (t' : Table)
  : Prop :=
  node_view t' left
  = blit (blit r IS_ROOT_OFFSET [byte_of_Z 0]) PARENT_POINTER_OFFSET
      (le_bytes_of_u32 0)
  ∧ (∀ c, child_of r c → 0 ≤ c → c ≠ left → c ≠ right →
       u32_at (node_view t' c) PARENT_POINTER_OFFSET = left)
  ∧ u32_at (node_view t' right) PARENT_POINTER_OFFSET = 0
  ∧ ∃ key, root_of_two (node_view t' 0) left key right
           ∧ max_key_in d (node_view t') left = Some key.

(** A fresh database, and the table of [full_root_table] after
    [create_new_root] with page 1 as right child. *)
Definition fresh_table : Table :=
  match Table_init [] with Ok _ t => t | _ => mkTable (mkPager [] 0 ∅) 0 end.

Definition new_root_example : Table :=
  match create_new_root 1 1 full_root_table with
  | Ok _ t' => t'
  | _ => full_root_table
  end.

(** ** Levels

    A tree is described by the list [A] of its pages and a level [L n] for
    each of them: leaves are at level 0, the children of an internal node
    are below it, the parent of a node is above it, and no node is above
    the root.  [xs] and [xp] say for which nodes the conditions on the
    cells and on the parent pointer are suspended (while the node is being
    rebuilt); [ref] is the content that the leaves keep, from offset 6 on. *)
Definition slot_ok (L : Z → Z) (A : list Z) (n : Z) (b : bytes) (i : Z) : Prop :=
  i < u32_at b INTERNAL_NODE_NUM_KEYS_OFFSET →
  internal_child b i ∈ A ∧ L (internal_child b i) < L n.

Definition node_ok (L : Z → Z) (A : list Z) (xs xp : Prop) (ref : bytes)
    (n : Z) (b : bytes) : Prop :=
  0 ≤ L n ≤ L 0
  ∧ (L n = 0 → u8_at b NODE_TYPE_OFFSET = 1 ∧ drop 6 b = drop 6 ref)
  ∧ (0 < L n →
       u8_at b NODE_TYPE_OFFSET = 0
       ∧ u32_at b INTERNAL_NODE_NUM_KEYS_OFFSET ≤ INTERNAL_NODE_MAX_KEYS
       ∧ (TABLE_MAX_PAGES < u32_at b INTERNAL_NODE_RIGHT_CHILD_OFFSET
          ∨ (u32_at b INTERNAL_NODE_RIGHT_CHILD_OFFSET ∈ A
             ∧ L (u32_at b INTERNAL_NODE_RIGHT_CHILD_OFFSET) < L n))
       ∧ (¬ xs → slot_ok L A n b 0 ∧ slot_ok L A n b 1 ∧ slot_ok L A n b 2))
  ∧ (¬ xp →
       (u8_at b IS_ROOT_OFFSET = 0 →
          n ≠ 0 ∧ u32_at b PARENT_POINTER_OFFSET ∈ A
          ∧ L n < L (u32_at b PARENT_POINTER_OFFSET))
       ∧ (u8_at b IS_ROOT_OFFSET ≠ 0 → n = 0)).

Definition levels_inv (L : Z → Z) (A : list Z) (Xs Xp : Z → Prop)
    (R : Z → bytes) (t : Table) : Prop :=
  pages_ok t ∧ 0 ∈ A
  ∧ ∀ n, n ∈ A →
      0 ≤ n < num_pages (pager t)
      ∧ node_ok L A (Xs n) (Xp n) (R n) n (node_view t n).

(** A tree with levels: all conditions in force. *)
Definition tree_levels (L : Z → Z) (A : list Z) (R : Z → bytes) (t : Table)
  : Prop :=
  levels_inv L A no_page no_page R t.

(** [m] does not run out of fuel on [t]; when it returns, [Q] holds. *)
Definition terminates {A} (m : M A) (Q : A → Table → Prop) (t : Table) : Prop :=
  wp_gen False True True m Q t.

(** The contents [V] of the pages, with [b] at page [n]. *)
Definition with_page (V : Z → bytes) (n : Z) (b : bytes) : Z → bytes :=
  λ m, if decide (m = n) then b else V m.

(** The pages of [s] hold [V], and [s] has at least [N] pages. *)
Definition views_are (s : Table) (V : Z → bytes) (N : Z) : Prop :=
  pages_ok s ∧ N ≤ num_pages (pager s)
  ∧ ∀ m, 0 ≤ m → node_view s m = V m.

(** The conditions of [levels_inv] on the contents of the pages. *)
Definition levels_ok (L : Z → Z) (A : list Z) (Xs Xp : Z → Prop)
    (R : Z → bytes) (V : Z → bytes) : Prop :=
  0 ∈ A
  ∧ ∀ n, n ∈ A → 0 ≤ n ∧ node_ok L A (Xs n) (Xp n) (R n) n (V n).

(** The level [l] for page [n], the levels [L] for the others. *)
Definition with_level (L : Z → Z) (n l : Z) : Z → Z :=
  λ m, if decide (m = n) then l else L m.

(** ** A database that is one leaf, as a list of rows *)

(** The cell of a row: its id as key, then the row. *)
Definition row_cell (r : Row) : bytes := make_cell (id r) r.

(** The leaf [b] holds the rows [rows], in this order, and its next leaf
    is page [next] (0 when there is none). *)
Definition leaf_with (b : bytes) (rows : list Row) (next : Z) : Prop :=
  blen b = PAGE_SIZE
  ∧ u8_at b NODE_TYPE_OFFSET = 1
  ∧ u32_at b LEAF_NODE_NUM_CELLS_OFFSET = Z.of_nat (length rows)
  ∧ u32_at b LEAF_NODE_NEXT_LEAF_OFFSET = next
  ∧ leaf_cells b (Z.of_nat (length rows)) = row_cell <$> rows.

(** The leaf [b] holds the rows [rows], in this order, and has no next
    leaf. *)
Definition leaf_holds (b : bytes) (rows : list Row) : Prop :=
  leaf_with b rows 0.

(** The table [t] is the single leaf [b], cached as page 0. *)
Definition single_leaf (t : Table) (b : bytes) : Prop :=
  cache_ok t ∧ root_page_num t = 0 ∧ pg t 0 b.

(** Insertion into a list of rows sorted by id. *)
Fixpoint insert_row (r : Row) (rows : list Row) : list Row :=
  match rows with
  | [] => [r]
  | r' :: rows' =>
      if id r <? id r' then r :: r' :: rows' else r' :: insert_row r rows'
  end.

(** What an insert does to a database seen as a list of rows sorted by
    id: nothing when the id is there, a sorted insertion otherwise. *)
Definition db_insert (r : Row) (rows : list Row) : ExecuteResult * list Row :=
  if bool_decide (id r ∈ id <$> rows) then (DUPLICATE_KEY, rows)
  else (EXECUTE_SUCCESS, insert_row r rows).

Fixpoint db_inserts (rs : list Row) (rows : list Row)
  : list ExecuteResult * list Row :=
  match rs with
  | [] => ([], rows)
  | r :: rs' =>
      let '(res, rows') := db_insert r rows in
      let '(ress, rows'') := db_inserts rs' rows' in
      (res :: ress, rows'')
  end.

(** The statement that inserts [r]. *)
Definition insert_statement (r : Row) : Statement :=
  mkStatement (Some INSERT) (Some r).

(** The lower bound of [key] among the first [n] keys of the leaf [b]. *)
Definition lower_bound (b : bytes) (n key c : Z) : Prop :=
  0 ≤ c ≤ n
  ∧ (∀ i, 0 ≤ i < c → leaf_key b i < key)
  ∧ (∀ i, c ≤ i < n → key ≤ leaf_key b i).

(** The row of the input line [insert_line i]. *)
Definition example_row (i : Z) : Row :=
  mkRow i ("user" +:+ str_of_Z i) ("person" +:+ str_of_Z i +:+ "@example.com").

(** The root leaf of a fresh database. *)
Definition empty_leaf : bytes := Eval vm_compute in page_bytes fresh_table 0.

(** The byte at position [i] of a file; zero past its end. *)
Definition file_byte (f : bytes) (i : Z) : byte := default x00 (f !! Z.to_nat i).

(** What one round of the loop of [Table.close] does to the table. *)
Definition close_page (t : Table) (i : Z) : Table :=
  match pages (pager t) !! i with
  | Some page =>
      mkTable (mkPager (file_write (file (pager t)) (i * PAGE_SIZE) page)
                       (num_pages (pager t)) (delete i (pages (pager t))))
              (root_page_num t)
  | None => t
  end.

(** The last page of the database is in the file or in the cache. *)
Definition last_page_present (t : Table) : Prop :=
  blen (file (pager t)) = num_pages (pager t) * PAGE_SIZE
  ∨ is_Some (pages (pager t) !! (num_pages (pager t) - 1)).

(** The keys of the first [n] cells of an internal node never descend. *)
Definition internal_keys_sorted (b : bytes) (n : Z) : Prop :=
  ∀ i j, 0 ≤ i → i ≤ j → j < n → internal_key b i ≤ internal_key b j.

(** The index of the child for [key] among the first [n] keys of the
    internal node [b]: the first key that is not smaller. *)
Definition child_index (b : bytes) (n key c : Z) : Prop :=
  0 ≤ c ≤ n
  ∧ (∀ i, 0 ≤ i < c → internal_key b i < key)
  ∧ (∀ i, c ≤ i < n → key ≤ internal_key b i).

(** The number of cells a page has room for after the header of an
    internal node. *)
Definition internal_node_capacity : Z :=
  (PAGE_SIZE - INTERNAL_NODE_HEADER_SIZE) / INTERNAL_NODE_CELL_SIZE.

(** The child [internal_node_child] returns for index 0. *)
Definition first_child (b : bytes) : Z :=
  if u32_at b INTERNAL_NODE_NUM_KEYS_OFFSET =? 0
  then u32_at b INTERNAL_NODE_RIGHT_CHILD_OFFSET
  else internal_child b 0.

(** Page [leaf] is the leaf reached from page [p] by following first
    children through cached pages, in fewer than [d] steps. *)
Fixpoint leftmost_leaf (d : nat) (t : Table) (p leaf : Z) : Prop :=
  match d with
  | O => False
  | S d' =>
      ∃ b, pg t p b ∧ blen b = PAGE_SIZE ∧ p ≤ TABLE_MAX_PAGES
           ∧ (u8_at b NODE_TYPE_OFFSET = 1 ∧ p = leaf
              ∨ u8_at b NODE_TYPE_OFFSET = 0
                ∧ u32_at b INTERNAL_NODE_NUM_KEYS_OFFSET ≤ internal_node_capacity
                ∧ leftmost_leaf d' t (first_child b) leaf)
  end.

(** The page number the next-leaf field of a leaf holds when the leaves
    [rest] follow it. *)
Definition next_page (rest : list (Z * list Row)) : Z :=
  match rest with [] => 0 | (q, _) :: _ => q end.

(** A chain of cached leaves: each holds its rows and points to the
    next one, the last one to no page; no leaf is empty. *)
Fixpoint leaf_chain (t : Table) (chain : list (Z * list Row)) : Prop :=
  match chain with
  | [] => True
  | (p, rows) :: rest =>
      p ≤ TABLE_MAX_PAGES ∧ rows ≠ [] ∧ (length rows ≤ 13)%nat
      ∧ Forall serializable rows
      ∧ (∃ b, pg t p b ∧ leaf_with b rows (next_page rest))
      ∧ (rest ≠ [] → next_page rest ≠ 0)
      ∧ leaf_chain t rest
  end.

(** The rows of a chain of leaves, in the order of the chain. *)
Definition chain_rows (chain : list (Z * list Row)) : list Row :=
  concat (snd <$> chain).

(** The table after inserting the rows of ids 1 .. 14 into a fresh
    database: a root with two leaves. *)
Definition two_leaf_table : Table := Eval vm_compute in
  match on_fresh_table (execute_inserts 4 4
          (insert_statement <$> (example_row <$> seqZ 1 14)))
  with
  | Ok _ t => t
  | _ => fresh_table
  end.

(** The child [internal_node_child] returns for index [i] of the
    internal node [b]. *)
Definition child_at (b : bytes) (i : Z) : Z :=
  if i =? u32_at b INTERNAL_NODE_NUM_KEYS_OFFSET
  then u32_at b INTERNAL_NODE_RIGHT_CHILD_OFFSET
  else internal_child b i.

(** A tree of two levels: the root [root], a cached internal node, over
    the chain of leaves [chain], one child for each leaf in the order of
    the chain; key [i] of the root is not below the ids in the leaves up
    to leaf [i] and is below the ids in the leaves after it; the ids in
    each leaf ascend; the pages are distinct. *)
Definition two_levels (t : Table) (root : bytes) (chain : list (Z * list Row))
  : Prop :=
  pg t (root_page_num t) root ∧ blen root = PAGE_SIZE
  ∧ root_page_num t ≤ TABLE_MAX_PAGES
  ∧ u8_at root NODE_TYPE_OFFSET = 0
  ∧ Z.of_nat (length chain) = u32_at root INTERNAL_NODE_NUM_KEYS_OFFSET + 1
  ∧ u32_at root INTERNAL_NODE_NUM_KEYS_OFFSET ≤ internal_node_capacity
  ∧ (∀ (i : nat) p rows, chain !! i = Some (p, rows) →
       child_at root (Z.of_nat i) = p)
  ∧ (∀ (i j : nat) p rows x,
       Z.of_nat i < u32_at root INTERNAL_NODE_NUM_KEYS_OFFSET →
       chain !! j = Some (p, rows) → x ∈ rows →
       ((j ≤ i)%nat → id x ≤ internal_key root (Z.of_nat i))
       ∧ ((i < j)%nat → internal_key root (Z.of_nat i) < id x))
  ∧ leaf_chain t chain
  ∧ (∀ p rows, (p, rows) ∈ chain → ascending (id <$> rows))
  ∧ NoDup (root_page_num t :: (fst <$> chain)).

(** The leaves of [two_leaf_table]. *)
Definition two_leaf_chain : list (Z * list Row) :=
  [(2, example_row <$> seqZ 1 7); (1, example_row <$> seqZ 8 7)].

(** The root [root'] after the leaf at child index [j] of [root] was
    split: the new leaf, page [np], is the child after it; the key of the
    old leaf is [new_max] and the key of the new leaf is [M]. *)
Definition root_after_split (root root' : bytes) (j np new_max M : Z) : Prop :=
  blen root' = PAGE_SIZE
  ∧ u8_at root' NODE_TYPE_OFFSET = u8_at root NODE_TYPE_OFFSET
  ∧ u8_at root' IS_ROOT_OFFSET = u8_at root IS_ROOT_OFFSET
  ∧ u32_at root' INTERNAL_NODE_NUM_KEYS_OFFSET
    = u32_at root INTERNAL_NODE_NUM_KEYS_OFFSET + 1
  ∧ (∀ i, 0 ≤ i ≤ u32_at root INTERNAL_NODE_NUM_KEYS_OFFSET + 1 →
       child_at root' i
       = if i <=? j then child_at root i
         else if i =? j + 1 then np else child_at root (i - 1))
  ∧ (∀ i, 0 ≤ i < u32_at root INTERNAL_NODE_NUM_KEYS_OFFSET + 1 →
       internal_key root' i
       = if i <? j then internal_key root i
         else if i =? j then new_max
         else if i =? j + 1 then M else internal_key root (i - 1)).

(** Every leaf of the chain is a child of the root: it is not flagged as
    root and its parent pointer is the root page. *)
Definition leaves_linked (t : Table) (chain : list (Z * list Row)) : Prop :=
  ∀ p rows b, (p, rows) ∈ chain → pg t p b →
    u8_at b IS_ROOT_OFFSET = 0
    ∧ u32_at b PARENT_POINTER_OFFSET = root_page_num t.

(** The chain after its leaf [j], page [p], was split into the pages [p]
    and [np], which share the rows [rows']. *)
Definition split_chain (chain : list (Z * list Row)) (j : nat) (p np : Z)
    (rows' : list Row) : list (Z * list Row) :=
  take j chain ++ (p, take 7 rows') :: (np, drop 7 rows') :: drop (S j) chain.

(** Where a row stands among the keys of the root: the keys from index
    [a] on are not below its id, the keys before are. *)
Definition stands_at (root : bytes) (x : Row) (a : nat) : Prop :=
  ∀ i : nat, Z.of_nat i < u32_at root INTERNAL_NODE_NUM_KEYS_OFFSET →
    ((a ≤ i)%nat → id x ≤ internal_key root (Z.of_nat i))
    ∧ ((i < a)%nat → internal_key root (Z.of_nat i) < id x).

(** The table after inserting the example rows 1, ..., 20 into a fresh
    database: a root over a leaf of 7 rows and a full leaf. *)
Definition full_leaf_table : Table := Eval vm_compute in
  match on_fresh_table (execute_inserts 4 4
          (insert_statement <$> (example_row <$> seqZ 1 20)))
  with
  | Ok _ t => t
  | _ => fresh_table
  end.

(** The leaves of [full_leaf_table]. *)
Definition full_leaf_chain : list (Z * list Row) :=
  [(2, example_row <$> seqZ 1 7); (1, example_row <$> seqZ 8 13)].

(** A tree of two levels as the inserts leave it: the leaves carry the
    root as parent, the pages of the file are the root and the leaves,
    and every leaf holds at least the 7 rows a split gives it. *)
Definition tree_ok (t : Table) (root : bytes) (chain : list (Z * list Row))
  : Prop :=
  two_levels t root chain ∧ cache_ok t ∧ leaves_linked t chain
  ∧ num_pages (pager t) = Z.of_nat (length chain) + 1
  ∧ (∀ p rows, (p, rows) ∈ chain → (7 ≤ length rows)%nat).

(** The table [t] holds the rows [rows]: in a root leaf, or in the leaves
    of a tree of two levels. *)
Definition holds_rows (t : Table) (rows : list Row) : Prop :=
  (∃ b, single_leaf t b ∧ leaf_holds b rows ∧ u8_at b IS_ROOT_OFFSET ≠ 0
        ∧ num_pages (pager t) = 1
        ∧ Forall serializable rows ∧ ascending (id <$> rows)
        ∧ (length rows ≤ 13)%nat)
  ∨ (∃ root chain, tree_ok t root chain ∧ chain_rows chain = rows).

(** * Reasoning about computations *)

Section WP.

Context (F U G : Prop).

Local Notation wp := (wp_gen F U G).

Lemma wp_ret {A} (a : A) Q t : Q a t → wp (mret a) Q t.
Proof. done. Qed.

Lemma wp_bind {A B} (m : M A) (f : A → M B) Q t :
  wp m (λ a t', wp (f a) Q t') t → wp (m ≫= f) Q t.
Proof.
  unfold wp_gen, mbind, M_bind. by destruct (m t).
Qed.

Lemma wp_bind_inv {A B} (m : M A) (f : A → M B) Q t :
  wp (m ≫= f) Q t → wp m (λ a t', wp (f a) Q t') t.
Proof.
  unfold wp_gen, mbind, M_bind. by destruct (m t).
Qed.

Lemma wp_mono {A} (m : M A) (Q Q' : A → Table → Prop) t :
  wp m Q t → (∀ a t', Q a t' → Q' a t') → wp m Q' t.
Proof. unfold wp_gen. destruct (m t); auto. Qed.

Lemma wp_fatal {A} (Q : A → Table → Prop) t : G → wp fatal Q t.
Proof. done. Qed.

Lemma wp_raise {A} e fn (Q : A → Table → Prop) t : G → wp (raise e fn) Q t.
Proof. done. Qed.

Lemma wp_out_of_fuel {A} (Q : A → Table → Prop) t : F → wp out_of_fuel Q t.
Proof. done. Qed.

Lemma wp_buf node Q t :
  (pages (pager t) !! node = None → U) →
  (∀ b, pages (pager t) !! node = Some b → Q b t) →
  wp (buf node) Q t.
Proof.
  unfold wp_gen, buf. destruct (pages (pager t) !! node); auto.
Qed.

Lemma wp_set_buf node b Q t :
  (pages (pager t) !! node = None → U) →
  (∀ b0, pages (pager t) !! node = Some b0 → Q () (set_page t node b)) →
  wp (set_buf node b) Q t.
Proof.
  unfold wp_gen, set_buf. destruct (pages (pager t) !! node); eauto.
Qed.

Lemma wp_read_buf {A} fn node (f : bytes → option A) Q t :
  (pages (pager t) !! node = None → U) →
  (∀ b, pages (pager t) !! node = Some b → f b = None → G) →
  (∀ b v, pages (pager t) !! node = Some b → f b = Some v → Q v t) →
  wp (read_buf fn node f) Q t.
Proof.
  intros HU HG HQ. unfold read_buf. apply wp_bind, wp_buf; [done|].
  intros b Hb. destruct (f b) as [v|] eqn:E.
  - apply wp_ret. eauto.
  - apply wp_raise. eauto.
Qed.

Lemma wp_update_buf fn node (f : bytes → option bytes) Q t :
  (pages (pager t) !! node = None → U) →
  (∀ b, pages (pager t) !! node = Some b → f b = None → G) →
  (∀ b b', pages (pager t) !! node = Some b → f b = Some b' →
     Q () (set_page t node b')) →
  wp (update_buf fn node f) Q t.
Proof.
  intros HU HG HQ. unfold update_buf. apply wp_bind, wp_buf; [done|].
  intros b Hb. destruct (f b) as [b'|] eqn:E.
  - apply wp_set_buf; [by rewrite Hb|]. eauto.
  - apply wp_raise. eauto.
Qed.

Lemma get_page_load n t :
  n ≤ TABLE_MAX_PAGES →
  (pages (pager t) !! n = None → n < num_pages (pager t) → 0 ≤ n) →
  get_page n t = Ok n (load t n).
Proof.
  intros Hn Hneg. unfold get_page, load.
  destruct (n >? TABLE_MAX_PAGES) eqn:E; [lia|].
  destruct (pages (pager t) !! n); [done|].
  destruct ((n <? num_pages (pager t)) && (n <? 0)) eqn:E2; [|done].
  apply andb_true_iff in E2 as [? ?]. specialize (Hneg eq_refl). lia.
Qed.

Lemma get_page_cases n t :
  (n > TABLE_MAX_PAGES ∧ get_page n t = Fatal)
  ∨ (n < 0 ∧ get_page n t = Raise OSError "get_page")
  ∨ (n ≤ TABLE_MAX_PAGES ∧ get_page n t = Ok n (load t n)).
Proof.
  unfold get_page, load.
  destruct (n >? TABLE_MAX_PAGES) eqn:E; [left; split; [lia|done]|].
  right. destruct (pages (pager t) !! n); [right; split; [lia|done]|].
  destruct ((n <? num_pages (pager t)) && (n <? 0)) eqn:E2.
  - apply andb_true_iff in E2 as [? ?]. left. split; [lia|done].
  - right. split; [lia|done].
Qed.

Lemma wp_get_page n Q t :
  (n > TABLE_MAX_PAGES → G) →
  (n < 0 → G) →
  (n ≤ TABLE_MAX_PAGES → Q n (load t n)) →
  wp (get_page n) Q t.
Proof.
  intros HG1 HG2 HQ. unfold wp_gen.
  destruct (get_page_cases n t) as [[? ->]|[[? ->]|[? ->]]]; auto.
Qed.

Lemma wp_get_unused_page_num Q t :
  Q (num_pages (pager t)) t → wp get_unused_page_num Q t.
Proof. done. Qed.

Lemma wp_get_root_page_num Q t :
  Q (root_page_num t) t → wp get_root_page_num Q t.
Proof. done. Qed.

(** Loops: [Inv] holds before the loop and every round keeps it. *)
Lemma wp_for_each {A} (l : list A) (body : A → M unit)
    (Inv : Table → Prop) t :
  Inv t →
  (∀ x t', x ∈ l → Inv t' → wp (body x) (λ _ t'', Inv t'') t') →
  wp (for_each l body) (λ _ t', Inv t') t.
Proof.
  revert t. induction l as [|x l IH]; intros t Ht Hbody; simpl.
  - by apply wp_ret.
  - apply wp_bind. eapply wp_mono.
    + apply Hbody; [left|done].
    + intros ? t' Ht'. apply IH; [done|].
      intros y t'' Hy. apply Hbody. by right.
Qed.

Lemma wp_for_fold {A S} (l : list A) (acc : S) (body : A → S → M S)
    (Inv : S → Table → Prop) t :
  Inv acc t →
  (∀ x s t', x ∈ l → Inv s t' → wp (body x s) Inv t') →
  wp (for_fold l acc body) Inv t.
Proof.
  revert acc t. induction l as [|x l IH]; intros acc t Ht Hbody; simpl.
  - by apply wp_ret.
  - apply wp_bind. eapply wp_mono.
    + apply Hbody; [left|done].
    + intros s t' Ht'. apply IH; [done|].
      intros y s' t'' Hy. apply Hbody. by right.
Qed.

Lemma wp_for_lines {A} (l : list A) (body : A → M (list string))
    (Inv : Table → Prop) t :
  Inv t →
  (∀ x t', x ∈ l → Inv t' → wp (body x) (λ _ t'', Inv t'') t') →
  wp (for_lines l body) (λ _ t', Inv t') t.
Proof.
  revert t. induction l as [|x l IH]; intros t Ht Hbody; simpl.
  - by apply wp_ret.
  - apply wp_bind. eapply wp_mono.
    + apply Hbody; [left|done].
    + intros o t' Ht'. apply wp_bind. eapply wp_mono.
      * apply IH; [done|]. intros y t'' Hy. apply Hbody. by right.
      * intros os t'' Ht''. by apply wp_ret.
Qed.

End WP.

Lemma elem_of_py_range n i : i ∈ py_range n → 0 ≤ i < n.
Proof. unfold py_range. intros H%elem_of_seqZ. lia. Qed.

Lemma elem_of_py_range_down a b i : i ∈ py_range_down a b → b < i ≤ a.
Proof.
  unfold py_range_down. intros (k & -> & Hk%elem_of_seqZ)%list_elem_of_fmap.
  lia.
Qed.

(** ** Partial-correctness triples *)

Lemma hoare_ret {A} (P : Table → Prop) (a : A) (Q : A → Table → Prop) :
  (∀ t, P t → Q a t) → hoare P (mret a) Q.
Proof. intros H t Ht. apply wp_ret. auto. Qed.

Lemma hoare_bind {A B} (P : Table → Prop) (m : M A) (f : A → M B)
    (R : A → Table → Prop) (Q : B → Table → Prop) :
  hoare P m R → (∀ a, hoare (R a) (f a) Q) → hoare P (m ≫= f) Q.
Proof.
  intros Hm Hf t Ht. apply wp_bind. eapply wp_mono; [by apply Hm|].
  intros a t' Ha. by apply Hf.
Qed.

Lemma hoare_conseq {A} (P P' : Table → Prop) (m : M A)
    (Q Q' : A → Table → Prop) :
  hoare P' m Q' → (∀ t, P t → P' t) → (∀ a t, Q' a t → Q a t) →
  hoare P m Q.
Proof.
  intros Hm HP HQ t Ht. eapply wp_mono; [apply Hm; auto|]. auto.
Qed.

Lemma keeps_ret {A} (I : Table → Prop) (a : A) (R : A → Prop) :
  R a → keeps I (mret a) R.
Proof. intros H. apply hoare_ret. auto. Qed.

Lemma keeps_bind {A B} (I : Table → Prop) (m : M A) (f : A → M B)
    (R1 : A → Prop) (R2 : B → Prop) :
  keeps I m R1 → (∀ a, R1 a → keeps I (f a) R2) → keeps I (m ≫= f) R2.
Proof.
  intros Hm Hf t Ht. apply wp_bind. eapply wp_mono; [by apply Hm|].
  intros a t' [Ha HR]. by apply Hf.
Qed.

Lemma keeps_weaken {A} (I : Table → Prop) (m : M A) (R R' : A → Prop) :
  keeps I m R → (∀ a, R a → R' a) → keeps I m R'.
Proof.
  intros Hm HR. eapply hoare_conseq; [apply Hm|done|].
  intros a t [? ?]. auto.
Qed.

Lemma keeps_fatal {A} (I : Table → Prop) (R : A → Prop) : keeps I fatal R.
Proof. by intros t Ht. Qed.

Lemma keeps_raise {A} (I : Table → Prop) e fn (R : A → Prop) :
  keeps I (raise e fn) R.
Proof. by intros t Ht. Qed.

Lemma keeps_out_of_fuel {A} (I : Table → Prop) (R : A → Prop) :
  keeps I out_of_fuel R.
Proof. by intros t Ht. Qed.

Lemma keeps_for_each {A} (I : Table → Prop) (l : list A) (body : A → M unit) :
  (∀ x, x ∈ l → keeps I (body x) (λ _, True)) →
  keeps I (for_each l body) (λ _, True).
Proof.
  intros Hbody t Ht. eapply wp_mono.
  - apply (wp_for_each _ _ _ l body I); [done|].
    intros x t' Hx Ht'. eapply wp_mono; [by apply Hbody|]. by intros ? t'' [? _].
  - by intros ? t' ?.
Qed.

Lemma keeps_for_fold {A S} (I : Table → Prop) (l : list A) (acc : S)
    (body : A → S → M S) (R : S → Prop) :
  R acc →
  (∀ x s, x ∈ l → R s → keeps I (body x s) R) →
  keeps I (for_fold l acc body) R.
Proof.
  intros Hacc Hbody t Ht.
  apply (wp_for_fold _ _ _ l acc body (λ s t', I t' ∧ R s)); [done|].
  intros x s t' Hx [Ht' Hs]. by apply Hbody.
Qed.

Lemma keeps_for_lines {A} (I : Table → Prop) (l : list A)
    (body : A → M (list string)) :
  (∀ x, x ∈ l → keeps I (body x) (λ _, True)) →
  keeps I (for_lines l body) (λ _, True).
Proof.
  intros Hbody t Ht. eapply wp_mono.
  - apply (wp_for_lines _ _ _ l body I); [done|].
    intros x t' Hx Ht'. eapply wp_mono; [by apply Hbody|]. by intros ? t'' [? _].
  - by intros ? t' ?.
Qed.

Lemma keeps2_bind {A B} (I1 I2 I3 : Table → Prop) (m : M A) (f : A → M B)
    (R1 : A → Prop) (R2 : B → Prop) :
  keeps2 I1 I2 m R1 → (∀ a, R1 a → keeps2 I2 I3 (f a) R2) →
  keeps2 I1 I3 (m ≫= f) R2.
Proof.
  intros Hm Hf t Ht. apply wp_bind. eapply wp_mono; [by apply Hm|].
  intros a t' [Ha HR]. by apply Hf.
Qed.

Lemma keeps2_conseq {A} (I1 I2 I1' I2' : Table → Prop) (m : M A)
    (R R' : A → Prop) :
  keeps2 I1' I2' m R' →
  (∀ t, I1 t → I1' t) → (∀ t, I2' t → I2 t) → (∀ a, R' a → R a) →
  keeps2 I1 I2 m R.
Proof.
  intros Hm H1 H2 HR. eapply hoare_conseq; [apply Hm|done|].
  intros a t [? ?]. auto.
Qed.

(** * The byte codec *)

(** Replace the layout constants by their values, for [lia]. *)
Ltac layout :=
  change COLUMN_USERNAME_SIZE with 32 in *;
  change COLUMN_EMAIL_SIZE with 255 in *;
  change ROW_SIZE with 291 in *;
  change PAGE_SIZE with 4096 in *;
  change TABLE_MAX_PAGES with 400 in *;
  change INVALID_PAGE_NUM with 4294967295 in *;
  change NODE_TYPE_OFFSET with 0 in *;
  change IS_ROOT_OFFSET with 1 in *;
  change PARENT_POINTER_OFFSET with 2 in *;
  change COMMON_NODE_HEADER_SIZE with 6 in *;
  change INTERNAL_NODE_NUM_KEYS_OFFSET with 6 in *;
  change INTERNAL_NODE_RIGHT_CHILD_OFFSET with 10 in *;
  change INTERNAL_NODE_HEADER_SIZE with 14 in *;
  change INTERNAL_NODE_CHILD_SIZE with 4 in *;
  change INTERNAL_NODE_KEY_SIZE with 4 in *;
  change INTERNAL_NODE_CELL_SIZE with 8 in *;
  change INTERNAL_NODE_MAX_KEYS with 3 in *;
  change LEAF_NODE_NUM_CELLS_OFFSET with 6 in *;
  change LEAF_NODE_NEXT_LEAF_OFFSET with 10 in *;
  change LEAF_NODE_HEADER_SIZE with 14 in *;
  change LEAF_NODE_KEY_SIZE with 4 in *;
  change LEAF_NODE_VALUE_SIZE with 291 in *;
  change LEAF_NODE_CELL_SIZE with 295 in *;
  change LEAF_NODE_MAX_CELLS with 13 in *;
  change LEAF_NODE_RIGHT_SPLIT_COUNT with 7 in *;
  change LEAF_NODE_LEFT_SPLIT_COUNT with 7 in *.

Section Codec.

Implicit Types (b chunk : bytes) (v off pos : Z).

Lemma Z_of_byte_range (x : byte) : 0 ≤ Z_of_byte x < 256.
Proof.
  unfold Z_of_byte. pose proof (Byte.to_N_bounded x). lia.
Qed.

Lemma Z_of_byte_of_Z (z : Z) : 0 ≤ z < 256 → Z_of_byte (byte_of_Z z) = z.
Proof.
  intros Hz. unfold Z_of_byte, byte_of_Z.
  destruct (Byte.of_N (Z.to_N z)) as [y|] eqn:E.
  - apply Byte.to_of_N in E. lia.
  - apply Byte.of_N_None_iff in E. lia.
Qed.

Lemma byte_of_Z_of_byte (x : byte) : byte_of_Z (Z_of_byte x) = x.
Proof.
  unfold Z_of_byte, byte_of_Z. rewrite N2Z.id. by rewrite Byte.of_to_N.
Qed.

Lemma u32_le_roundtrip v :
  0 ≤ v < 4294967296 → u32_of_le_bytes (le_bytes_of_u32 v) = v.
Proof.
  intros Hv. unfold u32_of_le_bytes, le_bytes_of_u32.
  rewrite !Z_of_byte_of_Z by (apply Z.mod_pos_bound; lia).
  pose proof (Z.div_mod v 256 ltac:(lia)).
  pose proof (Z.div_mod (v / 256) 256 ltac:(lia)).
  pose proof (Z.div_mod (v / 256 / 256) 256 ltac:(lia)).
  replace (v / 65536) with (v / 256 / 256) by (rewrite Z.div_div by lia; reflexivity).
  replace (v / 16777216) with (v / 256 / 256 / 256)
    by (rewrite !Z.div_div by lia; reflexivity).
  assert (0 ≤ v / 256 / 256 / 256 < 256).
  { split; [repeat apply Z.div_pos; lia|].
    rewrite !Z.div_div by lia. apply Z.div_lt_upper_bound; lia. }
  rewrite (Z.mod_small (v / 256 / 256 / 256)) by lia. lia.
Qed.

Lemma u32_of_le_bytes_range (l : bytes) : 0 ≤ u32_of_le_bytes l < 4294967296.
Proof.
  unfold u32_of_le_bytes.
  destruct l as [|b0 [|b1 [|b2 [|b3 [|]]]]]; try lia.
  pose proof (Z_of_byte_range b0). pose proof (Z_of_byte_range b1).
  pose proof (Z_of_byte_range b2). pose proof (Z_of_byte_range b3). lia.
Qed.

Lemma le_bytes_length v : length (le_bytes_of_u32 v) = 4%nat.
Proof. done. Qed.

Lemma blen_nonneg b : 0 ≤ blen b.
Proof. unfold blen. lia. Qed.

Lemma blen_app b1 b2 : blen (b1 ++ b2) = blen b1 + blen b2.
Proof. unfold blen. rewrite length_app. lia. Qed.

Lemma blen_zero_bytes n : 0 ≤ n → blen (zero_bytes n) = n.
Proof. intros. unfold blen, zero_bytes. rewrite length_replicate. lia. Qed.

Lemma struct_offset_in len off size :
  0 ≤ off → off + size ≤ len → struct_offset len off size = Some off.
Proof.
  intros. unfold struct_offset.
  destruct (off <? 0) eqn:E1; [lia|].
  destruct (len - off <? size) eqn:E2; [lia|done].
Qed.

(** Whatever the offset, a validated position lies inside the buffer. *)
Lemma struct_offset_Some len off size pos :
  0 ≤ size → 0 ≤ len →
  struct_offset len off size = Some pos → 0 ≤ pos ∧ pos + size ≤ len.
Proof.
  unfold struct_offset. intros Hs Hl.
  destruct (off <? 0) eqn:E1.
  - destruct ((off + size >? 0) || (off + len <? 0)) eqn:E2; [done|].
    intros [= <-]. apply orb_false_iff in E2 as [? ?]. lia.
  - destruct (len - off <? size) eqn:E2; [done|].
    intros [= <-]. lia.
Qed.

Lemma struct_offset_nonneg len off size pos :
  0 ≤ off → struct_offset len off size = Some pos → pos = off.
Proof.
  unfold struct_offset. intros.
  destruct (off <? 0) eqn:E1; [lia|].
  destruct (len - off <? size); congruence.
Qed.

Lemma blit_length b pos chunk :
  0 ≤ pos → pos + blen chunk ≤ blen b → length (blit b pos chunk) = length b.
Proof.
  unfold blit, blen. intros.
  rewrite !length_app, length_take, length_drop. lia.
Qed.

Lemma blit_blen b pos chunk :
  0 ≤ pos → pos + blen chunk ≤ blen b → blen (blit b pos chunk) = blen b.
Proof. intros. unfold blen. by rewrite blit_length. Qed.

Lemma blit_lookup b pos chunk (i : nat) :
  0 ≤ pos → pos + blen chunk ≤ blen b →
  blit b pos chunk !! i =
    if decide (Z.to_nat pos ≤ i < Z.to_nat pos + length chunk)%nat
    then chunk !! (i - Z.to_nat pos)%nat else b !! i.
Proof.
  unfold blit, blen. intros Hp Hl.
  destruct (decide (i < Z.to_nat pos)%nat) as [Hlt|Hge].
  - rewrite lookup_app_l by (rewrite length_take; lia).
    rewrite lookup_take_lt by lia. case_decide; [lia|done].
  - rewrite lookup_app_r by (rewrite length_take; lia).
    rewrite length_take, Nat.min_l by lia.
    destruct (decide (i - Z.to_nat pos < length chunk)%nat).
    + rewrite lookup_app_l by lia. case_decide; [done|lia].
    + rewrite lookup_app_r by lia. rewrite lookup_drop.
      case_decide; [lia|]. f_equal. lia.
Qed.

Lemma take_drop_ext (b b' : bytes) (k n : nat) :
  (∀ i, (k ≤ i < k + n)%nat → b !! i = b' !! i) →
  take n (drop k b) = take n (drop k b').
Proof.
  intros H. apply list_eq. intros i.
  destruct (decide (i < n)%nat).
  - rewrite !lookup_take_lt, !lookup_drop by done. apply H. lia.
  - by rewrite !lookup_take_ge by lia.
Qed.

Lemma take_drop_blit_same b pos chunk :
  0 ≤ pos → pos + blen chunk ≤ blen b →
  take (length chunk) (drop (Z.to_nat pos) (blit b pos chunk)) = chunk.
Proof.
  unfold blit, blen. intros.
  rewrite drop_app_length' by (rewrite length_take; lia).
  by rewrite take_app_length.
Qed.

Lemma take_drop_blit_other b pos chunk (k n : nat) :
  0 ≤ pos → pos + blen chunk ≤ blen b →
  (k + n ≤ Z.to_nat pos ∨ Z.to_nat pos + length chunk ≤ k)%nat →
  take n (drop k (blit b pos chunk)) = take n (drop k b).
Proof.
  intros Hp Hl Hd. apply take_drop_ext. intros i Hi.
  rewrite blit_lookup by done. case_decide; [lia|done].
Qed.

(** In range, a slice assignment of the slice's own length is a [blit],
    and a slice is a [take] of a [drop]. *)
Lemma py_clamp_in len x : 0 ≤ x ≤ len → py_clamp len x = x.
Proof. intros. unfold py_clamp. destruct (x <? 0) eqn:E; lia. Qed.

Lemma getslice_in b a n :
  0 ≤ a → 0 ≤ n → a + n ≤ blen b →
  getslice b a (a + n) = take (Z.to_nat n) (drop (Z.to_nat a) b).
Proof.
  intros. unfold getslice. rewrite !py_clamp_in by lia.
  do 2 f_equal. lia.
Qed.

Lemma getslice_length b a n :
  0 ≤ a → 0 ≤ n → a + n ≤ blen b → blen (getslice b a (a + n)) = n.
Proof.
  intros. rewrite getslice_in by done. unfold blen in *.
  rewrite length_take, length_drop. lia.
Qed.

Lemma setslice_in b a chunk :
  0 ≤ a → a + blen chunk ≤ blen b →
  setslice b a (a + blen chunk) chunk = blit b a chunk.
Proof.
  intros. pose proof (blen_nonneg chunk).
  unfold setslice, blit. rewrite !py_clamp_in by lia.
  do 3 f_equal. unfold blen. lia.
Qed.

Lemma pack_into_I_in b off v :
  0 ≤ v < 4294967296 → 0 ≤ off → off + 4 ≤ blen b →
  pack_into_I b off v = Some (blit b off (le_bytes_of_u32 v)).
Proof.
  intros. unfold pack_into_I.
  destruct ((v <? 0) || (4294967295 <? v)) eqn:E.
  { apply orb_true_iff in E as [?|?]; lia. }
  by rewrite struct_offset_in.
Qed.

Lemma unpack_from_I_in b off :
  0 ≤ off → off + 4 ≤ blen b →
  unpack_from_I b off = Some (u32_of_le_bytes (take 4 (drop (Z.to_nat off) b))).
Proof. intros. unfold unpack_from_I. by rewrite struct_offset_in. Qed.

Lemma unpack_from_I_range b off v :
  unpack_from_I b off = Some v → 0 ≤ v < 4294967296.
Proof.
  unfold unpack_from_I. destruct (struct_offset _ _ _); [|done].
  intros [= <-]. apply u32_of_le_bytes_range.
Qed.

Lemma unpack_from_B_range b off v : unpack_from_B b off = Some v → 0 ≤ v < 256.
Proof.
  unfold unpack_from_B. destruct (struct_offset _ _ _); [|done]. simpl.
  destruct (drop _ _); [done|]. intros [= <-]. apply Z_of_byte_range.
Qed.

End Codec.

(** * Rows: serialization round trip *)

Section Rows.

Lemma ascii_field_spec n s :
  ascii_field n s = true →
  py_len s ≤ n
  ∧ forallb is_ascii_char (chars s) = true
  ∧ Forall (λ c, c ≠ zero) (chars s).
Proof.
  unfold ascii_field. intros [Hl Hf]%andb_true_iff. split; [lia|].
  rewrite forallb_forall in Hf. split.
  - apply forallb_forall. intros c Hc. by apply Hf, andb_true_iff in Hc as [? _].
  - apply Forall_forall. intros c Hc%list_elem_of_In.
    apply Hf, andb_true_iff in Hc as [_ Hc]. intros ->.
    by rewrite Ascii.eqb_refl in Hc.
Qed.

Lemma encode_ascii_Some s :
  forallb is_ascii_char (chars s) = true →
  encode_ascii s = Some (byte_of_ascii <$> chars s).
Proof. intros H. unfold encode_ascii. by rewrite H. Qed.

Lemma chars_length s : length (chars s) = String.length s.
Proof. unfold chars. induction s; simpl; congruence. Qed.

Lemma pack_s_short n (s : bytes) :
  blen s ≤ n → pack_s n s = s ++ zero_bytes (n - blen s).
Proof.
  intros. unfold pack_s. rewrite take_ge by (unfold blen in *; lia). done.
Qed.

Lemma pack_s_blen n (s : bytes) : 0 ≤ n → blen (pack_s n s) = n.
Proof.
  intros. unfold pack_s. rewrite blen_app.
  assert (blen (take (Z.to_nat n) s) ≤ n).
  { unfold blen. rewrite length_take. lia. }
  rewrite blen_zero_bytes by lia. lia.
Qed.

Lemma row_image_blen row : blen (row_image row) = ROW_SIZE.
Proof.
  unfold row_image. rewrite !blen_app, !pack_s_blen by done. done.
Qed.

Lemma to_N_byte_of_ascii c : Byte.to_N (byte_of_ascii c) = N_of_ascii c.
Proof.
  pose proof (byte_of_ascii_via_N c) as H. symmetry in H.
  by apply Byte.to_of_N in H.
Qed.

Lemma rstrip_nul_chars_zeros k : rstrip_nul_chars (replicate k zero) = [].
Proof. induction k as [|k IH]; simpl; [done|]. by rewrite IH. Qed.

Lemma rstrip_nul_chars_padded l k :
  Forall (λ c, c ≠ zero) l → rstrip_nul_chars (l ++ replicate k zero) = l.
Proof.
  induction 1 as [|c l Hc Hl IH]; simpl.
  - apply rstrip_nul_chars_zeros.
  - rewrite IH. destruct l; [|done].
    destruct (Ascii.eqb c zero) eqn:E; [|done].
    by apply Ascii.eqb_eq in E.
Qed.

Lemma ascii_of_byte_of_ascii_list (l : list ascii) :
  map ascii_of_byte (byte_of_ascii <$> l) = l.
Proof.
  induction l as [|c l IH]; [done|].
  rewrite fmap_cons. simpl. by rewrite ascii_of_byte_of_ascii, IH.
Qed.

Lemma map_zero_bytes n :
  map ascii_of_byte (zero_bytes n) = replicate (Z.to_nat n) zero.
Proof.
  unfold zero_bytes. induction (Z.to_nat n) as [|k IH]; simpl; [done|].
  by rewrite IH.
Qed.

(** Decoding a NUL-padded column and stripping the padding. *)
Lemma decode_padded n s :
  ascii_field n s = true →
  rstrip_nul <$> decode_ascii (pack_s n (byte_of_ascii <$> chars s)) = Some s.
Proof.
  intros (Hlen & Hascii & Hnul)%ascii_field_spec.
  assert (blen (byte_of_ascii <$> chars s) = py_len s) as Hb.
  { unfold blen, py_len. by rewrite length_fmap, chars_length. }
  rewrite pack_s_short by lia.
  unfold decode_ascii.
  assert (forallb (λ x, (Byte.to_N x <? 128)%N)
            ((byte_of_ascii <$> chars s) ++ zero_bytes (n - blen (byte_of_ascii <$> chars s)))
          = true) as ->.
  { rewrite forallb_app. apply andb_true_iff. split.
    - rewrite forallb_forall in Hascii. apply forallb_forall.
      intros x (c & Hx & Hc)%in_map_iff. subst x. rewrite to_N_byte_of_ascii.
      by apply Hascii.
    - apply forallb_forall. intros x Hx%list_elem_of_In.
      apply elem_of_replicate in Hx as [-> _]. done. }
  simpl. f_equal. unfold rstrip_nul, chars.
  rewrite list_ascii_of_string_of_list_ascii.
  rewrite map_app, ascii_of_byte_of_ascii_list, map_zero_bytes.
  rewrite rstrip_nul_chars_padded by done.
  apply string_of_list_ascii_of_string.
Qed.

Lemma deserialize_row_image row :
  serializable row → deserialize_row (row_image row) = Returns row.
Proof.
  intros (Hid & Hu & He).
  unfold deserialize_row, unpack_row.
  rewrite row_image_blen, Z.eqb_refl.
  pose proof (pack_s_blen COLUMN_USERNAME_SIZE
                (byte_of_ascii <$> chars (username row)) ltac:(done)) as HU.
  pose proof (pack_s_blen COLUMN_EMAIL_SIZE
                (byte_of_ascii <$> chars (email row)) ltac:(done)) as HE.
  unfold row_image.
  set (U := pack_s COLUMN_USERNAME_SIZE _) in *.
  set (E := pack_s COLUMN_EMAIL_SIZE _) in *.
  unfold blen in HU, HE.
  rewrite take_app_length' by done.
  rewrite drop_app_length' by done.
  rewrite take_app_length' by (unfold COLUMN_USERNAME_SIZE in *; lia).
  rewrite (app_assoc _ U E).
  rewrite drop_app_length'
    by (rewrite length_app; unfold COLUMN_USERNAME_SIZE in *; simpl; lia).
  rewrite take_ge by (unfold COLUMN_EMAIL_SIZE in *; lia).
  rewrite u32_le_roundtrip by done.
  pose proof (decode_padded _ _ Hu) as Du. pose proof (decode_padded _ _ He) as De.
  fold U in Du. fold E in De.
  destruct (decode_ascii U) as [u|]; [|done].
  destruct (decode_ascii E) as [e|]; [|done].
  simpl in Du, De. injection Du as ->. injection De as ->.
  by destruct row.
Qed.

Lemma pack_into_row_in (b : bytes) off row :
  serializable row → 0 ≤ off → off + ROW_SIZE ≤ blen b →
  pack_into_row b off (id row) (byte_of_ascii <$> chars (username row))
    (byte_of_ascii <$> chars (email row))
  = Some (blit b off (row_image row)).
Proof.
  intros (Hid & _ & _) ? ?. unfold pack_into_row.
  destruct ((id row <? 0) || (4294967295 <? id row)) eqn:E.
  { apply orb_true_iff in E as [?|?]; lia. }
  by rewrite struct_offset_in.
Qed.

Lemma serialize_row_ok row node off t :
  serializable row → 0 ≤ off → off + ROW_SIZE ≤ blen (page_bytes t node) →
  ∃ t', serialize_row row node off t = Ok () t'
        ∧ page_bytes t' node = blit (page_bytes t node) off (row_image row)
        ∧ (∀ n, n ≠ node → page_bytes t' n = page_bytes t n)
        ∧ num_pages (pager t') = num_pages (pager t).
Proof.
  intros Hrow ? ?. pose proof Hrow as (_ & Hu & He).
  apply ascii_field_spec in Hu as (_ & Hu & _).
  apply ascii_field_spec in He as (_ & He & _).
  unfold serialize_row. rewrite !encode_ascii_Some by done.
  destruct (pages (pager t) !! node) as [b|] eqn:Hc.
  2:{ unfold page_bytes in *. rewrite Hc in *. unfold blen in *. simpl in *.
      layout. lia. }
  assert (page_bytes t node = b) as Hpb by (unfold page_bytes; by rewrite Hc).
  rewrite Hpb in *.
  unfold update_buf, buf, set_buf, mbind, M_bind. rewrite Hc.
  rewrite pack_into_row_in by done. rewrite Hc.
  eexists. split; [done|]. unfold page_bytes, set_page. simpl.
  split; [by rewrite lookup_insert_eq|]. split; [|done].
  intros n Hn. by rewrite lookup_insert_ne.
Qed.

End Rows.

(** C6, as amended.  For every row whose id fits an unsigned 32-bit
    integer and whose username and email are ASCII strings of at most 32
    and 255 characters without NUL, [serialize_row] writes into the page
    291 bytes: the id as 4 little-endian bytes followed by the two
    NUL-padded columns; [deserialize_row] on these bytes returns the
    original row. *)
Theorem row_roundtrip (row : Row) (t : Table) (node off : Z) :
  0 ≤ id row < 4294967296 →
  ascii_field COLUMN_USERNAME_SIZE (username row) = true →
  ascii_field COLUMN_EMAIL_SIZE (email row) = true →
  0 ≤ off → off + ROW_SIZE ≤ blen (page_bytes t node) →
  ∃ t', serialize_row row node off t = Ok () t'
    ∧ getslice (page_bytes t' node) off (off + ROW_SIZE) = row_image row
    ∧ blen (row_image row) = 291
    ∧ deserialize_row (getslice (page_bytes t' node) off (off + ROW_SIZE))
      = Returns row.
Proof.
  intros Hid Hu He Hoff Hlen.
  assert (serializable row) as Hrow by done.
  destruct (serialize_row_ok row node off t Hrow Hoff Hlen)
    as (t' & Hrun & Hpage & _).
  exists t'. split; [done|].
  pose proof (row_image_blen row) as Hb.
  assert (getslice (page_bytes t' node) off (off + ROW_SIZE) = row_image row) as Hs.
  { rewrite Hpage.
    rewrite getslice_in; [|done|done|by rewrite blit_blen; lia].
    replace (Z.to_nat ROW_SIZE) with (length (row_image row))
      by (unfold blen in Hb; lia).
    apply take_drop_blit_same; lia. }
  rewrite Hs. split; [done|]. split; [done|].
  by apply deserialize_row_image.
Qed.

Lemma row_roundtrip_witness :
  ∃ t', serialize_row (mkRow 7 "alice" "alice@example.com") 0
          (LEAF_NODE_HEADER_SIZE + LEAF_NODE_KEY_SIZE)
          (mkTable (mkPager [] 1 {[ 0 := zero_bytes PAGE_SIZE ]}) 0) = Ok () t'
    ∧ getslice (page_bytes t' 0) 18 (18 + ROW_SIZE)
      = row_image (mkRow 7 "alice" "alice@example.com")
    ∧ blen (row_image (mkRow 7 "alice" "alice@example.com")) = 291
    ∧ deserialize_row (getslice (page_bytes t' 0) 18 (18 + ROW_SIZE))
      = Returns (mkRow 7 "alice" "alice@example.com").
Proof.
  apply (row_roundtrip (mkRow 7 "alice" "alice@example.com")); simpl;
    [lia| reflexivity | reflexivity | lia | vm_compute; congruence].
Defined.

(** C6, as stated, fails when the id does not fit 32 bits: the strings
    are fine, and [serialize_row] raises [struct.error]. *)
Lemma row_roundtrip_needs_u32 :
  ascii_field COLUMN_USERNAME_SIZE "a" = true
  ∧ ascii_field COLUMN_EMAIL_SIZE "b" = true
  ∧ serialize_row (mkRow 4294967296 "a" "b") 0 18
      (mkTable (mkPager [] 1 {[ 0 := zero_bytes PAGE_SIZE ]}) 0)
    = Raise StructError "serialize_row".
Proof. by vm_compute. Qed.

(** * The pager *)

Lemma blen_miss_page (f : bytes) pos :
  blen (setslice (zero_bytes PAGE_SIZE) 0 (blen (file_read f pos PAGE_SIZE))
          (file_read f pos PAGE_SIZE)) = PAGE_SIZE.
Proof.
  set (r := file_read f pos PAGE_SIZE).
  assert (blen r ≤ PAGE_SIZE).
  { unfold r, file_read, blen. rewrite length_take. layout. lia. }
  pose proof (blen_nonneg r).
  replace (blen r) with (0 + blen r) at 1 by lia.
  rewrite setslice_in; [|lia|rewrite blen_zero_bytes by done; lia].
  rewrite blit_blen; [|lia|rewrite blen_zero_bytes by done; lia].
  by rewrite blen_zero_bytes.
Qed.

Lemma cache_ok_insert t n (b : bytes) np r :
  cache_ok t → blen b = PAGE_SIZE → 0 ≤ n < np → num_pages (pager t) ≤ np →
  cache_ok (mkTable (mkPager (file (pager t)) np (<[n := b]> (pages (pager t)))) r).
Proof.
  intros Hok Hb Hn Hnp k b'. simpl.
  destruct (decide (n = k)) as [->|Hne].
  - rewrite lookup_insert_eq. by intros [= <-].
  - rewrite lookup_insert_ne by done. intros [? ?]%Hok. split; [done|lia].
Qed.

Lemma Pager_init_cache_ok content p r :
  Pager_init content = Some p → cache_ok (mkTable p r).
Proof.
  unfold Pager_init. destruct (negb _); [done|]. intros [= <-] n b. simpl.
  by rewrite lookup_empty.
Qed.

(** C7. [get_page n] is fatal exactly when [n > TABLE_MAX_PAGES]; for a
    page number (a non-negative integer) within the cap it returns a
    buffer of [PAGE_SIZE] bytes and leaves [num_pages] at the maximum of
    its previous value and [n + 1]; no pager operation ever decreases
    [num_pages]. *)
Theorem get_page_spec (t : Table) (n : Z) :
  cache_ok t → 0 ≤ n →
  TABLE_MAX_PAGES = 400
  ∧ (get_page n t = Fatal ↔ n > TABLE_MAX_PAGES)
  ∧ (n ≤ TABLE_MAX_PAGES →
     ∃ t', get_page n t = Ok n t'
       ∧ blen (page_bytes t' n) = PAGE_SIZE
       ∧ num_pages (pager t') = Z.max (num_pages (pager t)) (n + 1)
       ∧ cache_ok t')
  ∧ (∀ k a t', get_page k t = Ok a t' →
       num_pages (pager t) ≤ num_pages (pager t'))
  ∧ (∀ k a t', flush k t = Ok a t' →
       num_pages (pager t) ≤ num_pages (pager t'))
  ∧ (∀ a t', get_unused_page_num t = Ok a t' →
       a = num_pages (pager t) ∧ num_pages (pager t) ≤ num_pages (pager t')).
Proof.
  intros Hok Hn. split; [done|]. split; [|split; [|split; [|split]]].
  - unfold get_page.
    destruct (n >? TABLE_MAX_PAGES) eqn:E; [split; [lia|done]|].
    split; [|lia].
    destruct (pages (pager t) !! n); [done|].
    destruct ((n <? num_pages (pager t)) && (n <? 0)); done.
  - intros Hcap. unfold get_page.
    destruct (n >? TABLE_MAX_PAGES) eqn:E; [lia|].
    destruct (pages (pager t) !! n) as [b|] eqn:Hc.
    + exists t. split; [done|]. unfold page_bytes. rewrite Hc. simpl.
      destruct (Hok _ _ Hc) as [? ?]. split; [done|]. split; [lia|done].
    + replace (n <? 0) with false by lia. rewrite andb_false_r.
      eexists. split; [done|]. unfold page_bytes. simpl.
      rewrite lookup_insert_eq. simpl.
      assert (blen (if n <? num_pages (pager t)
                    then setslice (zero_bytes PAGE_SIZE) 0
                           (blen (file_read (file (pager t)) (n * PAGE_SIZE) PAGE_SIZE))
                           (file_read (file (pager t)) (n * PAGE_SIZE) PAGE_SIZE)
                    else zero_bytes PAGE_SIZE) = PAGE_SIZE) as Hb.
      { destruct (n <? num_pages (pager t));
          [apply blen_miss_page | by apply blen_zero_bytes]. }
      split; [done|]. split.
      * destruct (n >=? num_pages (pager t)) eqn:E2; lia.
      * apply cache_ok_insert; [done|done|..];
          destruct (n >=? num_pages (pager t)) eqn:E2; lia.
  - intros k a t'. unfold get_page.
    destruct (k >? TABLE_MAX_PAGES); [done|].
    destruct (pages (pager t) !! k); [by intros [= _ <-]|].
    destruct ((k <? num_pages (pager t)) && (k <? 0)); [done|].
    intros [= _ <-]. simpl.
    destruct (k >=? num_pages (pager t)) eqn:E2; lia.
  - intros k a t'. unfold flush.
    destruct (pages (pager t) !! k); [|done].
    destruct (k <? 0); [done|]. by intros [= _ <-].
  - intros a t'. unfold get_unused_page_num. by intros [= <- <-].
Qed.

Lemma get_page_spec_witness :
  ∃ t', get_page 3 (mkTable (mkPager [] 1 {[ 0 := zero_bytes PAGE_SIZE ]}) 0)
        = Ok 3 t'
    ∧ blen (page_bytes t' 3) = PAGE_SIZE
    ∧ num_pages (pager t') = Z.max 1 (3 + 1)
    ∧ cache_ok t'.
Proof.
  refine (proj1 (proj2 (proj2
    (get_page_spec (mkTable (mkPager [] 1 {[ 0 := zero_bytes PAGE_SIZE ]}) 0) 3
       _ _))) _).
  - intros n b. simpl. intros [<- <-]%lookup_singleton_Some.
    split; [reflexivity|lia].
  - lia.
  - vm_compute. congruence.
Defined.

(** * The statement parser *)



Lemma username_33_too_long :
  (prepare_statement ("insert 1 " +:+ a_times 33 +:+ " b") new_statement).1
  = STRING_TOO_LONG.
Proof. reflexivity. Qed.

(** * Lines the parser accepts and the executor cannot store *)

(** C10, as stated, fails for its first example: with the id token
    4294967296 the exception is not raised in [serialize_row]. *)
Lemma oversized_id_not_in_serialize_row :
  accepted "insert 4294967296 a b" = true
  ∧ ¬ ∃ e, on_fresh_table
             (execute_insert 4 4 (statement_of_line "insert 4294967296 a b"))
           = Raise e "serialize_row".
Proof.
  split; [reflexivity|]. intros [e H]. vm_compute in H. discriminate H.
Qed.

(** C10, as amended.  There are insert lines accepted by
    [prepare_statement] for which [execute_insert] raises an unhandled
    exception instead of returning a result: an id token of 4294967296
    (the parser bounds the id only from below) makes [struct.pack_into]
    raise [struct.error] in [set_leaf_node_key], before [serialize_row] is
    reached; a username with a non-ASCII character within the length limit
    (the parser checks the length, not the character set) makes [encode]
    raise [UnicodeEncodeError] in [serialize_row]. *)
Theorem accepted_lines_raise :
  accepted "insert 4294967296 a b" = true
  ∧ on_fresh_table
      (execute_insert 4 4 (statement_of_line "insert 4294967296 a b"))
    = Raise StructError "set_leaf_node_key"
  ∧ accepted ("insert 1 " +:+ e_acute +:+ " b") = true
  ∧ py_len e_acute ≤ COLUMN_USERNAME_SIZE
  ∧ on_fresh_table
      (execute_insert 4 4 (statement_of_line ("insert 1 " +:+ e_acute +:+ " b")))
    = Raise UnicodeEncodeError "serialize_row".
Proof. repeat split; by vm_compute. Qed.

(** * The root flag *)

Section RootFlag.

Implicit Types (b chunk : bytes) (t : Table) (X : Z → Prop).

Lemma is_root_of_lookup b :
  is_root_of b = match b !! 1%nat with
                 | Some x => negb (Z_of_byte x =? 0)
                 | None => false
                 end.
Proof.
  unfold is_root_of, unpack_from_B, struct_offset. layout. simpl.
  destruct (blen b - 1 <? 1) eqn:E; simpl.
  - rewrite lookup_ge_None_2; [done|]. unfold blen in E. lia.
  - change (Z.to_nat 1) with 1%nat.
    destruct b as [|x0 [|x1 b]]; simpl; try done.
Qed.

Lemma is_root_of_ext b b' : b' !! 1%nat = b !! 1%nat → is_root_of b' = is_root_of b.
Proof. intros H. by rewrite !is_root_of_lookup, H. Qed.

Lemma blit_header b pos chunk (i : nat) :
  0 ≤ pos → pos + blen chunk ≤ blen b → (Z.of_nat i < pos) →
  blit b pos chunk !! i = b !! i.
Proof.
  intros. rewrite blit_lookup by done. case_decide; [lia|done].
Qed.

Lemma pack_into_I_flag_safe off v : 2 ≤ off → flag_safe (λ b, pack_into_I b off v).
Proof.
  intros Hoff b b' Hp Hb. unfold pack_into_I in Hp.
  destruct ((v <? 0) || (4294967295 <? v)); [done|].
  destruct (struct_offset (blen b) off 4) as [pos|] eqn:E; [|done].
  simpl in Hp. injection Hp as <-.
  assert (pos = off) as -> by (eapply struct_offset_nonneg; [|done]; lia).
  apply struct_offset_Some in E as [? ?]; [|lia|apply blen_nonneg].
  split.
  - rewrite blit_blen; [done|lia|]. by unfold blen at 1.
  - apply blit_header; [lia| |lia]. by unfold blen at 1.
Qed.

Lemma pack_into_B_type_flag_safe v : flag_safe (λ b, pack_into_B b NODE_TYPE_OFFSET v).
Proof.
  intros b b' Hp Hb. unfold pack_into_B in Hp.
  destruct ((v <? 0) || (255 <? v)); [done|].
  destruct (struct_offset (blen b) NODE_TYPE_OFFSET 1) as [pos|] eqn:E; [|done].
  simpl in Hp. injection Hp as <-.
  assert (pos = NODE_TYPE_OFFSET) as ->
    by (eapply struct_offset_nonneg; [|done]; done).
  apply struct_offset_Some in E as [? ?]; [|lia|apply blen_nonneg].
  layout. split.
  - rewrite blit_blen; [done|lia|]. by unfold blen at 1.
  - rewrite blit_lookup; [|lia|by unfold blen at 1].
    case_decide as Hd; [simpl in Hd; lia|done].
Qed.

Lemma pack_into_row_flag_safe off v ub eb :
  2 ≤ off → flag_safe (λ b, pack_into_row b off v ub eb).
Proof.
  intros Hoff b b' Hp Hb. unfold pack_into_row in Hp.
  destruct ((v <? 0) || (4294967295 <? v)); [done|].
  destruct (struct_offset (blen b) off ROW_SIZE) as [pos|] eqn:E; [|done].
  assert (blen (le_bytes_of_u32 v ++ pack_s COLUMN_USERNAME_SIZE ub
                ++ pack_s COLUMN_EMAIL_SIZE eb) = ROW_SIZE) as Hl.
  { rewrite !blen_app, !pack_s_blen by done. done. }
  set (chunk := le_bytes_of_u32 v ++ _) in *.
  unfold mbind, option_bind in Hp. injection Hp as <-.
  assert (pos = off) as -> by (eapply struct_offset_nonneg; [|done]; lia).
  apply struct_offset_Some in E as [? ?]; [|done|apply blen_nonneg].
  layout. split.
  - rewrite blit_blen; [done|lia|lia].
  - apply blit_header; [lia|lia|lia].
Qed.

Lemma setslice_flag_safe a c (g : bytes → bytes) :
  LEAF_NODE_HEADER_SIZE ≤ a → flag_safe (λ b, Some (setslice b a c (g b))).
Proof.
  intros Ha b b' [= <-] Hb. layout. unfold setslice.
  assert (14 ≤ py_clamp (blen b) a ≤ blen b) as Hc.
  { unfold py_clamp. destruct (a <? 0) eqn:E; lia. }
  split.
  - rewrite blen_app. unfold blen at 1. rewrite length_take.
    pose proof (blen_nonneg (g b ++ drop (Z.to_nat (Z.max (py_clamp (blen b) a)
                 (py_clamp (blen b) c))) b)).
    unfold blen in *. lia.
  - rewrite lookup_app_l by (rewrite length_take; unfold blen in *; lia).
    apply lookup_take_lt. lia.
Qed.

(** ** Pages of the database under cache loads and buffer updates *)

Lemma node_view_set_page t n b m :
  node_view (set_page t n b) m = if decide (n = m) then b else node_view t m.
Proof.
  unfold node_view, set_page. simpl. case_decide as Hd.
  - subst. by rewrite lookup_insert_eq.
  - by rewrite lookup_insert_ne.
Qed.

Lemma blen_miss_page_gen p n : blen (miss_page p n) = PAGE_SIZE.
Proof.
  unfold miss_page. destruct (n <? num_pages p).
  - apply blen_miss_page.
  - by apply blen_zero_bytes.
Qed.

Lemma miss_page_past_file p n :
  0 ≤ n → blen (file p) ≤ n * PAGE_SIZE → miss_page p n = zero_bytes PAGE_SIZE.
Proof.
  intros Hn Hf. unfold miss_page. destruct (n <? num_pages p); [|done].
  unfold file_read. rewrite drop_ge by (unfold blen in Hf; lia).
  rewrite take_nil. done.
Qed.

Lemma node_view_load t n m :
  pager_inv t → 0 ≤ m → node_view (load t n) m = node_view t m.
Proof.
  intros (Hr & Hnp & Hfile & Hc) Hm. unfold node_view, load.
  destruct (pages (pager t) !! n) as [bn|] eqn:En; [done|]. simpl.
  destruct (decide (n = m)) as [->|Hne].
  { by rewrite lookup_insert_eq, En. }
  rewrite lookup_insert_ne by done.
  destruct (pages (pager t) !! m); [done|].
  destruct (n >=? num_pages (pager t)) eqn:E; [|done].
  destruct (decide (m < num_pages (pager t))) as [Hlt|Hge].
  - unfold miss_page. simpl.
    replace (m <? n + 1) with true by lia.
    replace (m <? num_pages (pager t)) with true by lia. done.
  - rewrite !miss_page_past_file; [done|done|..]; simpl; layout; nia.
Qed.

Lemma pager_inv_load t n : pager_inv t → pager_inv (load t n).
Proof.
  intros (Hr & Hnp & Hfile & Hc). unfold load.
  destruct (pages (pager t) !! n) as [bn|] eqn:En; [done|].
  split; [done|]. simpl. split; [|split].
  - destruct (n >=? num_pages (pager t)) eqn:E; lia.
  - destruct (n >=? num_pages (pager t)) eqn:E; layout; lia.
  - intros k b. destruct (decide (n = k)) as [->|Hne].
    + rewrite lookup_insert_eq. intros [= <-]. rewrite blen_miss_page_gen.
      by layout.
    + rewrite lookup_insert_ne by done. apply Hc.
Qed.

Lemma pager_inv_set_page t n b :
  pager_inv t → LEAF_NODE_HEADER_SIZE ≤ blen b → pager_inv (set_page t n b).
Proof.
  intros (Hr & Hnp & Hfile & Hc) Hb. split; [done|]. simpl.
  split; [done|]. split; [done|].
  intros k b'. destruct (decide (n = k)) as [->|Hne].
  - rewrite lookup_insert_eq. by intros [= <-].
  - rewrite lookup_insert_ne by done. apply Hc.
Qed.

Lemma root_inv_load X t n : root_inv X t → root_inv X (load t n).
Proof.
  intros [Hp Hf]. split; [by apply pager_inv_load|].
  intros m Hm HX. rewrite node_view_load by done. by apply Hf.
Qed.

Lemma root_inv_weaken X X' t : root_inv X t → (∀ n, X n → X' n) → root_inv X' t.
Proof. intros [Hp Hf] HX. split; [done|]. intros n Hn Hn'. apply Hf; auto. Qed.

Lemma node_view_cached t n b : pages (pager t) !! n = Some b → node_view t n = b.
Proof. intros H. unfold node_view. by rewrite H. Qed.

(** A buffer update that leaves the flag alone keeps the invariant. *)
Lemma root_inv_set_page X t n b b' :
  root_inv X t → pages (pager t) !! n = Some b →
  LEAF_NODE_HEADER_SIZE ≤ blen b' → b' !! 1%nat = b !! 1%nat →
  root_inv X (set_page t n b').
Proof.
  intros [Hp Hf] Hc Hl Hb. split; [by apply pager_inv_set_page|].
  intros m Hm HX. rewrite node_view_set_page.
  destruct (decide (n = m)) as [Hd|Hd].
  - subst. rewrite (is_root_of_ext _ _ Hb).
    rewrite <- (node_view_cached _ _ _ Hc). by apply Hf.
  - by apply Hf.
Qed.

(** Any buffer goes, on an exempted page. *)
Lemma root_inv_set_page_exempt X t n b' :
  root_inv X t → X n → LEAF_NODE_HEADER_SIZE ≤ blen b' →
  root_inv X (set_page t n b').
Proof.
  intros [Hp Hf] HXn Hl. split; [by apply pager_inv_set_page|].
  intros m Hm HX. rewrite node_view_set_page.
  destruct (decide (n = m)) as [Hd|Hd].
  - by subst.
  - by apply Hf.
Qed.

(** Writing the right flag lifts the exemption. *)
Lemma root_inv_set_page_fix X t n b' :
  root_inv X t → LEAF_NODE_HEADER_SIZE ≤ blen b' →
  is_root_of b' = bool_decide (n = 0) →
  root_inv (λ m, X m ∧ m ≠ n) (set_page t n b').
Proof.
  intros [Hp Hf] Hl Hb. split; [by apply pager_inv_set_page|].
  intros m Hm HX. rewrite node_view_set_page.
  destruct (decide (n = m)) as [Hd|Hd].
  - rewrite Hb. by rewrite Hd.
  - apply Hf; [done|]. intros HXm. apply HX. split; [done|congruence].
Qed.

End RootFlag.

(** * Every operation keeps the root flag where it is *)

Create HintDb keeps discriminated.

#[local] Hint Extern 2 (_ ≤ _) => (layout; lia) : keeps.
#[local] Hint Extern 2 (_ < _) => (layout; lia) : keeps.
#[local] Hint Extern 2 (_ ≠ _) => (layout; lia) : keeps.

(** One step of a proof that a computation keeps an invariant. *)
Ltac kstep :=
  lazymatch goal with
  | |- keeps _ (mret _) _ => apply keeps_ret
  | |- keeps _ fatal _ => apply keeps_fatal
  | |- keeps _ (raise _ _) _ => apply keeps_raise
  | |- keeps _ out_of_fuel _ => apply keeps_out_of_fuel
  | |- keeps _ (_ ≫= _) _ =>
      eapply keeps_bind; [solve [eauto 6 with keeps] | cbv beta]
  | |- keeps _ (if ?c then _ else _) _ => destruct c eqn:?
  | |- keeps _ (match ?x with _ => _ end) _ => destruct x eqn:?
  end.

Section Keeps.

Context (X : Z → Prop).

Local Notation I := (root_inv X).

Lemma keeps_get_page n : keeps I (get_page n) (λ r, r = n).
Proof.
  intros t Ht. apply wp_get_page; [done|done|].
  intros _. split; [by apply root_inv_load|done].
Qed.

Lemma keeps_get_unused_page_num : keeps I get_unused_page_num (λ r, 1 ≤ r).
Proof.
  intros t Ht. apply wp_get_unused_page_num. split; [done|].
  by destruct Ht as [(_ & ? & _) _].
Qed.

Lemma keeps_get_root_page_num : keeps I get_root_page_num (λ r, r = 0).
Proof.
  intros t Ht. apply wp_get_root_page_num. split; [done|].
  by destruct Ht as [(? & _) _].
Qed.

Lemma keeps_read_buf {A} fn n (f : bytes → option A) (R : A → Prop) :
  (∀ b v, f b = Some v → R v) → keeps I (read_buf fn n f) R.
Proof.
  intros HR t Ht. apply wp_read_buf; [done|done|].
  intros b v _ Hv. split; [done|]. by eapply HR.
Qed.

Lemma keeps_read_I fn n off :
  keeps I (read_buf fn n (λ b, unpack_from_I b off)) (λ v, 0 ≤ v < 4294967296).
Proof. apply keeps_read_buf. intros b v. apply unpack_from_I_range. Qed.

Lemma keeps_read_B fn n off :
  keeps I (read_buf fn n (λ b, unpack_from_B b off)) (λ v, 0 ≤ v < 256).
Proof. apply keeps_read_buf. intros b v. apply unpack_from_B_range. Qed.

Lemma keeps_update_buf fn n f :
  flag_safe f → keeps I (update_buf fn n f) (λ _, True).
Proof.
  intros Hf t Ht. apply wp_update_buf; [done|done|].
  intros b b' Hb Hfb. split; [|done].
  destruct Ht as [Hp Hfl]. pose proof Hp as (_ & _ & _ & Hc).
  destruct (Hf b b' Hfb (Hc _ _ Hb)) as [? ?].
  by eapply root_inv_set_page.
Qed.

Lemma keeps_modify n (g : bytes → bytes) :
  flag_safe (λ b, Some (g b)) →
  keeps I (b ← buf n; set_buf n (g b)) (λ _, True).
Proof.
  intros Hg t Ht. apply wp_bind, wp_buf; [done|].
  intros b Hb. apply wp_set_buf; [done|]. intros _ _. split; [|done].
  destruct Ht as [Hp Hfl]. pose proof Hp as (_ & _ & _ & Hc).
  destruct (Hg b (g b) eq_refl (Hc _ _ Hb)) as [? ?].
  by eapply root_inv_set_page.
Qed.

Lemma keeps_copy o n (g : bytes → bytes → bytes) :
  (∀ ob, flag_safe (λ b, Some (g ob b))) →
  keeps I (ob ← buf o; db ← buf n; set_buf n (g ob db)) (λ _, True).
Proof.
  intros Hg t Ht. apply wp_bind, wp_buf; [done|].
  intros ob Hob. apply wp_bind, wp_buf; [done|].
  intros b Hb. apply wp_set_buf; [done|]. intros _ _. split; [|done].
  destruct Ht as [Hp Hfl]. pose proof Hp as (_ & _ & _ & Hc).
  destruct (Hg ob b (g ob b) eq_refl (Hc _ _ Hb)) as [? ?].
  by eapply root_inv_set_page.
Qed.

(** ** Accessors *)

Lemma keeps_get_node_type n : keeps I (get_node_type n) (λ _, True).
Proof.
  unfold get_node_type. eapply keeps_bind; [apply keeps_read_B|].
  intros v _. repeat kstep; done.
Qed.

Lemma keeps_set_node_type n ty : keeps I (set_node_type n ty) (λ _, True).
Proof. apply keeps_update_buf, pack_into_B_type_flag_safe. Qed.

Lemma keeps_is_node_root n : keeps I (is_node_root n) (λ _, True).
Proof.
  unfold is_node_root. eapply keeps_bind; [apply keeps_read_B|].
  intros v _. by kstep.
Qed.

Lemma keeps_node_parent n : keeps I (node_parent n) (λ v, 0 ≤ v).
Proof.
  eapply keeps_weaken; [apply keeps_read_I|]. simpl. intros; lia.
Qed.

Lemma keeps_set_node_parent n v : keeps I (set_node_parent n v) (λ _, True).
Proof. apply keeps_update_buf, pack_into_I_flag_safe. by layout. Qed.

Lemma keeps_leaf_node_num_cells n : keeps I (leaf_node_num_cells n) (λ v, 0 ≤ v).
Proof.
  eapply keeps_weaken; [apply keeps_read_I|]. simpl. intros; lia.
Qed.

Lemma keeps_set_leaf_node_num_cells n v :
  keeps I (set_leaf_node_num_cells n v) (λ _, True).
Proof. apply keeps_update_buf, pack_into_I_flag_safe. by layout. Qed.

Lemma keeps_leaf_node_next_leaf n : keeps I (leaf_node_next_leaf n) (λ v, 0 ≤ v).
Proof.
  eapply keeps_weaken; [apply keeps_read_I|]. simpl. intros; lia.
Qed.

Lemma keeps_set_leaf_node_next_leaf n v :
  keeps I (set_leaf_node_next_leaf n v) (λ _, True).
Proof. apply keeps_update_buf, pack_into_I_flag_safe. by layout. Qed.

Lemma keeps_leaf_node_key n c : keeps I (leaf_node_key n c) (λ v, 0 ≤ v).
Proof.
  eapply keeps_weaken; [apply keeps_read_I|]. simpl. intros; lia.
Qed.

Lemma keeps_set_leaf_node_key n c k :
  0 ≤ c → keeps I (set_leaf_node_key n c k) (λ _, True).
Proof.
  intros. apply keeps_update_buf, pack_into_I_flag_safe.
  unfold leaf_node_cell_offset. layout. lia.
Qed.

Lemma keeps_internal_node_num_keys n :
  keeps I (internal_node_num_keys n) (λ v, 0 ≤ v).
Proof.
  eapply keeps_weaken; [apply keeps_read_I|]. simpl. intros; lia.
Qed.

Lemma keeps_set_internal_node_num_keys n v :
  keeps I (set_internal_node_num_keys n v) (λ _, True).
Proof. apply keeps_update_buf, pack_into_I_flag_safe. by layout. Qed.

Lemma keeps_internal_node_right_child n :
  keeps I (internal_node_right_child n) (λ v, 0 ≤ v).
Proof.
  eapply keeps_weaken; [apply keeps_read_I|]. simpl. intros; lia.
Qed.

Lemma keeps_set_internal_node_right_child n v :
  keeps I (set_internal_node_right_child n v) (λ _, True).
Proof. apply keeps_update_buf, pack_into_I_flag_safe. by layout. Qed.

Lemma keeps_internal_node_key n k : keeps I (internal_node_key n k) (λ v, 0 ≤ v).
Proof.
  eapply keeps_weaken; [apply keeps_read_I|]. simpl. intros; lia.
Qed.

Lemma keeps_set_internal_node_key n k v :
  0 ≤ k → keeps I (set_internal_node_key n k v) (λ _, True).
Proof.
  intros. apply keeps_update_buf, pack_into_I_flag_safe.
  unfold internal_node_cell_offset. layout. lia.
Qed.

Lemma keeps_serialize_row row n off :
  2 ≤ off → keeps I (serialize_row row n off) (λ _, True).
Proof.
  intros. unfold serialize_row.
  destruct (encode_ascii (username row)); [|apply keeps_raise].
  destruct (encode_ascii (email row)); [|apply keeps_raise].
  by apply keeps_update_buf, pack_into_row_flag_safe.
Qed.

End Keeps.

#[export] Hint Resolve keeps_get_page keeps_get_unused_page_num
  keeps_get_root_page_num keeps_get_node_type keeps_set_node_type
  keeps_is_node_root keeps_node_parent keeps_set_node_parent
  keeps_leaf_node_num_cells keeps_set_leaf_node_num_cells
  keeps_leaf_node_next_leaf keeps_set_leaf_node_next_leaf
  keeps_leaf_node_key keeps_set_leaf_node_key
  keeps_internal_node_num_keys keeps_set_internal_node_num_keys
  keeps_internal_node_right_child keeps_set_internal_node_right_child
  keeps_internal_node_key keeps_set_internal_node_key
  keeps_serialize_row : keeps.

(** ** The writes of the flag itself *)

Lemma pack_into_B_root_flag (b b' : bytes) (v : bool) :
  pack_into_B b IS_ROOT_OFFSET (if v then 1 else 0) = Some b' →
  LEAF_NODE_HEADER_SIZE ≤ blen b →
  LEAF_NODE_HEADER_SIZE ≤ blen b' ∧ is_root_of b' = v.
Proof.
  intros Hp Hb. unfold pack_into_B in Hp.
  destruct ((_ <? 0) || (255 <? _)); [done|].
  destruct (struct_offset (blen b) IS_ROOT_OFFSET 1) as [pos|] eqn:E; [|done].
  set (chunk := [byte_of_Z (if v then 1 else 0)]) in *.
  unfold mbind, option_bind in Hp. injection Hp as <-.
  assert (pos = IS_ROOT_OFFSET) as ->
    by (eapply struct_offset_nonneg; [|done]; done).
  apply struct_offset_Some in E as [? ?]; [|lia|apply blen_nonneg].
  layout. split.
  - rewrite blit_blen; [done|lia|]. unfold chunk, blen at 1. simpl. lia.
  - rewrite is_root_of_lookup, blit_lookup;
      [|lia|unfold chunk, blen at 1; simpl; lia].
    case_decide as Hd; [|simpl in Hd; lia].
    unfold chunk. simpl. destruct v; by vm_compute.
Qed.

Section FlagWrites.

Context (X : Z → Prop).

(** Writing the flag a page must have keeps the invariant, and lifts the
    page's exemption. *)
Lemma keeps2_set_node_root_lift n (v : bool) :
  v = bool_decide (n = 0) →
  keeps2 (root_inv X) (root_inv (λ m, X m ∧ m ≠ n)) (set_node_root n v)
         (λ _, True).
Proof.
  intros Hv t Ht. apply wp_update_buf; [done|done|].
  intros b b' Hb Hp. destruct Ht as [Hpi Hfl].
  pose proof Hpi as (_ & _ & _ & Hc).
  destruct (pack_into_B_root_flag b b' v Hp (Hc _ _ Hb)) as [Hl Hr].
  split; [|done]. apply root_inv_set_page_fix; [done|done|]. by rewrite Hr.
Qed.

Lemma keeps_set_node_root n (v : bool) :
  v = bool_decide (n = 0) → keeps (root_inv X) (set_node_root n v) (λ _, True).
Proof.
  intros Hv. eapply keeps2_conseq;
    [by apply keeps2_set_node_root_lift|done| |done].
  intros t Ht. eapply root_inv_weaken; [exact Ht|]. by intros m [? _].
Qed.

Lemma keeps_set_node_root_exempt n (v : bool) :
  X n → keeps (root_inv X) (set_node_root n v) (λ _, True).
Proof.
  intros HX t Ht. apply wp_update_buf; [done|done|].
  intros b b' Hb Hp. destruct Ht as [Hpi Hfl].
  pose proof Hpi as (_ & _ & _ & Hc).
  destruct (pack_into_B_root_flag b b' v Hp (Hc _ _ Hb)) as [Hl Hr].
  split; [|done]. by apply root_inv_set_page_exempt.
Qed.

Lemma keeps_set_node_root_false n :
  n ≠ 0 → keeps (root_inv X) (set_node_root n false) (λ _, True).
Proof.
  intros. apply keeps_set_node_root. by rewrite bool_decide_eq_false_2.
Qed.

Lemma keeps_initialize_leaf_node n :
  n ≠ 0 → keeps (root_inv X) (initialize_leaf_node n) (λ _, True).
Proof.
  intros. unfold initialize_leaf_node.
  kstep. intros _ _.
  eapply keeps_bind; [by apply keeps_set_node_root_false|cbv beta]. intros _ _.
  kstep. intros _ _. eauto with keeps.
Qed.

Lemma keeps_initialize_internal_node n :
  n ≠ 0 → keeps (root_inv X) (initialize_internal_node n) (λ _, True).
Proof.
  intros. unfold initialize_internal_node.
  kstep. intros _ _.
  eapply keeps_bind; [by apply keeps_set_node_root_false|cbv beta]. intros _ _.
  kstep. intros _ _. eauto with keeps.
Qed.

Lemma keeps_initialize_internal_node_exempt n :
  X n → keeps (root_inv X) (initialize_internal_node n) (λ _, True).
Proof.
  intros. unfold initialize_internal_node.
  kstep. intros _ _.
  eapply keeps_bind; [by apply keeps_set_node_root_exempt|cbv beta]. intros _ _.
  kstep. intros _ _. eauto with keeps.
Qed.

Lemma keeps_initialize_leaf_node_exempt n :
  X n → keeps (root_inv X) (initialize_leaf_node n) (λ _, True).
Proof.
  intros. unfold initialize_leaf_node.
  kstep. intros _ _.
  eapply keeps_bind; [by apply keeps_set_node_root_exempt|cbv beta]. intros _ _.
  kstep. intros _ _. eauto with keeps.
Qed.

Lemma keeps_internal_node_child n c :
  keeps (root_inv X) (internal_node_child n c) (λ v, 0 ≤ v).
Proof.
  unfold internal_node_child. kstep. intros num_keys _.
  repeat kstep; eauto with keeps.
  eapply keeps_weaken; [apply keeps_read_I|]. simpl. intros; lia.
Qed.

Lemma keeps_set_internal_node_child n c p :
  0 ≤ c → keeps (root_inv X) (set_internal_node_child n c p) (λ _, True).
Proof.
  intros. unfold set_internal_node_child. kstep. intros num_keys _.
  kstep; [eauto with keeps|].
  apply keeps_update_buf, pack_into_I_flag_safe.
  unfold internal_node_cell_offset. layout. lia.
Qed.

Lemma keeps_get_node_max_key d n :
  keeps (root_inv X) (get_node_max_key d n) (λ v, 0 ≤ v).
Proof.
  revert n. induction d as [|d IH]; intros n; simpl; [apply keeps_out_of_fuel|].
  kstep. intros ty _. destruct ty.
  - kstep. intros rc _. kstep. intros r ->. apply IH.
  - kstep. intros nc _. eauto with keeps.
Qed.

Lemma keeps_find_child_loop fuel node key lo hi :
  0 ≤ lo → 0 ≤ hi →
  keeps (root_inv X) (find_child_loop fuel node key lo hi) (λ r, 0 ≤ r).
Proof.
  revert lo hi. induction fuel as [|fuel IH]; intros lo hi Hlo Hhi; simpl;
    [apply keeps_out_of_fuel|].
  destruct (negb (lo =? hi)); [|by apply keeps_ret].
  assert (0 ≤ (lo + hi) / 2) by (apply Z.div_pos; lia).
  kstep. intros k _. destruct (k >=? key); apply IH; lia.
Qed.

Lemma keeps_internal_node_find_child node key :
  keeps (root_inv X) (internal_node_find_child node key) (λ r, 0 ≤ r).
Proof.
  unfold internal_node_find_child. kstep. intros nk Hnk. simpl in Hnk.
  by apply keeps_find_child_loop.
Qed.

Lemma keeps_leaf_find_loop fuel node key lo hi :
  0 ≤ lo → 0 ≤ hi →
  keeps (root_inv X) (leaf_find_loop fuel node key lo hi) (λ r, 0 ≤ r).
Proof.
  revert lo hi. induction fuel as [|fuel IH]; intros lo hi Hlo Hhi; simpl;
    [apply keeps_out_of_fuel|].
  destruct (negb (hi =? lo)); [|by apply keeps_ret].
  assert (0 ≤ (lo + hi) / 2) by (apply Z.div_pos; lia).
  kstep. intros k _. destruct (key =? k); [by apply keeps_ret|].
  destruct (key <? k); apply IH; lia.
Qed.

Lemma keeps_leaf_node_find page key :
  keeps (root_inv X) (leaf_node_find page key) (λ c, 0 ≤ cell_num c).
Proof.
  unfold leaf_node_find. kstep. intros node ->.
  kstep. intros nc Hnc. simpl in Hnc.
  eapply keeps_bind; [by apply keeps_leaf_find_loop|cbv beta].
  intros c Hc. by apply keeps_ret.
Qed.

Lemma keeps_internal_node_find d page key :
  keeps (root_inv X) (internal_node_find d page key) (λ c, 0 ≤ cell_num c).
Proof.
  revert page. induction d as [|d IH]; intros page; simpl;
    [apply keeps_out_of_fuel|].
  kstep. intros node ->.
  eapply keeps_bind; [apply keeps_internal_node_find_child|cbv beta]. intros ci _.
  eapply keeps_bind; [apply keeps_internal_node_child|cbv beta]. intros cn _.
  kstep. intros child ->. kstep. intros ty _.
  destruct ty; [apply IH|apply keeps_leaf_node_find].
Qed.

Lemma keeps_table_find d key :
  keeps (root_inv X) (table_find d key) (λ c, 0 ≤ cell_num c).
Proof.
  unfold table_find. kstep. intros r ->. kstep. intros node ->.
  kstep. intros ty _.
  destruct ty; [apply keeps_internal_node_find|apply keeps_leaf_node_find].
Qed.

Lemma keeps_update_internal_node_key node old_key new_key :
  keeps (root_inv X) (update_internal_node_key node old_key new_key) (λ _, True).
Proof.
  unfold update_internal_node_key.
  eapply keeps_bind; [apply keeps_internal_node_find_child|cbv beta].
  intros i Hi. simpl in Hi. eauto with keeps.
Qed.

End FlagWrites.

#[export] Hint Resolve keeps_internal_node_child keeps_get_node_max_key
  keeps_internal_node_find_child keeps_leaf_node_find keeps_internal_node_find
  keeps_table_find keeps_update_internal_node_key : keeps.

(** ** The tree operations keep the root flag on page 0 *)

Section TreeOps.

Local Notation I0 := (root_inv no_page).

Lemma keeps_buf X n : keeps (root_inv X) (buf n) (λ b, LEAF_NODE_HEADER_SIZE ≤ blen b).
Proof.
  intros t Ht. apply wp_buf; [done|]. intros b Hb. split; [done|].
  destruct Ht as [(_ & _ & _ & Hc) _]. by eapply Hc.
Qed.

Ltac fold_keeps :=
  lazymatch goal with
  | |- keeps2 ?I ?I ?m ?R => change (keeps I m R)
  end.

(** [left_child[:] = root[:]] puts a second root flag on the new page,
    until [set_node_root(left_child, False)] clears it. *)
Lemma keeps2_set_buf_exempt n (b : bytes) :
  LEAF_NODE_HEADER_SIZE ≤ blen b →
  keeps2 I0 (root_inv (only_page n)) (set_buf n b) (λ _, True).
Proof.
  intros Hb t Ht. apply wp_set_buf; [done|]. intros _ _. split; [|done].
  apply root_inv_set_page_exempt; [|done|done].
  eapply root_inv_weaken; [done|]. by intros m [].
Qed.

Lemma keeps2_set_node_root_restore n (v : bool) :
  v = bool_decide (n = 0) →
  keeps2 (root_inv (only_page n)) I0 (set_node_root n v) (λ _, True).
Proof.
  intros Hv. eapply keeps2_conseq;
    [by apply (keeps2_set_node_root_lift (only_page n) n v)|done| |done].
  intros t Ht. eapply root_inv_weaken; [exact Ht|].
  unfold only_page. intros m [? ?]. done.
Qed.

(** [initialize_internal_node(root)] clears the flag of page 0, until
    [set_node_root(root, True)] sets it again. *)
Lemma keeps2_initialize_root :
  keeps2 I0 (root_inv (only_page 0)) (initialize_internal_node 0) (λ _, True).
Proof.
  eapply keeps2_conseq;
    [apply (keeps_initialize_internal_node_exempt (only_page 0) 0)
    | |done|done]; [done|].
  intros t Ht. eapply root_inv_weaken; [exact Ht|]. by intros m [].
Qed.

Lemma keeps_reparent left_child left_child_page_num :
  keeps I0
    (n ← internal_node_num_keys left_child;
     for_each (py_range n) (λ i,
       child_page_num ← internal_node_child left_child i;
       child_node ← get_page child_page_num;
       set_node_parent child_node left_child_page_num);;
     right_child_of_left ← internal_node_right_child left_child;
     child_node ← get_page right_child_of_left;
     set_node_parent child_node left_child_page_num) (λ _, True).
Proof.
  kstep. intros n _.
  eapply keeps_bind; [|cbv beta].
  { apply keeps_for_each. intros i _. kstep. intros cp _.
    kstep. intros cn ->. eauto with keeps. }
  intros _ _. kstep. intros rc _. kstep. intros cn ->. eauto with keeps.
Qed.

Lemma keeps_create_new_root d right_child_page_num :
  right_child_page_num ≠ 0 →
  keeps I0 (create_new_root d right_child_page_num) (λ _, True).
Proof.
  intros Hrc. unfold create_new_root.
  kstep. intros r ->. kstep. intros root ->. kstep. intros rc ->.
  kstep. intros left Hleft. kstep. intros lc ->. kstep. intros ty _.
  eapply (keeps_bind _ _ _ (λ _, True)); [|cbv beta].
  { destruct ty; [|by apply keeps_ret].
    eapply keeps_bind; [apply keeps_initialize_internal_node; lia|cbv beta].
    intros _ _. apply keeps_initialize_internal_node. lia. }
  intros _ _.
  eapply keeps_bind; [apply keeps_buf|cbv beta]. intros rb Hrb.
  apply (keeps2_bind _ (root_inv (only_page left)) _ _ _ (λ _, True));
    [by apply keeps2_set_buf_exempt|]. intros _ _.
  apply (keeps2_bind _ I0 _ _ _ (λ _, True)).
  { apply keeps2_set_node_root_restore. rewrite bool_decide_eq_false_2; [done|lia]. }
  intros _ _. fold_keeps.
  kstep. intros tyl _.
  eapply (keeps_bind _ _ _ (λ _, True)); [|cbv beta].
  { destruct tyl; [apply keeps_reparent|by apply keeps_ret]. }
  intros _ _.
  apply (keeps2_bind _ (root_inv (only_page 0)) _ _ _ (λ _, True));
    [apply keeps2_initialize_root|]. intros _ _.
  apply (keeps2_bind _ I0 _ _ _ (λ _, True));
    [by apply keeps2_set_node_root_restore|]. intros _ _. fold_keeps.
  kstep. intros _ _.
  eapply keeps_bind; [by apply keeps_set_internal_node_child|cbv beta].
  intros _ _. kstep. intros m _.
  eapply keeps_bind; [by apply keeps_set_internal_node_key|cbv beta].
  intros _ _. kstep. intros _ _. kstep. intros _ _. eauto with keeps.
Qed.


Lemma keeps_internal_node_split_and_insert_with
    (insert : Z → Z → M unit) d parent_page_num child_page_num :
  (∀ p c, keeps I0 (insert p c) (λ _, True)) →
  keeps I0 (internal_node_split_and_insert_with insert d
              parent_page_num child_page_num) (λ _, True).
Proof.
  intros Hins. unfold internal_node_split_and_insert_with.
  kstep. intros old_node ->. kstep. intros old_max _.
  kstep. intros child ->. kstep. intros child_max _.
  kstep. intros new_page_num Hnew. kstep. intros splitting_root _.
  eapply (keeps_bind _ _ _ (λ _, True)); [|cbv beta].
  { destruct splitting_root.
    - eapply keeps_bind; [apply keeps_create_new_root; lia|cbv beta].
      intros _ _. kstep. intros r ->. kstep. intros parent ->.
      kstep. intros opn _. kstep. intros on ->. by apply keeps_ret.
    - kstep. intros pp _. kstep. intros parent ->. kstep. intros nn ->.
      eapply keeps_bind; [apply keeps_initialize_internal_node; lia|cbv beta].
      intros _ _. by apply keeps_ret. }
  intros [[parent old_page_num] old_node] _.
  kstep. intros old_num_keys _. kstep. intros cur_page_num _.
  kstep. intros cur ->. kstep. intros _ _. kstep. intros _ _.
  kstep. intros _ _.
  eapply (keeps_bind _ _ _ (λ _, True)); [|cbv beta].
  { apply keeps_for_fold; [done|]. intros i s _ _.
    kstep. intros cp _. kstep. intros c ->. kstep. intros _ _.
    kstep. intros _ _. kstep. intros _ _. by apply keeps_ret. }
  intros old_num_keys' _. kstep. intros new_right _.
  kstep. intros _ _. kstep. intros _ _. kstep. intros max_after _.
  kstep. intros _ _. kstep. intros _ _. kstep. intros new_old_max _.
  kstep. intros _ _.
  destruct (negb splitting_root); [|by apply keeps_ret].
  kstep. intros gp _. kstep. intros _ _. kstep. intros nn ->.
  kstep. intros np _. eauto with keeps.
Qed.

Lemma keeps_internal_node_insert d fuel parent_page_num child_page_num :
  keeps I0 (internal_node_insert d fuel parent_page_num child_page_num)
        (λ _, True).
Proof.
  revert parent_page_num child_page_num.
  induction fuel as [|fuel IH]; intros parent_page_num child_page_num; simpl;
    [apply keeps_out_of_fuel|].
  kstep. intros parent ->. kstep. intros child ->.
  kstep. intros child_max_key _. kstep. intros index Hindex.
  kstep. intros original_num_keys Horig.
  destruct (original_num_keys >=? INTERNAL_NODE_MAX_KEYS).
  { by apply keeps_internal_node_split_and_insert_with. }
  kstep. intros right_child_page_num _.
  destruct (right_child_page_num =? INVALID_PAGE_NUM); [eauto with keeps|].
  kstep. intros right_child ->. kstep. intros _ _.
  kstep. intros right_max _.
  destruct (child_max_key >? right_max).
  - eapply keeps_bind; [by apply keeps_set_internal_node_child|cbv beta].
    intros _ _. kstep. intros right_max' _.
    eapply keeps_bind; [by apply keeps_set_internal_node_key|cbv beta].
    intros _ _. eauto with keeps.
  - eapply (keeps_bind _ _ _ (λ _, True)); [|cbv beta].
    { apply keeps_for_each. intros i Hi%elem_of_py_range_down.
      apply (keeps_modify _ _ (λ b,
        setslice b (internal_node_cell_offset i)
          (internal_node_cell_offset i + INTERNAL_NODE_CELL_SIZE)
          (getslice b (internal_node_cell_offset (i - 1))
             (internal_node_cell_offset (i - 1) + INTERNAL_NODE_CELL_SIZE)))).
      apply setslice_flag_safe. unfold internal_node_cell_offset. layout. lia. }
    intros _ _.
    eapply keeps_bind; [by apply keeps_set_internal_node_child|cbv beta].
    intros _ _. by apply keeps_set_internal_node_key.
Qed.

Lemma keeps_leaf_node_split_cells d cursor key value :
  keeps I0 (leaf_node_split_cells d cursor key value)
        (λ '(old_node, old_max, new_page_num), new_page_num ≠ 0).
Proof.
  unfold leaf_node_split_cells.
  kstep. intros old_node ->. kstep. intros old_max _.
  kstep. intros new_page_num Hnew. kstep. intros new_node ->.
  eapply keeps_bind; [apply keeps_initialize_leaf_node; lia|cbv beta].
  intros _ _. kstep. intros old_parent _. kstep. intros _ _.
  kstep. intros old_next _. kstep. intros _ _. kstep. intros _ _.
  eapply (keeps_bind _ _ _ (λ _, True)); [|cbv beta].
  { apply keeps_for_each. intros i Hi%elem_of_py_range_down.
    set (dest := if i >=? LEAF_NODE_LEFT_SPLIT_COUNT then new_page_num
                 else page_num cursor).
    assert (0 ≤ i `mod` LEAF_NODE_LEFT_SPLIT_COUNT)
      by (apply Z.mod_pos_bound; by layout).
    assert (LEAF_NODE_HEADER_SIZE
            ≤ leaf_node_cell_offset (i `mod` LEAF_NODE_LEFT_SPLIT_COUNT))
      by (unfold leaf_node_cell_offset; layout; lia).
    destruct (i =? cell_num cursor).
    - eapply (keeps_bind _ _ _ (λ _, True)); [|cbv beta].
      { apply keeps_update_buf, pack_into_I_flag_safe. layout. lia. }
      intros _ _. apply keeps_serialize_row. layout. lia.
    - set (src_off := if i >? cell_num cursor then leaf_node_cell_offset (i - 1)
                      else leaf_node_cell_offset i).
      apply (keeps_copy _ _ _ (λ ob b,
        setslice b (leaf_node_cell_offset (i `mod` LEAF_NODE_LEFT_SPLIT_COUNT))
          (leaf_node_cell_offset (i `mod` LEAF_NODE_LEFT_SPLIT_COUNT)
           + LEAF_NODE_CELL_SIZE)
          (getslice ob src_off (src_off + LEAF_NODE_CELL_SIZE)))).
      intros ob. by apply setslice_flag_safe. }
  intros _ _. kstep. intros _ _. kstep. intros _ _.
  apply keeps_ret. lia.
Qed.

Lemma keeps_leaf_node_split_link d fuel old_node old_max new_page_num :
  new_page_num ≠ 0 →
  keeps I0 (leaf_node_split_link d fuel old_node old_max new_page_num)
        (λ _, True).
Proof.
  intros. unfold leaf_node_split_link. kstep. intros is_root _.
  destruct is_root; [by apply keeps_create_new_root|].
  kstep. intros pp _. kstep. intros new_max _. kstep. intros parent ->.
  kstep. intros _ _. apply keeps_internal_node_insert.
Qed.

Lemma keeps_leaf_node_split_and_insert d fuel cursor key value :
  keeps I0 (leaf_node_split_and_insert d fuel cursor key value) (λ _, True).
Proof.
  unfold leaf_node_split_and_insert.
  eapply keeps_bind; [apply keeps_leaf_node_split_cells|cbv beta].
  intros [[old_node old_max] new_page_num] Hnew.
  by apply keeps_leaf_node_split_link.
Qed.

Lemma keeps_leaf_node_insert d fuel cursor key value :
  0 ≤ cell_num cursor →
  keeps I0 (leaf_node_insert d fuel cursor key value) (λ _, True).
Proof.
  intros Hc. unfold leaf_node_insert.
  kstep. intros node ->. kstep. intros num_cells _.
  destruct (num_cells >=? LEAF_NODE_MAX_CELLS);
    [apply keeps_leaf_node_split_and_insert|].
  eapply (keeps_bind _ _ _ (λ _, True)); [|cbv beta].
  { destruct (cell_num cursor <? num_cells); [|by apply keeps_ret].
    apply keeps_for_each. intros i Hi%elem_of_py_range_down.
    apply (keeps_modify _ _ (λ b,
      setslice b (leaf_node_cell_offset i)
        (leaf_node_cell_offset i + LEAF_NODE_CELL_SIZE)
        (getslice b (leaf_node_cell_offset (i - 1))
           (leaf_node_cell_offset (i - 1) + LEAF_NODE_CELL_SIZE)))).
    apply setslice_flag_safe. unfold leaf_node_cell_offset. layout. lia. }
  intros _ _. kstep. intros _ _.
  eapply keeps_bind; [by apply keeps_set_leaf_node_key|cbv beta].
  intros _ _. apply keeps_serialize_row.
  unfold leaf_node_value_offset, leaf_node_cell_offset. layout. lia.
Qed.

End TreeOps.

#[export] Hint Resolve keeps_internal_node_insert keeps_leaf_node_insert : keeps.

(** ** The executor and the main loop keep the root flag on page 0 *)

Section TopLevel.

Local Notation I0 := (root_inv no_page).

Lemma keeps_table_start d : keeps I0 (table_start d) (λ _, True).
Proof.
  unfold table_start. kstep. intros cursor _. kstep. intros node ->.
  kstep. intros nc _. by apply keeps_ret.
Qed.

Lemma keeps_cursor_advance cursor : keeps I0 (cursor_advance cursor) (λ _, True).
Proof.
  unfold cursor_advance. kstep. intros node ->. kstep. intros nc _.
  simpl. destruct (_ >=? nc); [|by apply keeps_ret].
  kstep. intros next _. destruct (next =? 0); by apply keeps_ret.
Qed.

Lemma keeps_execute_insert d fuel statement :
  keeps I0 (execute_insert d fuel statement) (λ _, True).
Proof.
  unfold execute_insert. destruct (row_to_insert statement) as [row|];
    [|apply keeps_raise].
  kstep. intros cursor Hc. kstep. intros node ->. kstep. intros nc _.
  eapply (keeps_bind _ _ _ (λ _, True)); [|cbv beta].
  { destruct (cell_num cursor <? nc); [|by apply keeps_ret].
    kstep. intros k _. by apply keeps_ret. }
  intros duplicate _. destruct duplicate; [by apply keeps_ret|].
  eapply keeps_bind; [by apply keeps_leaf_node_insert|cbv beta].
  intros _ _. by apply keeps_ret.
Qed.

Lemma keeps_select_loop n cursor : keeps I0 (select_loop n cursor) (λ _, True).
Proof.
  revert cursor. induction n as [|n IH]; intros cursor; simpl;
    [apply keeps_out_of_fuel|].
  destruct (negb (end_of_table cursor)); [|by apply keeps_ret].
  kstep. intros node ->.
  eapply keeps_bind; [apply keeps_buf|cbv beta]. intros b _.
  destruct (deserialize_row _); [|apply keeps_raise].
  eapply keeps_bind; [apply keeps_cursor_advance|cbv beta]. intros c _.
  eapply keeps_bind; [apply IH|cbv beta]. intros rows _. by apply keeps_ret.
Qed.

Lemma keeps_execute_select d n : keeps I0 (execute_select d n) (λ _, True).
Proof.
  unfold execute_select, execute_select_rows.
  eapply (keeps_bind _ _ _ (λ _, True)); [|cbv beta].
  { eapply keeps_bind; [apply keeps_table_start|cbv beta].
    intros c _. apply keeps_select_loop. }
  intros rows _. by apply keeps_ret.
Qed.

Lemma keeps_execute_statement d fuel n statement :
  keeps I0 (execute_statement d fuel n statement) (λ _, True).
Proof.
  unfold execute_statement. destruct (stmt_type statement) as [[]|].
  - eapply keeps_bind; [apply keeps_execute_insert|cbv beta].
    intros r _. by apply keeps_ret.
  - eapply keeps_bind; [apply keeps_execute_select|cbv beta].
    intros [out r] _. by apply keeps_ret.
  - by apply keeps_ret.
Qed.

Lemma keeps_print_tree d page level : keeps I0 (print_tree d page level) (λ _, True).
Proof.
  revert page level. induction d as [|d IH]; intros page level; simpl;
    [apply keeps_out_of_fuel|].
  kstep. intros node ->. kstep. intros ty _. destruct ty.
  - kstep. intros nk _. destruct (nk >? 0); [|by apply keeps_ret].
    eapply (keeps_bind _ _ _ (λ _, True)); [|cbv beta].
    { apply keeps_for_lines. intros i _. kstep. intros child _.
      eapply keeps_bind; [apply IH|cbv beta]. intros sub _.
      kstep. intros k _. by apply keeps_ret. }
    intros body _. kstep. intros child _.
    eapply keeps_bind; [apply IH|cbv beta]. intros sub _. by apply keeps_ret.
  - kstep. intros nk _.
    eapply (keeps_bind _ _ _ (λ _, True)); [|cbv beta].
    { apply keeps_for_lines. intros i _. kstep. intros k _. by apply keeps_ret. }
    intros keys _. by apply keeps_ret.
Qed.

(** A computation that ends in [sys.exit(0)] never returns. *)
Lemma hoare_then_exit {A B} (P : Table → Prop) (m : M A) (Q : B → Table → Prop) :
  hoare P (m;; exit0) Q.
Proof.
  intros t _. unfold wp_gen, mbind, M_bind. by destruct (m t).
Qed.

Lemma keeps_do_meta_command d user_input :
  keeps I0 (do_meta_command d user_input) (λ _, True).
Proof.
  unfold do_meta_command.
  destruct (String.eqb user_input ".exit"); [apply hoare_then_exit|].
  destruct (String.eqb user_input ".btree").
  { eapply keeps_bind; [apply keeps_print_tree|cbv beta].
    intros lines _. by apply keeps_ret. }
  destruct (String.eqb user_input ".constants"); by apply keeps_ret.
Qed.

Lemma keeps_repl_round d fuel n user_input :
  keeps I0 (repl_round d fuel n user_input) (λ _, True).
Proof.
  unfold repl_round.
  eapply (keeps_bind _ _ _ (λ _, True)); [|cbv beta].
  { destruct (String.prefix "." user_input); [|by apply keeps_ret].
    eapply keeps_bind; [apply keeps_do_meta_command|cbv beta].
    intros [out []] _; by apply keeps_ret. }
  intros [out|] _; [by apply keeps_ret|].
  destruct (prepare_statement user_input new_statement) as [[] statement];
    try by apply keeps_ret.
  eapply keeps_bind; [apply keeps_execute_statement|cbv beta].
  intros [out r] _. by apply keeps_ret.
Qed.

Lemma root_inv_unique_root t : root_inv no_page t → unique_root t.
Proof.
  intros [(Hr & _) Hf]. split; [done|]. intros n Hn.
  apply Hf; [done|]. by intros [].
Qed.

Lemma top_step_root_inv t t' : root_inv no_page t → top_step t t' → root_inv no_page t'.
Proof.
  intros Ht (d & fuel & n & line & out & Hrun).
  pose proof (keeps_repl_round d fuel n line t Ht) as H.
  unfold wp_gen in H. rewrite Hrun in H. by destruct H.
Qed.

Lemma is_root_of_zero_page : is_root_of (zero_bytes PAGE_SIZE) = false.
Proof. by vm_compute. Qed.

(** A fresh database. *)
Lemma root_inv_first_page :
  root_inv (only_page 0)
    (mkTable (mkPager [] 1 {[ 0 := zero_bytes PAGE_SIZE ]}) 0).
Proof.
  split.
  - split; [done|]. simpl. split; [done|]. split; [done|].
    intros n b [<- <-]%lookup_singleton_Some.
    rewrite blen_zero_bytes by done. by layout.
  - intros n Hn Hne. unfold only_page in Hne. unfold node_view. simpl.
    rewrite lookup_singleton_ne by done.
    rewrite bool_decide_eq_false_2 by done.
    unfold miss_page. simpl. replace (n <? 1) with false by lia.
    apply is_root_of_zero_page.
Qed.

Lemma Table_init_fresh t0 : Table_init [] = Ok () t0 → root_inv no_page t0.
Proof.
  unfold Table_init. change (Pager_init []) with (Some (mkPager [] 0 ∅)).
  simpl. intros H.
  assert (keeps2 (root_inv (only_page 0)) I0
            (initialize_leaf_node 0;; set_node_root 0 true) (λ _, True)) as Hk.
  { apply (keeps2_bind _ (root_inv (only_page 0)) _ _ _ (λ _, True)).
    - by apply keeps_initialize_leaf_node_exempt.
    - intros _ _. by apply keeps2_set_node_root_restore. }
  specialize (Hk _ root_inv_first_page). unfold wp_gen in Hk.
  unfold mbind, M_bind at 1 in H.
  rewrite get_page_load in H; [|by layout|simpl; lia].
  unfold load in H. simpl in H. rewrite lookup_empty in H.
  change (miss_page _ 0) with (zero_bytes PAGE_SIZE) in H.
  change ((initialize_leaf_node 0;; set_node_root 0 true)
            (mkTable (mkPager [] 1 {[ 0 := zero_bytes PAGE_SIZE ]}) 0)
          = Ok () t0) in H.
  rewrite H in Hk. by destruct Hk.
Qed.

Lemma blit_all (b chunk : bytes) : blen chunk = blen b → blit b 0 chunk = chunk.
Proof.
  intros H. unfold blit. simpl. rewrite drop_ge by (unfold blen in H; lia).
  by rewrite app_nil_r.
Qed.

(** A database file that is well formed. *)
Lemma Table_init_well_formed content t0 :
  well_formed_file content → Table_init content = Ok () t0 →
  root_inv no_page t0.
Proof.
  intros [Hlen Hflags]. unfold Table_init, Pager_init.
  destruct (negb (blen content `mod` PAGE_SIZE =? 0)) eqn:Emod; [done|].
  apply negb_false_iff, Z.eqb_eq in Emod.
  assert (blen content = PAGE_SIZE * (blen content / PAGE_SIZE)) as Hdiv
    by (apply Z.div_exact; [by layout|done]).
  simpl. set (np := blen content / PAGE_SIZE) in *.
  assert (1 ≤ np) by (layout; nia).
  replace (np =? 0) with false by lia. intros [= <-].
  split.
  - split; [done|]. simpl. split; [done|]. split; [lia|].
    intros n b. by rewrite lookup_empty.
  - intros n Hn _. unfold node_view. simpl. rewrite lookup_empty.
    unfold miss_page. simpl. destruct (n <? np) eqn:E.
    + assert (blen (file_read content (n * PAGE_SIZE) PAGE_SIZE) = PAGE_SIZE) as Hr.
      { unfold file_read, blen. rewrite length_take, length_drop.
        unfold blen in *. layout. nia. }
      rewrite Hr. replace PAGE_SIZE with (0 + blen (file_read content (n * PAGE_SIZE) PAGE_SIZE)) at 2 by lia.
      rewrite setslice_in; [|lia|rewrite Hr, blen_zero_bytes; layout; lia].
      rewrite blit_all by (by rewrite Hr, blen_zero_bytes).
      apply Hflags; [done|]. layout. nia.
    + rewrite is_root_of_zero_page. rewrite bool_decide_eq_false_2; [done|lia].
Qed.

End TopLevel.

(** * Fields of a page *)

Section Fields.

Implicit Types (b chunk : bytes) (off pos v : Z).

Lemma u32_at_range b off : 0 ≤ u32_at b off < 4294967296.
Proof. apply u32_of_le_bytes_range. Qed.

Lemma unpack_from_I_u32_at b off :
  0 ≤ off → off + 4 ≤ blen b → unpack_from_I b off = Some (u32_at b off).
Proof. intros. by rewrite unpack_from_I_in. Qed.

Lemma unpack_from_B_u8_at b off :
  0 ≤ off → off + 1 ≤ blen b → unpack_from_B b off = Some (u8_at b off).
Proof.
  intros. unfold unpack_from_B, u8_at. rewrite struct_offset_in by lia. simpl.
  destruct (drop (Z.to_nat off) b) as [|x l] eqn:E.
  - apply (f_equal length) in E. rewrite length_drop in E.
    unfold blen in *. simpl in E. lia.
  - assert (b !! Z.to_nat off = Some x) as ->; [|done].
    rewrite <- (Nat.add_0_r (Z.to_nat off)), <- lookup_drop. by rewrite E.
Qed.

Lemma pack_into_B_in b off v :
  0 ≤ v < 256 → 0 ≤ off → off + 1 ≤ blen b →
  pack_into_B b off v = Some (blit b off [byte_of_Z v]).
Proof.
  intros. unfold pack_into_B.
  destruct ((v <? 0) || (255 <? v)) eqn:E.
  { apply orb_true_iff in E as [?|?]; lia. }
  by rewrite struct_offset_in.
Qed.

(** Reading a field that a write has just set, or has left alone. *)
Lemma u32_at_blit_same b off v :
  0 ≤ off → off + 4 ≤ blen b → 0 ≤ v < 4294967296 →
  u32_at (blit b off (le_bytes_of_u32 v)) off = v.
Proof.
  intros. unfold u32_at.
  change 4%nat with (length (le_bytes_of_u32 v)).
  rewrite (take_drop_blit_same b off (le_bytes_of_u32 v)); [|lia|done].
  by apply u32_le_roundtrip.
Qed.

Lemma u32_at_blit_other b pos chunk off :
  0 ≤ pos → pos + blen chunk ≤ blen b → 0 ≤ off →
  off + 4 ≤ pos ∨ pos + blen chunk ≤ off →
  u32_at (blit b pos chunk) off = u32_at b off.
Proof.
  intros. unfold u32_at. rewrite take_drop_blit_other; [done|done|done|].
  unfold blen in *. lia.
Qed.

Lemma u8_at_blit_same b off v :
  0 ≤ off → off + 1 ≤ blen b → 0 ≤ v < 256 →
  u8_at (blit b off [byte_of_Z v]) off = v.
Proof.
  intros. unfold u8_at. rewrite blit_lookup; [|lia|done].
  case_decide as Hd; [|simpl in Hd; lia].
  rewrite Nat.sub_diag. simpl. by apply Z_of_byte_of_Z.
Qed.

Lemma u8_at_blit_other b pos chunk off :
  0 ≤ pos → pos + blen chunk ≤ blen b → 0 ≤ off →
  off + 1 ≤ pos ∨ pos + blen chunk ≤ off →
  u8_at (blit b pos chunk) off = u8_at b off.
Proof.
  intros. unfold u8_at. rewrite blit_lookup by done.
  case_decide as Hd; [|done]. unfold blen in *. lia.
Qed.

Lemma leaf_cell_blen b i :
  0 ≤ i → leaf_node_cell_offset i + LEAF_NODE_CELL_SIZE ≤ blen b →
  blen (leaf_cell b i) = LEAF_NODE_CELL_SIZE.
Proof.
  intros. unfold leaf_cell, blen in *. rewrite length_take, length_drop.
  unfold leaf_node_cell_offset in *. layout. lia.
Qed.

Lemma leaf_cell_blit_same b i chunk :
  0 ≤ i → blen chunk = LEAF_NODE_CELL_SIZE →
  leaf_node_cell_offset i + LEAF_NODE_CELL_SIZE ≤ blen b →
  leaf_cell (blit b (leaf_node_cell_offset i) chunk) i = chunk.
Proof.
  intros Hi Hc Hb. unfold leaf_cell.
  replace (Z.to_nat LEAF_NODE_CELL_SIZE) with (length chunk)
    by (unfold blen in Hc; lia).
  apply take_drop_blit_same; [unfold leaf_node_cell_offset; layout; lia|lia].
Qed.

Lemma leaf_cell_blit_other b pos chunk i :
  0 ≤ pos → pos + blen chunk ≤ blen b → 0 ≤ i →
  leaf_node_cell_offset i + LEAF_NODE_CELL_SIZE ≤ pos
  ∨ pos + blen chunk ≤ leaf_node_cell_offset i →
  leaf_cell (blit b pos chunk) i = leaf_cell b i.
Proof.
  intros. unfold leaf_cell. rewrite take_drop_blit_other; [done|done|done|].
  unfold blen, leaf_node_cell_offset in *. layout. lia.
Qed.

Lemma getslice_leaf_cell b i :
  0 ≤ i → leaf_node_cell_offset i + LEAF_NODE_CELL_SIZE ≤ blen b →
  getslice b (leaf_node_cell_offset i)
    (leaf_node_cell_offset i + LEAF_NODE_CELL_SIZE) = leaf_cell b i.
Proof.
  intros. rewrite getslice_in; [done| |done|done].
  unfold leaf_node_cell_offset. layout. lia.
Qed.

Lemma blit_blit_adjacent b pos c1 c2 :
  0 ≤ pos → pos + blen c1 + blen c2 ≤ blen b →
  blit (blit b pos c1) (pos + blen c1) c2 = blit b pos (c1 ++ c2).
Proof.
  intros Hp Hl. pose proof (blen_nonneg c1). pose proof (blen_nonneg c2).
  assert (blen (blit b pos c1) = blen b) as Hb1 by (apply blit_blen; lia).
  apply list_eq. intros i.
  rewrite (blit_lookup (blit b pos c1)) by lia.
  rewrite (blit_lookup b pos c1) by lia.
  rewrite (blit_lookup b pos (c1 ++ c2)) by (rewrite ?blen_app; lia).
  rewrite length_app. unfold blen in *.
  repeat case_decide; try lia.
  - rewrite lookup_app_r by lia. f_equal. lia.
  - by rewrite lookup_app_l by lia.
  - done.
Qed.

End Fields.

(** * Running on known pages *)

Section KnownPages.

Context (F U G : Prop).
Local Notation wp := (wp_gen F U G).

Implicit Types (t : Table) (b : bytes).

Lemma pg_set_page_eq t n b : pg (set_page t n b) n b.
Proof. unfold pg, set_page. simpl. by rewrite lookup_insert_eq. Qed.

Lemma pg_set_page_ne t n m b b' : n ≠ m → pg t m b → pg (set_page t n b') m b.
Proof. intros. unfold pg, set_page. simpl. by rewrite lookup_insert_ne. Qed.

Lemma pg_page_bytes t n b : pg t n b → page_bytes t n = b.
Proof. intros H. unfold page_bytes. by rewrite H. Qed.

Lemma wp_buf_pg t n b Q : pg t n b → Q b t → wp (buf n) Q t.
Proof. intros H HQ. unfold wp_gen, buf. by rewrite H. Qed.

Lemma wp_set_buf_pg t n b b' Q :
  pg t n b → Q () (set_page t n b') → wp (set_buf n b') Q t.
Proof. intros H HQ. unfold wp_gen, set_buf. by rewrite H. Qed.

Lemma wp_read_pg {A} fn t n b (f : bytes → option A) v Q :
  pg t n b → f b = Some v → Q v t → wp (read_buf fn n f) Q t.
Proof.
  intros H Hf HQ. unfold read_buf. apply wp_bind. eapply wp_buf_pg; [done|].
  rewrite Hf. by apply wp_ret.
Qed.

Lemma wp_update_pg fn t n b (f : bytes → option bytes) b' Q :
  pg t n b → f b = Some b' → Q () (set_page t n b') →
  wp (update_buf fn n f) Q t.
Proof.
  intros H Hf HQ. unfold update_buf. apply wp_bind. eapply wp_buf_pg; [done|].
  rewrite Hf. by eapply wp_set_buf_pg.
Qed.

Lemma wp_get_page_hit t n b Q :
  pg t n b → n ≤ TABLE_MAX_PAGES → Q n t → wp (get_page n) Q t.
Proof.
  intros H Hn HQ. unfold wp_gen, get_page.
  destruct (n >? TABLE_MAX_PAGES) eqn:E; [lia|]. by rewrite H.
Qed.

(** Reading and writing 32-bit and 8-bit fields of a whole page. *)
Lemma wp_read_u32 fn t n b off Q :
  pg t n b → 0 ≤ off → off + 4 ≤ blen b → Q (u32_at b off) t →
  wp (read_buf fn n (λ b, unpack_from_I b off)) Q t.
Proof.
  intros. eapply wp_read_pg; [done| |done]. by apply unpack_from_I_u32_at.
Qed.

Lemma wp_read_u8 fn t n b off Q :
  pg t n b → 0 ≤ off → off + 1 ≤ blen b → Q (u8_at b off) t →
  wp (read_buf fn n (λ b, unpack_from_B b off)) Q t.
Proof.
  intros. eapply wp_read_pg; [done| |done]. by apply unpack_from_B_u8_at.
Qed.

Lemma wp_write_u32 fn t n b off v Q :
  pg t n b → 0 ≤ off → off + 4 ≤ blen b → 0 ≤ v < 4294967296 →
  Q () (set_page t n (blit b off (le_bytes_of_u32 v))) →
  wp (update_buf fn n (λ b, pack_into_I b off v)) Q t.
Proof.
  intros. eapply wp_update_pg; [done| |done]. by apply pack_into_I_in.
Qed.

Lemma wp_write_u8 fn t n b off v Q :
  pg t n b → 0 ≤ off → off + 1 ≤ blen b → 0 ≤ v < 256 →
  Q () (set_page t n (blit b off [byte_of_Z v])) →
  wp (update_buf fn n (λ b, pack_into_B b off v)) Q t.
Proof.
  intros. eapply wp_update_pg; [done| |done]. by apply pack_into_B_in.
Qed.

Lemma wp_get_node_type_pg t n b Q :
  pg t n b → 1 ≤ blen b →
  (u8_at b 0 = 0 → Q INTERNAL t) → (u8_at b 0 = 1 → Q LEAF t) →
  (u8_at b 0 ≠ 0 → u8_at b 0 ≠ 1 → G) →
  wp (get_node_type n) Q t.
Proof.
  intros Hp Hb H0 H1 HG. unfold get_node_type. apply wp_bind.
  eapply wp_read_u8; [done|done|by layout|]. layout.
  destruct (u8_at b 0 =? 0) eqn:E0; [apply wp_ret, H0; lia|].
  destruct (u8_at b 0 =? 1) eqn:E1; [apply wp_ret, H1; lia|].
  apply wp_raise, HG; lia.
Qed.

(** Loops with an invariant that knows which rounds are done. *)
Lemma wp_for_each_progress {A} (l : list A) (body : A → M unit)
    (Inv : list A → Table → Prop) t :
  Inv [] t →
  (∀ done x rest t', l = done ++ x :: rest → Inv done t' →
     wp (body x) (λ _ t'', Inv (done ++ [x]) t'') t') →
  wp (for_each l body) (λ _ t', Inv l t') t.
Proof.
  intros H0 Hbody.
  assert (∀ done rest t, l = done ++ rest → Inv done t →
            wp (for_each rest body) (λ _ t', Inv l t') t) as Hgen.
  { intros done rest. revert done.
    induction rest as [|x rest IH]; intros done t' Hl Hd; simpl.
    - apply wp_ret. by rewrite Hl, app_nil_r.
    - apply wp_bind. eapply wp_mono; [by eapply Hbody|].
      intros ? t'' Ht''. cbv beta in Ht''. apply (IH (done ++ [x])); [|done].
      by rewrite <- app_assoc. }
  by apply (Hgen [] l).
Qed.

End KnownPages.

(** In a descending range, the rounds already done have larger indices. *)
Lemma py_range_down_split a b done x rest :
  py_range_down a b = done ++ x :: rest →
  b < x ≤ a ∧ (∀ y, y ∈ done ↔ x < y ≤ a).
Proof.
  unfold py_range_down, seqZ. rewrite <- list_fmap_compose.
  remember (Z.to_nat (a - b)) as n eqn:Hn.
  assert (∀ n k done x rest,
    (λ i : nat, a - (Z.of_nat i + k)) <$> seq 0 n = done ++ x :: rest →
    a - k - Z.of_nat n < x ≤ a - k
    ∧ (∀ y, y ∈ done ↔ x < y ≤ a - k)) as Hgen.
  { clear. intros n. induction n as [|n IH]; intros k done x rest Heq.
    { by destruct done. }
    rewrite <- cons_seq, <- fmap_S_seq in Heq. simpl in Heq.
    rewrite <- list_fmap_compose in Heq.
    destruct done as [|y done]; simpl in Heq.
    - injection Heq as <- _. split; [lia|]. intros y. rewrite elem_of_nil. lia.
    - injection Heq as <- Heq.
      specialize (IH (k + 1) done x rest).
      destruct IH as [IH1 IH2].
      { rewrite <- Heq. apply list_fmap_ext. intros _ i _. simpl. lia. }
      split; [lia|]. intros z. rewrite elem_of_cons, IH2. lia. }
  intros Heq. destruct (Hgen n 0 done x rest) as [H1 H2].
  { rewrite <- Heq. apply list_fmap_ext. intros _ i _. simpl. lia. }
  split; [lia|intros y; rewrite H2; lia].
Qed.

(** * Splitting a full leaf *)

Lemma read_buf_pg {A} fn t n b (f : bytes → option A) v :
  pg t n b → f b = Some v → read_buf fn n f t = Ok v t.
Proof.
  intros Hp Hf. unfold read_buf, buf, mbind, M_bind.
  unfold pg in Hp. rewrite Hp, Hf. done.
Qed.

Lemma leaf_node_key_pg t n b i :
  pg t n b → 0 ≤ i → leaf_node_cell_offset i + 4 ≤ blen b →
  leaf_node_key n i t = Ok (leaf_key b i) t.
Proof.
  intros. unfold leaf_node_key. eapply read_buf_pg; [done|].
  apply unpack_from_I_u32_at; [unfold leaf_node_cell_offset; layout; lia|done].
Qed.

(** The binary search of [leaf_node_find] on a full leaf with ascending
    keys, for a key that is not there: the position where it belongs. *)
Lemma leaf_find_loop_spec (fuel : nat) t p b key lo hi :
  pg t p b → blen b = PAGE_SIZE → leaf_keys_ascending b 13 →
  0 ≤ lo → lo ≤ hi → hi ≤ 13 → hi - lo < Z.of_nat fuel →
  (∀ i, 0 ≤ i < 13 → leaf_key b i ≠ key) →
  (∀ i, 0 ≤ i < lo → leaf_key b i < key) →
  (∀ i, hi ≤ i < 13 → key < leaf_key b i) →
  ∃ c, leaf_find_loop fuel p key lo hi t = Ok c t ∧ 0 ≤ c ≤ 13
       ∧ (∀ i, 0 ≤ i < c → leaf_key b i < key)
       ∧ (∀ i, c ≤ i < 13 → key < leaf_key b i).
Proof.
  intros Hp Hb Hasc. revert lo hi.
  induction fuel as [|fuel IH]; intros lo hi Hlo Hlh Hhi Hfuel Hne Hlow Hhigh;
    [lia|].
  simpl. destruct (negb (hi =? lo)) eqn:E.
  2:{ apply negb_false_iff, Z.eqb_eq in E. subst hi.
      exists lo. split; [done|]. split; [lia|]. split; [done|]. done. }
  apply negb_true_iff, Z.eqb_neq in E.
  set (index := (lo + hi) / 2).
  assert (lo ≤ index < hi) as Hidx.
  { unfold index. split.
    - apply Z.div_le_lower_bound; lia.
    - apply Z.div_lt_upper_bound; lia. }
  unfold mbind, M_bind. rewrite (leaf_node_key_pg t p b index Hp);
    [|lia|unfold leaf_node_cell_offset; layout; lia].
  destruct (key =? leaf_key b index) eqn:Eeq.
  { apply Z.eqb_eq in Eeq. exfalso. apply (Hne index); [lia|done]. }
  apply Z.eqb_neq in Eeq.
  destruct (key <? leaf_key b index) eqn:Elt.
  - apply IH; try lia; try done.
    intros i Hi. destruct (decide (i = index)) as [->|]; [lia|].
    pose proof (Hasc index i). lia.
  - apply IH; try lia; try done.
    intros i Hi. destruct (decide (i = index)) as [->|]; [lia|].
    pose proof (Hasc i index). lia.
Qed.

Lemma leaf_node_find_spec t p b key :
  pg t p b → blen b = PAGE_SIZE → p ≤ TABLE_MAX_PAGES →
  u32_at b LEAF_NODE_NUM_CELLS_OFFSET = LEAF_NODE_MAX_CELLS →
  leaf_keys_ascending b LEAF_NODE_MAX_CELLS →
  (∀ i, 0 ≤ i < LEAF_NODE_MAX_CELLS → leaf_key b i ≠ key) →
  ∃ c, leaf_node_find p key t = Ok (mkCursor p c false) t
       ∧ 0 ≤ c ≤ LEAF_NODE_MAX_CELLS
       ∧ (∀ i, 0 ≤ i < c → leaf_key b i < key)
       ∧ (∀ i, c ≤ i < LEAF_NODE_MAX_CELLS → key < leaf_key b i).
Proof.
  intros Hp Hb Hcap Hn Hasc Hne. layout.
  destruct (leaf_find_loop_spec search_fuel t p b key 0 13)
    as (c & Hrun & Hc); try done; try lia.
  exists c. split; [|done].
  unfold leaf_node_find, mbind, M_bind.
  assert (get_page p t = Ok p t) as ->.
  { unfold get_page. destruct (p >? TABLE_MAX_PAGES) eqn:E; [layout; lia|].
    unfold pg in Hp. by rewrite Hp. }
  unfold leaf_node_num_cells.
  rewrite (read_buf_pg _ t p b _ 13 Hp).
  2:{ layout. rewrite unpack_from_I_u32_at by (layout; lia). by rewrite Hn. }
  by rewrite Hrun.
Qed.

(** Cells and header under the writes of the split. *)
Lemma take_header_blit (b chunk : bytes) pos :
  LEAF_NODE_HEADER_SIZE ≤ pos → pos + blen chunk ≤ blen b →
  take 14 (blit b pos chunk) = take 14 b.
Proof.
  intros. layout. apply list_eq. intros i.
  destruct (decide (i < 14)%nat).
  - rewrite !lookup_take_lt by done. rewrite blit_lookup by lia.
    case_decide; [lia|done].
  - by rewrite !lookup_take_ge by lia.
Qed.

Lemma u32_at_header (b b' : bytes) off :
  take 14 b = take 14 b' → 0 ≤ off → off + 4 ≤ 14 → u32_at b off = u32_at b' off.
Proof.
  intros H ? ?. unfold u32_at. f_equal.
  apply list_eq. intros i. destruct (decide (i < 4)%nat).
  - rewrite !lookup_take_lt, !lookup_drop by done.
    apply (f_equal (λ l, l !! (Z.to_nat off + i)%nat)) in H.
    by rewrite !lookup_take_lt in H by lia.
  - by rewrite !lookup_take_ge by lia.
Qed.

Lemma u8_at_header (b b' : bytes) off :
  take 14 b = take 14 b' → 0 ≤ off → off + 1 ≤ 14 → u8_at b off = u8_at b' off.
Proof.
  intros H ? ?. unfold u8_at.
  apply (f_equal (λ l, l !! Z.to_nat off)) in H.
  rewrite !lookup_take_lt in H by lia. by rewrite H.
Qed.

Lemma leaf_cell_header_blit (b chunk : bytes) pos i :
  0 ≤ pos → pos + blen chunk ≤ LEAF_NODE_HEADER_SIZE → pos + blen chunk ≤ blen b →
  0 ≤ i → leaf_cell (blit b pos chunk) i = leaf_cell b i.
Proof.
  intros. apply leaf_cell_blit_other; [done|done|done|].
  right. unfold leaf_node_cell_offset. layout. lia.
Qed.

Lemma make_cell_blen key value : blen (make_cell key value) = LEAF_NODE_CELL_SIZE.
Proof.
  unfold make_cell. rewrite blen_app, row_image_blen. done.
Qed.

Lemma cell_key_make_cell key value :
  0 ≤ key < 4294967296 → cell_key (make_cell key value) = key.
Proof.
  intros. unfold cell_key, make_cell.
  rewrite take_app_length' by done. by apply u32_le_roundtrip.
Qed.

Lemma cell_key_leaf_cell (b : bytes) i : cell_key (leaf_cell b i) = leaf_key b i.
Proof.
  unfold cell_key, leaf_cell, leaf_key, u32_at. layout.
  rewrite take_take. done.
Qed.

(** ** The table during a split *)

Lemma split_pages_load t p b :
  cache_ok t → pg t p b →
  load t (num_pages (pager t)) = split_pages t p b (zero_bytes PAGE_SIZE).
Proof.
  intros Hc Hp. unfold load, split_pages.
  destruct (pages (pager t) !! num_pages (pager t)) as [x|] eqn:E.
  { apply Hc in E. lia. }
  simpl.
  destruct (num_pages (pager t) >=? num_pages (pager t)) eqn:E1; [|lia].
  unfold miss_page. rewrite Z.ltb_irrefl.
  f_equal. f_equal. symmetry. apply insert_id.
  rewrite lookup_insert_ne; [done|].
  intros Heq. unfold pg in Hp. rewrite <- Heq in Hp. congruence.
Qed.

Lemma set_page_split_old t p bo bn bo' :
  set_page (split_pages t p bo bn) p bo' = split_pages t p bo' bn.
Proof.
  unfold set_page, split_pages. simpl. by rewrite insert_insert_eq.
Qed.

Lemma set_page_split_new t p bo bn bn' :
  p ≠ num_pages (pager t) →
  set_page (split_pages t p bo bn) (num_pages (pager t)) bn'
  = split_pages t p bo bn'.
Proof.
  intros. unfold set_page, split_pages. simpl.
  rewrite insert_insert_ne by done. by rewrite insert_insert_eq.
Qed.

Lemma pg_split_old t p bo bn : pg (split_pages t p bo bn) p bo.
Proof. unfold pg, split_pages. simpl. apply lookup_insert_eq. Qed.

Lemma pg_split_new t p bo bn :
  p ≠ num_pages (pager t) →
  pg (split_pages t p bo bn) (num_pages (pager t)) bn.
Proof.
  intros. unfold pg, split_pages. simpl.
  rewrite lookup_insert_ne by done. apply lookup_insert_eq.
Qed.


Lemma blen_le_bytes v : blen (le_bytes_of_u32 v) = 4.
Proof. unfold blen. by rewrite le_bytes_length. Qed.

Ltac len :=
  repeat first
    [ rewrite blen_le_bytes
    | rewrite row_image_blen
    | rewrite blen_zero_bytes by (layout; lia)
    | rewrite blit_blen by len
    | progress unfold leaf_node_cell_offset, internal_node_cell_offset ];
  unfold leaf_node_cell_offset, internal_node_cell_offset in *; layout;
  change (blen [?x]) with 1 in *; lia.

Ltac fld :=
  repeat first
    [ rewrite u32_at_blit_same by first [len | apply u32_at_range]
    | rewrite u8_at_blit_same by len
    | rewrite u32_at_blit_other by first [len | left; len | right; len]
    | rewrite u8_at_blit_other by first [len | left; len | right; len]
    | rewrite leaf_cell_header_blit by len ].

Lemma wp_serialize_row_pg F U G t n b row off (Q : () → Table → Prop) :
  pg t n b → serializable row → 0 ≤ off → off + ROW_SIZE ≤ blen b →
  Q () (set_page t n (blit b off (row_image row))) →
  wp_gen F U G (serialize_row row n off) Q t.
Proof.
  intros Hp Hrow ? ? HQ. pose proof Hrow as (_ & Hu & He).
  apply ascii_field_spec in Hu as (_ & Hu & _).
  apply ascii_field_spec in He as (_ & He & _).
  unfold serialize_row. rewrite !encode_ascii_Some by done.
  eapply wp_update_pg; [done| |done]. by apply pack_into_row_in.
Qed.

Lemma split_target_blen (b : bytes) c key value i :
  blen b = PAGE_SIZE → 0 ≤ c ≤ LEAF_NODE_MAX_CELLS →
  0 ≤ i ≤ LEAF_NODE_MAX_CELLS →
  blen (split_target b c key value i) = LEAF_NODE_CELL_SIZE.
Proof.
  intros Hb ? ?. unfold split_target.
  destruct (i =? c) eqn:E1; [apply make_cell_blen|].
  apply Z.eqb_neq in E1.
  destruct (i >? c) eqn:E2; apply leaf_cell_blen; len.
Qed.

Lemma mod_left_split_count x :
  0 ≤ x ≤ LEAF_NODE_MAX_CELLS →
  x mod LEAF_NODE_LEFT_SPLIT_COUNT
  = if x >=? LEAF_NODE_LEFT_SPLIT_COUNT then x - LEAF_NODE_LEFT_SPLIT_COUNT else x.
Proof.
  intros. layout. destruct (x >=? 7) eqn:E.
  - symmetry. apply (Z.mod_unique x 7 1); lia.
  - apply Z.mod_small. lia.
Qed.

Lemma py_range_down_elem a b i : b < i ≤ a → i ∈ py_range_down a b.
Proof.
  intros. unfold py_range_down. apply list_elem_of_fmap.
  exists (a - i). split; [lia|]. apply elem_of_seqZ. lia.
Qed.

Section SplitCells.

Context (t : Table) (p : Z) (b : bytes) (c key : Z) (value : Row).
Context (Hcache : cache_ok t) (Hp : pg t p b).
Context (Hroom : num_pages (pager t) ≤ TABLE_MAX_PAGES).
Context (Hleaf : u8_at b NODE_TYPE_OFFSET = 1).
Context (Hfull : u32_at b LEAF_NODE_NUM_CELLS_OFFSET = LEAF_NODE_MAX_CELLS).
Context (Hc : 0 ≤ c ≤ LEAF_NODE_MAX_CELLS).
Context (Hkey : 0 ≤ key < 4294967296) (Hvalue : serializable value).

Notation np := (num_pages (pager t)).

Lemma split_old_facts : blen b = PAGE_SIZE ∧ 0 ≤ p < np.
Proof. by apply Hcache. Qed.

Lemma leaf_node_split_cells_spec d (cursor : Cursor) :
  page_num cursor = p → cell_num cursor = c →
  returns (leaf_node_split_cells (S d) cursor key value)
    (λ r t', ∃ bo bn,
       r = (p, leaf_key b (LEAF_NODE_MAX_CELLS - 1), np)
       ∧ t' = split_pages t p bo bn
       ∧ split_post b np c key value bo bn) t.
Proof.
  intros Hcp Hcc. destruct split_old_facts as [Hb Hpr].
  assert (p ≠ np) as Hne by lia.
  unfold returns, leaf_node_split_cells. rewrite Hcp, Hcc.
  apply wp_bind. eapply wp_get_page_hit; [done|lia|].
  apply wp_bind. simpl get_node_max_key.
  apply wp_bind. eapply wp_get_node_type_pg; [done|layout; lia| | |]; [layout; lia| |layout; lia]. 
  intros _.
  apply wp_bind. eapply wp_read_u32; [done|layout;lia|layout;lia|].
  rewrite Hfull.
  unfold leaf_node_key.
  eapply wp_read_u32; [done|unfold leaf_node_cell_offset; layout; lia
                      |unfold leaf_node_cell_offset; layout; lia|].
  fold (leaf_key b (LEAF_NODE_MAX_CELLS - 1)).
  apply wp_bind, wp_get_unused_page_num.
  apply wp_bind, wp_get_page; [layout; lia|lia|]. intros _.
  rewrite (split_pages_load t p b) by done.
  pose proof (u32_at_range b PARENT_POINTER_OFFSET) as Hpar.
  pose proof (u32_at_range b LEAF_NODE_NEXT_LEAF_OFFSET) as Hnext.
  unfold initialize_leaf_node, set_node_type, set_node_root,
    set_leaf_node_num_cells, set_leaf_node_next_leaf, set_node_parent,
    node_parent, leaf_node_next_leaf, NodeType_value.
  apply wp_bind.
  apply wp_bind. eapply wp_write_u8; [by apply pg_split_new|len..|].
  rewrite set_page_split_new by done.
  apply wp_bind. eapply wp_write_u8; [by apply pg_split_new|len..|].
  rewrite set_page_split_new by done.
  apply wp_bind. eapply wp_write_u32; [by apply pg_split_new|len..|].
  rewrite set_page_split_new by done.
  eapply wp_write_u32; [by apply pg_split_new|len..|].
  rewrite set_page_split_new by done.
  apply wp_bind. eapply wp_read_u32; [apply pg_split_old|len..|].
  apply wp_bind. eapply wp_write_u32; [by apply pg_split_new|len..|].
  rewrite set_page_split_new by done.
  apply wp_bind. eapply wp_read_u32; [apply pg_split_old|len..|].
  apply wp_bind. eapply wp_write_u32; [by apply pg_split_new|len..|].
  rewrite set_page_split_new by done.
  apply wp_bind. eapply wp_write_u32; [apply pg_split_old|len..|].
  rewrite set_page_split_old.
  set (b1 := blit b _ _).
  set (n1 := blit _ _ _).
  assert (blen b1 = PAGE_SIZE) as Hb1 by (unfold b1; len).
  assert (blen n1 = PAGE_SIZE) as Hn1 by (unfold n1; len).
  apply wp_bind.
  set (Inv := λ (done : list Z) (t' : Table), ∃ bo bn,
    t' = split_pages t p bo bn
    ∧ blen bo = PAGE_SIZE ∧ blen bn = PAGE_SIZE
    ∧ take 14 bo = take 14 b1 ∧ take 14 bn = take 14 n1
    ∧ (∀ i, i ∈ done → LEAF_NODE_LEFT_SPLIT_COUNT ≤ i →
         leaf_cell bn (i - LEAF_NODE_LEFT_SPLIT_COUNT)
         = split_target b c key value i)
    ∧ (∀ i, i ∈ done → i < LEAF_NODE_LEFT_SPLIT_COUNT →
         leaf_cell bo i = split_target b c key value i)
    ∧ (∀ k, 0 ≤ k < LEAF_NODE_MAX_CELLS →
         (k < LEAF_NODE_LEFT_SPLIT_COUNT → k ∉ done) →
         leaf_cell bo k = leaf_cell b k)).
  eapply wp_mono; [apply wp_for_each_progress with (Inv := Inv)|].
  - exists b1, n1. repeat split; try done.
    + intros i Hi. by apply elem_of_nil in Hi.
    + intros i Hi. by apply elem_of_nil in Hi.
    + intros k Hk _. unfold b1. by fld.
  - intros done x rest t' Hsplit (bo & bn & -> & Hbo & Hbn & Hho & Hhn & Hnew & Hold & Hkeep).
    apply py_range_down_split in Hsplit as [Hx Hdone].
    assert (0 ≤ x ≤ LEAF_NODE_MAX_CELLS) as Hx' by lia.
    rewrite (mod_left_split_count x Hx').
    pose proof (split_target_blen b c key value x Hb Hc Hx') as HT.
    assert (x ≠ c →
            leaf_cell bo (if x >? c then x - 1 else x)
            = leaf_cell b (if x >? c then x - 1 else x)) as Hsrc.
    { intros Hxc. apply Hkeep.
      - destruct (x >? c) eqn:E; lia.
      - intros _ Hin. apply Hdone in Hin. destruct (x >? c) eqn:E; lia. }
    eapply wp_mono with (Q := λ _ t'',
      t'' = if x >=? LEAF_NODE_LEFT_SPLIT_COUNT
            then split_pages t p bo
                   (blit bn (leaf_node_cell_offset (x - LEAF_NODE_LEFT_SPLIT_COUNT))
                      (split_target b c key value x))
            else split_pages t p
                   (blit bo (leaf_node_cell_offset x) (split_target b c key value x))
                   bn).
    + destruct (x =? c) eqn:Exc.
      * apply Z.eqb_eq in Exc.
        assert (split_target b c key value x = make_cell key value) as HTe.
        { unfold split_target. by rewrite (proj2 (Z.eqb_eq _ _) Exc). }
        rewrite HTe. unfold make_cell.
        destruct (x >=? LEAF_NODE_LEFT_SPLIT_COUNT) eqn:Ege.
        -- apply wp_bind.
           eapply wp_write_u32; [by apply pg_split_new|len..|].
           rewrite set_page_split_new by done.
           eapply wp_serialize_row_pg; [by apply pg_split_new|done|len..|].
           rewrite set_page_split_new by done. f_equal.
           replace LEAF_NODE_KEY_SIZE with (blen (le_bytes_of_u32 key))
             by apply blen_le_bytes.
           apply blit_blit_adjacent; len.
        -- apply wp_bind.
           eapply wp_write_u32; [by apply pg_split_old|len..|].
           rewrite set_page_split_old.
           eapply wp_serialize_row_pg; [by apply pg_split_old|done|len..|].
           rewrite set_page_split_old. f_equal.
           replace LEAF_NODE_KEY_SIZE with (blen (le_bytes_of_u32 key))
             by apply blen_le_bytes.
           apply blit_blit_adjacent; len.
      * apply Z.eqb_neq in Exc. specialize (Hsrc Exc).
        assert (split_target b c key value x
                = leaf_cell b (if x >? c then x - 1 else x)) as HTe.
        { unfold split_target. rewrite (proj2 (Z.eqb_neq _ _) Exc).
          by destruct (x >? c). }
        rewrite HTe in *.
        assert (getslice bo
                  (if x >? c then leaf_node_cell_offset (x - 1)
                   else leaf_node_cell_offset x)
                  ((if x >? c then leaf_node_cell_offset (x - 1)
                    else leaf_node_cell_offset x) + LEAF_NODE_CELL_SIZE)
                = leaf_cell b (if x >? c then x - 1 else x)) as Hget.
        { rewrite <- Hsrc.
          destruct (x >? c) eqn:E; apply getslice_leaf_cell; len. }
        apply wp_bind. eapply wp_buf_pg; [apply pg_split_old|].
        rewrite Hget.
        destruct (x >=? LEAF_NODE_LEFT_SPLIT_COUNT) eqn:Ege.
        -- apply wp_bind. eapply wp_buf_pg; [by apply pg_split_new|].
           eapply wp_set_buf_pg; [by apply pg_split_new|].
           rewrite set_page_split_new by done. f_equal.
           rewrite <- HT. apply setslice_in; len.
        -- apply wp_bind. eapply wp_buf_pg; [by apply pg_split_old|].
           eapply wp_set_buf_pg; [by apply pg_split_old|].
           rewrite set_page_split_old. f_equal.
           rewrite <- HT. apply setslice_in; len.
    + intros _ t'' ->.
      destruct (x >=? LEAF_NODE_LEFT_SPLIT_COUNT) eqn:Ege.
      * eexists bo, _. split; [done|].
        split; [done|]. split; [len|]. split; [done|].
        split; [rewrite take_header_blit by len; done|].
        split; [|split].
        -- intros i [Hi| ->%list_elem_of_singleton]%elem_of_app Hi7.
           ++ pose proof (proj1 (Hdone i) Hi).
              rewrite leaf_cell_blit_other; [by apply Hnew|len..|].
              right. len.
           ++ apply leaf_cell_blit_same; len.
        -- intros i [Hi| ->%list_elem_of_singleton]%elem_of_app Hi7.
           ++ by apply Hold.
           ++ layout. lia.
        -- intros k Hk Hnot. apply Hkeep; [done|].
           intros Hk7 Hin. apply Hnot; [done|]. apply elem_of_app. by left.
      * eexists _, bn. split; [done|].
        split; [len|]. split; [done|].
        split; [rewrite take_header_blit by len; done|]. split; [done|].
        split; [|split].
        -- intros i [Hi| ->%list_elem_of_singleton]%elem_of_app Hi7.
           ++ by apply Hnew.
           ++ layout. lia.
        -- intros i [Hi| ->%list_elem_of_singleton]%elem_of_app Hi7.
           ++ pose proof (proj1 (Hdone i) Hi).
              rewrite leaf_cell_blit_other; [by apply Hold|len..|].
              right. len.
           ++ apply leaf_cell_blit_same; len.
        -- intros k Hk Hnot.
           rewrite leaf_cell_blit_other; [|len..|].
           ++ apply Hkeep; [done|].
              intros Hk7 Hin. apply Hnot; [done|]. apply elem_of_app. by left.
           ++ assert (k ≠ x) as Hkx.
              { intros ->. apply Hnot; [layout; lia|].
                apply elem_of_app. right. by apply list_elem_of_singleton. }
              destruct (decide (k < x)); [left|right]; len.
  - intros _ t' (bo & bn & -> & Hbo & Hbn & Hho & Hhn & Hnew & Hold & _).
    apply wp_bind. eapply wp_write_u32; [apply pg_split_old|len..|].
    rewrite set_page_split_old.
    apply wp_bind. eapply wp_write_u32; [by apply pg_split_new|len..|].
    rewrite set_page_split_new by done.
    apply wp_ret. eexists _, _. split; [done|]. split; [done|].
    assert (∀ i, 0 ≤ i ≤ LEAF_NODE_MAX_CELLS →
                 i ∈ py_range_down LEAF_NODE_MAX_CELLS (-1)) as Hall.
    { intros i Hi. apply py_range_down_elem. layout. lia. }
    unfold split_post. fld.
    rewrite (u8_at_header bo b1), (u8_at_header bn n1),
      (u8_at_header bo b1 IS_ROOT_OFFSET), (u8_at_header bn n1 IS_ROOT_OFFSET),
      (u32_at_header bo b1), (u32_at_header bn n1),
      (u32_at_header bo b1 LEAF_NODE_NEXT_LEAF_OFFSET),
      (u32_at_header bn n1 LEAF_NODE_NEXT_LEAF_OFFSET)
      by first [done | layout; lia].
    unfold b1, n1. fld.
    split; [len|]. split; [len|].
    repeat (split; [first [done | layout; lia]|]).
    split.
    + intros i Hi. rewrite leaf_cell_header_blit by len.
      apply Hold; [apply Hall|]; layout; lia.
    + intros i Hi. rewrite leaf_cell_header_blit by len.
      replace i with (i + LEAF_NODE_LEFT_SPLIT_COUNT - LEAF_NODE_LEFT_SPLIT_COUNT)
        at 1 by lia.
      apply Hnew; [apply Hall|]; layout; lia.
Qed.

End SplitCells.

(** ** The cells after the split, as a sorted insertion *)

Lemma sorted_insert_at x (l : list bytes) (c : nat) :
  (c ≤ length l)%nat →
  (∀ (i : nat) y, (i < c)%nat → l !! i = Some y → ¬ cell_key x < cell_key y) →
  (∀ y, l !! c = Some y → cell_key x < cell_key y) →
  sorted_insert x l = take c l ++ x :: drop c l.
Proof.
  revert c. induction l as [|y l IH]; intros c Hc Hlow Hhigh.
  { destruct c; [done|simpl in Hc; lia]. }
  destruct c as [|c]; simpl.
  - rewrite (proj2 (Z.ltb_lt _ _)); [done|]. by apply Hhigh.
  - destruct (cell_key x <? cell_key y) eqn:E.
    { apply Z.ltb_lt in E. exfalso. apply (Hlow 0%nat y); [lia|done|done]. }
    f_equal. apply IH.
    + simpl in Hc. lia.
    + intros i z Hi Hz. apply (Hlow (S i)); [lia|done].
    + intros z Hz. by apply Hhigh.
Qed.

Lemma leaf_cells_lookup (b : bytes) n (i : nat) :
  (i < Z.to_nat n)%nat → leaf_cells b n !! i = Some (leaf_cell b (Z.of_nat i)).
Proof.
  intros. unfold leaf_cells. rewrite list_lookup_fmap.
  rewrite lookup_seqZ_lt by lia. simpl. repeat f_equal; try lia.
Qed.

Lemma split_targets_sorted_insert (b : bytes) c key value :
  0 ≤ c ≤ LEAF_NODE_MAX_CELLS → 0 ≤ key < 4294967296 →
  (∀ i, 0 ≤ i < c → leaf_key b i < key) →
  (∀ i, c ≤ i < LEAF_NODE_MAX_CELLS → key < leaf_key b i) →
  split_target b c key value <$> seqZ 0 (LEAF_NODE_MAX_CELLS + 1)
  = sorted_insert (make_cell key value) (leaf_cells b LEAF_NODE_MAX_CELLS).
Proof.
  intros Hc Hkey Hlow Hhigh. layout.
  rewrite (sorted_insert_at _ _ (Z.to_nat c)).
  - assert (c = 0 ∨ c = 1 ∨ c = 2 ∨ c = 3 ∨ c = 4 ∨ c = 5 ∨ c = 6 ∨ c = 7
            ∨ c = 8 ∨ c = 9 ∨ c = 10 ∨ c = 11 ∨ c = 12 ∨ c = 13) as Hcases
      by lia.
    unfold leaf_cells.
    repeat (destruct Hcases as [->|Hcases]; [reflexivity|]).
    subst c. reflexivity.
  - unfold leaf_cells. rewrite length_fmap, length_seqZ. lia.
  - intros i y Hi Hy. rewrite leaf_cells_lookup in Hy by lia.
    injection Hy as <-. rewrite cell_key_make_cell, cell_key_leaf_cell by done.
    pose proof (Hlow (Z.of_nat i)). lia.
  - intros y Hy.
    destruct (decide (Z.to_nat c < 13)%nat) as [Hlt|Hge].
    + rewrite leaf_cells_lookup in Hy by lia.
      injection Hy as <-. rewrite cell_key_make_cell, cell_key_leaf_cell by done.
      rewrite Z2Nat.id by lia. apply Hhigh. lia.
    + rewrite lookup_ge_None_2 in Hy; [done|].
      unfold leaf_cells. rewrite length_fmap, length_seqZ. lia.
Qed.

Lemma split_post_cells (b : bytes) np c key value bo bn :
  split_post b np c key value bo bn →
  leaf_cells bo LEAF_NODE_LEFT_SPLIT_COUNT
    ++ leaf_cells bn LEAF_NODE_RIGHT_SPLIT_COUNT
  = split_target b c key value <$> seqZ 0 (LEAF_NODE_MAX_CELLS + 1).
Proof.
  intros (_ & _ & _ & _ & _ & _ & _ & _ & _ & _ & _ & _ & Hold & Hnew).
  layout. change (seqZ 0 (13 + 1)) with (seqZ 0 7 ++ ((λ i, i + 7) <$> seqZ 0 7)).
  rewrite fmap_app, <- list_fmap_compose. unfold leaf_cells. f_equal.
  - apply list_fmap_ext. intros i x Hx%list_elem_of_lookup_2%elem_of_seqZ.
    apply Hold. lia.
  - apply list_fmap_ext. intros i x Hx%list_elem_of_lookup_2%elem_of_seqZ.
    apply Hnew. lia.
Qed.

(** * Splitting the root leaf *)

Lemma load_unused t n :
  pages (pager t) !! n = None → num_pages (pager t) ≤ n →
  load t n = set_page (grow t (n + 1)) n (zero_bytes PAGE_SIZE).
Proof.
  intros Hn Hle. unfold load, set_page, grow. rewrite Hn. simpl.
  destruct (n >=? num_pages (pager t)) eqn:E; [|lia].
  unfold miss_page. destruct (n <? num_pages (pager t)) eqn:E2; [lia|done].
Qed.

Lemma pg_grow t n m b : pg t m b → pg (grow t n) m b.
Proof. done. Qed.

Ltac pgs :=
  first
    [ apply pg_set_page_eq
    | apply pg_set_page_ne; [lia|pgs]
    | apply pg_grow; pgs
    | apply pg_split_old
    | apply pg_split_new; lia
    | eassumption ].

Lemma leaf_cells_header_blit (b chunk : bytes) pos n :
  0 ≤ pos → pos + blen chunk ≤ LEAF_NODE_HEADER_SIZE → pos + blen chunk ≤ blen b →
  leaf_cells (blit b pos chunk) n = leaf_cells b n.
Proof.
  intros. unfold leaf_cells. apply list_fmap_ext.
  intros i x Hx%list_elem_of_lookup_2%elem_of_seqZ.
  apply leaf_cell_header_blit; lia.
Qed.

Lemma leaf_key_header_blit (b chunk : bytes) pos i :
  0 ≤ pos → pos + blen chunk ≤ LEAF_NODE_HEADER_SIZE → pos + blen chunk ≤ blen b →
  0 ≤ i → leaf_key (blit b pos chunk) i = leaf_key b i.
Proof.
  intros. unfold leaf_key. apply u32_at_blit_other; [done|done| |right].
  - unfold leaf_node_cell_offset. layout. lia.
  - unfold leaf_node_cell_offset. layout. lia.
Qed.

Lemma split_post_result (b : bytes) np c key value bo bn :
  0 ≤ c ≤ LEAF_NODE_MAX_CELLS → 0 ≤ key < 4294967296 →
  (∀ i, 0 ≤ i < c → leaf_key b i < key) →
  (∀ i, c ≤ i < LEAF_NODE_MAX_CELLS → key < leaf_key b i) →
  split_post b np c key value bo bn →
  split_result b key value np bo bn.
Proof.
  intros Hc Hkey Hlow Hhigh Hpost.
  pose proof (split_post_cells _ _ _ _ _ _ _ Hpost) as Hcells.
  rewrite split_targets_sorted_insert in Hcells by done.
  destruct Hpost as (_ & _ & ? & ? & _ & _ & _ & _ & ? & ? & ? & ? & _ & _).
  by repeat split.
Qed.

Lemma cache_ok_set_page_in t n (b' : bytes) :
  cache_ok t → 0 ≤ n < num_pages (pager t) → blen b' = PAGE_SIZE →
  cache_ok (set_page t n b').
Proof. intros Hc Hn Hb. by apply cache_ok_insert. Qed.

Section SplitRoot.

Context (t : Table) (p : Z) (b : bytes).
Context (Hcache : cache_ok t) (Hp : pg t p b).
Context (Hrootp : root_page_num t = p).
Context (Hroom : num_pages (pager t) + 1 ≤ TABLE_MAX_PAGES).

Notation np := (num_pages (pager t)).

Lemma leaf_node_split_link_root_cache d fuel c key value bo bn old_max :
  u8_at b IS_ROOT_OFFSET ≠ 0 →
  split_post b np c key value bo bn →
  returns (leaf_node_split_link (S d) fuel p old_max np)
    (λ _ t', ∃ root,
       pg t' p root
       ∧ pg t' (np + 1)
           (blit (blit bo IS_ROOT_OFFSET [byte_of_Z 0])
              PARENT_POINTER_OFFSET (le_bytes_of_u32 p))
       ∧ pg t' np (blit bn PARENT_POINTER_OFFSET (le_bytes_of_u32 p))
       ∧ root_of_two root (np + 1)
           (leaf_key bo (LEAF_NODE_LEFT_SPLIT_COUNT - 1)) np
       ∧ num_pages (pager t') = np + 2
       ∧ root_page_num t' = p
       ∧ blen root = PAGE_SIZE
       ∧ cache_ok t')
    (split_pages t p bo bn).
Proof.
  intros Hroot (Hbo & Hbn & Hto & Htn & Hro & Hrn & Hpo & Hpn & Hco & Hcn
                & Hno & Hnn & _ & _).
  destruct (Hcache _ _ Hp) as [Hb Hpr].
  assert (p ≠ np) as Hne by lia.
  unfold returns, leaf_node_split_link, is_node_root.
  apply wp_bind. apply wp_bind.
  eapply wp_read_u8; [pgs|len..|]. apply wp_ret.
  rewrite Hro. rewrite (proj2 (Z.eqb_neq _ _) Hroot). simpl negb. cbv iota.
  unfold create_new_root.
  apply wp_bind, wp_get_root_page_num. simpl root_page_num. rewrite Hrootp.
  apply wp_bind. eapply wp_get_page_hit; [pgs|layout; lia|].
  apply wp_bind. eapply wp_get_page_hit; [pgs|layout; lia|].
  apply wp_bind, wp_get_unused_page_num. simpl num_pages.
  apply wp_bind, wp_get_page; [layout; lia|lia|]. intros _.
  rewrite load_unused.
  2:{ unfold split_pages. simpl.
      rewrite !lookup_insert_ne by lia.
      destruct (pages (pager t) !! (np + 1)) as [x|] eqn:E; [|done].
      apply Hcache in E. lia. }
  2:{ simpl. lia. }
  set (t1 := grow _ _).
  assert (pg t1 p bo) as Hp1 by (unfold t1; pgs).
  assert (pg t1 np bn) as Hn1 by (unfold t1; pgs).
  assert (num_pages (pager t1) = np + 2) as Hnum by (unfold t1; simpl; lia).
  assert (root_page_num t1 = p) as Hroot1 by (unfold t1; simpl; done).
  assert (cache_ok t1) as Hc1.
  { intros q x. unfold t1, grow, split_pages. simpl.
    intros [[<- <-]|[Hne1 [[<- <-]|[Hne2 Hq]]%lookup_insert_Some]]%lookup_insert_Some.
    - split; [done|lia].
    - split; [done|lia].
    - apply Hcache in Hq. split; [tauto|lia]. }
  clearbody t1.
  apply wp_bind.
  eapply wp_get_node_type_pg; [pgs|len| | |].
  { intros H. layout. lia. }
  2:{ intros H1 H2. layout. lia. }
  intros _. apply wp_bind, wp_ret.
  apply wp_bind. eapply wp_buf_pg; [pgs|].
  apply wp_bind. eapply wp_set_buf_pg; [pgs|].
  unfold set_node_root, initialize_internal_node, set_node_type,
    set_internal_node_num_keys, set_internal_node_right_child,
    set_internal_node_child, internal_node_num_keys, set_internal_node_key,
    set_node_parent, NodeType_value.
  apply wp_bind. eapply wp_write_u8; [pgs|len..|].
  apply wp_bind.
  eapply wp_get_node_type_pg; [pgs|len| | |].
  { fld. layout. lia. }
  2:{ fld. layout. lia. }
  intros _. apply wp_bind, wp_ret.
  apply wp_bind. apply wp_bind. eapply wp_write_u8; [pgs|len..|].
  apply wp_bind. eapply wp_write_u8; [pgs|len..|].
  apply wp_bind. eapply wp_write_u32; [pgs|len..|].
  eapply wp_write_u32; [pgs|len..|].
  apply wp_bind. eapply wp_write_u8; [pgs|len..|].
  apply wp_bind. eapply wp_write_u32; [pgs|len..|].
  apply wp_bind. apply wp_bind. eapply wp_read_u32; [pgs|len..|].
  fld. change (0 =? 1) with false. cbv iota.
  eapply wp_write_u32; [pgs|unfold internal_node_cell_offset; len..|].
  apply wp_bind. simpl get_node_max_key.
  apply wp_bind.
  eapply wp_get_node_type_pg; [pgs|len| | |].
  { fld. layout. lia. }
  2:{ fld. layout. lia. }
  intros _. unfold leaf_node_num_cells.
  apply wp_bind. eapply wp_read_u32; [pgs|len..|].
  fld. rewrite Hco.
  unfold leaf_node_key.
  eapply wp_read_u32; [pgs|len..|].
  apply wp_bind.
  eapply wp_write_u32;
    [pgs|unfold internal_node_cell_offset; len
        |unfold internal_node_cell_offset; len|apply u32_at_range|].
  apply wp_bind. eapply wp_write_u32; [pgs|len..|].
  apply wp_bind. eapply wp_write_u32; [pgs|len..|].
  eapply wp_write_u32; [pgs|len..|].
  eexists. split; [pgs|]. split; [pgs|]. split; [pgs|].
  split.
  - unfold root_of_two, internal_child, internal_key, leaf_key.
    fld. done.
  - split; [simpl; done|]. split; [simpl; done|]. split; [len|].
    repeat (apply cache_ok_set_page_in; [|simpl; lia|len]). exact Hc1.
Qed.

Lemma leaf_node_split_link_root d fuel c key value bo bn old_max :
  u8_at b IS_ROOT_OFFSET ≠ 0 →
  split_post b np c key value bo bn →
  returns (leaf_node_split_link (S d) fuel p old_max np)
    (λ _ t', ∃ root,
       pg t' p root
       ∧ pg t' (np + 1)
           (blit (blit bo IS_ROOT_OFFSET [byte_of_Z 0])
              PARENT_POINTER_OFFSET (le_bytes_of_u32 p))
       ∧ pg t' np (blit bn PARENT_POINTER_OFFSET (le_bytes_of_u32 p))
       ∧ root_of_two root (np + 1)
           (leaf_key bo (LEAF_NODE_LEFT_SPLIT_COUNT - 1)) np
       ∧ num_pages (pager t') = np + 2
       ∧ root_page_num t' = p
       ∧ blen root = PAGE_SIZE)
    (split_pages t p bo bn).
Proof.
  intros Hroot Hpost. eapply wp_mono.
  { by apply (leaf_node_split_link_root_cache d fuel c key value bo bn old_max). }
  intros _ t' (root & H1 & H2 & H3 & H4 & H5 & H6 & H7 & _). by exists root.
Qed.

End SplitRoot.

(** * The leaf split, from the search to the new root *)

Lemma leaf_keys_ascending_check (b : bytes) n :
  forallb (λ i, leaf_key b i <? leaf_key b (i + 1)) (seqZ 0 (n - 1)) = true →
  leaf_keys_ascending b n.
Proof.
  intros H. assert (∀ i, 0 ≤ i → i + 1 < n → leaf_key b i < leaf_key b (i + 1)) as Hadj.
  { intros i ? ?. rewrite forallb_forall in H.
    apply Z.ltb_lt, H, list_elem_of_In, elem_of_seqZ. lia. }
  intros i j Hi Hij Hj.
  assert (∀ k : nat, i + 1 + Z.of_nat k < n →
                     leaf_key b i < leaf_key b (i + 1 + Z.of_nat k)) as Hk.
  { induction k as [|k IH]; intros Hlt.
    - rewrite Z.add_0_r. apply Hadj; lia.
    - etrans; [apply IH; lia|].
      replace (i + 1 + Z.of_nat (S k)) with (i + 1 + Z.of_nat k + 1) by lia.
      apply Hadj; lia. }
  replace j with (i + 1 + Z.of_nat (Z.to_nat (j - i - 1))) by lia.
  apply Hk. lia.
Qed.

Lemma leaf_key_absent_check (b : bytes) n key :
  forallb (λ i, negb (leaf_key b i =? key)) (seqZ 0 n) = true →
  ∀ i, 0 ≤ i < n → leaf_key b i ≠ key.
Proof.
  intros H i Hi. rewrite forallb_forall in H.
  apply Z.eqb_neq, negb_true_iff, H, list_elem_of_In, elem_of_seqZ. lia.
Qed.

Lemma cache_ok_singleton (b : bytes) :
  blen b = PAGE_SIZE → cache_ok (mkTable (mkPager [] 1 {[ 0 := b ]}) 0).
Proof.
  intros Hb n x. simpl. intros [<- <-]%lookup_singleton_Some. split; [done|lia].
Qed.



(** * Reasoning on the contents of the pages *)


Lemma node_view_blen t m : pages_ok t → blen (node_view t m) = PAGE_SIZE.
Proof.
  intros [_ Hc]. unfold node_view.
  destruct (pages (pager t) !! m) as [b|] eqn:E.
  - apply Hc in E. tauto.
  - apply blen_miss_page_gen.
Qed.

Lemma cache_ok_load t n : cache_ok t → 0 ≤ n → cache_ok (load t n).
Proof.
  intros Hc Hn. unfold load.
  destruct (pages (pager t) !! n) as [b|] eqn:E; [done|].
  apply cache_ok_insert; [done|apply blen_miss_page_gen| |];
    destruct (n >=? num_pages (pager t)) eqn:E2; lia.
Qed.

Lemma pages_ok_load t n : pages_ok t → 0 ≤ n → pages_ok (load t n).
Proof.
  intros [Hp Hc] Hn. split; [by apply pager_inv_load|by apply cache_ok_load].
Qed.

Lemma cache_ok_set_page t n b b' :
  cache_ok t → pg t n b → blen b' = PAGE_SIZE → cache_ok (set_page t n b').
Proof.
  intros Hc Hp Hb. destruct (Hc _ _ Hp) as [_ Hn].
  by apply cache_ok_insert.
Qed.

Lemma pages_ok_set_page t n b b' :
  pages_ok t → pg t n b → blen b' = PAGE_SIZE → pages_ok (set_page t n b').
Proof.
  intros [Hp Hc] Hn Hb. split.
  - apply pager_inv_set_page; [done|]. rewrite Hb. layout. lia.
  - by eapply cache_ok_set_page.
Qed.

Lemma num_pages_load t n :
  pages_ok t → 0 ≤ n →
  num_pages (pager (load t n)) = Z.max (num_pages (pager t)) (n + 1).
Proof.
  intros [_ Hc] Hn. unfold load.
  destruct (pages (pager t) !! n) as [b|] eqn:E.
  - apply Hc in E. lia.
  - simpl. destruct (n >=? num_pages (pager t)) eqn:E2; lia.
Qed.

Lemma pg_load t n : pg (load t n) n (node_view t n).
Proof.
  unfold pg, load, node_view.
  destruct (pages (pager t) !! n) as [b|] eqn:E; [done|].
  simpl. apply lookup_insert_eq.
Qed.

(** Reads and writes of fields, on whole pages. *)
Lemma unpack_from_I_page (b : bytes) off v :
  0 ≤ off → unpack_from_I b off = Some v →
  v = u32_at b off ∧ off + 4 ≤ blen b.
Proof.
  intros Hoff H. unfold unpack_from_I in H.
  destruct (struct_offset (blen b) off 4) as [pos|] eqn:E; [|done].
  simpl in H. injection H as <-.
  pose proof (struct_offset_nonneg _ _ _ _ Hoff E) as ->.
  apply struct_offset_Some in E as [_ ?]; [|lia|apply blen_nonneg].
  done.
Qed.

Lemma unpack_from_B_page (b : bytes) off v :
  0 ≤ off → unpack_from_B b off = Some v →
  v = u8_at b off ∧ off + 1 ≤ blen b.
Proof.
  intros Hoff H.
  assert (off + 1 ≤ blen b) as Hin.
  { unfold unpack_from_B in H.
    destruct (struct_offset (blen b) off 1) as [pos|] eqn:E; [|done].
    pose proof (struct_offset_nonneg _ _ _ _ Hoff E) as ->.
    apply struct_offset_Some in E as [_ ?]; [done|lia|apply blen_nonneg]. }
  rewrite unpack_from_B_u8_at in H by done. by injection H as <-.
Qed.

Lemma pack_into_I_page (b : bytes) off v b' :
  0 ≤ off → pack_into_I b off v = Some b' →
  b' = blit b off (le_bytes_of_u32 v) ∧ off + 4 ≤ blen b ∧ 0 ≤ v < 4294967296.
Proof.
  intros Hoff H. unfold pack_into_I in H.
  destruct ((v <? 0) || (4294967295 <? v)) eqn:Ev; [done|].
  apply orb_false_iff in Ev as [?%Z.ltb_ge ?%Z.ltb_ge].
  destruct (struct_offset (blen b) off 4) as [pos|] eqn:E; [|done].
  simpl in H. injection H as <-.
  pose proof (struct_offset_nonneg _ _ _ _ Hoff E) as ->.
  apply struct_offset_Some in E as [_ ?]; [|lia|apply blen_nonneg].
  split; [done|]. split; [done|lia].
Qed.

Lemma pack_into_B_page (b : bytes) off v b' :
  0 ≤ off → pack_into_B b off v = Some b' →
  b' = blit b off [byte_of_Z v] ∧ off + 1 ≤ blen b ∧ 0 ≤ v < 256.
Proof.
  intros Hoff H. unfold pack_into_B in H.
  destruct ((v <? 0) || (255 <? v)) eqn:Ev; [done|].
  apply orb_false_iff in Ev as [?%Z.ltb_ge ?%Z.ltb_ge].
  destruct (struct_offset (blen b) off 1) as [pos|] eqn:E; [|done].
  simpl in H. injection H as <-.
  pose proof (struct_offset_nonneg _ _ _ _ Hoff E) as ->.
  apply struct_offset_Some in E as [_ ?]; [|lia|apply blen_nonneg].
  split; [done|]. split; [done|lia].
Qed.

(** Rules on the contents of the pages; running out of fuel is allowed
    when [F] holds. *)
Section Views.

Context (F : Prop).

Local Notation wpT := (wp_gen F True True).

Lemma wpT_get_page n (Q : Z → Table → Prop) t :
  pages_ok t →
  (0 ≤ n → n ≤ TABLE_MAX_PAGES → Q n (load t n)) → wpT (get_page n) Q t.
Proof.
  intros [(_ & Hnp & _) Hc] HQ. unfold wp_gen.
  destruct (decide (0 ≤ n)) as [H0|H0].
  - destruct (get_page_cases n t) as [[? ->]|[[? ->]|[? ->]]]; auto.
  - unfold get_page. destruct (n >? TABLE_MAX_PAGES); [done|].
    destruct (pages (pager t) !! n) as [b|] eqn:E; [apply Hc in E; lia|].
    destruct ((n <? num_pages (pager t)) && (n <? 0)) eqn:E2; [done|].
    apply andb_false_iff in E2 as [?%Z.ltb_ge|?%Z.ltb_ge]; lia.
Qed.

Lemma wpT_read {A} fn n (f : bytes → option A) (Q : A → Table → Prop) t :
  (∀ v, pg t n (node_view t n) → f (node_view t n) = Some v → Q v t) →
  wpT (read_buf fn n f) Q t.
Proof.
  intros HQ. apply wp_read_buf; [done|done|].
  intros b v Hb Hf. rewrite <- (node_view_cached _ _ _ Hb) in Hf.
  apply HQ; [|done]. unfold pg. by rewrite (node_view_cached _ _ _ Hb).
Qed.

Lemma wpT_update fn n (f : bytes → option bytes) (Q : () → Table → Prop) t :
  (∀ b', pg t n (node_view t n) → f (node_view t n) = Some b' →
         Q () (set_page t n b')) →
  wpT (update_buf fn n f) Q t.
Proof.
  intros HQ. apply wp_update_buf; [done|done|].
  intros b b' Hb Hf. rewrite <- (node_view_cached _ _ _ Hb) in Hf.
  apply HQ; [|done]. unfold pg. by rewrite (node_view_cached _ _ _ Hb).
Qed.

Lemma wpT_buf n (Q : bytes → Table → Prop) t :
  (pg t n (node_view t n) → Q (node_view t n) t) → wpT (buf n) Q t.
Proof.
  intros HQ. apply wp_buf; [done|]. intros b Hb.
  rewrite <- (node_view_cached _ _ _ Hb). apply HQ.
  unfold pg. by rewrite (node_view_cached _ _ _ Hb).
Qed.

Lemma wpT_set_buf n b (Q : () → Table → Prop) t :
  (pg t n (node_view t n) → Q () (set_page t n b)) → wpT (set_buf n b) Q t.
Proof.
  intros HQ. apply wp_set_buf; [done|]. intros b0 Hb. apply HQ.
  unfold pg. by rewrite (node_view_cached _ _ _ Hb).
Qed.

Lemma wpT_read_u32 fn n off (Q : Z → Table → Prop) t :
  0 ≤ off →
  (pg t n (node_view t n) → off + 4 ≤ blen (node_view t n) →
   Q (u32_at (node_view t n) off) t) →
  wpT (read_buf fn n (λ b, unpack_from_I b off)) Q t.
Proof.
  intros Hoff HQ. apply wpT_read. intros v Hp Hv.
  apply unpack_from_I_page in Hv as [-> ?]; [|done]. by apply HQ.
Qed.

Lemma wpT_read_u8 fn n off (Q : Z → Table → Prop) t :
  0 ≤ off →
  (pg t n (node_view t n) → off + 1 ≤ blen (node_view t n) →
   Q (u8_at (node_view t n) off) t) →
  wpT (read_buf fn n (λ b, unpack_from_B b off)) Q t.
Proof.
  intros Hoff HQ. apply wpT_read. intros v Hp Hv.
  apply unpack_from_B_page in Hv as [-> ?]; [|done]. by apply HQ.
Qed.

Lemma wpT_write_u32 fn n off v (Q : () → Table → Prop) t :
  0 ≤ off →
  (pg t n (node_view t n) → off + 4 ≤ blen (node_view t n) →
   0 ≤ v < 4294967296 →
   Q () (set_page t n (blit (node_view t n) off (le_bytes_of_u32 v)))) →
  wpT (update_buf fn n (λ b, pack_into_I b off v)) Q t.
Proof.
  intros Hoff HQ. apply wpT_update. intros b' Hp Hb'.
  apply pack_into_I_page in Hb' as (-> & ? & ?); [|done]. by apply HQ.
Qed.

Lemma wpT_write_u8 fn n off v (Q : () → Table → Prop) t :
  0 ≤ off →
  (pg t n (node_view t n) → off + 1 ≤ blen (node_view t n) → 0 ≤ v < 256 →
   Q () (set_page t n (blit (node_view t n) off [byte_of_Z v]))) →
  wpT (update_buf fn n (λ b, pack_into_B b off v)) Q t.
Proof.
  intros Hoff HQ. apply wpT_update. intros b' Hp Hb'.
  apply pack_into_B_page in Hb' as (-> & ? & ?); [|done]. by apply HQ.
Qed.

Lemma wpT_get_node_type n (Q : NodeType → Table → Prop) t :
  (pg t n (node_view t n) → u8_at (node_view t n) NODE_TYPE_OFFSET = 0 →
   Q INTERNAL t) →
  (pg t n (node_view t n) → u8_at (node_view t n) NODE_TYPE_OFFSET = 1 →
   Q LEAF t) →
  wpT (get_node_type n) Q t.
Proof.
  intros HI HL. unfold get_node_type. apply wp_bind.
  apply wpT_read_u8; [done|]. intros Hp _.
  destruct (_ =? 0) eqn:E0; [apply Z.eqb_eq in E0; by apply wp_ret, HI|].
  destruct (_ =? 1) eqn:E1; [apply Z.eqb_eq in E1; by apply wp_ret, HL|].
  done.
Qed.

End Views.

(** Partial correctness. *)
Notation wpT := (wp_gen True True True).

(** ** Buffers that differ in the parent pointer *)

Lemma same_but_parent_refl b : same_but_parent b b.
Proof. by split. Qed.

Lemma same_but_parent_sym b b' : same_but_parent b b' → same_but_parent b' b.
Proof. intros [? H]. split; [done|]. intros i Hi. symmetry. by apply H. Qed.

Lemma same_but_parent_trans b1 b2 b3 :
  same_but_parent b1 b2 → same_but_parent b2 b3 → same_but_parent b1 b3.
Proof.
  intros [? H1] [? H2]. split; [congruence|].
  intros i Hi. rewrite H1 by done. by apply H2.
Qed.

Lemma same_but_parent_blit (b : bytes) v :
  PARENT_POINTER_OFFSET + 4 ≤ blen b →
  same_but_parent (blit b PARENT_POINTER_OFFSET (le_bytes_of_u32 v)) b.
Proof.
  intros Hb. split; [rewrite blit_blen; [done|layout; lia|len]|].
  intros i Hi. rewrite blit_lookup by len.
  rewrite le_bytes_length. case_decide as Hd; [|done].
  change (Z.to_nat PARENT_POINTER_OFFSET) with 2%nat in Hd. lia.
Qed.

Lemma blit_parent_same_but_parent (b b' : bytes) v :
  same_but_parent b b' → PARENT_POINTER_OFFSET + 4 ≤ blen b →
  blit b PARENT_POINTER_OFFSET (le_bytes_of_u32 v)
  = blit b' PARENT_POINTER_OFFSET (le_bytes_of_u32 v).
Proof.
  intros [Hl H] Hb. apply list_eq. intros i.
  rewrite !blit_lookup by len. rewrite le_bytes_length.
  case_decide as Hd; [done|]. apply H.
  change (Z.to_nat PARENT_POINTER_OFFSET) with 2%nat in Hd. lia.
Qed.

Lemma same_but_parent_take_drop (b b' : bytes) (pos : nat) n :
  same_but_parent b b' → (6 ≤ pos)%nat →
  take n (drop pos b) = take n (drop pos b').
Proof.
  intros [_ H] Hpos. apply list_eq. intros i.
  destruct (decide (i < n)%nat).
  - rewrite !lookup_take_lt, !lookup_drop by done. apply H. lia.
  - by rewrite !lookup_take_ge by lia.
Qed.

Lemma same_but_parent_u32_at (b b' : bytes) off :
  same_but_parent b b' → 6 ≤ off → u32_at b off = u32_at b' off.
Proof.
  intros H Hoff. unfold u32_at. f_equal.
  apply same_but_parent_take_drop; [done|lia].
Qed.

Lemma same_but_parent_u8_at (b b' : bytes) off :
  same_but_parent b b' → 0 ≤ off < 2 ∨ 6 ≤ off → u8_at b off = u8_at b' off.
Proof.
  intros [_ H] Hoff. unfold u8_at. rewrite H; [done|lia].
Qed.

Lemma same_but_parent_unpack_I (b b' : bytes) off :
  same_but_parent b b' → blen b' = PAGE_SIZE →
  6 ≤ off ∨ 6 - PAGE_SIZE ≤ off < 0 →
  unpack_from_I b off = unpack_from_I b' off.
Proof.
  intros Hs Hb Hoff. pose proof Hs as [Hl _]. unfold unpack_from_I. rewrite Hl.
  destruct (struct_offset (blen b') off 4) as [pos|] eqn:E; [|done]. simpl.
  do 2 f_equal. apply same_but_parent_take_drop; [done|].
  unfold struct_offset in E. rewrite Hb in E. layout.
  destruct (off <? 0) eqn:E1.
  - destruct ((off + 4 >? 0) || (off + 4096 <? 0)); [done|].
    injection E as <-. lia.
  - destruct (4096 - off <? 4); [done|]. injection E as <-. lia.
Qed.

Lemma same_but_parent_unpack_B (b b' : bytes) :
  same_but_parent b b' → PAGE_SIZE = blen b' →
  unpack_from_B b NODE_TYPE_OFFSET = unpack_from_B b' NODE_TYPE_OFFSET.
Proof.
  intros Hs Hb. pose proof Hs as [Hl _].
  rewrite !unpack_from_B_u8_at by (layout; lia).
  f_equal. apply same_but_parent_u8_at; [done|layout; lia].
Qed.

(** ** The maximum key, read off the pages *)

Lemma max_key_in_ext d (v v' : Z → bytes) n :
  (∀ m, 0 ≤ m → v m = v' m) → 0 ≤ n → max_key_in d v n = max_key_in d v' n.
Proof.
  intros Hv. revert n. induction d as [|d IH]; intros n Hn; [done|].
  simpl. rewrite <- (Hv n) by done.
  destruct (unpack_from_B (v n) NODE_TYPE_OFFSET) as [ty|]; [|done]. simpl.
  destruct (ty =? 1); [done|]. destruct (ty =? 0); [|done].
  destruct (unpack_from_I (v n) INTERNAL_NODE_RIGHT_CHILD_OFFSET) as [rc|] eqn:E;
    [|done]. simpl.
  destruct (rc >? TABLE_MAX_PAGES); [done|]. apply IH.
  apply unpack_from_I_range in E. lia.
Qed.

Lemma get_node_max_key_view d n t :
  pages_ok t → 0 ≤ n →
  wpT (get_node_max_key d n)
    (λ K t', max_key_in d (node_view t) n = Some K ∧ pages_ok t'
             ∧ ∀ m, 0 ≤ m → node_view t' m = node_view t m) t.
Proof.
  revert n t. induction d as [|d IH]; intros n t Hok Hn; [done|].
  pose proof (node_view_blen t n Hok) as Hlen.
  simpl. apply wp_bind. apply wpT_get_node_type; intros Hp Hty.
  - unfold internal_node_right_child. apply wp_bind.
    apply wpT_read_u32; [layout; lia|]. intros _ _.
    pose proof (u32_at_range (node_view t n) INTERNAL_NODE_RIGHT_CHILD_OFFSET).
    apply wp_bind. apply wpT_get_page; [done|]. intros ? Hle.
    eapply wp_mono; [apply IH; [by apply pages_ok_load|lia]|].
    intros K t' (HK & Hok' & Hv). split; [|split; [done|]].
    + rewrite unpack_from_B_u8_at, Hty by (layout; lia). simpl.
      rewrite unpack_from_I_u32_at by (layout; lia). simpl.
      destruct (_ >? TABLE_MAX_PAGES) eqn:E; [lia|].
      rewrite <- HK. apply max_key_in_ext; [|lia].
      intros m Hm. symmetry. apply node_view_load; [apply Hok|done].
    + intros m Hm. rewrite Hv by done. apply node_view_load; [apply Hok|done].
  - unfold leaf_node_num_cells. apply wp_bind.
    apply wpT_read_u32; [layout; lia|]. intros _ _.
    unfold leaf_node_key. apply wpT_read. intros K _ HK.
    split; [|done].
    rewrite unpack_from_B_u8_at, Hty by (layout; lia). simpl.
    rewrite unpack_from_I_u32_at by (layout; lia). done.
Qed.

Lemma max_key_in_same_but_parent d (v v' : Z → bytes) n K :
  (∀ m, 0 ≤ m → blen (v m) = PAGE_SIZE) →
  u8_at (v 0) NODE_TYPE_OFFSET = 0 →
  u32_at (v 0) INTERNAL_NODE_RIGHT_CHILD_OFFSET = INVALID_PAGE_NUM →
  (∀ m, 0 ≤ m → m ≠ 0 → same_but_parent (v' m) (v m)) →
  0 ≤ n →
  max_key_in d v n = Some K → max_key_in d v' n = Some K.
Proof.
  intros Hlen Hty Hrc Hs. revert n. induction d as [|d IH]; intros n H0; [done|].
  simpl. destruct (decide (n = 0)) as [->|Hn].
  { rewrite unpack_from_B_u8_at, Hty by (rewrite ?Hlen; layout; lia). simpl.
    rewrite unpack_from_I_u32_at, Hrc by (rewrite ?Hlen; layout; lia). done. }
  assert (same_but_parent (v' n) (v n)) as Hsn by auto.
  assert (blen (v n) = PAGE_SIZE) as Hln by auto.
  rewrite (same_but_parent_unpack_B (v' n) (v n)) by done.
  destruct (unpack_from_B (v n) NODE_TYPE_OFFSET) as [ty|]; [|done]. simpl.
  destruct (ty =? 1).
  - rewrite (same_but_parent_unpack_I (v' n) (v n)); [|done..|layout; lia].
    destruct (unpack_from_I (v n) LEAF_NODE_NUM_CELLS_OFFSET) as [num|] eqn:E;
      [|done]. simpl.
    apply unpack_from_I_range in E.
    rewrite (same_but_parent_unpack_I (v' n) (v n)); [done|done..|].
    unfold leaf_node_cell_offset. layout. lia.
  - destruct (ty =? 0); [|done].
    rewrite (same_but_parent_unpack_I (v' n) (v n)); [|done..|layout; lia].
    destruct (unpack_from_I (v n) INTERNAL_NODE_RIGHT_CHILD_OFFSET) as [rc|] eqn:E;
      [|done]. simpl.
    destruct (rc >? TABLE_MAX_PAGES); [done|]. apply IH.
    apply unpack_from_I_range in E. lia.
Qed.

(** * [create_new_root] *)


(** The content of a page after writes to known pages. *)
Ltac nv :=
  repeat (rewrite node_view_set_page;
          destruct (decide _) as [?|?]; [try lia|try lia]).

Lemma set_page_set_page t n b b' :
  set_page (set_page t n b) n b' = set_page t n b'.
Proof. unfold set_page. simpl. by rewrite insert_insert_eq. Qed.

Lemma pg_set_page_any t n m b b' :
  pg t m b → ∃ b0, pg (set_page t n b') m b0.
Proof.
  intros Hp. destruct (decide (n = m)) as [->|Hne].
  - eexists. apply pg_set_page_eq.
  - eexists. by apply pg_set_page_ne.
Qed.

(** One field write: the table stays well-formed. *)
Ltac wstep :=
  first [apply wpT_write_u32 | apply wpT_write_u8];
  [unfold internal_node_cell_offset; layout; lia|];
  nv;
  let Hp := fresh "Hp" in
  let Hr := fresh "Hrange" in
  intros Hp _ Hr;
  lazymatch goal with
  | Hok : pages_ok ?s |- context [set_page ?s ?n ?b'] =>
      let Hok' := fresh "Hok" in
      assert (pages_ok (set_page s n b')) as Hok'
        by (eapply pages_ok_set_page; [exact Hok|exact Hp|]; len);
      clear Hp; try clear Hok; try rename Hok' into Hok
  end;
  repeat match goal with H : ?x = ?x |- _ => clear H end;
  rewrite ?set_page_set_page in *.

Section NewRoot.

Context (d : nat) (r : bytes) (left rc : Z).
Context (Hleft : 0 < left ≤ TABLE_MAX_PAGES) (Hrc : 0 ≤ rc ≤ TABLE_MAX_PAGES).
Context (Hrc0 : rc ≠ 0) (Hlr : left ≠ rc).
Context (Hr : blen r = PAGE_SIZE).

Lemma new_root_rebuild s :
  pages_ok s →
  same_but_parent (node_view s left) (blit r IS_ROOT_OFFSET [byte_of_Z 0]) →
  (∀ c, child_of r c → 0 ≤ c →
        u32_at (node_view s c) PARENT_POINTER_OFFSET = left) →
  wpT (initialize_internal_node 0;;
       set_node_root 0 true;;
       set_internal_node_num_keys 0 1;;
       set_internal_node_child 0 0 left;;
       left_child_max ← get_node_max_key d left;
       set_internal_node_key 0 0 left_child_max;;
       set_internal_node_right_child 0 rc;;
       set_node_parent left 0;;
       set_node_parent rc 0)
    (λ _ t', new_root_post d r left rc t') s.
Proof.
  intros Hok Hsl Hch.
  pose proof (node_view_blen s 0 Hok) as Hlen0.
  pose proof (node_view_blen s left Hok) as Hlenl.
  pose proof (node_view_blen s rc Hok) as Hlenr.
  unfold initialize_internal_node, set_node_type, set_node_root,
    set_internal_node_num_keys, set_internal_node_right_child,
    set_internal_node_child, internal_node_num_keys, set_internal_node_key,
    set_node_parent, NodeType_value.
  apply wp_bind. apply wp_bind. wstep.
  apply wp_bind. wstep.
  apply wp_bind. wstep.
  wstep.
  apply wp_bind. wstep.
  apply wp_bind. wstep.
  apply wp_bind. apply wp_bind. apply wpT_read_u32; [layout; lia|].
  intros _ _. nv. fld. change (0 =? 1) with false. cbv iota.
  wstep.
  apply wp_bind.
  eapply wp_mono; [apply get_node_max_key_view; [done|lia]|].
  intros K s' (HK & Hok' & Hv).
  set (X := blit _ (internal_node_cell_offset 0) _) in *.
  assert (blen X = PAGE_SIZE) as HX by (unfold X; len).
  assert (node_view s' 0 = X) as V0 by (rewrite Hv by lia; by nv).
  assert (∀ m, 0 ≤ m → m ≠ 0 → node_view s' m = node_view s m) as Vo.
  { intros m ? ?. rewrite Hv by lia. by nv. }
  assert (∀ m, 0 ≤ m → blen (node_view (set_page s 0 X) m) = PAGE_SIZE) as Hlen1.
  { intros m _. by apply node_view_blen. }
  assert (u8_at X NODE_TYPE_OFFSET = 0) as HXty by (unfold X; by fld).
  assert (u32_at X INTERNAL_NODE_RIGHT_CHILD_OFFSET = INVALID_PAGE_NUM) as HXrc
    by (unfold X; by fld).
  assert (u32_at X PARENT_POINTER_OFFSET
          = u32_at (node_view s 0) PARENT_POINTER_OFFSET) as HXpar
    by (unfold X; by fld).
  assert (u8_at X IS_ROOT_OFFSET = 1 ∧ u32_at X INTERNAL_NODE_NUM_KEYS_OFFSET = 1
          ∧ internal_child X 0 = left) as (HXroot & HXnum & HXchild).
  { unfold internal_child, X. by fld. }
  clearbody X. clear Hok. rename Hok' into Hok.
  pose proof (Vo left ltac:(lia) ltac:(lia)) as Vl.
  pose proof (Vo rc ltac:(lia) ltac:(lia)) as Vr.
  pose proof (node_view_blen s' 0 Hok) as Hlen0'.
  pose proof (node_view_blen s' left Hok) as Hlenl'.
  pose proof (node_view_blen s' rc Hok) as Hlenr'.
  apply wp_bind. wstep. apply wp_bind. wstep. apply wp_bind. wstep. wstep.
  rewrite V0, Vl, Vr in *.
  unfold new_root_post. nv. split; [|split; [|split]].
  - apply blit_parent_same_but_parent; [done|]. layout. lia.
  - intros c Hc Hc0 Hcl Hcr. nv.
    + assert (c = 0) as -> by lia.
      unfold internal_node_cell_offset. fld. rewrite HXpar. by apply Hch.
    + rewrite Vo by lia. by apply Hch.
  - by fld.
  - exists K. split.
    + unfold root_of_two, internal_child, internal_key. by fld.
    + eapply (max_key_in_same_but_parent d _ _ left K Hlen1); [| | |lia|exact HK].
      * by nv.
      * by nv.
      * intros m Hm Hm0. nv; try subst m.
        -- apply same_but_parent_blit. len.
        -- apply same_but_parent_blit. len.
        -- rewrite Vo by lia. apply same_but_parent_refl.
Qed.

End NewRoot.

(** The content of a page after loads and writes. *)
Ltac nvl :=
  repeat first
    [ rewrite node_view_set_page;
      destruct (decide _) as [?|?]; [try lia|try lia]
    | rewrite node_view_load by
        first [ lia | eassumption
              | match goal with H : pages_ok _ |- _ => exact (proj1 H) end
              | unfold internal_child;
                match goal with
                | |- 0 ≤ u32_at ?b ?o => pose proof (u32_at_range b o); lia
                end ] ].

Lemma py_range_elem n i : 0 ≤ i < n → i ∈ py_range n.
Proof. intros. unfold py_range. apply elem_of_seqZ. lia. Qed.

Section NewRootChildren.

Context (d : nat) (r : bytes) (left rc : Z).
Context (Hleft : 0 < left ≤ TABLE_MAX_PAGES) (Hrc : 0 ≤ rc ≤ TABLE_MAX_PAGES).
Context (Hrc0 : rc ≠ 0) (Hlr : left ≠ rc).
Context (Hr : blen r = PAGE_SIZE).

Local Notation l1 := (blit r IS_ROOT_OFFSET [byte_of_Z 0]).

Lemma set_child_parent (Q : () → Table → Prop) c s :
  pages_ok s → 0 ≤ c →
  (pages_ok (set_page (load s c) c
               (blit (node_view s c) PARENT_POINTER_OFFSET (le_bytes_of_u32 left))) →
   Q () (set_page (load s c) c
           (blit (node_view s c) PARENT_POINTER_OFFSET (le_bytes_of_u32 left)))) →
  wpT (child_node ← get_page c; set_node_parent child_node left) Q s.
Proof.
  intros Hok Hc HQ. apply wp_bind. apply wpT_get_page; [done|].
  intros _ Hle. unfold set_node_parent.
  pose proof (pages_ok_load s c Hok Hc) as Hok'.
  pose proof (node_view_blen s c Hok) as Hlen.
  apply wpT_write_u32; [layout; lia|]. nvl. intros Hp _ _.
  apply HQ. eapply pages_ok_set_page; [exact Hok'|exact Hp|]. len.
Qed.

Lemma new_root_children s :
  pages_ok s → node_view s left = l1 →
  wpT (ty_left ← get_node_type left;
       match ty_left with
       | INTERNAL =>
           n ← internal_node_num_keys left;
           for_each (py_range n) (λ i,
             child_page_num ← internal_node_child left i;
             child_node ← get_page child_page_num;
             set_node_parent child_node left);;
           right_child_of_left ← internal_node_right_child left;
           child_node ← get_page right_child_of_left;
           set_node_parent child_node left
       | LEAF => mret ()
       end;;
       initialize_internal_node 0;;
       set_node_root 0 true;;
       set_internal_node_num_keys 0 1;;
       set_internal_node_child 0 0 left;;
       left_child_max ← get_node_max_key d left;
       set_internal_node_key 0 0 left_child_max;;
       set_internal_node_right_child 0 rc;;
       set_node_parent left 0;;
       set_node_parent rc 0)
    (λ _ t', new_root_post d r left rc t') s.
Proof.
  intros Hok Hvl.
  assert (u8_at l1 NODE_TYPE_OFFSET = u8_at r NODE_TYPE_OFFSET) as Hty1 by by fld.
  assert (∀ off, 6 ≤ off → u32_at l1 off = u32_at r off) as Hf1.
  { intros off Hoff. apply u32_at_blit_other; [len..|]. right. len. }
  apply wp_bind. apply wpT_get_node_type; rewrite Hvl, Hty1; intros _ Hty.
  - apply wp_bind. apply wp_bind. unfold internal_node_num_keys.
    apply wpT_read_u32; [layout; lia|]. intros _ _.
    rewrite Hvl, Hf1 by (layout; lia).
    set (n := u32_at r INTERNAL_NODE_NUM_KEYS_OFFSET).
    apply wp_bind.
    set (Inv := λ (done : list Z) (s' : Table),
      pages_ok s' ∧ same_but_parent (node_view s' left) l1
      ∧ ∀ i, i ∈ done →
          u32_at (node_view s' (internal_child r i)) PARENT_POINTER_OFFSET = left).
    eapply wp_mono; [apply wp_for_each_progress with (Inv := Inv)|].
    + split; [done|]. split; [rewrite Hvl; apply same_but_parent_refl|].
      intros i Hi. by apply elem_of_nil in Hi.
    + intros done i rest s' Hsplit (Hok' & Hs' & Hdone).
      assert (0 ≤ i < n) as Hi.
      { apply elem_of_py_range. rewrite Hsplit. apply elem_of_app. right.
        apply list_elem_of_here. }
      unfold internal_node_child, internal_node_num_keys, internal_node_right_child.
      apply wp_bind. apply wp_bind. apply wpT_read_u32; [layout; lia|].
      intros _ _.
      rewrite (same_but_parent_u32_at _ _ _ Hs'), Hf1 by (layout; lia).
      fold n. destruct (i >? n) eqn:E1; [lia|].
      destruct (i =? n) eqn:E2; [lia|].
      apply wpT_read_u32; [unfold internal_node_cell_offset; layout; lia|].
      intros _ _.
      rewrite (same_but_parent_u32_at _ _ _ Hs'), Hf1
        by (unfold internal_node_cell_offset; layout; lia).
      fold (internal_child r i).
      pose proof (u32_at_range r (internal_node_cell_offset i)) as Hci.
      fold (internal_child r i) in Hci.
      apply set_child_parent; [done|lia|]. intros Hok''.
      pose proof (node_view_blen s' (internal_child r i) Hok') as Hlen.
      split; [done|]. split.
      * nvl; [|done]. subst left.
        eapply same_but_parent_trans; [apply same_but_parent_blit; len|done].
      * intros j [Hj| ->%list_elem_of_singleton]%elem_of_app.
        -- nvl; [|by apply Hdone].
           apply u32_at_blit_same; [layout; lia|len|layout; lia].
        -- nvl. apply u32_at_blit_same; [layout; lia|len|layout; lia].
    + intros _ s' (Hok' & Hs' & Hdone).
      unfold internal_node_right_child.
      apply wp_bind. apply wpT_read_u32; [layout; lia|].
      intros _ _.
      rewrite (same_but_parent_u32_at _ _ _ Hs'), Hf1 by (layout; lia).
      pose proof (u32_at_range r INTERNAL_NODE_RIGHT_CHILD_OFFSET) as Hci.
      set (c := u32_at r INTERNAL_NODE_RIGHT_CHILD_OFFSET) in *.
      apply set_child_parent; [done|lia|]. intros Hok''.
      pose proof (node_view_blen s' c Hok') as Hlen.
      apply new_root_rebuild; try done.
      * nvl; [|done]. subst left.
        eapply same_but_parent_trans; [apply same_but_parent_blit; len|done].
      * intros c' (_ & [(i & Hi & ->)| ->]) Hc'.
        -- nvl.
           ++ apply u32_at_blit_same; [layout; lia|len|layout; lia].
           ++ apply Hdone. by apply py_range_elem.
        -- fold c. nvl. apply u32_at_blit_same; [layout; lia|len|layout; lia].
  - apply wp_bind, wp_ret.
    apply new_root_rebuild; try done.
    + rewrite Hvl. apply same_but_parent_refl.
    + intros c (Hty' & _). lia.
Qed.

End NewRootChildren.

Section NewRootCopy.

Context (d : nat) (r : bytes) (left rc : Z).
Context (Hleft : 0 < left ≤ TABLE_MAX_PAGES) (Hrc : 0 ≤ rc ≤ TABLE_MAX_PAGES).
Context (Hrc0 : rc ≠ 0) (Hlr : left ≠ rc).
Context (Hr : blen r = PAGE_SIZE).

Lemma new_root_copy s :
  pages_ok s → node_view s 0 = r →
  wpT (root_bytes ← buf 0;
       set_buf left root_bytes;;
       set_node_root left false;;
       ty_left ← get_node_type left;
       match ty_left with
       | INTERNAL =>
           n ← internal_node_num_keys left;
           for_each (py_range n) (λ i,
             child_page_num ← internal_node_child left i;
             child_node ← get_page child_page_num;
             set_node_parent child_node left);;
           right_child_of_left ← internal_node_right_child left;
           child_node ← get_page right_child_of_left;
           set_node_parent child_node left
       | LEAF => mret ()
       end;;
       initialize_internal_node 0;;
       set_node_root 0 true;;
       set_internal_node_num_keys 0 1;;
       set_internal_node_child 0 0 left;;
       left_child_max ← get_node_max_key d left;
       set_internal_node_key 0 0 left_child_max;;
       set_internal_node_right_child 0 rc;;
       set_node_parent left 0;;
       set_node_parent rc 0)
    (λ _ t', new_root_post d r left rc t') s.
Proof.
  intros Hok Hv0.
  apply wp_bind, wpT_buf. intros _. rewrite Hv0.
  apply wp_bind, wpT_set_buf. intros Hp.
  assert (pages_ok (set_page s left r)) as Hok1
    by (by eapply pages_ok_set_page).
  clear Hok Hp. rename Hok1 into Hok.
  unfold set_node_root. apply wp_bind. wstep.
  apply new_root_children; try done. by nv.
Qed.

End NewRootCopy.

Lemma create_new_root_spec d rc t :
  pages_ok t → rc ≠ 0 →
  wpT (create_new_root d rc)
    (λ _ t', new_root_post d (node_view t 0)
               (Z.max (num_pages (pager t)) (rc + 1)) rc t') t.
Proof.
  intros Hok Hrc0. pose proof Hok as [(Hroot & Hnp & _) _].
  unfold create_new_root.
  apply wp_bind, wp_get_root_page_num. rewrite Hroot.
  apply wp_bind, wpT_get_page; [done|]. intros _ _.
  pose proof (pages_ok_load t 0 Hok ltac:(lia)) as Hok1.
  apply wp_bind, wpT_get_page; [done|]. intros Hrc Hrc'.
  pose proof (pages_ok_load _ rc Hok1 Hrc) as Hok2.
  apply wp_bind, wp_get_unused_page_num.
  rewrite !num_pages_load by (done || lia).
  replace (Z.max (Z.max (num_pages (pager t)) (0 + 1)) (rc + 1))
    with (Z.max (num_pages (pager t)) (rc + 1)) by lia.
  set (left := Z.max (num_pages (pager t)) (rc + 1)).
  apply wp_bind, wpT_get_page; [done|]. intros Hl Hl'.
  pose proof (pages_ok_load _ left Hok2 Hl) as Hok3.
  assert (0 < left ≤ TABLE_MAX_PAGES) as Hleft by lia.
  assert (left ≠ rc) as Hlr by lia.
  assert (0 ≤ rc ≤ TABLE_MAX_PAGES) as Hrc2 by lia.
  set (s3 := load _ left) in *.
  assert (∀ m, 0 ≤ m → node_view s3 m = node_view t m) as Hv3.
  { intros m Hm. unfold s3. by nvl. }
  pose proof (node_view_blen t 0 Hok) as Hr.
  pose proof (node_view_blen s3 rc Hok3) as Hlenr.
  pose proof (node_view_blen s3 left Hok3) as Hlenl.
  clearbody s3. clear Hok Hok1 Hok2. rename Hok3 into Hok.
  apply wp_bind. apply wpT_get_node_type; intros _ Hty.
  - unfold initialize_internal_node, set_node_type, set_node_root,
      set_internal_node_num_keys, set_internal_node_right_child, NodeType_value.
    apply wp_bind. apply wp_bind.
    apply wp_bind. wstep. apply wp_bind. wstep. apply wp_bind. wstep. wstep.
    apply wp_bind. wstep. apply wp_bind. wstep. apply wp_bind. wstep. wstep.
    apply new_root_copy; try done. nv. by apply Hv3.
  - apply wp_bind, wp_ret. apply new_root_copy; try done. by apply Hv3.
Qed.

(** * The root page *)

Lemma rtc_top_step_root_inv t0 t :
  root_inv no_page t0 → rtc top_step t0 t → root_inv no_page t.
Proof.
  intros H0 Hsteps. induction Hsteps as [|t1 t2 t3 Hstep _ IH]; [done|].
  apply IH. by eapply top_step_root_inv.
Qed.

Lemma pages_ok_singleton (b : bytes) :
  blen b = PAGE_SIZE → pages_ok (mkTable (mkPager [] 1 {[ 0 := b ]}) 0).
Proof.
  intros Hb. split; [|by apply cache_ok_singleton].
  split; [done|]. split; [simpl; lia|]. split; [by vm_compute|].
  intros n x. simpl. intros [<- <-]%lookup_singleton_Some.
  rewrite Hb. layout. lia.
Qed.



(** * Levels of the nodes *)

Notation wpN := (wp_gen False True True).

Lemma node_view_unused t n :
  pages_ok t → num_pages (pager t) ≤ n → node_view t n = zero_bytes PAGE_SIZE.
Proof.
  intros [_ Hc] Hn. unfold node_view.
  destruct (pages (pager t) !! n) as [b|] eqn:E; [apply Hc in E; lia|].
  unfold miss_page. destruct (n <? num_pages (pager t)) eqn:E2; [lia|done].
Qed.

Lemma with_page_eq V n b : with_page V n b n = b.
Proof. unfold with_page. by rewrite decide_True. Qed.

Lemma with_page_ne V n b m : m ≠ n → with_page V n b m = V m.
Proof. intros. unfold with_page. by rewrite decide_False. Qed.

Lemma with_level_eq L n l : with_level L n l n = l.
Proof. unfold with_level. by rewrite decide_True. Qed.

Lemma with_level_ne L n l m : m ≠ n → with_level L n l m = L m.
Proof. intros. unfold with_level. by rewrite decide_False. Qed.

(** ** The pages of a table *)

Lemma views_are_init t : pages_ok t → views_are t (node_view t) (num_pages (pager t)).
Proof. intros. split; [done|]. split; [lia|done]. Qed.

Lemma views_are_blen s V N m : views_are s V N → 0 ≤ m → blen (V m) = PAGE_SIZE.
Proof.
  intros (Hok & _ & Hv) Hm. rewrite <- Hv by done. by apply node_view_blen.
Qed.

Lemma views_are_load s V N m :
  views_are s V N → 0 ≤ m →
  views_are (load s m) V (Z.max N (m + 1)).
Proof.
  intros (Hok & HN & Hv) Hm. split; [by apply pages_ok_load|]. split.
  - rewrite num_pages_load by done. lia.
  - intros k Hk. rewrite node_view_load; [by apply Hv|apply Hok|done].
Qed.

Lemma views_are_set_page s V N n b0 b' :
  views_are s V N → 0 ≤ n → pg s n b0 → blen b' = PAGE_SIZE →
  views_are (set_page s n b') (with_page V n b') N.
Proof.
  intros (Hok & HN & Hv) Hn Hp Hb. split; [by eapply pages_ok_set_page|].
  split; [done|]. intros m Hm. rewrite node_view_set_page. unfold with_page.
  destruct (decide (n = m)) as [->|Hne].
  - by rewrite decide_True.
  - rewrite decide_False by done. by apply Hv.
Qed.

Lemma views_are_weaken s V N N' : views_are s V N → N' ≤ N → views_are s V N'.
Proof. intros (Hok & HN & Hv) ?. split; [done|]. split; [lia|done]. Qed.

Lemma views_are_unused s V N n :
  views_are s V N → num_pages (pager s) ≤ n → 1 ≤ num_pages (pager s) →
  V n = zero_bytes PAGE_SIZE.
Proof.
  intros (Hok & HN & Hv) Hn H1. rewrite <- Hv by lia. by apply node_view_unused.
Qed.

(** Steps of a computation, on the contents of the pages. *)
Section Steps.

Context (F : Prop).

Local Notation wp := (wp_gen F True True).

Lemma v_get_page s V N m (Q : Z → Table → Prop) :
  views_are s V N → 0 ≤ m →
  (∀ s', m ≤ TABLE_MAX_PAGES → views_are s' V (Z.max N (m + 1)) →
         num_pages (pager s') = Z.max (num_pages (pager s)) (m + 1) → Q m s') →
  wp (get_page m) Q s.
Proof.
  intros Hs Hm HQ. apply wpT_get_page; [apply Hs|]. intros _ Hle.
  apply HQ; [done|by apply views_are_load|].
  apply num_pages_load; [apply Hs|done].
Qed.

Lemma v_get_unused_page_num s (Q : Z → Table → Prop) :
  Q (num_pages (pager s)) s → wp get_unused_page_num Q s.
Proof. done. Qed.

Lemma v_get_root_page_num s V N (Q : Z → Table → Prop) :
  views_are s V N → Q 0 s → wp get_root_page_num Q s.
Proof.
  intros ((Hp & _) & _) HQ. destruct Hp as (Hr & _).
  unfold wp_gen, get_root_page_num. by rewrite Hr.
Qed.

Lemma v_read_u32 s V N fn n off (Q : Z → Table → Prop) :
  views_are s V N → 0 ≤ n → 0 ≤ off →
  (off + 4 ≤ PAGE_SIZE → Q (u32_at (V n) off) s) →
  wp (read_buf fn n (λ b, unpack_from_I b off)) Q s.
Proof.
  intros Hs Hn Hoff HQ. pose proof Hs as (Hok & _ & Hv).
  apply wpT_read_u32; [done|]. rewrite Hv by done.
  rewrite (views_are_blen _ _ _ _ Hs Hn). intros _. apply HQ.
Qed.

Lemma v_read_u8 s V N fn n off (Q : Z → Table → Prop) :
  views_are s V N → 0 ≤ n → 0 ≤ off →
  (off + 1 ≤ PAGE_SIZE → Q (u8_at (V n) off) s) →
  wp (read_buf fn n (λ b, unpack_from_B b off)) Q s.
Proof.
  intros Hs Hn Hoff HQ. pose proof Hs as (Hok & _ & Hv).
  apply wpT_read_u8; [done|]. rewrite Hv by done.
  rewrite (views_are_blen _ _ _ _ Hs Hn). intros _. apply HQ.
Qed.

Lemma v_write_u32 s V N fn n off v (Q : () → Table → Prop) :
  views_are s V N → 0 ≤ n → 0 ≤ off →
  (∀ s', off + 4 ≤ PAGE_SIZE → 0 ≤ v < 4294967296 →
         views_are s' (with_page V n (blit (V n) off (le_bytes_of_u32 v))) N →
         num_pages (pager s') = num_pages (pager s) → Q () s') →
  wp (update_buf fn n (λ b, pack_into_I b off v)) Q s.
Proof.
  intros Hs Hn Hoff HQ. pose proof Hs as (Hok & _ & Hv).
  pose proof (views_are_blen _ _ _ _ Hs Hn) as Hlen.
  apply wpT_write_u32; [done|]. rewrite Hv by done. rewrite Hlen.
  intros Hp Hin Hr. apply HQ; [done|done| |done].
  eapply views_are_set_page; [done|done|done|]. rewrite blit_blen; [done|done|].
  rewrite blen_le_bytes. lia.
Qed.

Lemma v_write_u8 s V N fn n off v (Q : () → Table → Prop) :
  views_are s V N → 0 ≤ n → 0 ≤ off →
  (∀ s', off + 1 ≤ PAGE_SIZE → 0 ≤ v < 256 →
         views_are s' (with_page V n (blit (V n) off [byte_of_Z v])) N →
         num_pages (pager s') = num_pages (pager s) → Q () s') →
  wp (update_buf fn n (λ b, pack_into_B b off v)) Q s.
Proof.
  intros Hs Hn Hoff HQ. pose proof Hs as (Hok & _ & Hv).
  pose proof (views_are_blen _ _ _ _ Hs Hn) as Hlen.
  apply wpT_write_u8; [done|]. rewrite Hv by done. rewrite Hlen.
  intros Hp Hin Hr. apply HQ; [done|done| |done].
  eapply views_are_set_page; [done|done|done|]. rewrite blit_blen; [done|done|].
  change (blen [byte_of_Z v]) with 1. lia.
Qed.

Lemma v_buf s V N n (Q : bytes → Table → Prop) :
  views_are s V N → 0 ≤ n → Q (V n) s → wp (buf n) Q s.
Proof.
  intros Hs Hn HQ. pose proof Hs as (Hok & _ & Hv).
  apply wpT_buf. intros _. by rewrite Hv.
Qed.

Lemma v_set_buf s V N n b (Q : () → Table → Prop) :
  views_are s V N → 0 ≤ n → blen b = PAGE_SIZE →
  (∀ s', views_are s' (with_page V n b) N →
         num_pages (pager s') = num_pages (pager s) → Q () s') →
  wp (set_buf n b) Q s.
Proof.
  intros Hs Hn Hb HQ. apply wpT_set_buf. intros Hp.
  apply HQ; [|done]. by eapply views_are_set_page.
Qed.

Lemma v_get_node_type s V N n (Q : NodeType → Table → Prop) :
  views_are s V N → 0 ≤ n →
  (u8_at (V n) NODE_TYPE_OFFSET = 0 → Q INTERNAL s) →
  (u8_at (V n) NODE_TYPE_OFFSET = 1 → Q LEAF s) →
  wp (get_node_type n) Q s.
Proof.
  intros Hs Hn HI HL. pose proof Hs as (Hok & _ & Hv).
  apply wpT_get_node_type; rewrite Hv by done; intros _; [apply HI|apply HL].
Qed.

Lemma v_is_node_root s V N n (Q : bool → Table → Prop) :
  views_are s V N → 0 ≤ n →
  Q (negb (u8_at (V n) IS_ROOT_OFFSET =? 0)) s →
  wp (is_node_root n) Q s.
Proof.
  intros Hs Hn HQ. unfold is_node_root. apply wp_bind.
  eapply v_read_u8; [done|done|layout; lia|]. intros _. by apply wp_ret.
Qed.

End Steps.

(** * Levels: the descent and the search *)

Section LevelsOk.

Context (L : Z → Z) (A : list Z) (R : Z → bytes).

Lemma levels_ok_node Xs Xp V n :
  levels_ok L A Xs Xp R V → n ∈ A →
  0 ≤ n ∧ node_ok L A (Xs n) (Xp n) (R n) n (V n).
Proof. intros [_ H] Hn. by apply H. Qed.

Lemma levels_ok_with_page Xs Xp V n b' :
  levels_ok L A Xs Xp R V →
  (n ∈ A → node_ok L A (Xs n) (Xp n) (R n) n b') →
  levels_ok L A Xs Xp R (with_page V n b').
Proof.
  intros [H0 H] Hb. split; [done|]. intros m Hm.
  destruct (H m Hm) as [? Hnode]. split; [done|]. unfold with_page.
  destruct (decide (m = n)) as [->|]; [by apply Hb|done].
Qed.

Lemma levels_ok_exempt Xs Xp Xs' Xp' V :
  levels_ok L A Xs Xp R V →
  (∀ n, n ∈ A → node_ok L A (Xs n) (Xp n) (R n) n (V n) →
        node_ok L A (Xs' n) (Xp' n) (R n) n (V n)) →
  levels_ok L A Xs' Xp' R V.
Proof.
  intros [H0 H] Hx. split; [done|]. intros n Hn.
  destruct (H n Hn) as [? Hnode]. split; [done|]. by apply Hx.
Qed.

Lemma node_ok_exempt (xs xp xs' xp' : Prop) ref n b :
  (xs → xs') → (xp → xp') →
  node_ok L A xs xp ref n b → node_ok L A xs' xp' ref n b.
Proof.
  intros Hs Hp (H1 & H2 & H3 & H4). split; [done|]. split; [done|].
  split.
  - intros Hl. destruct (H3 Hl) as (? & ? & ? & Hsl).
    repeat split; try done; apply Hsl; tauto.
  - intros Hn. apply H4. tauto.
Qed.

Lemma levels_ok_exempt_more Xs Xp Xs' Xp' V :
  levels_ok L A Xs Xp R V →
  (∀ n, Xs n → Xs' n) → (∀ n, Xp n → Xp' n) →
  levels_ok L A Xs' Xp' R V.
Proof.
  intros H Hs Hp. eapply levels_ok_exempt; [done|].
  intros n _. apply node_ok_exempt; auto.
Qed.

Lemma levels_inv_views_are Xs Xp t :
  levels_inv L A Xs Xp R t →
  views_are t (node_view t) (num_pages (pager t))
  ∧ levels_ok L A Xs Xp R (node_view t)
  ∧ ∀ n, n ∈ A → n < num_pages (pager t).
Proof.
  intros (Hok & H0 & HA). split; [by apply views_are_init|]. split.
  - split; [done|]. intros n Hn. destruct (HA n Hn) as [? ?]. split; [lia|done].
  - intros n Hn. destruct (HA n Hn) as [? ?]. lia.
Qed.

Lemma views_are_levels_inv Xs Xp s V N :
  views_are s V N → levels_ok L A Xs Xp R V → (∀ n, n ∈ A → n < N) →
  levels_inv L A Xs Xp R s.
Proof.
  intros (Hok & HN & Hv) [H0 H] HA. split; [done|]. split; [done|].
  intros n Hn. destruct (H n Hn) as [? Hnode]. pose proof (HA n Hn).
  split; [lia|]. by rewrite Hv.
Qed.

(** [get_node_max_key] goes down one level at every step. *)
Lemma v_get_node_max_key Xs Xp s V N d n (Q : Z → Table → Prop) :
  views_are s V N → levels_ok L A Xs Xp R V → n ∈ A → L n < Z.of_nat d →
  (∀ K s', views_are s' V N →
           num_pages (pager s) ≤ num_pages (pager s') → Q K s') →
  wpN (get_node_max_key d n) Q s.
Proof.
  intros Hs Hlv. revert n s N Hs Q.
  induction d as [|d IH]; intros n s N Hs Q Hn Hd HQ.
  { destruct (levels_ok_node _ _ _ _ Hlv Hn) as [_ (? & _)]. lia. }
  destruct (levels_ok_node _ _ _ _ Hlv Hn) as [Hn0 (Hl & Hleaf & Hint & _)].
  simpl. apply wp_bind.
  eapply v_get_node_type; [done|done| |]; intros Hty.
  - assert (0 < L n) as Hpos.
    { destruct (decide (L n = 0)) as [H0|]; [|lia].
      destruct (Hleaf H0) as [? _]. lia. }
    destruct (Hint Hpos) as (_ & _ & Hrc & _).
    unfold internal_node_right_child. apply wp_bind.
    eapply v_read_u32; [done|done|layout; lia|]. intros _.
    pose proof (u32_at_range (V n) INTERNAL_NODE_RIGHT_CHILD_OFFSET).
    apply wp_bind. eapply v_get_page; [done|lia|].
    intros s' Hle Hs' Hnum.
    destruct Hrc as [?|[Hrc Hlt]]; [lia|].
    eapply IH; [done|done|lia|].
    intros K s'' Hs'' Hnum'. apply HQ; [|lia].
    eapply views_are_weaken; [done|lia].
  - unfold leaf_node_num_cells. apply wp_bind.
    eapply v_read_u32; [done|done|layout; lia|]. intros _.
    unfold leaf_node_key. apply wp_read_buf; [done|done|].
    intros b K _ _. apply HQ; [done|lia].
Qed.

End LevelsOk.

(** The binary search of [internal_node_find_child] ends. *)
Lemma v_find_child_loop F fuel s V N node key lo hi (Q : Z → Table → Prop) :
  views_are s V N → 0 ≤ lo → lo ≤ hi → hi - lo < Z.of_nat fuel →
  (∀ idx, lo ≤ idx ≤ hi → Q idx s) →
  wp_gen F True True (find_child_loop fuel node key lo hi) Q s.
Proof.
  intros Hs. revert lo hi. induction fuel as [|fuel IH]; intros lo hi H0 Hle Hf HQ;
    [lia|].
  simpl. destruct (negb (lo =? hi)) eqn:E.
  2:{ apply wp_ret, HQ. lia. }
  apply negb_true_iff, Z.eqb_neq in E.
  assert (lo ≤ (lo + hi) / 2 < hi) as Hidx.
  { split; [apply Z.div_le_lower_bound; lia|apply Z.div_lt_upper_bound; lia]. }
  apply wp_bind. unfold internal_node_key. apply wp_read_buf; [done|done|].
  intros b k _ _.
  destruct (k >=? key).
  - apply IH; [lia|lia|lia|]. intros idx Hi. apply HQ. lia.
  - apply IH; [lia|lia|lia|]. intros idx Hi. apply HQ. lia.
Qed.

Lemma v_internal_node_find_child F s V N node key (Q : Z → Table → Prop) :
  views_are s V N → 0 ≤ node →
  u32_at (V node) INTERNAL_NODE_NUM_KEYS_OFFSET ≤ INTERNAL_NODE_MAX_KEYS →
  (∀ idx, 0 ≤ idx ≤ u32_at (V node) INTERNAL_NODE_NUM_KEYS_OFFSET → Q idx s) →
  wp_gen F True True (internal_node_find_child node key) Q s.
Proof.
  intros Hs Hn Hk HQ. unfold internal_node_find_child, internal_node_num_keys.
  apply wp_bind. eapply v_read_u32; [done|done|layout; lia|]. intros _.
  pose proof (u32_at_range (V node) INTERNAL_NODE_NUM_KEYS_OFFSET).
  eapply v_find_child_loop; [done|lia|lia| |done].
  unfold search_fuel. layout. lia.
Qed.

(** * [internal_node_insert] into a node that is not full *)

Lemma views_are_ext s V V' N :
  views_are s V N → (∀ m, 0 ≤ m → V m = V' m) → views_are s V' N.
Proof.
  intros (Hok & HN & Hv) He. split; [done|]. split; [done|].
  intros m Hm. rewrite <- He by done. by apply Hv.
Qed.

Lemma with_page_twice V n b b' m :
  with_page (with_page V n b) n b' m = with_page V n b' m.
Proof. unfold with_page. by destruct (decide (m = n)). Qed.

Lemma views_are_twice s V N n b b' :
  views_are s (with_page (with_page V n b) n b') N →
  views_are s (with_page V n b') N.
Proof.
  intros H. eapply views_are_ext; [done|]. intros m _. apply with_page_twice.
Qed.

(** A write on a page that was written before. *)
Section Again.

Context (F : Prop).

Local Notation wp := (wp_gen F True True).

Lemma v_write_u32_again s V N fn n b off v (Q : () → Table → Prop) :
  views_are s (with_page V n b) N → 0 ≤ n → 0 ≤ off →
  (∀ s', off + 4 ≤ PAGE_SIZE → 0 ≤ v < 4294967296 →
         views_are s' (with_page V n (blit b off (le_bytes_of_u32 v))) N →
         num_pages (pager s') = num_pages (pager s) → Q () s') →
  wp (update_buf fn n (λ b, pack_into_I b off v)) Q s.
Proof.
  intros Hs Hn Hoff HQ. eapply v_write_u32; [done|done|done|].
  intros s' ? ? Hs' ?. rewrite with_page_eq in Hs'.
  apply HQ; try done. by apply views_are_twice in Hs'.
Qed.

Lemma v_read_u32_again s V N fn n b off (Q : Z → Table → Prop) :
  views_are s (with_page V n b) N → 0 ≤ n → 0 ≤ off →
  (off + 4 ≤ PAGE_SIZE → Q (u32_at b off) s) →
  wp (read_buf fn n (λ b, unpack_from_I b off)) Q s.
Proof.
  intros Hs Hn Hoff HQ. eapply v_read_u32; [done|done|done|].
  by rewrite with_page_eq.
Qed.

Lemma v_buf_again s V N n b (Q : bytes → Table → Prop) :
  views_are s (with_page V n b) N → 0 ≤ n → Q b s → wp (buf n) Q s.
Proof.
  intros Hs Hn HQ. eapply v_buf; [done|done|]. by rewrite with_page_eq.
Qed.

Lemma v_set_buf_again s V N n b b' (Q : () → Table → Prop) :
  views_are s (with_page V n b) N → 0 ≤ n → blen b' = PAGE_SIZE →
  (∀ s', views_are s' (with_page V n b') N →
         num_pages (pager s') = num_pages (pager s) → Q () s') →
  wp (set_buf n b') Q s.
Proof.
  intros Hs Hn Hb HQ. eapply v_set_buf; [done|done|done|].
  intros s' Hs' ?. apply HQ; [|done]. by apply views_are_twice in Hs'.
Qed.

End Again.

Lemma internal_node_insert_S d fuel parent_page_num child_page_num :
  internal_node_insert d (S fuel) parent_page_num child_page_num =
  (parent ← get_page parent_page_num;
   child ← get_page child_page_num;
   child_max_key ← get_node_max_key d child;
   index ← internal_node_find_child parent child_max_key;
   original_num_keys ← internal_node_num_keys parent;
   if original_num_keys >=? INTERNAL_NODE_MAX_KEYS then
     internal_node_split_and_insert_with (internal_node_insert d fuel) d
       parent_page_num child_page_num
   else
     right_child_page_num ← internal_node_right_child parent;
     if right_child_page_num =? INVALID_PAGE_NUM then
       set_internal_node_right_child parent child_page_num
     else
       right_child ← get_page right_child_page_num;
       set_internal_node_num_keys parent (original_num_keys + 1);;
       right_max ← get_node_max_key d right_child;
       if child_max_key >? right_max then
         set_internal_node_child parent original_num_keys right_child_page_num;;
         right_max' ← get_node_max_key d right_child;
         set_internal_node_key parent original_num_keys right_max';;
         set_internal_node_right_child parent child_page_num
       else
         for_each (py_range_down original_num_keys index) (λ i,
           let src_off := internal_node_cell_offset (i - 1) in
           let dest_off := internal_node_cell_offset i in
           b ← buf parent;
           let chunk := getslice b src_off (src_off + INTERNAL_NODE_CELL_SIZE) in
           set_buf parent
             (setslice b dest_off (dest_off + INTERNAL_NODE_CELL_SIZE) chunk));;
         set_internal_node_child parent index child_page_num;;
         set_internal_node_key parent index child_max_key).
Proof. reflexivity. Qed.

Lemma drop_blit_parent (b : bytes) v :
  blen b = PAGE_SIZE →
  drop 6 (blit b PARENT_POINTER_OFFSET (le_bytes_of_u32 v)) = drop 6 b.
Proof.
  intros Hb. apply list_eq. intros i. rewrite !lookup_drop.
  rewrite blit_lookup by len. rewrite le_bytes_length.
  case_decide as Hd; [|done].
  change (Z.to_nat PARENT_POINTER_OFFSET) with 2%nat in Hd. lia.
Qed.

(** ** The conditions on a node, field by field *)

Section NodeOk.

Context (L : Z → Z) (A : list Z).

Implicit Types (b ref : bytes) (n : Z) (xs xp : Prop).

(** From the conditions on [b] to those on a buffer with the same fields
    outside the cells. *)
Lemma node_ok_fields xs xp xs' xp' ref n b b' :
  node_ok L A xs xp ref n b → 0 < L n →
  u8_at b' NODE_TYPE_OFFSET = u8_at b NODE_TYPE_OFFSET →
  u32_at b' INTERNAL_NODE_NUM_KEYS_OFFSET ≤ INTERNAL_NODE_MAX_KEYS →
  (TABLE_MAX_PAGES < u32_at b' INTERNAL_NODE_RIGHT_CHILD_OFFSET
   ∨ (u32_at b' INTERNAL_NODE_RIGHT_CHILD_OFFSET ∈ A
      ∧ L (u32_at b' INTERNAL_NODE_RIGHT_CHILD_OFFSET) < L n)) →
  (¬ xs' → slot_ok L A n b' 0 ∧ slot_ok L A n b' 1 ∧ slot_ok L A n b' 2) →
  (¬ xp' →
     (u8_at b' IS_ROOT_OFFSET = 0 →
        n ≠ 0 ∧ u32_at b' PARENT_POINTER_OFFSET ∈ A
        ∧ L n < L (u32_at b' PARENT_POINTER_OFFSET))
     ∧ (u8_at b' IS_ROOT_OFFSET ≠ 0 → n = 0)) →
  node_ok L A xs' xp' ref n b'.
Proof.
  intros (Hl & _ & Hint & _) Hpos Hty Hk Hrc Hsl Hpar.
  destruct (Hint Hpos) as (Hty0 & _).
  split; [done|]. split; [lia|]. split; [|done].
  intros _. split; [congruence|]. done.
Qed.

(** The parent pointer of any node of the tree. *)
Lemma node_ok_set_parent xs xp ref n b v :
  node_ok L A xs xp ref n b → blen b = PAGE_SIZE → 0 ≤ v < 4294967296 →
  (u8_at b IS_ROOT_OFFSET = 0 → n ≠ 0 ∧ v ∈ A ∧ L n < L v) →
  (u8_at b IS_ROOT_OFFSET ≠ 0 → n = 0) →
  node_ok L A xs False ref n (blit b PARENT_POINTER_OFFSET (le_bytes_of_u32 v)).
Proof.
  intros (Hl & Hleaf & Hint & _) Hb Hv Hpar Hroot.
  unfold node_ok, slot_ok, internal_child in *.
  fld. split; [done|]. split; [|split].
  - intros H0. destruct (Hleaf H0) as [? <-]. split; [done|].
    by apply drop_blit_parent.
  - done.
  - done.
Qed.

End NodeOk.

(** * The search in a leaf *)

(** The binary search of [leaf_node_find] on the first [n] cells of a
    leaf with ascending keys: it stops at the lower bound of the key. *)
Lemma leaf_find_loop_lower_bound (fuel : nat) t p (b : bytes) n key lo hi :
  pg t p b → blen b = PAGE_SIZE → 0 ≤ n ≤ LEAF_NODE_MAX_CELLS →
  leaf_keys_ascending b n →
  0 ≤ lo → lo ≤ hi → hi ≤ n → hi - lo < Z.of_nat fuel →
  (∀ i, 0 ≤ i < lo → leaf_key b i < key) →
  (∀ i, hi ≤ i < n → key < leaf_key b i) →
  ∃ c, leaf_find_loop fuel p key lo hi t = Ok c t ∧ lower_bound b n key c.
Proof.
  intros Hp Hb Hn Hasc. revert lo hi.
  induction fuel as [|fuel IH]; intros lo hi Hlo Hlh Hhi Hfuel Hlow Hhigh;
    [lia|].
  simpl. destruct (negb (hi =? lo)) eqn:E.
  2:{ apply negb_false_iff, Z.eqb_eq in E. subst hi.
      exists lo. split; [done|]. split; [lia|]. split; [done|].
      intros i Hi. apply Hhigh in Hi. lia. }
  apply negb_true_iff, Z.eqb_neq in E.
  set (index := (lo + hi) / 2).
  assert (lo ≤ index < hi) as Hidx.
  { unfold index. split.
    - apply Z.div_le_lower_bound; lia.
    - apply Z.div_lt_upper_bound; lia. }
  unfold mbind, M_bind. rewrite (leaf_node_key_pg t p b index Hp);
    [|lia|unfold leaf_node_cell_offset; layout; lia].
  destruct (key =? leaf_key b index) eqn:Eeq.
  { apply Z.eqb_eq in Eeq. exists index. split; [done|].
    split; [lia|]. split.
    - intros i Hi. rewrite Eeq. apply Hasc; lia.
    - intros i Hi. rewrite Eeq.
      destruct (decide (i = index)) as [->|]; [lia|].
      pose proof (Hasc index i). lia. }
  apply Z.eqb_neq in Eeq.
  destruct (key <? leaf_key b index) eqn:Elt.
  - apply IH; try lia; try done.
    intros i Hi. destruct (decide (i = index)) as [->|]; [lia|].
    pose proof (Hasc index i). lia.
  - apply IH; try lia; try done.
    intros i Hi. destruct (decide (i = index)) as [->|]; [lia|].
    pose proof (Hasc i index). lia.
Qed.

Lemma leaf_node_find_lower_bound t p (b : bytes) key :
  pg t p b → blen b = PAGE_SIZE → p ≤ TABLE_MAX_PAGES →
  u32_at b LEAF_NODE_NUM_CELLS_OFFSET ≤ LEAF_NODE_MAX_CELLS →
  leaf_keys_ascending b (u32_at b LEAF_NODE_NUM_CELLS_OFFSET) →
  ∃ c, leaf_node_find p key t = Ok (mkCursor p c false) t
       ∧ lower_bound b (u32_at b LEAF_NODE_NUM_CELLS_OFFSET) key c.
Proof.
  intros Hp Hb Hcap Hn Hasc.
  pose proof (u32_at_range b LEAF_NODE_NUM_CELLS_OFFSET) as Hn0.
  set (n := u32_at b LEAF_NODE_NUM_CELLS_OFFSET) in *.
  destruct (leaf_find_loop_lower_bound search_fuel t p b n key 0 n)
    as (c & Hrun & Hc); try done; try lia.
  { unfold search_fuel. layout. lia. }
  exists c. split; [|done].
  unfold leaf_node_find, mbind, M_bind.
  assert (get_page p t = Ok p t) as ->.
  { unfold get_page. destruct (p >? TABLE_MAX_PAGES) eqn:E; [layout; lia|].
    unfold pg in Hp. by rewrite Hp. }
  unfold leaf_node_num_cells.
  rewrite (read_buf_pg _ t p b _ n Hp).
  2:{ rewrite unpack_from_I_u32_at by (layout; lia). done. }
  by rewrite Hrun.
Qed.

(** X1. [leaf_node_find] on a cached leaf of at most 13 cells whose keys
    are in ascending order returns, without changing the table, a cursor
    on that page at the lower bound of the key: the keys before it are
    smaller and the keys from it on are not; so when the key is in the
    leaf the cursor is on its cell, and otherwise on the cell where it
    belongs. *)
Theorem leaf_node_find_position (t : Table) (p : Z) (b : bytes) (key : Z) :
  pg t p b → blen b = PAGE_SIZE → p ≤ TABLE_MAX_PAGES →
  u32_at b LEAF_NODE_NUM_CELLS_OFFSET ≤ LEAF_NODE_MAX_CELLS →
  leaf_keys_ascending b (u32_at b LEAF_NODE_NUM_CELLS_OFFSET) →
  ∃ c, leaf_node_find p key t = Ok (mkCursor p c false) t
       ∧ lower_bound b (u32_at b LEAF_NODE_NUM_CELLS_OFFSET) key c
       ∧ (∀ i, 0 ≤ i < u32_at b LEAF_NODE_NUM_CELLS_OFFSET →
               leaf_key b i = key → c = i).
Proof.
  intros Hp Hb Hcap Hn Hasc.
  destruct (leaf_node_find_lower_bound t p b key) as (c & Hrun & Hc); try done.
  exists c. split; [done|]. split; [done|].
  intros i Hi Hkey. destruct Hc as (Hc & Hlow & Hhigh).
  destruct (decide (c = i)) as [|Hne]; [done|]. exfalso.
  destruct (decide (i < c)).
  - pose proof (Hlow i). lia.
  - assert (c < i) by lia. pose proof (Hhigh c). pose proof (Hasc c i). lia.
Qed.

Lemma leaf_node_find_position_witness :
  ∃ c, leaf_node_find 0 15 full_root_table
       = Ok (mkCursor 0 c false) full_root_table
       ∧ lower_bound full_root_leaf
           (u32_at full_root_leaf LEAF_NODE_NUM_CELLS_OFFSET) 15 c
       ∧ (∀ i, 0 ≤ i < u32_at full_root_leaf LEAF_NODE_NUM_CELLS_OFFSET →
               leaf_key full_root_leaf i = 15 → c = i).
Proof.
  apply (leaf_node_find_position full_root_table 0 full_root_leaf 15).
  - reflexivity.
  - reflexivity.
  - vm_compute. congruence.
  - vm_compute. congruence.
  - apply leaf_keys_ascending_check. vm_compute. reflexivity.
Defined.

(** * Insertion into a leaf that is not full *)

Lemma set_page_id t n (b : bytes) : pg t n b → set_page t n b = t.
Proof.
  intros Hp. destruct t as [[f np pgs] r]. unfold set_page, pg in *. simpl in *.
  by rewrite insert_id.
Qed.

Section LeafInsert.

Context (t : Table) (p : Z) (b : bytes) (c key : Z) (value : Row).
Context (Hcache : cache_ok t) (Hp : pg t p b) (Hpmax : p ≤ TABLE_MAX_PAGES).
Context (Hroom : u32_at b LEAF_NODE_NUM_CELLS_OFFSET < LEAF_NODE_MAX_CELLS).
Context (Hc : 0 ≤ c ≤ u32_at b LEAF_NODE_NUM_CELLS_OFFSET).
Context (Hkey : 0 ≤ key < 4294967296) (Hvalue : serializable value).

Notation n := (u32_at b LEAF_NODE_NUM_CELLS_OFFSET).

(** The cells after the loop that makes room at [c]. *)
Lemma leaf_shift_cells :
  returns
    (if c <? n then
       for_each (py_range_down n c) (λ i,
         let src_off := leaf_node_cell_offset (i - 1) in
         let dest_off := leaf_node_cell_offset i in
         b ← buf p;
         let chunk := getslice b src_off (src_off + LEAF_NODE_CELL_SIZE) in
         set_buf p (setslice b dest_off (dest_off + LEAF_NODE_CELL_SIZE) chunk))
     else mret ())
    (λ _ t', ∃ bc, t' = set_page t p bc ∧ blen bc = PAGE_SIZE
       ∧ take 14 bc = take 14 b
       ∧ (∀ i, c < i ≤ n → leaf_cell bc i = leaf_cell b (i - 1))
       ∧ (∀ k, 0 ≤ k ≤ c → leaf_cell bc k = leaf_cell b k)) t.
Proof.
  destruct (Hcache _ _ Hp) as [Hb Hpr]. unfold returns.
  destruct (c <? n) eqn:Ecn.
  2:{ apply wp_ret. exists b. rewrite set_page_id by done.
      repeat split; try done. intros i Hi. lia. }
  set (Inv := λ (done : list Z) (t' : Table), ∃ bc,
    t' = set_page t p bc ∧ blen bc = PAGE_SIZE ∧ take 14 bc = take 14 b
    ∧ (∀ i, i ∈ done → leaf_cell bc i = leaf_cell b (i - 1))
    ∧ (∀ k, 0 ≤ k < LEAF_NODE_MAX_CELLS → k ∉ done →
            leaf_cell bc k = leaf_cell b k)).
  eapply wp_mono; [apply wp_for_each_progress with (Inv := Inv)|].
  - exists b. rewrite set_page_id by done. repeat split; try done.
    intros i Hi. by apply elem_of_nil in Hi.
  - intros done x rest t' Hsplit (bc & -> & Hbc & Hh & Hdone & Hkeep).
    apply py_range_down_split in Hsplit as [Hx Hd].
    apply wp_bind. eapply wp_buf_pg; [apply pg_set_page_eq|].
    eapply wp_set_buf_pg; [apply pg_set_page_eq|].
    rewrite set_page_set_page.
    rewrite getslice_leaf_cell by len.
    rewrite Hkeep; [|layout; lia|intros Hin; apply Hd in Hin; lia].
    assert (blen (leaf_cell b (x - 1)) = LEAF_NODE_CELL_SIZE) as Hcell
      by (apply leaf_cell_blen; len).
    rewrite <- Hcell at 1. rewrite setslice_in by len.
    eexists. split; [done|]. split; [len|].
    split; [rewrite take_header_blit by len; done|]. split.
    + intros i [Hi| ->%list_elem_of_singleton]%elem_of_app.
      * pose proof (proj1 (Hd i) Hi).
        rewrite leaf_cell_blit_other; [by apply Hdone|len..|]. right. len.
      * apply leaf_cell_blit_same; len.
    + intros k Hk Hnot.
      assert (k ≠ x) as Hkx.
      { intros ->. apply Hnot, elem_of_app. right.
        by apply list_elem_of_singleton. }
      rewrite leaf_cell_blit_other; [|len..|].
      * apply Hkeep; [done|]. intros Hin. apply Hnot, elem_of_app. by left.
      * destruct (decide (k < x)); [left|right]; len.
  - intros _ t' (bc & -> & Hbc & Hh & Hdone & Hkeep).
    exists bc. repeat split; try done.
    + intros i Hi. apply Hdone, py_range_down_elem. lia.
    + intros k Hk. apply Hkeep; [layout; lia|].
      intros Hin%elem_of_py_range_down. lia.
Qed.

Lemma leaf_node_insert_cells d fuel (cursor : Cursor) :
  page_num cursor = p → cell_num cursor = c →
  returns (leaf_node_insert d fuel cursor key value)
    (λ _ t', ∃ b', t' = set_page t p b' ∧ blen b' = PAGE_SIZE
       ∧ u8_at b' NODE_TYPE_OFFSET = u8_at b NODE_TYPE_OFFSET
       ∧ u8_at b' IS_ROOT_OFFSET = u8_at b IS_ROOT_OFFSET
       ∧ u32_at b' PARENT_POINTER_OFFSET = u32_at b PARENT_POINTER_OFFSET
       ∧ u32_at b' LEAF_NODE_NEXT_LEAF_OFFSET = u32_at b LEAF_NODE_NEXT_LEAF_OFFSET
       ∧ u32_at b' LEAF_NODE_NUM_CELLS_OFFSET = n + 1
       ∧ ∀ i, 0 ≤ i ≤ n → leaf_cell b' i = split_target b c key value i) t.
Proof.
  intros Hcp Hcc. destruct (Hcache _ _ Hp) as [Hb Hpr].
  pose proof (u32_at_range b LEAF_NODE_NUM_CELLS_OFFSET) as Hn0.
  unfold returns, leaf_node_insert. rewrite Hcp, Hcc.
  apply wp_bind. eapply wp_get_page_hit; [done|layout; lia|].
  unfold leaf_node_num_cells, set_leaf_node_num_cells, set_leaf_node_key,
    leaf_node_value_offset.
  apply wp_bind. eapply wp_read_u32; [done|len..|].
  destruct (n >=? LEAF_NODE_MAX_CELLS) eqn:Efull; [lia|].
  apply wp_bind. eapply wp_mono; [apply leaf_shift_cells|].
  intros _ t' (bc & -> & Hbc & Hh & Hup & Hlow).
  apply wp_bind. eapply wp_write_u32; [apply pg_set_page_eq|len..|].
  rewrite set_page_set_page.
  apply wp_bind. eapply wp_write_u32; [apply pg_set_page_eq|len..|].
  rewrite set_page_set_page.
  eapply wp_serialize_row_pg; [apply pg_set_page_eq|done|len..|].
  rewrite set_page_set_page.
  replace LEAF_NODE_KEY_SIZE with (blen (le_bytes_of_u32 key))
    by apply blen_le_bytes.
  rewrite blit_blit_adjacent by len. fold (make_cell key value).
  pose proof (make_cell_blen key value) as Hcell.
  eexists. split; [done|]. split; [len|].
  assert (∀ off, off = 2 ∨ off = 10 →
            u32_at (blit (blit bc LEAF_NODE_NUM_CELLS_OFFSET (le_bytes_of_u32 (n + 1)))
                      (leaf_node_cell_offset c) (make_cell key value)) off
            = u32_at b off) as H32.
  { intros off ?. rewrite u32_at_blit_other; [|len..|left; len].
    rewrite u32_at_blit_other; [|len..|].
    - apply u32_at_header; [done|lia..].
    - destruct (decide (off < 6)); [left|right]; len. }
  assert (∀ off, 0 ≤ off < 2 →
            u8_at (blit (blit bc LEAF_NODE_NUM_CELLS_OFFSET (le_bytes_of_u32 (n + 1)))
                      (leaf_node_cell_offset c) (make_cell key value)) off
            = u8_at b off) as H8.
  { intros off ?. rewrite u8_at_blit_other; [|len..|left; len].
    rewrite u8_at_blit_other; [|len..|left; len].
    apply u8_at_header; [done|lia..]. }
  split; [apply H8; layout; lia|]. split; [apply H8; layout; lia|].
  split; [apply H32; layout; lia|]. split; [apply H32; layout; lia|].
  split.
  - rewrite u32_at_blit_other; [|len..|left; len].
    apply u32_at_blit_same; len.
  - intros i Hi. unfold split_target.
    destruct (i =? c) eqn:E1.
    + apply Z.eqb_eq in E1. subst i. apply leaf_cell_blit_same; len.
    + apply Z.eqb_neq in E1.
      rewrite leaf_cell_blit_other; [|len..|].
      2:{ destruct (decide (i < c)); [left|right]; len. }
      rewrite leaf_cell_header_blit by len.
      destruct (i >? c) eqn:E2; [apply Hup|apply Hlow]; lia.
Qed.

End LeafInsert.

(** * A database that fits one leaf *)

Lemma returns_Ok {A} (m : M A) (Q : A → Table → Prop) t :
  returns m Q t → ∃ a t', m t = Ok a t' ∧ Q a t'.
Proof.
  unfold returns, wp_gen. destruct (m t) as [a t'| | | | |]; try done. eauto.
Qed.

Lemma wp_of_eq F U G {A} (m : M A) (Q : A → Table → Prop) t a t' :
  m t = Ok a t' → Q a t' → wp_gen F U G m Q t.
Proof. intros Hm HQ. unfold wp_gen. by rewrite Hm. Qed.

(** ** Sorted lists of rows *)

Lemma ascending_lookup (l : list Z) (i j : nat) x y :
  ascending l → (i < j)%nat → l !! i = Some x → l !! j = Some y → x < y.
Proof.
  revert i j. induction l as [|k l IH]; intros i j Hasc Hij Hx Hy; [done|].
  destruct Hasc as [Hk Hl]. destruct i as [|i], j as [|j]; try lia.
  - simpl in Hx, Hy. injection Hx as <-. apply Hk. by eapply list_elem_of_lookup_2.
  - simpl in Hx, Hy. eapply (IH i j); [done|lia|done|done].
Qed.

Lemma ascending_of_lookup (l : list Z) :
  (∀ (i j : nat) x y, (i < j)%nat → l !! i = Some x → l !! j = Some y → x < y) →
  ascending l.
Proof.
  induction l as [|k l IH]; intros H; [done|]. split.
  - intros k' [j Hj]%list_elem_of_lookup_1. by apply (H 0%nat (S j)); [lia| |].
  - apply IH. intros i j x y Hij Hx Hy. by apply (H (S i) (S j)); [lia| |].
Qed.

Lemma insert_row_at (r : Row) (rows : list Row) (c : nat) :
  (c ≤ length rows)%nat →
  (∀ (i : nat) r', (i < c)%nat → rows !! i = Some r' → id r' < id r) →
  (∀ r', rows !! c = Some r' → id r < id r') →
  insert_row r rows = take c rows ++ r :: drop c rows.
Proof.
  revert c. induction rows as [|y l IH]; intros c Hc Hlow Hhigh.
  { destruct c; [done|simpl in Hc; lia]. }
  destruct c as [|c]; simpl.
  - rewrite (proj2 (Z.ltb_lt _ _)); [done|]. by apply Hhigh.
  - destruct (id r <? id y) eqn:E.
    { apply Z.ltb_lt in E. pose proof (Hlow 0%nat y ltac:(lia) eq_refl). lia. }
    f_equal. apply IH.
    + simpl in Hc. lia.
    + intros i z Hi Hz. apply (Hlow (S i)); [lia|done].
    + intros z Hz. by apply Hhigh.
Qed.

Lemma insert_row_elem (r x : Row) (rows : list Row) :
  x ∈ insert_row r rows ↔ x = r ∨ x ∈ rows.
Proof.
  induction rows as [|y l IH]; simpl.
  - rewrite list_elem_of_singleton, elem_of_nil. tauto.
  - destruct (id r <? id y).
    + rewrite !elem_of_cons. tauto.
    + rewrite !elem_of_cons, IH. tauto.
Qed.

Lemma insert_row_length (r : Row) (rows : list Row) :
  length (insert_row r rows) = S (length rows).
Proof.
  induction rows as [|y l IH]; simpl; [done|].
  destruct (id r <? id y); simpl; [done|]. by rewrite IH.
Qed.

Lemma insert_row_ascending (r : Row) (rows : list Row) :
  ascending (id <$> rows) → id r ∉ id <$> rows →
  ascending (id <$> insert_row r rows).
Proof.
  induction rows as [|y l IH]; intros Hasc Hnot; simpl.
  { split; [|done]. intros k Hk. by apply elem_of_nil in Hk. }
  destruct Hasc as [Hy Hl].
  apply not_elem_of_cons in Hnot as [Hne Hnot].
  destruct (id r <? id y) eqn:E.
  - apply Z.ltb_lt in E. simpl. split; [|by split].
    intros k [->|Hk]%elem_of_cons; [lia|]. specialize (Hy k Hk). lia.
  - apply Z.ltb_ge in E. simpl. split; [|by apply IH].
    intros k (x & -> & Hx)%list_elem_of_fmap.
    apply insert_row_elem in Hx as [->|Hx]; [simpl in *; lia|].
    apply Hy. apply list_elem_of_fmap. eauto.
Qed.

Lemma insert_row_serializable (r : Row) (rows : list Row) :
  serializable r → Forall serializable rows →
  Forall serializable (insert_row r rows).
Proof.
  intros Hr Hrows. apply Forall_forall. intros x [->|Hx]%insert_row_elem; [done|].
  by eapply Forall_forall in Hrows.
Qed.

(** ** From the leaf to the rows *)

Section LeafRows.

Context (b : bytes) (rows : list Row) {next : Z}.
Context (Hholds : leaf_with b rows next).
Context (Hser : Forall serializable rows).

Notation n := (u32_at b LEAF_NODE_NUM_CELLS_OFFSET).

Lemma leaf_holds_num_cells : n = Z.of_nat (length rows).
Proof. apply Hholds. Qed.

Lemma leaf_holds_cell (i : nat) r :
  rows !! i = Some r → leaf_cell b (Z.of_nat i) = row_cell r.
Proof.
  intros Hi. destruct Hholds as (_ & _ & _ & _ & Hcells).
  pose proof (lookup_lt_Some _ _ _ Hi) as Hlt.
  apply (f_equal (λ l, l !! i)) in Hcells.
  rewrite leaf_cells_lookup in Hcells by lia.
  rewrite list_lookup_fmap, Hi in Hcells. simpl in Hcells. congruence.
Qed.

Lemma leaf_holds_key (i : nat) r :
  rows !! i = Some r → leaf_key b (Z.of_nat i) = id r.
Proof.
  intros Hi. rewrite <- cell_key_leaf_cell, (leaf_holds_cell i r Hi).
  apply cell_key_make_cell.
  eapply Forall_lookup_1 in Hser; [|done]. apply Hser.
Qed.

Lemma leaf_holds_row (i : Z) :
  0 ≤ i < n → ∃ r, rows !! Z.to_nat i = Some r ∧ leaf_key b i = id r
                   ∧ leaf_cell b i = row_cell r.
Proof.
  intros Hi. rewrite leaf_holds_num_cells in Hi.
  destruct (lookup_lt_is_Some_2 rows (Z.to_nat i)) as [r Hr]; [lia|].
  exists r. split; [done|].
  rewrite <- (leaf_holds_key _ _ Hr), <- (leaf_holds_cell _ _ Hr).
  by rewrite Z2Nat.id by lia.
Qed.

Lemma leaf_holds_ascending :
  ascending (id <$> rows) → leaf_keys_ascending b n.
Proof.
  intros Hasc i j Hi Hij Hj.
  destruct (leaf_holds_row i) as (ri & Hri & -> & _); [lia|].
  destruct (leaf_holds_row j) as (rj & Hrj & -> & _); [lia|].
  eapply (ascending_lookup _ (Z.to_nat i) (Z.to_nat j)); [done|lia| |];
    by rewrite list_lookup_fmap, ?Hri, ?Hrj.
Qed.

Lemma leaf_holds_max : (length rows ≤ 13)%nat → n ≤ LEAF_NODE_MAX_CELLS.
Proof. intros. rewrite leaf_holds_num_cells. layout. lia. Qed.

(** The id is in the leaf exactly when the cell at its lower bound has it. *)
Lemma lower_bound_member key c :
  ascending (id <$> rows) → lower_bound b n key c →
  key ∈ id <$> rows ↔ c < n ∧ leaf_key b c = key.
Proof.
  intros Hasc (Hc & Hlow & Hhigh). split.
  - intros (r & -> & [i Hi]%list_elem_of_lookup_1)%list_elem_of_fmap.
    pose proof (lookup_lt_Some _ _ _ Hi) as Hlt.
    pose proof (leaf_holds_key i r Hi) as Hk.
    pose proof leaf_holds_num_cells as Hn.
    destruct (decide (Z.of_nat i < c)) as [Hic|Hic].
    { pose proof (Hlow (Z.of_nat i)). lia. }
    destruct (decide (Z.of_nat i = c)) as [<-|Hne]; [split; [lia|done]|].
    exfalso. pose proof (Hhigh c ltac:(lia)) as H1.
    pose proof (leaf_holds_ascending Hasc c (Z.of_nat i)). lia.
  - intros [Hlt Hk]. destruct (leaf_holds_row c) as (r & Hr & Hkr & _); [lia|].
    apply list_elem_of_fmap. exists r. split; [congruence|].
    by eapply list_elem_of_lookup_2.
Qed.

End LeafRows.

Lemma leaf_holds_insert (b b' : bytes) (rows : list Row) next (r : Row) (c : nat) :
  leaf_with b rows next → Forall serializable rows → (c ≤ length rows)%nat →
  blen b' = PAGE_SIZE →
  u8_at b' NODE_TYPE_OFFSET = u8_at b NODE_TYPE_OFFSET →
  u32_at b' LEAF_NODE_NEXT_LEAF_OFFSET = u32_at b LEAF_NODE_NEXT_LEAF_OFFSET →
  u32_at b' LEAF_NODE_NUM_CELLS_OFFSET
    = u32_at b LEAF_NODE_NUM_CELLS_OFFSET + 1 →
  (∀ i, 0 ≤ i ≤ u32_at b LEAF_NODE_NUM_CELLS_OFFSET →
        leaf_cell b' i = split_target b (Z.of_nat c) (id r) r i) →
  leaf_with b' (take c rows ++ r :: drop c rows) next.
Proof.
  intros Hholds Hser Hc Hb' Hty Hnext Hnum Hcells.
  pose proof Hholds as (_ & Hty0 & Hn & Hnx & _).
  assert (length (take c rows ++ r :: drop c rows) = S (length rows)) as Hlen.
  { rewrite length_app, length_take, length_cons, length_drop. lia. }
  split; [done|]. split; [congruence|]. split; [rewrite Hnum, Hn, Hlen; lia|].
  split; [congruence|]. rewrite Hlen.
  apply list_eq. intros i.
  destruct (decide (i < S (length rows))%nat) as [Hi|Hi].
  2:{ rewrite !lookup_ge_None_2; [done|rewrite length_fmap; lia|].
      unfold leaf_cells. rewrite length_fmap, length_seqZ. lia. }
  rewrite leaf_cells_lookup by lia.
  rewrite Hcells by lia. unfold split_target. rewrite list_lookup_fmap.
  destruct (Z.of_nat i =? Z.of_nat c) eqn:E1.
  { apply Z.eqb_eq in E1. assert (i = c) as -> by lia.
    rewrite lookup_app_r by (rewrite length_take; lia).
    rewrite length_take. replace (c - c `min` length rows)%nat with 0%nat by lia.
    done. }
  apply Z.eqb_neq in E1.
  destruct (Z.of_nat i >? Z.of_nat c) eqn:E2.
  - rewrite lookup_app_r by (rewrite length_take; lia).
    rewrite length_take.
    replace (i - c `min` length rows)%nat with (S (i - c - 1)) by lia.
    simpl. rewrite lookup_drop.
    destruct (lookup_lt_is_Some_2 rows (c + (i - c - 1))) as [x Hx]; [lia|].
    rewrite Hx. simpl. f_equal.
    replace (Z.of_nat i - 1) with (Z.of_nat (c + (i - c - 1))) by lia.
    by eapply leaf_holds_cell.
  - rewrite lookup_app_l by (rewrite length_take; lia).
    rewrite lookup_take_lt by lia.
    destruct (lookup_lt_is_Some_2 rows i) as [x Hx]; [lia|].
    rewrite Hx. simpl. f_equal. by eapply leaf_holds_cell.
Qed.

(** ** [execute_insert] on a single leaf *)

Lemma table_find_leaf d t (b : bytes) key :
  single_leaf t b → blen b = PAGE_SIZE → u8_at b NODE_TYPE_OFFSET = 1 →
  u32_at b LEAF_NODE_NUM_CELLS_OFFSET ≤ LEAF_NODE_MAX_CELLS →
  leaf_keys_ascending b (u32_at b LEAF_NODE_NUM_CELLS_OFFSET) →
  ∃ c, table_find d key t = Ok (mkCursor 0 c false) t
       ∧ lower_bound b (u32_at b LEAF_NODE_NUM_CELLS_OFFSET) key c.
Proof.
  intros (Hcache & Hroot & Hp) Hb Hty Hn Hasc.
  destruct (leaf_node_find_lower_bound t 0 b key) as (c & Hrun & Hc);
    try done; try (layout; lia).
  exists c. split; [|done].
  unfold table_find, mbind, M_bind, get_root_page_num. rewrite Hroot.
  assert (get_page 0 t = Ok 0 t) as ->.
  { unfold get_page. simpl. unfold pg in Hp. by rewrite Hp. }
  unfold get_node_type, mbind, M_bind.
  rewrite (read_buf_pg _ t 0 b _ 1 Hp).
  2:{ rewrite unpack_from_B_u8_at by (layout; lia). by rewrite Hty. }
  simpl. done.
Qed.

Lemma single_leaf_set_page t (b b' : bytes) :
  single_leaf t b → blen b' = PAGE_SIZE → single_leaf (set_page t 0 b') b'.
Proof.
  intros (Hcache & Hroot & Hp) Hb. split; [by eapply cache_ok_set_page|].
  split; [done|apply pg_set_page_eq].
Qed.

Lemma execute_insert_found_hdr d fuel t p (b : bytes) (rows : list Row) next
    (r : Row) c :
  cache_ok t → pg t p b → p ≤ TABLE_MAX_PAGES → leaf_with b rows next →
  Forall serializable rows → ascending (id <$> rows) → serializable r →
  table_find d (id r) t = Ok (mkCursor p c false) t →
  lower_bound b (u32_at b LEAF_NODE_NUM_CELLS_OFFSET) (id r) c →
  (length (db_insert r rows).2 ≤ 13)%nat →
  ∃ b', execute_insert d fuel (insert_statement r) t
        = Ok (db_insert r rows).1 (set_page t p b')
        ∧ leaf_with b' (db_insert r rows).2 next
        ∧ (id r ∈ id <$> rows → b' = b)
        ∧ u8_at b' IS_ROOT_OFFSET = u8_at b IS_ROOT_OFFSET
        ∧ u32_at b' PARENT_POINTER_OFFSET = u32_at b PARENT_POINTER_OFFSET.
Proof.
  intros Hcache Hp Hpmax Hholds Hser Hasc Hr Hfind Hlb Hlen.
  pose proof Hholds as (Hb & Hty & Hnum & Hnext & Hcells).
  pose proof (leaf_holds_ascending b rows Hholds Hser Hasc) as Hkasc.
  assert (length rows ≤ 13)%nat as Hlen0.
  { unfold db_insert in Hlen. case_bool_decide; simpl in Hlen; [done|].
    rewrite insert_row_length in Hlen. lia. }
  pose proof (leaf_holds_max b rows Hholds Hlen0) as Hmax.
  pose proof (lower_bound_member b rows Hholds Hser (id r) c Hasc Hlb) as Hmem.
  pose proof Hlb as (Hc & Hlow & Hhigh).
  set (n := u32_at b LEAF_NODE_NUM_CELLS_OFFSET) in *.
  cut (returns (execute_insert d fuel (insert_statement r))
         (λ res t', ∃ b', res = (db_insert r rows).1 ∧ t' = set_page t p b'
            ∧ leaf_with b' (db_insert r rows).2 next
            ∧ (id r ∈ id <$> rows → b' = b)
            ∧ u8_at b' IS_ROOT_OFFSET = u8_at b IS_ROOT_OFFSET
            ∧ u32_at b' PARENT_POINTER_OFFSET
              = u32_at b PARENT_POINTER_OFFSET) t).
  { intros (res & t' & Hrun & b' & -> & -> & H1 & H2)%returns_Ok. eauto. }
  assert (id r ∉ id <$> rows → n < LEAF_NODE_MAX_CELLS) as Hroom'.
  { intros Hnot. unfold db_insert in Hlen.
    rewrite bool_decide_false in Hlen by done. simpl in Hlen.
    rewrite insert_row_length in Hlen. unfold n. layout. lia. }
  unfold returns, execute_insert. simpl row_to_insert.
  apply wp_bind. eapply wp_of_eq; [exact Hfind|]. simpl page_num. simpl cell_num.
  apply wp_bind. eapply wp_get_page_hit; [done|done|].
  unfold leaf_node_num_cells.
  apply wp_bind. eapply wp_read_u32; [done|len..|]. fold n.
  unfold db_insert in *.
  destruct (c <? n) eqn:Ecn.
  - apply wp_bind. apply wp_bind. unfold leaf_node_key.
    eapply wp_read_u32; [done|len..|]. fold (leaf_key b c). apply wp_ret.
    destruct (leaf_key b c =? id r) eqn:Ek.
    + apply Z.eqb_eq in Ek. apply wp_ret.
      rewrite bool_decide_true by (apply Hmem; lia).
      exists b. rewrite set_page_id by done. done.
    + apply Z.eqb_neq in Ek.
      assert (id r ∉ id <$> rows) as Hnot by (rewrite Hmem; lia).
      pose proof (Hroom' Hnot) as Hroom.
      rewrite bool_decide_false in * by done. simpl in Hlen.
      rewrite insert_row_length in Hlen.
      apply wp_bind. eapply wp_mono.
      { apply (leaf_node_insert_cells t p b c (id r) r Hcache Hp
                 Hpmax Hroom Hc (proj1 Hr) Hr d fuel
                 (mkCursor p c false) eq_refl eq_refl). }
      intros _ t' (b' & -> & Hb' & Hty' & Hroot' & Hpar' & Hnext' & Hnum' & Hcells').
      apply wp_ret. exists b'. split; [done|]. split; [done|]. split; [|done].
      rewrite (insert_row_at r rows (Z.to_nat c)).
      * eapply leaf_holds_insert; try done; [unfold n in *; lia|].
        rewrite Z2Nat.id by lia. done.
      * unfold n in *. lia.
      * intros i r' Hi Hr'. rewrite <- (leaf_holds_key b rows Hholds Hser i r' Hr').
        apply Hlow. lia.
      * intros r' Hr'.
        pose proof (leaf_holds_key b rows Hholds Hser _ r' Hr') as Hk'.
        rewrite Z2Nat.id in Hk' by lia.
        pose proof (Hhigh c ltac:(lia)). lia.
  - apply wp_bind, wp_ret.
    assert (id r ∉ id <$> rows) as Hnot by (rewrite Hmem; lia).
    pose proof (Hroom' Hnot) as Hroom.
    rewrite bool_decide_false in * by done. simpl in Hlen.
    rewrite insert_row_length in Hlen.
    apply wp_bind. eapply wp_mono.
    { apply (leaf_node_insert_cells t p b c (id r) r Hcache Hp
                 Hpmax Hroom Hc (proj1 Hr) Hr d fuel
                 (mkCursor p c false) eq_refl eq_refl). }
    intros _ t' (b' & -> & Hb' & Hty' & Hroot' & Hpar' & Hnext' & Hnum' & Hcells').
    apply wp_ret. exists b'. split; [done|]. split; [done|]. split; [|done].
    rewrite (insert_row_at r rows (Z.to_nat c)).
    + eapply leaf_holds_insert; try done; [unfold n in *; lia|].
      rewrite Z2Nat.id by lia. done.
    + unfold n in *. lia.
    + intros i r' Hi Hr'. rewrite <- (leaf_holds_key b rows Hholds Hser i r' Hr').
      apply Hlow. lia.
    + intros r' Hr'. apply lookup_lt_Some in Hr'. unfold n in *. lia.
Qed.

Lemma execute_insert_found d fuel t p (b : bytes) (rows : list Row) next
    (r : Row) c :
  cache_ok t → pg t p b → p ≤ TABLE_MAX_PAGES → leaf_with b rows next →
  Forall serializable rows → ascending (id <$> rows) → serializable r →
  table_find d (id r) t = Ok (mkCursor p c false) t →
  lower_bound b (u32_at b LEAF_NODE_NUM_CELLS_OFFSET) (id r) c →
  (length (db_insert r rows).2 ≤ 13)%nat →
  ∃ b', execute_insert d fuel (insert_statement r) t
        = Ok (db_insert r rows).1 (set_page t p b')
        ∧ leaf_with b' (db_insert r rows).2 next
        ∧ (id r ∈ id <$> rows → b' = b).
Proof.
  intros Hcache Hp Hpmax Hholds Hser Hasc Hr Hfind Hlb Hlen.
  destruct (execute_insert_found_hdr d fuel t p b rows next r c Hcache Hp Hpmax
              Hholds Hser Hasc Hr Hfind Hlb Hlen)
    as (b' & Hrun & Hwith & Hsame & _).
  by exists b'.
Qed.

Lemma execute_insert_leaf d fuel t (b : bytes) (rows : list Row) (r : Row) :
  single_leaf t b → leaf_holds b rows →
  Forall serializable rows → ascending (id <$> rows) → serializable r →
  (length (db_insert r rows).2 ≤ 13)%nat →
  ∃ b', execute_insert d fuel (insert_statement r) t
        = Ok (db_insert r rows).1 (set_page t 0 b')
        ∧ leaf_holds b' (db_insert r rows).2
        ∧ (id r ∈ id <$> rows → b' = b).
Proof.
  intros Hsingle Hholds Hser Hasc Hr Hlen.
  pose proof Hsingle as (Hcache & Hroot & Hp).
  pose proof Hholds as (Hb & Hty & _).
  pose proof (leaf_holds_ascending b rows Hholds Hser Hasc) as Hkasc.
  assert (length rows ≤ 13)%nat as Hlen0.
  { unfold db_insert in Hlen. case_bool_decide; simpl in Hlen; [done|].
    rewrite insert_row_length in Hlen. lia. }
  pose proof (leaf_holds_max b rows Hholds Hlen0) as Hmax.
  destruct (table_find_leaf d t b (id r) Hsingle Hb Hty Hmax Hkasc)
    as (c & Hfind & Hlb).
  apply (execute_insert_found d fuel t 0 b rows 0 r c); try done.
Qed.
(** * Selecting from a database that fits one leaf *)

Lemma get_page_pg t p (b : bytes) :
  pg t p b → p ≤ TABLE_MAX_PAGES → get_page p t = Ok p t.
Proof.
  intros Hp Hmax. unfold get_page.
  destruct (p >? TABLE_MAX_PAGES) eqn:E; [lia|].
  unfold pg in Hp. by rewrite Hp.
Qed.

Lemma buf_pg t p (b : bytes) : pg t p b → buf p t = Ok b t.
Proof. intros Hp. unfold buf. unfold pg in Hp. by rewrite Hp. Qed.

(** The value part of a cell. *)
Lemma leaf_value_of_cell (b : bytes) i key (r : Row) :
  0 ≤ i < LEAF_NODE_MAX_CELLS → blen b = PAGE_SIZE →
  leaf_cell b i = make_cell key r →
  getslice b (leaf_node_value_offset i) (leaf_node_value_offset i + ROW_SIZE)
  = row_image r.
Proof.
  intros Hi Hb Hcell. unfold leaf_node_value_offset.
  rewrite getslice_in;
    [|unfold leaf_node_cell_offset; layout; lia..].
  replace (Z.to_nat (leaf_node_cell_offset i + LEAF_NODE_KEY_SIZE))
    with (Z.to_nat (leaf_node_cell_offset i) + 4)%nat
    by (unfold leaf_node_cell_offset; layout; lia).
  rewrite <- drop_drop, take_drop_commute.
  change (4 + Z.to_nat ROW_SIZE)%nat with (Z.to_nat LEAF_NODE_CELL_SIZE).
  fold (leaf_cell b i). rewrite Hcell. unfold make_cell.
  rewrite drop_app_length'; [done|]. symmetry. apply le_bytes_length.
Qed.

Section SelectLeaf.

Context (t : Table) (b : bytes) (rows : list Row).
Context (Hsingle : single_leaf t b) (Hholds : leaf_holds b rows).
Context (Hser : Forall serializable rows).
Context (Hmax : (length rows ≤ 13)%nat).

Notation n := (u32_at b LEAF_NODE_NUM_CELLS_OFFSET).

Lemma single_leaf_num_cells : leaf_node_num_cells 0 t = Ok n t.
Proof.
  destruct Hsingle as (_ & _ & Hp). destruct Hholds as (Hb & _).
  apply (read_buf_pg _ t 0 b _ n Hp).
  rewrite unpack_from_I_u32_at by (layout; lia). done.
Qed.

Lemma cursor_advance_leaf (i : Z) (e : bool) :
  cursor_advance (mkCursor 0 i e) t
  = Ok (mkCursor 0 (i + 1) (if i + 1 >=? n then true else e)) t.
Proof.
  pose proof Hsingle as (_ & _ & Hp). pose proof Hholds as (Hb & _ & _ & Hnext & _).
  unfold cursor_advance, mbind, M_bind. cbn [page_num cell_num end_of_table].
  rewrite (get_page_pg t 0 b Hp) by (layout; lia).
  rewrite single_leaf_num_cells. cbn [page_num cell_num end_of_table].
  destruct (i + 1 >=? n); [|done].
  unfold leaf_node_next_leaf.
  rewrite (read_buf_pg _ t 0 b _ 0 Hp).
  2:{ rewrite unpack_from_I_u32_at by (layout; lia). by rewrite Hnext. }
  done.
Qed.

(** The loop of [execute_select] from cell [i] on. *)
Lemma select_loop_leaf (k i : nat) :
  (i < length rows)%nat → (length rows - i < k)%nat →
  select_loop k (mkCursor 0 (Z.of_nat i) false) t = Ok (drop i rows) t.
Proof.
  pose proof Hsingle as (_ & _ & Hp). pose proof Hholds as (Hb & _).
  pose proof (leaf_holds_num_cells b rows Hholds) as Hn.
  revert i. induction k as [|k IH]; intros i Hi Hk; [lia|].
  simpl. unfold mbind, M_bind.
  rewrite (get_page_pg t 0 b Hp) by (layout; lia).
  rewrite (buf_pg t 0 b Hp).
  destruct (lookup_lt_is_Some_2 rows i Hi) as [r Hr].
  rewrite (leaf_value_of_cell b (Z.of_nat i) (id r) r);
    [|layout; lia|done|by eapply leaf_holds_cell].
  rewrite deserialize_row_image.
  2:{ rewrite Forall_forall in Hser. apply Hser. by eapply list_elem_of_lookup_2. }
  rewrite cursor_advance_leaf.
  rewrite (drop_S _ _ _ Hr).
  destruct (Z.of_nat i + 1 >=? n) eqn:E.
  - destruct k as [|k]; [lia|]. simpl.
    rewrite drop_ge by lia. done.
  - replace (Z.of_nat i + 1) with (Z.of_nat (S i)) by lia.
    rewrite IH by lia. done.
Qed.

Lemma table_start_leaf d :
  ascending (id <$> rows) →
  table_start d t = Ok (mkCursor 0 0 (n =? 0)) t.
Proof.
  intros Hasc.
  pose proof Hsingle as (_ & _ & Hp). pose proof Hholds as (Hb & Hty & _).
  pose proof (leaf_holds_ascending b rows Hholds Hser Hasc) as Hkasc.
  pose proof (leaf_holds_max b rows Hholds Hmax) as Hcap.
  destruct (table_find_leaf d t b 0 Hsingle Hb Hty Hcap Hkasc)
    as (c & Hfind & Hc & Hlow & _).
  assert (c = 0) as ->.
  { destruct (decide (c = 0)) as [|Hne]; [done|]. exfalso.
    pose proof (Hlow 0 ltac:(lia)) as Hneg.
    pose proof (u32_at_range b (leaf_node_cell_offset 0)).
    unfold leaf_key in Hneg. lia. }
  unfold table_start, mbind, M_bind. rewrite Hfind. simpl page_num.
  rewrite (get_page_pg t 0 b Hp) by (layout; lia).
  by rewrite single_leaf_num_cells.
Qed.

Lemma execute_select_rows_leaf d k :
  ascending (id <$> rows) → (length rows < k)%nat →
  execute_select_rows d k t = Ok rows t.
Proof.
  intros Hasc Hk.
  pose proof (leaf_holds_num_cells b rows Hholds) as Hn.
  unfold execute_select_rows, mbind, M_bind. rewrite table_start_leaf by done.
  destruct (n =? 0) eqn:E.
  - apply Z.eqb_eq in E. destruct rows; [|simpl in Hn; lia].
    destruct k; [lia|]. done.
  - apply Z.eqb_neq in E.
    change 0 with (Z.of_nat 0) at 2.
    rewrite (select_loop_leaf k 0) by lia. done.
Qed.

End SelectLeaf.
(** * A database of at most 13 rows *)

Lemma db_insert_inv (r : Row) (rows : list Row) :
  serializable r → Forall serializable rows → ascending (id <$> rows) →
  Forall serializable (db_insert r rows).2
  ∧ ascending (id <$> (db_insert r rows).2)
  ∧ (length (db_insert r rows).2 ≤ S (length rows))%nat.
Proof.
  intros Hr Hser Hasc. unfold db_insert. case_bool_decide; simpl.
  - split; [done|]. split; [done|lia].
  - split; [by apply insert_row_serializable|].
    split; [by apply insert_row_ascending|]. rewrite insert_row_length. lia.
Qed.

Lemma db_inserts_inv (rs rows : list Row) :
  Forall serializable rs → Forall serializable rows → ascending (id <$> rows) →
  Forall serializable (db_inserts rs rows).2
  ∧ ascending (id <$> (db_inserts rs rows).2)
  ∧ (length (db_inserts rs rows).2 ≤ length rows + length rs)%nat.
Proof.
  revert rows. induction rs as [|r rs IH]; intros rows Hrs Hser Hasc.
  { simpl. split; [done|]. split; [done|lia]. }
  apply Forall_cons in Hrs as [Hr Hrs]. simpl.
  destruct (db_insert_inv r rows Hr Hser Hasc) as (H1 & H2 & H3).
  destruct (db_insert r rows) as [res rows'] eqn:E1. simpl in *.
  destruct (IH rows' Hrs H1 H2) as (H4 & H5 & H6).
  destruct (db_inserts rs rows') as [ress rows''] eqn:E2. simpl in *.
  split; [done|]. split; [done|lia].
Qed.

Lemma execute_inserts_leaf d fuel (rs : list Row) :
  ∀ t (b : bytes) (rows : list Row),
  single_leaf t b → leaf_holds b rows →
  Forall serializable rows → ascending (id <$> rows) →
  Forall serializable rs → (length rows + length rs ≤ 13)%nat →
  ∃ t' b', execute_inserts d fuel (insert_statement <$> rs) t
           = Ok (db_inserts rs rows).1 t'
           ∧ single_leaf t' b' ∧ leaf_holds b' (db_inserts rs rows).2.
Proof.
  induction rs as [|r rs IH]; intros t b rows Hsingle Hholds Hser Hasc Hrs Hlen.
  { exists t, b. done. }
  apply Forall_cons in Hrs as [Hr Hrs]. simpl in Hlen.
  destruct (db_insert_inv r rows Hr Hser Hasc) as (H1 & H2 & H3).
  destruct (execute_insert_leaf d fuel t b rows r) as (b1 & Hrun & Hholds1 & _);
    try done; [lia|].
  rewrite fmap_cons.
  change (execute_inserts d fuel (insert_statement r :: (insert_statement <$> rs)))
    with (x ← execute_insert d fuel (insert_statement r);
          xs ← execute_inserts d fuel (insert_statement <$> rs);
          mret (x :: xs)).
  unfold mbind, M_bind. rewrite Hrun.
  change (db_inserts (r :: rs) rows)
    with (let '(res, rows') := db_insert r rows in
          let '(ress, rows'') := db_inserts rs rows' in (res :: ress, rows'')).
  destruct (db_insert r rows) as [res rows'] eqn:E1.
  cbn [fst snd] in *.
  destruct (IH (set_page t 0 b1) b1 rows') as (t' & b' & Hrun' & Hs' & Hh');
    try done; [|lia|].
  { apply (single_leaf_set_page t b b1 Hsingle). apply Hholds1. }
  rewrite Hrun'.
  destruct (db_inserts rs rows') as [ress rows''] eqn:E2. cbn [fst snd] in *.
  by exists t', b'.
Qed.

Lemma fresh_table_single_leaf :
  Table_init [] = Ok () fresh_table
  ∧ single_leaf fresh_table empty_leaf ∧ leaf_holds empty_leaf [].
Proof.
  split; [by vm_compute|]. split.
  - split; [|split; [done|by vm_compute]].
    change fresh_table with (mkTable (mkPager [] 1 {[ 0 := empty_leaf ]}) 0).
    by apply cache_ok_singleton.
  - by vm_compute.
Qed.

Lemma example_row_serializable_check (l : list Z) :
  forallb (λ i, (0 <=? i) && (i <? 4294967296)
                && ascii_field COLUMN_USERNAME_SIZE (username (example_row i))
                && ascii_field COLUMN_EMAIL_SIZE (email (example_row i))) l = true →
  Forall serializable (example_row <$> l).
Proof.
  intros H. rewrite forallb_forall in H. apply Forall_fmap, Forall_forall.
  intros i Hi%list_elem_of_In. apply H in Hi.
  apply andb_prop in Hi as [Hi He]. apply andb_prop in Hi as [Hi Hu].
  apply andb_prop in Hi as [H0%Z.leb_le H1%Z.ltb_lt]. split; [simpl; lia|]. done.
Qed.

(** X2. [leaf_node_insert] on a cached leaf with room (fewer than 13
    cells) returns without splitting: only that page changes; its node
    type, root flag, parent pointer and next-leaf link stay; the number
    of cells grows by one; the cells before the cursor stay, the cell at
    the cursor holds the key and the serialized row, and the cells from
    the cursor on move up by one. *)
Theorem leaf_node_insert_room (d fuel : nat) (t : Table) (p : Z) (b : bytes)
    (c key : Z) (e : bool) (value : Row) :
  cache_ok t → pg t p b → p ≤ TABLE_MAX_PAGES →
  u32_at b LEAF_NODE_NUM_CELLS_OFFSET < LEAF_NODE_MAX_CELLS →
  0 ≤ c ≤ u32_at b LEAF_NODE_NUM_CELLS_OFFSET →
  0 ≤ key < 4294967296 → serializable value →
  ∃ b', leaf_node_insert d fuel (mkCursor p c e) key value t
        = Ok () (set_page t p b')
    ∧ blen b' = PAGE_SIZE
    ∧ u8_at b' NODE_TYPE_OFFSET = u8_at b NODE_TYPE_OFFSET
    ∧ u8_at b' IS_ROOT_OFFSET = u8_at b IS_ROOT_OFFSET
    ∧ u32_at b' PARENT_POINTER_OFFSET = u32_at b PARENT_POINTER_OFFSET
    ∧ u32_at b' LEAF_NODE_NEXT_LEAF_OFFSET = u32_at b LEAF_NODE_NEXT_LEAF_OFFSET
    ∧ u32_at b' LEAF_NODE_NUM_CELLS_OFFSET
      = u32_at b LEAF_NODE_NUM_CELLS_OFFSET + 1
    ∧ (∀ i, 0 ≤ i < c → leaf_cell b' i = leaf_cell b i)
    ∧ leaf_cell b' c = make_cell key value
    ∧ (∀ i, c < i ≤ u32_at b LEAF_NODE_NUM_CELLS_OFFSET →
            leaf_cell b' i = leaf_cell b (i - 1)).
Proof.
  intros Hcache Hp Hpmax Hroom Hc Hkey Hvalue.
  destruct (returns_Ok _ _ _
    (leaf_node_insert_cells t p b c key value Hcache Hp Hpmax Hroom Hc Hkey
       Hvalue d fuel (mkCursor p c e) eq_refl eq_refl))
    as ([] & t' & Hrun & b' & -> & Hb' & Hty & Hroot & Hpar & Hnext & Hnum & Hcells).
  exists b'. repeat (split; [done|]). split; [|split].
  - intros i Hi. rewrite Hcells by lia. unfold split_target.
    destruct (i =? c) eqn:E1; [lia|]. destruct (i >? c) eqn:E2; [lia|done].
  - rewrite Hcells by lia. unfold split_target. by rewrite Z.eqb_refl.
  - intros i Hi. rewrite Hcells by lia. unfold split_target.
    destruct (i =? c) eqn:E1; [lia|]. destruct (i >? c) eqn:E2; [done|lia].
Qed.

Lemma leaf_node_insert_room_witness :
  ∃ b', leaf_node_insert 1 1 (mkCursor 0 0 true) 5 (example_row 5) fresh_table
        = Ok () (set_page fresh_table 0 b')
    ∧ blen b' = PAGE_SIZE
    ∧ u8_at b' NODE_TYPE_OFFSET = u8_at empty_leaf NODE_TYPE_OFFSET
    ∧ u8_at b' IS_ROOT_OFFSET = u8_at empty_leaf IS_ROOT_OFFSET
    ∧ u32_at b' PARENT_POINTER_OFFSET = u32_at empty_leaf PARENT_POINTER_OFFSET
    ∧ u32_at b' LEAF_NODE_NEXT_LEAF_OFFSET
      = u32_at empty_leaf LEAF_NODE_NEXT_LEAF_OFFSET
    ∧ u32_at b' LEAF_NODE_NUM_CELLS_OFFSET
      = u32_at empty_leaf LEAF_NODE_NUM_CELLS_OFFSET + 1
    ∧ (∀ i, 0 ≤ i < 0 → leaf_cell b' i = leaf_cell empty_leaf i)
    ∧ leaf_cell b' 0 = make_cell 5 (example_row 5)
    ∧ (∀ i, 0 < i ≤ u32_at empty_leaf LEAF_NODE_NUM_CELLS_OFFSET →
            leaf_cell b' i = leaf_cell empty_leaf (i - 1)).
Proof.
  apply (leaf_node_insert_room 1 1 fresh_table 0 empty_leaf 0 5 true
           (example_row 5)).
  - apply fresh_table_single_leaf.
  - apply fresh_table_single_leaf.
  - vm_compute. congruence.
  - vm_compute. reflexivity.
  - vm_compute. split; congruence.
  - lia.
  - split; [simpl; lia|split; reflexivity].
Defined.

(** X3. In a database that is one root leaf holding the rows [rows] in
    ascending order of id, [execute_insert] of a row whose id is among
    them returns DUPLICATE_KEY and leaves the table as it is. *)
Theorem execute_insert_duplicate (d fuel : nat) (t : Table) (b : bytes)
    (rows : list Row) (r : Row) :
  single_leaf t b → leaf_holds b rows →
  Forall serializable rows → ascending (id <$> rows) →
  (length rows ≤ 13)%nat → serializable r →
  id r ∈ id <$> rows →
  execute_insert d fuel (insert_statement r) t = Ok DUPLICATE_KEY t.
Proof.
  intros Hsingle Hholds Hser Hasc Hlen Hr Hin.
  destruct (execute_insert_leaf d fuel t b rows r) as (b' & Hrun & _ & Hsame);
    try done.
  { unfold db_insert. by rewrite bool_decide_true by done. }
  rewrite Hrun. unfold db_insert. rewrite bool_decide_true by done. simpl.
  rewrite (Hsame Hin). rewrite set_page_id; [done|]. apply Hsingle.
Qed.

Lemma execute_insert_duplicate_witness :
  execute_insert 1 1 (insert_statement (mkRow 6 "another" "name@example.com"))
    full_root_table
  = Ok DUPLICATE_KEY full_root_table.
Proof.
  apply (execute_insert_duplicate 1 1 full_root_table full_root_leaf
           (example_row <$> ((λ i, 2 * i) <$> seqZ 1 13))).
  - split; [by apply cache_ok_singleton|done].
  - by vm_compute.
  - apply example_row_serializable_check. by vm_compute.
  - vm_compute. repeat split; intros k' Hk'; repeat
      (apply elem_of_cons in Hk' as [->|Hk']; [done|]);
      by apply elem_of_nil in Hk'.
  - simpl. lia.
  - split; [simpl; lia|split; reflexivity].
  - apply (bool_decide_unpack _). by vm_compute.
Defined.

(** X4. In such a database with fewer than 13 rows, [execute_insert] of a
    row whose id is not among them returns EXECUTE_SUCCESS, changes only
    page 0, and the root leaf then holds the rows with the new one
    inserted at its place in the order of ids. *)
Theorem execute_insert_new_key (d fuel : nat) (t : Table) (b : bytes)
    (rows : list Row) (r : Row) :
  single_leaf t b → leaf_holds b rows →
  Forall serializable rows → ascending (id <$> rows) →
  (length rows < 13)%nat → serializable r →
  id r ∉ id <$> rows →
  ∃ b', execute_insert d fuel (insert_statement r) t
        = Ok EXECUTE_SUCCESS (set_page t 0 b')
        ∧ single_leaf (set_page t 0 b') b'
        ∧ leaf_holds b' (insert_row r rows)
        ∧ ascending (id <$> insert_row r rows).
Proof.
  intros Hsingle Hholds Hser Hasc Hlen Hr Hnot.
  destruct (execute_insert_leaf d fuel t b rows r) as (b' & Hrun & Hh & _);
    try done.
  { unfold db_insert. rewrite bool_decide_false by done. simpl.
    rewrite insert_row_length. lia. }
  unfold db_insert in Hrun, Hh. rewrite bool_decide_false in Hrun, Hh by done.
  exists b'. split; [done|]. split; [|split; [done|]].
  - apply (single_leaf_set_page t b b' Hsingle). apply Hh.
  - by apply insert_row_ascending.
Qed.

Lemma execute_insert_new_key_witness :
  ∃ b', execute_insert 1 1 (insert_statement (example_row 5)) fresh_table
        = Ok EXECUTE_SUCCESS (set_page fresh_table 0 b')
        ∧ single_leaf (set_page fresh_table 0 b') b'
        ∧ leaf_holds b' (insert_row (example_row 5) [])
        ∧ ascending (id <$> insert_row (example_row 5) []).
Proof.
  apply (execute_insert_new_key 1 1 fresh_table empty_leaf [] (example_row 5)).
  - apply fresh_table_single_leaf.
  - apply fresh_table_single_leaf.
  - constructor.
  - exact I.
  - simpl. lia.
  - split; [simpl; lia|split; reflexivity].
  - simpl. apply not_elem_of_nil.
Defined.

(** X5. In a database that is one root leaf holding at most 13 rows in
    ascending order of id, [execute_select] visits exactly these rows, in
    that order, and leaves the table as it is, provided the loop is given
    more rounds than there are rows. *)
Theorem execute_select_single_leaf (d k : nat) (t : Table) (b : bytes)
    (rows : list Row) :
  single_leaf t b → leaf_holds b rows →
  Forall serializable rows → ascending (id <$> rows) →
  (length rows ≤ 13)%nat → (length rows < k)%nat →
  execute_select_rows d k t = Ok rows t
  ∧ execute_select d k t = Ok (Row_repr <$> rows, EXECUTE_SUCCESS) t.
Proof.
  intros Hsingle Hholds Hser Hasc Hlen Hk.
  pose proof (execute_select_rows_leaf t b rows Hsingle Hholds Hser Hlen d k
                Hasc Hk) as Hrun.
  split; [done|]. unfold execute_select, mbind, M_bind. by rewrite Hrun.
Qed.

Lemma execute_select_single_leaf_witness :
  execute_select_rows 1 14 full_root_table
  = Ok (example_row <$> ((λ i, 2 * i) <$> seqZ 1 13)) full_root_table
  ∧ execute_select 1 14 full_root_table
    = Ok (Row_repr <$> (example_row <$> ((λ i, 2 * i) <$> seqZ 1 13)),
          EXECUTE_SUCCESS) full_root_table.
Proof.
  apply (execute_select_single_leaf 1 14 full_root_table full_root_leaf).
  - split; [by apply cache_ok_singleton|done].
  - by vm_compute.
  - apply example_row_serializable_check. by vm_compute.
  - vm_compute. repeat split; intros k' Hk'; repeat
      (apply elem_of_cons in Hk' as [->|Hk']; [done|]);
      by apply elem_of_nil in Hk'.
  - simpl. lia.
  - simpl. lia.
Defined.

(** X6. A fresh database into which at most 13 rows are inserted behaves
    as a list of rows kept in ascending order of id: each insert answers
    DUPLICATE_KEY when its id was inserted before and EXECUTE_SUCCESS
    otherwise, and a select afterwards returns the accepted rows in
    strictly ascending order of id. *)
Theorem small_database (d fuel k : nat) (rs : list Row) :
  Forall serializable rs → (length rs ≤ 13)%nat → (13 < k)%nat →
  ∃ t', on_fresh_table (
          res ← execute_inserts d fuel (insert_statement <$> rs);
          rows ← execute_select_rows d k;
          mret (res, rows))
        = Ok (db_inserts rs []) t'
      ∧ ascending (id <$> (db_inserts rs []).2).
Proof.
  intros Hrs Hlen Hk.
  destruct fresh_table_single_leaf as (Hinit & Hsingle & Hholds).
  destruct (execute_inserts_leaf d fuel rs fresh_table empty_leaf [])
    as (t' & b' & Hrun & Hs' & Hh'); try done.
  destruct (db_inserts_inv rs []) as (Hser' & Hasc' & Hlen'); try done.
  simpl in Hlen'.
  exists t'. split; [|done].
  unfold on_fresh_table. rewrite Hinit. unfold mbind, M_bind. rewrite Hrun.
  rewrite (execute_select_rows_leaf t' b' (db_inserts rs []).2) by (done || lia).
  by destruct (db_inserts rs []).
Qed.

Lemma small_database_witness :
  ∃ t', on_fresh_table (
          res ← execute_inserts 1 1
                  (insert_statement <$> (example_row <$> [3; 1; 3; 2]));
          rows ← execute_select_rows 1 14;
          mret (res, rows))
        = Ok (db_inserts (example_row <$> [3; 1; 3; 2]) []) t'
      ∧ ascending (id <$> (db_inserts (example_row <$> [3; 1; 3; 2]) []).2).
Proof.
  apply (small_database 1 1 14 (example_row <$> [3; 1; 3; 2])).
  - apply example_row_serializable_check. by vm_compute.
  - simpl. lia.
  - lia.
Defined.
(** * Statements and meta commands *)

Lemma wpT_any {A} (m : M A) (Q : A → Table → Prop) t :
  (∀ a t', Q a t') → wpT m Q t.
Proof. intros HQ. unfold wp_gen. by destruct (m t). Qed.

Lemma wpT_Ok {A} (m : M A) (Q : A → Table → Prop) t a t' :
  wpT m Q t → m t = Ok a t' → Q a t'.
Proof. unfold wp_gen. intros H E. by rewrite E in H. Qed.

Lemma execute_insert_results d fuel statement t :
  wpT (execute_insert d fuel statement)
    (λ r _, r = EXECUTE_SUCCESS ∨ r = DUPLICATE_KEY) t.
Proof.
  unfold execute_insert. destruct (row_to_insert statement) as [row|]; [|done].
  apply wp_bind, wpT_any. intros cursor t1.
  apply wp_bind, wpT_any. intros node t2.
  apply wp_bind, wpT_any. intros num_cells t3.
  apply wp_bind, wpT_any. intros duplicate t4.
  destruct duplicate.
  - apply wp_ret. by right.
  - apply wp_bind, wpT_any. intros _ t5. apply wp_ret. by left.
Qed.

(** ** [print_tree] on a leaf *)

Lemma for_lines_pure {A} (l : list A) (body : A → M (list string))
    (g : A → list string) t :
  (∀ x, x ∈ l → body x t = Ok (g x) t) →
  for_lines l body t = Ok (concat (g <$> l)) t.
Proof.
  induction l as [|x l IH]; intros Hbody; [done|].
  simpl. unfold mbind, M_bind. rewrite Hbody by left.
  rewrite IH; [done|]. intros y Hy. apply Hbody. by right.
Qed.

Lemma concat_singletons {A B} (f : A → B) (l : list A) :
  concat ((λ x, [f x]) <$> l) = f <$> l.
Proof. induction l as [|x l IH]; [done|]. simpl. f_equal. exact IH. Qed.

Lemma leaf_keys_of_rows (b : bytes) (rows : list Row) :
  leaf_holds b rows → Forall serializable rows →
  leaf_key b <$> seqZ 0 (Z.of_nat (length rows)) = id <$> rows.
Proof.
  intros Hholds Hser. apply list_eq. intros i.
  rewrite !list_lookup_fmap.
  destruct (decide (i < length rows)%nat) as [Hi|Hi].
  - rewrite lookup_seqZ_lt by lia.
    destruct (lookup_lt_is_Some_2 rows i Hi) as [r Hr]. rewrite Hr. simpl.
    f_equal. rewrite Z.add_0_l. by eapply leaf_holds_key.
  - rewrite lookup_seqZ_ge by lia. by rewrite lookup_ge_None_2 by lia.
Qed.

Lemma print_tree_leaf d level t (b : bytes) (rows : list Row) p :
  pg t p b → p ≤ TABLE_MAX_PAGES → leaf_holds b rows →
  Forall serializable rows → (length rows ≤ 13)%nat →
  print_tree (S d) p level t
  = Ok ((indent level +:+ "- leaf (size "
         +:+ str_of_Z (Z.of_nat (length rows)) +:+ ")")
        :: ((λ r, indent (level + 1) +:+ "- " +:+ str_of_Z (id r)) <$> rows)) t.
Proof.
  intros Hp Hpmax Hholds Hser Hlen.
  pose proof Hholds as (Hb & Hty & Hnum & _).
  simpl. unfold mbind, M_bind.
  rewrite (get_page_pg t p b Hp Hpmax).
  unfold get_node_type, mbind, M_bind.
  rewrite (read_buf_pg _ t p b _ 1 Hp).
  2:{ rewrite unpack_from_B_u8_at by (layout; lia). by rewrite Hty. }
  simpl. unfold leaf_node_num_cells.
  rewrite (read_buf_pg _ t p b _ (Z.of_nat (length rows)) Hp).
  2:{ rewrite unpack_from_I_u32_at by (layout; lia). by rewrite Hnum. }
  rewrite (for_lines_pure _ _
    (λ i, [indent (level + 1) +:+ "- " +:+ str_of_Z (leaf_key b i)])).
  2:{ intros i Hi%elem_of_py_range.
      rewrite (leaf_node_key_pg t p b i Hp);
        [done|lia|unfold leaf_node_cell_offset; layout; lia]. }
  rewrite (concat_singletons
    (λ i, indent (level + 1) +:+ "- " +:+ str_of_Z (leaf_key b i))).
  unfold py_range.
  rewrite (list_fmap_compose (leaf_key b)
    (λ k, indent (level + 1) +:+ "- " +:+ str_of_Z k)).
  rewrite (leaf_keys_of_rows b rows Hholds Hser).
  by rewrite <- list_fmap_compose.
Qed.

(** X7. [execute_statement] never returns TABLE_FULL: whenever it returns,
    the result is SUCCESS or DUPLICATE_KEY for an insert, SUCCESS for a
    select and nothing for a statement without type; so the main loop's
    branch that prints the table-full error is never taken. *)
Theorem execute_statement_never_table_full (d fuel n : nat)
    (statement : Statement) (t t' : Table) (out : list string)
    (r : option ExecuteResult) :
  execute_statement d fuel n statement t = Ok (out, r) t' →
  r ≠ Some TABLE_FULL
  ∧ match stmt_type statement with
    | Some INSERT => out = [] ∧ (r = Some EXECUTE_SUCCESS ∨ r = Some DUPLICATE_KEY)
    | Some SELECT => r = Some EXECUTE_SUCCESS
    | None => out = [] ∧ r = None
    end.
Proof.
  intros Hrun.
  cut (wpT (execute_statement d fuel n statement)
         (λ '(out, r) _,
            r ≠ Some TABLE_FULL
            ∧ match stmt_type statement with
              | Some INSERT =>
                  out = [] ∧ (r = Some EXECUTE_SUCCESS ∨ r = Some DUPLICATE_KEY)
              | Some SELECT => r = Some EXECUTE_SUCCESS
              | None => out = [] ∧ r = None
              end) t).
  { intros H. apply (wpT_Ok _ _ _ _ _ H Hrun). }
  unfold execute_statement. destruct (stmt_type statement) as [[]|].
  - apply wp_bind. eapply wp_mono; [apply execute_insert_results|].
    intros res t1 [-> | ->]; apply wp_ret; split; try done; split; auto.
  - apply wp_bind. unfold execute_select. apply wp_bind, wpT_any.
    intros rows t1. apply wp_ret, wp_ret. done.
  - apply wp_ret. done.
Qed.

Lemma execute_statement_never_table_full_witness :
  Some DUPLICATE_KEY ≠ Some TABLE_FULL
  ∧ match stmt_type (insert_statement (example_row 6)) with
    | Some INSERT =>
        @nil string = []
        ∧ (Some DUPLICATE_KEY = Some EXECUTE_SUCCESS
           ∨ Some DUPLICATE_KEY = Some DUPLICATE_KEY)
    | Some SELECT => Some DUPLICATE_KEY = Some EXECUTE_SUCCESS
    | None => @nil string = [] ∧ Some DUPLICATE_KEY = None
    end.
Proof.
  apply (execute_statement_never_table_full 1 1 1
           (insert_statement (example_row 6)) full_root_table full_root_table).
  vm_compute. reflexivity.
Defined.

(** X8. On a database that is a single root leaf holding at most 13 rows,
    the meta command [.btree] prints the heading, the line of the leaf
    with its size and one line for each stored id, in the order of the
    cells, and leaves the table as it is. *)
Theorem btree_single_leaf (d : nat) (t : Table) (b : bytes) (rows : list Row) :
  single_leaf t b → leaf_holds b rows →
  Forall serializable rows → (length rows ≤ 13)%nat →
  do_meta_command (S d) ".btree" t
  = Ok ("Tree:"
        :: ("- leaf (size " +:+ str_of_Z (Z.of_nat (length rows)) +:+ ")")
        :: ((λ r, "  - " +:+ str_of_Z (id r)) <$> rows),
        META_SUCCESS) t.
Proof.
  intros (Hcache & Hroot & Hp) Hholds Hser Hlen.
  unfold do_meta_command.
  change (String.eqb ".btree" ".exit") with false.
  change (String.eqb ".btree" ".btree") with true. cbv iota.
  unfold mbind, M_bind.
  rewrite (print_tree_leaf d 0 t b rows 0 Hp) by (done || (layout; lia)).
  done.
Qed.

Lemma btree_single_leaf_witness :
  do_meta_command 1 ".btree" full_root_table
  = Ok ("Tree:"
        :: ("- leaf (size "
            +:+ str_of_Z (Z.of_nat (length
                  (example_row <$> ((λ i, 2 * i) <$> seqZ 1 13)))) +:+ ")")
        :: ((λ r, "  - " +:+ str_of_Z (id r))
              <$> (example_row <$> ((λ i, 2 * i) <$> seqZ 1 13))),
        META_SUCCESS) full_root_table.
Proof.
  apply (btree_single_leaf 0 full_root_table full_root_leaf).
  - split; [by apply cache_ok_singleton|done].
  - by vm_compute.
  - apply example_row_serializable_check. by vm_compute.
  - simpl. lia.
Defined.
(** * Closing and reopening the database *)

Lemma file_byte_lookup (f : bytes) (i : nat) c :
  f !! i = Some c → file_byte f (Z.of_nat i) = c.
Proof. intros H. unfold file_byte. by rewrite Nat2Z.id, H. Qed.

Lemma file_byte_past (f : bytes) i : blen f ≤ i → file_byte f i = x00.
Proof.
  intros H. unfold file_byte. rewrite lookup_ge_None_2; [done|].
  unfold blen in H. lia.
Qed.

Lemma blen_file_write f pos data :
  0 ≤ pos → blen (file_write f pos data) = Z.max (blen f) (pos + blen data).
Proof.
  intros Hpos. unfold file_write, blen, zero_bytes.
  rewrite !length_app, length_take, length_drop, !length_app, length_replicate.
  lia.
Qed.

Lemma file_byte_write f pos data j :
  0 ≤ pos → 0 ≤ j →
  file_byte (file_write f pos data) j
  = if (pos <=? j) && (j <? pos + blen data)
    then default x00 (data !! Z.to_nat (j - pos))
    else file_byte f j.
Proof.
  intros Hpos Hj. unfold file_write, file_byte.
  set (f' := f ++ zero_bytes (pos - blen f)).
  assert (Z.to_nat pos ≤ length f')%nat as Hlen'.
  { unfold f', zero_bytes, blen. rewrite length_app, length_replicate. lia. }
  assert (default x00 (f' !! Z.to_nat j) = default x00 (f !! Z.to_nat j)) as Hf'.
  { unfold f'. destruct (decide (Z.to_nat j < length f)%nat).
    - by rewrite lookup_app_l by lia.
    - rewrite lookup_app_r by lia. rewrite (lookup_ge_None_2 f) by lia.
      unfold zero_bytes.
      destruct (replicate _ x00 !! _) as [c|] eqn:E; [|done].
      by apply lookup_replicate in E as [-> _]. }
  unfold blen. destruct (pos <=? j) eqn:E1; simpl.
  - apply Z.leb_le in E1.
    rewrite lookup_app_r by (rewrite length_take; lia).
    rewrite length_take.
    replace (Z.to_nat j - Z.to_nat pos `min` length f')%nat
      with (Z.to_nat (j - pos)) by lia.
    destruct (j <? pos + Z.of_nat (length data)) eqn:E2.
    + apply Z.ltb_lt in E2. by rewrite lookup_app_l by lia.
    + apply Z.ltb_ge in E2. rewrite lookup_app_r by lia.
      rewrite lookup_drop. rewrite <- Hf'. do 2 f_equal. lia.
  - apply Z.leb_gt in E1.
    rewrite lookup_app_l by (rewrite length_take; lia).
    rewrite lookup_take_lt by lia. done.
Qed.

Lemma miss_page_lookup (p : Pager) n (x : nat) :
  0 ≤ n < num_pages p → (x < Z.to_nat PAGE_SIZE)%nat →
  miss_page p n !! x = Some (file_byte (file p) (n * PAGE_SIZE + Z.of_nat x)).
Proof.
  intros Hn Hx. unfold miss_page.
  destruct (n <? num_pages p) eqn:E; [|lia].
  set (r := file_read (file p) (n * PAGE_SIZE) PAGE_SIZE).
  assert (blen r ≤ PAGE_SIZE) as Hr.
  { unfold r, file_read, blen. rewrite length_take. lia. }
  replace (blen r) with (0 + blen r) by lia.
  rewrite setslice_in by (rewrite ?blen_zero_bytes; layout; lia).
  rewrite blit_lookup by (rewrite ?blen_zero_bytes; layout; lia).
  assert (r !! x = file p !! (Z.to_nat (n * PAGE_SIZE) + x)%nat) as Hrx.
  { unfold r, file_read. rewrite lookup_take_lt by lia. by rewrite lookup_drop. }
  unfold file_byte.
  replace (Z.to_nat (n * PAGE_SIZE + Z.of_nat x))
    with (Z.to_nat (n * PAGE_SIZE) + x)%nat by (layout; lia).
  case_decide as Hd.
  - replace (x - Z.to_nat 0)%nat with x by lia. rewrite Hrx.
    destruct (lookup_lt_is_Some_2 r x ltac:(lia)) as [c Hc].
    rewrite Hrx in Hc. by rewrite Hc.
  - unfold zero_bytes. rewrite lookup_replicate_2 by lia.
    rewrite lookup_ge_None_2; [done|].
    assert (length r ≤ x)%nat as Hlx by lia.
    apply lookup_ge_None_2 in Hlx. rewrite Hrx in Hlx.
    by apply lookup_ge_None_1 in Hlx.
Qed.

Lemma close_round (i : Z) t :
  0 ≤ i →
  (cached ← is_cached i;
   if cached : bool then flush i;; del_page i else mret ()) t
  = Ok () (close_page t i).
Proof.
  intros Hi. unfold mbind, M_bind, is_cached, close_page, flush, del_page.
  destruct (pages (pager t) !! i) as [page|] eqn:E.
  - rewrite bool_decide_true by eauto.
    destruct (i <? 0) eqn:E1; [lia|]. by rewrite E.
  - rewrite bool_decide_false; [done|]. by intros [? ?].
Qed.

Lemma close_rounds (l : list Z) t :
  (∀ i, i ∈ l → 0 ≤ i) →
  for_each l (λ i,
    cached ← is_cached i;
    if cached : bool then flush i;; del_page i else mret ()) t
  = Ok () (foldl close_page t l).
Proof.
  revert t. induction l as [|i l IH]; intros t Hl; [done|].
  simpl. unfold mbind at 1, M_bind at 1.
  rewrite close_round by (apply Hl; left).
  apply IH. intros j Hj. apply Hl. by right.
Qed.

(** What the loop of [Table.close] over the page numbers [l] leaves. *)
Lemma close_fold (l : list Z) :
  ∀ t, NoDup l → (∀ i, i ∈ l → 0 ≤ i) →
  (∀ k b, pages (pager t) !! k = Some b → blen b = PAGE_SIZE) →
  let t' := foldl close_page t l in
  num_pages (pager t') = num_pages (pager t)
  ∧ root_page_num t' = root_page_num t
  ∧ (∀ k, pages (pager t') !! k
          = if decide (k ∈ l) then None else pages (pager t) !! k)
  ∧ (∀ k b x, k ∈ l → pages (pager t) !! k = Some b → 0 ≤ x < PAGE_SIZE →
       file_byte (file (pager t')) (k * PAGE_SIZE + x)
       = default x00 (b !! Z.to_nat x))
  ∧ (∀ k x, 0 ≤ k → k ∉ l ∨ pages (pager t) !! k = None → 0 ≤ x < PAGE_SIZE →
       file_byte (file (pager t')) (k * PAGE_SIZE + x)
       = file_byte (file (pager t)) (k * PAGE_SIZE + x))
  ∧ blen (file (pager t)) ≤ blen (file (pager t'))
  ∧ (∀ k b, k ∈ l → pages (pager t) !! k = Some b →
       (k + 1) * PAGE_SIZE ≤ blen (file (pager t')))
  ∧ (∀ B, blen (file (pager t)) ≤ B →
       (∀ k b, pages (pager t) !! k = Some b → (k + 1) * PAGE_SIZE ≤ B) →
       blen (file (pager t')) ≤ B).
Proof.
  induction l as [|i l IH]; intros t Hnd Hpos Hpages; cbv zeta; cbn [foldl].
  { split; [done|]. split; [done|]. split; [|split; [|split; [|split; [|split]]]].
    - intros k. rewrite decide_False; [done|apply not_elem_of_nil].
    - intros k b x Hk. by apply elem_of_nil in Hk.
    - done.
    - lia.
    - intros k b Hk. by apply elem_of_nil in Hk.
    - intros B HB _. done. }
  apply NoDup_cons in Hnd as [Hil Hnd].
  assert (0 ≤ i) as Hi by (apply Hpos; left).
  assert (∀ j, j ∈ l → 0 ≤ j) as Hpos' by (intros j Hj; apply Hpos; by right).
  set (t1 := close_page t i).
  assert (num_pages (pager t1) = num_pages (pager t)
          ∧ root_page_num t1 = root_page_num t
          ∧ pages (pager t1) = delete i (pages (pager t))) as (Hnp1 & Hr1 & Hp1).
  { unfold t1, close_page. destruct (pages (pager t) !! i) eqn:E; simpl; [done|].
    by rewrite delete_id. }
  assert (∀ k x, 0 ≤ k → 0 ≤ x < PAGE_SIZE →
    file_byte (file (pager t1)) (k * PAGE_SIZE + x)
    = match pages (pager t) !! i with
      | Some b => if decide (k = i) then default x00 (b !! Z.to_nat x)
                  else file_byte (file (pager t)) (k * PAGE_SIZE + x)
      | None => file_byte (file (pager t)) (k * PAGE_SIZE + x)
      end) as Hbytes1.
  { intros k x Hk Hx. unfold t1, close_page.
    destruct (pages (pager t) !! i) as [b|] eqn:E; simpl; [|done].
    pose proof (Hpages _ _ E) as Hb.
    rewrite file_byte_write by (layout; lia). rewrite Hb.
    case_decide as Hki.
    - subst k.
      destruct ((i * PAGE_SIZE <=? i * PAGE_SIZE + x)
                && (i * PAGE_SIZE + x <? i * PAGE_SIZE + PAGE_SIZE)) eqn:E1.
      + do 3 f_equal. lia.
      + apply andb_false_iff in E1 as [E1|E1]; layout; lia.
    - destruct ((i * PAGE_SIZE <=? k * PAGE_SIZE + x)
                && (k * PAGE_SIZE + x <? i * PAGE_SIZE + PAGE_SIZE)) eqn:E1;
        [|done].
      apply andb_prop in E1 as [E1 E2]. layout. lia. }
  assert (blen (file (pager t)) ≤ blen (file (pager t1))
          ∧ (∀ b, pages (pager t) !! i = Some b →
                  blen (file (pager t1))
                  = Z.max (blen (file (pager t))) ((i + 1) * PAGE_SIZE))
          ∧ (pages (pager t) !! i = None → file (pager t1) = file (pager t)))
    as (Hlen1 & Hlen1' & Hsame1).
  { unfold t1, close_page.
    destruct (pages (pager t) !! i) as [b|] eqn:E; simpl.
    - pose proof (Hpages _ _ E) as Hb.
      rewrite blen_file_write by (layout; lia). rewrite Hb.
      split; [lia|]. split; [|done]. intros _ _. layout. lia.
    - split; [lia|]. split; done. }
  assert (∀ k b, pages (pager t1) !! k = Some b → blen b = PAGE_SIZE) as Hpages1.
  { intros k b. rewrite Hp1. intros [_ H]%lookup_delete_Some. by eapply Hpages. }
  destruct (IH t1 Hnd Hpos' Hpages1) as (Hnp & Hr & Hpg & HF & HG & Hle & Hge & Hub).
  fold t1. split; [congruence|]. split; [congruence|].
  split; [|split; [|split; [|split; [|split]]]].
  - intros k. rewrite Hpg, Hp1.
    destruct (decide (k ∈ l)) as [Hk|Hk].
    + rewrite decide_True; [done|by right].
    + destruct (decide (k = i)) as [->|Hki].
      * rewrite decide_True by left. by rewrite lookup_delete_eq.
      * rewrite decide_False by (rewrite elem_of_cons; tauto).
        by rewrite lookup_delete_ne.
  - intros k b x Hk Hkb Hx.
    destruct (decide (k = i)) as [->|Hki].
    + rewrite HG; [|done|by left|done]. rewrite Hbytes1 by done.
      rewrite Hkb. by rewrite decide_True.
    + apply elem_of_cons in Hk as [Hk|Hk]; [done|].
      apply (HF k b x Hk); [|done]. rewrite Hp1. by rewrite lookup_delete_ne.
  - intros k x Hk Hcase Hx.
    rewrite HG; [|done| |done].
    + rewrite Hbytes1 by done.
      destruct (pages (pager t) !! i) as [b|] eqn:E; [|done].
      case_decide as Hki; [|done]. subst k.
      destruct Hcase as [Hcase|Hcase]; [|congruence].
      exfalso. apply Hcase. left.
    + destruct Hcase as [Hcase|Hcase].
      * left. intros Hk'. apply Hcase. by right.
      * right. rewrite Hp1. destruct (decide (k = i)) as [->|Hki].
        -- by rewrite lookup_delete_eq.
        -- by rewrite lookup_delete_ne.
  - lia.
  - intros k b Hk Hkb.
    destruct (decide (k = i)) as [->|Hki].
    + pose proof (Hlen1' b Hkb). lia.
    + apply elem_of_cons in Hk as [Hk|Hk]; [done|].
      apply (Hge k b Hk). rewrite Hp1. by rewrite lookup_delete_ne.
  - intros B HB Hall. apply Hub.
    + destruct (pages (pager t) !! i) as [b|] eqn:E.
      * rewrite (Hlen1' b eq_refl). pose proof (Hall i b E). lia.
      * by rewrite Hsame1.
    + intros k b. rewrite Hp1. intros [_ H]%lookup_delete_Some. by eapply Hall.
Qed.

(** X9. Closing a database whose cached pages are whole pages below
    [num_pages], and whose last page is in the file or in the cache,
    writes every cached page to the file and empties the cache; opening
    the file again gives that same table, with the same number of pages,
    and every page of the database reads as it did before the close. *)
Theorem close_then_reopen (t : Table) :
  pages_ok t → last_page_present t →
  ∃ t', Table_close t = Ok () t'
        ∧ pages (pager t') = ∅
        ∧ num_pages (pager t') = num_pages (pager t)
        ∧ blen (file (pager t')) = num_pages (pager t) * PAGE_SIZE
        ∧ Table_init (file (pager t')) = Ok () t'
        ∧ ∀ n, 0 ≤ n < num_pages (pager t) → node_view t' n = node_view t n.
Proof.
  intros [(Hroot & Hnp & Hfile & _) Hcache] Hlast.
  set (np := num_pages (pager t)) in *.
  assert (∀ k b, pages (pager t) !! k = Some b → blen b = PAGE_SIZE) as Hpages.
  { intros k b Hk. by apply Hcache in Hk as [? _]. }
  destruct (close_fold (seqZ 0 np) t) as (Hnp' & Hr' & Hpg & HF & HG & Hle & Hge & Hub);
    [apply NoDup_seqZ|by intros i [? _]%elem_of_seqZ|done|].
  set (t' := foldl close_page t (seqZ 0 np)) in *.
  assert (pages (pager t') = ∅) as Hempty.
  { apply map_eq. intros k. rewrite lookup_empty, Hpg.
    case_decide as Hk; [done|].
    destruct (pages (pager t) !! k) as [b|] eqn:E; [|done].
    exfalso. apply Hk. apply Hcache in E as [_ E]. apply elem_of_seqZ.
    fold np in E. lia. }
  assert (blen (file (pager t')) = np * PAGE_SIZE) as Hlen.
  { apply Z.le_antisymm.
    - apply Hub; [done|]. intros k b Hk. apply Hcache in Hk as [_ Hk].
      fold np in Hk. layout. lia.
    - destruct Hlast as [Hlast|[b Hb]]; [fold np in Hlast; lia|].
      fold np in Hb.
      pose proof (Hge (np - 1) b) as H. rewrite elem_of_seqZ in H.
      specialize (H ltac:(lia) Hb). layout. lia. }
  assert (Table_init (file (pager t')) = Ok () t') as Hinit.
  { unfold Table_init, Pager_init. rewrite Hlen.
    rewrite Z_mod_mult, Z.eqb_refl. simpl negb. cbv iota.
    rewrite Z_div_mult by (layout; lia). simpl num_pages.
    destruct (np =? 0) eqn:E; [lia|]. f_equal.
    clear -Hnp' Hr' Hroot Hempty. clearbody t'. unfold np.
    destruct t' as [[f' n' p'] r']. simpl in *. congruence. }
  exists t'. split.
  { unfold Table_close, mbind, M_bind, get_unused_page_num. fold np.
    apply close_rounds. by intros i [? _]%elem_of_seqZ. }
  split; [done|]. split; [done|]. split; [done|]. split; [done|].
  intros n Hn.
  assert (blen (node_view t' n) = PAGE_SIZE) as Hb'.
  { unfold node_view. rewrite Hempty, lookup_empty. apply blen_miss_page_gen. }
  assert (blen (node_view t n) = PAGE_SIZE) as Hb.
  { unfold node_view. destruct (pages (pager t) !! n) eqn:E;
      [by eapply Hpages|apply blen_miss_page_gen]. }
  apply list_eq. intros x.
  destruct (decide (x < Z.to_nat PAGE_SIZE)%nat) as [Hx|Hx].
  2:{ rewrite !lookup_ge_None_2; [done|unfold blen in *; lia..]. }
  assert (node_view t' n !! x
          = Some (file_byte (file (pager t')) (n * PAGE_SIZE + Z.of_nat x))) as ->.
  { unfold node_view. rewrite Hempty, lookup_empty.
    apply miss_page_lookup; [|done]. rewrite Hnp'. done. }
  unfold node_view. destruct (pages (pager t) !! n) as [b|] eqn:E.
  - rewrite (HF n b (Z.of_nat x)); [|apply elem_of_seqZ; lia|done|lia].
    rewrite Nat2Z.id.
    destruct (lookup_lt_is_Some_2 b x) as [c Hc].
    { apply Hpages in E. unfold blen in E. lia. }
    by rewrite Hc.
  - rewrite (HG n (Z.of_nat x)); [|lia|by right|lia].
    symmetry. by apply miss_page_lookup.
Qed.

Lemma close_then_reopen_witness :
  ∃ t', Table_close full_root_table = Ok () t'
        ∧ pages (pager t') = ∅
        ∧ num_pages (pager t') = num_pages (pager full_root_table)
        ∧ blen (file (pager t')) = num_pages (pager full_root_table) * PAGE_SIZE
        ∧ Table_init (file (pager t')) = Ok () t'
        ∧ ∀ n, 0 ≤ n < num_pages (pager full_root_table) →
               node_view t' n = node_view full_root_table n.
Proof.
  apply (close_then_reopen full_root_table).
  - apply pages_ok_singleton. reflexivity.
  - right. exists full_root_leaf. reflexivity.
Defined.
(** * Searching an internal node, and the scan of the leaves *)

Lemma internal_node_key_pg t n (b : bytes) i :
  pg t n b → 0 ≤ i → internal_node_cell_offset i + 8 ≤ blen b →
  internal_node_key n i t = Ok (internal_key b i) t.
Proof.
  intros Hp Hi Hb. unfold internal_node_key. eapply read_buf_pg; [done|].
  unfold internal_key. apply unpack_from_I_u32_at;
    unfold internal_node_cell_offset in *; layout; lia.
Qed.

(** The binary search of [internal_node_find_child]: it halves the
    range, so a fuel of one more than the logarithm of its size is
    enough; the index it returns is bracketed by the keys next to it. *)
Lemma find_child_loop_bracket (fuel : nat) t p (b : bytes) key :
  pg t p b → blen b = PAGE_SIZE →
  ∀ lo hi, 0 ≤ lo → lo ≤ hi → hi ≤ internal_node_capacity →
  (0 < fuel)%nat → hi - lo < 2 ^ (Z.of_nat fuel - 1) →
  ∃ c, find_child_loop fuel p key lo hi t = Ok c t
       ∧ lo ≤ c ≤ hi
       ∧ (c = lo ∨ internal_key b (c - 1) < key)
       ∧ (c = hi ∨ key ≤ internal_key b c).
Proof.
  intros Hp Hb. induction fuel as [|fuel IH]; intros lo hi Hlo Hlh Hhi Hf Hsize;
    [lia|].
  simpl. destruct (negb (lo =? hi)) eqn:E.
  2:{ apply negb_false_iff, Z.eqb_eq in E. subst hi.
      exists lo. split; [done|]. split; [lia|]. split; by left. }
  apply negb_true_iff, Z.eqb_neq in E.
  set (index := (lo + hi) / 2).
  assert (lo ≤ index < hi) as Hidx.
  { unfold index. split.
    - apply Z.div_le_lower_bound; lia.
    - apply Z.div_lt_upper_bound; lia. }
  assert (2 * index ≤ lo + hi < 2 * index + 2) as Hhalf.
  { unfold index. pose proof (Z.div_mod (lo + hi) 2 ltac:(lia)).
    pose proof (Z.mod_pos_bound (lo + hi) 2 ltac:(lia)). lia. }
  replace (Z.of_nat (S fuel) - 1) with (Z.of_nat fuel) in Hsize by lia.
  assert (0 < fuel)%nat as Hfuel.
  { destruct fuel; [|lia]. simpl in Hsize. lia. }
  assert (2 ^ Z.of_nat fuel = 2 * 2 ^ (Z.of_nat fuel - 1)) as Hpow.
  { replace (Z.of_nat fuel) with (Z.succ (Z.of_nat fuel - 1)) at 1 by lia.
    rewrite Z.pow_succ_r by lia. done. }
  unfold mbind, M_bind.
  rewrite (internal_node_key_pg t p b index Hp);
    [|lia|unfold internal_node_cell_offset, internal_node_capacity in *;
          revert Hhi; layout; intros Hhi;
          change ((4096 - 14) / 8) with 510 in Hhi; lia].
  destruct (internal_key b index >=? key) eqn:Ek.
  - destruct (IH lo index) as (c & Hrun & Hc & Hl & Hr); try lia.
    exists c. split; [done|]. split; [lia|]. split; [done|].
    destruct Hr as [->|Hr]; [right; lia|by right].
  - destruct (IH (index + 1) hi) as (c & Hrun & Hc & Hl & Hr); try lia.
    exists c. split; [done|]. split; [lia|]. split; [|done].
    right. destruct Hl as [->|Hl]; [|done].
    replace (index + 1 - 1) with index by lia. lia.
Qed.

Lemma internal_node_find_child_bracket t p (b : bytes) key :
  pg t p b → blen b = PAGE_SIZE →
  u32_at b INTERNAL_NODE_NUM_KEYS_OFFSET ≤ internal_node_capacity →
  ∃ c, internal_node_find_child p key t = Ok c t
       ∧ 0 ≤ c ≤ u32_at b INTERNAL_NODE_NUM_KEYS_OFFSET
       ∧ (c = 0 ∨ internal_key b (c - 1) < key)
       ∧ (c = u32_at b INTERNAL_NODE_NUM_KEYS_OFFSET ∨ key ≤ internal_key b c).
Proof.
  intros Hp Hb Hn.
  pose proof (u32_at_range b INTERNAL_NODE_NUM_KEYS_OFFSET) as Hn0.
  set (n := u32_at b INTERNAL_NODE_NUM_KEYS_OFFSET) in *.
  destruct (find_child_loop_bracket search_fuel t p b key Hp Hb 0 n)
    as (c & Hrun & Hc); try lia.
  { unfold search_fuel. lia. }
  { unfold search_fuel. change (2 ^ (Z.of_nat 33 - 1)) with 4294967296. lia. }
  exists c. split; [|done].
  unfold internal_node_find_child, mbind, M_bind, internal_node_num_keys.
  rewrite (read_buf_pg _ t p b _ n Hp).
  2:{ rewrite unpack_from_I_u32_at by (layout; lia). done. }
  done.
Qed.

Lemma internal_node_child_pg t p (b : bytes) i :
  pg t p b → blen b = PAGE_SIZE →
  u32_at b INTERNAL_NODE_NUM_KEYS_OFFSET ≤ internal_node_capacity →
  0 ≤ i ≤ u32_at b INTERNAL_NODE_NUM_KEYS_OFFSET →
  internal_node_child p i t
  = Ok (if i =? u32_at b INTERNAL_NODE_NUM_KEYS_OFFSET
        then u32_at b INTERNAL_NODE_RIGHT_CHILD_OFFSET
        else internal_child b i) t.
Proof.
  intros Hp Hb Hn Hi.
  unfold internal_node_child, mbind, M_bind, internal_node_num_keys.
  rewrite (read_buf_pg _ t p b _ (u32_at b INTERNAL_NODE_NUM_KEYS_OFFSET) Hp).
  2:{ rewrite unpack_from_I_u32_at by (layout; lia). done. }
  destruct (i >? u32_at b INTERNAL_NODE_NUM_KEYS_OFFSET) eqn:E; [lia|].
  destruct (i =? u32_at b INTERNAL_NODE_NUM_KEYS_OFFSET) eqn:E1.
  - unfold internal_node_right_child. apply (read_buf_pg _ t p b _ _ Hp).
    apply unpack_from_I_u32_at; layout; lia.
  - apply Z.eqb_neq in E1. apply (read_buf_pg _ t p b _ _ Hp).
    unfold internal_child. apply unpack_from_I_u32_at;
      unfold internal_node_cell_offset, internal_node_capacity in *;
      revert Hn; layout; intros Hn;
      change ((4096 - 14) / 8) with 510 in Hn; lia.
Qed.

Lemma get_node_type_pg t p (b : bytes) :
  pg t p b → blen b = PAGE_SIZE →
  u8_at b NODE_TYPE_OFFSET = 0 ∨ u8_at b NODE_TYPE_OFFSET = 1 →
  get_node_type p t
  = Ok (if u8_at b NODE_TYPE_OFFSET =? 0 then INTERNAL else LEAF) t.
Proof.
  intros Hp Hb Hty. unfold get_node_type, mbind, M_bind.
  rewrite (read_buf_pg _ t p b _ (u8_at b NODE_TYPE_OFFSET) Hp).
  2:{ by rewrite unpack_from_B_u8_at by (layout; lia). }
  by destruct Hty as [-> | ->].
Qed.

(** ** The descent to the leftmost leaf *)

Section Descent.

Context (t : Table) (leaf : Z) (bl : bytes) (rows : list Row) (next : Z).
Context (Hleaf : pg t leaf bl) (Hwith : leaf_with bl rows next).
Context (Hser : Forall serializable rows) (Hasc : ascending (id <$> rows)).
Context (Hlen : (length rows ≤ 13)%nat) (Hmax : leaf ≤ TABLE_MAX_PAGES).

Lemma leaf_node_find_first :
  leaf_node_find leaf 0 t = Ok (mkCursor leaf 0 false) t.
Proof.
  pose proof Hwith as (Hb & Hty & _).
  pose proof (leaf_holds_ascending bl rows Hwith Hser Hasc) as Hkasc.
  pose proof (leaf_holds_max bl rows Hwith Hlen) as Hcap.
  destruct (leaf_node_find_lower_bound t leaf bl 0 Hleaf Hb Hmax Hcap Hkasc)
    as (c & Hfind & Hc & Hlow & _).
  assert (c = 0) as ->; [|done].
  destruct (decide (c = 0)) as [|Hne]; [done|]. exfalso.
  pose proof (Hlow 0 ltac:(lia)) as Hneg.
  pose proof (u32_at_range bl (leaf_node_cell_offset 0)).
  unfold leaf_key in Hneg. lia.
Qed.

Lemma internal_node_find_first (d : nat) :
  ∀ p b, pg t p b → u8_at b NODE_TYPE_OFFSET = 0 →
  leftmost_leaf (S d) t p leaf →
  internal_node_find d p 0 t = Ok (mkCursor leaf 0 false) t.
Proof.
  induction d as [|d IH]; intros p b Hp Hty Hleft.
  { destruct Hleft as (b' & Hp' & _ & _ & [[Hty' _]|(_ & _ & [])]).
    unfold pg in *. congruence. }
  destruct Hleft as (b' & Hp' & Hb & Hpmax & Hcase).
  assert (b' = b) as -> by (unfold pg in *; congruence).
  destruct Hcase as [[Hty' _]|(_ & Hn & Hchild)]; [congruence|].
  cbn [internal_node_find]. unfold mbind, M_bind.
  rewrite (get_page_pg t p b Hp Hpmax).
  destruct (internal_node_find_child_bracket t p b 0 Hp Hb Hn)
    as (c & Hrun & Hc & Hl & _).
  rewrite Hrun.
  assert (c = 0) as ->.
  { destruct Hl as [->|Hl]; [done|].
    pose proof (u32_at_range b (internal_node_cell_offset (c - 1)
                                + INTERNAL_NODE_CHILD_SIZE)).
    unfold internal_key in Hl. lia. }
  rewrite (internal_node_child_pg t p b 0 Hp Hb Hn Hc).
  rewrite (Z.eqb_sym 0). fold (first_child b).
  pose proof Hchild as (bc & Hpc & Hbc & Hcmax & Hcase).
  rewrite (get_page_pg t _ bc Hpc Hcmax).
  destruct Hcase as [[Htyc Heq]|(Htyc & Hnc & Hrest)].
  - rewrite (get_node_type_pg t _ bc Hpc Hbc) by (by right).
    rewrite Htyc, Heq. simpl. apply leaf_node_find_first.
  - rewrite (get_node_type_pg t _ bc Hpc Hbc) by (by left).
    rewrite Htyc. simpl. by apply (IH _ bc).
Qed.

Lemma table_start_first (d : nat) :
  rows ≠ [] → leftmost_leaf (S d) t (root_page_num t) leaf →
  table_start d t = Ok (mkCursor leaf 0 false) t.
Proof.
  intros Hne Hleft.
  assert (table_find d 0 t = Ok (mkCursor leaf 0 false) t) as Hfind.
  { pose proof Hleft as (b & Hp & Hb & Hpmax & Hcase).
    unfold table_find, mbind, M_bind, get_root_page_num.
    rewrite (get_page_pg t _ b Hp Hpmax).
    destruct Hcase as [[Hty Heq]|(Hty & Hn & Hrest)].
    - rewrite (get_node_type_pg t _ b Hp Hb) by (by right).
      rewrite Hty, Heq. simpl. apply leaf_node_find_first.
    - rewrite (get_node_type_pg t _ b Hp Hb) by (by left).
      rewrite Hty. simpl. by apply (internal_node_find_first d _ b). }
  pose proof Hwith as (Hb & _ & Hnum & _).
  unfold table_start, mbind, M_bind. rewrite Hfind.
  cbn [page_num cell_num].
  rewrite (get_page_pg t leaf bl Hleaf Hmax).
  unfold leaf_node_num_cells.
  rewrite (read_buf_pg _ t leaf bl _ (Z.of_nat (length rows)) Hleaf).
  2:{ rewrite unpack_from_I_u32_at by (layout; lia). by rewrite Hnum. }
  destruct rows; [done|]. done.
Qed.

End Descent.

(** ** The scan *)

Lemma cursor_advance_chain t p (b : bytes) (rows : list Row) next (i : Z) :
  pg t p b → leaf_with b rows next → p ≤ TABLE_MAX_PAGES →
  cursor_advance (mkCursor p i false) t
  = Ok (if i + 1 >=? Z.of_nat (length rows)
        then if next =? 0 then mkCursor p (i + 1) true
             else mkCursor next 0 false
        else mkCursor p (i + 1) false) t.
Proof.
  intros Hp (Hb & _ & Hnum & Hnext & _) Hpmax.
  unfold cursor_advance, mbind, M_bind. cbn [page_num cell_num end_of_table].
  rewrite (get_page_pg t p b Hp Hpmax).
  unfold leaf_node_num_cells.
  rewrite (read_buf_pg _ t p b _ (Z.of_nat (length rows)) Hp).
  2:{ rewrite unpack_from_I_u32_at by (layout; lia). by rewrite Hnum. }
  cbn [page_num cell_num end_of_table].
  destruct (i + 1 >=? Z.of_nat (length rows)); [|done].
  unfold leaf_node_next_leaf.
  rewrite (read_buf_pg _ t p b _ next Hp).
  2:{ rewrite unpack_from_I_u32_at by (layout; lia). by rewrite Hnext. }
  by destruct (next =? 0).
Qed.

Lemma chain_rows_cons p rows rest :
  chain_rows ((p, rows) :: rest) = rows ++ chain_rows rest.
Proof. done. Qed.

(** The loop of [execute_select] from cell [i] of the first leaf of a
    chain. *)
Lemma select_loop_chain t (k : nat) :
  ∀ p rows rest (i : nat),
  leaf_chain t ((p, rows) :: rest) → (i < length rows)%nat →
  (length (chain_rows ((p, rows) :: rest)) - i < k)%nat →
  select_loop k (mkCursor p (Z.of_nat i) false) t
  = Ok (drop i rows ++ chain_rows rest) t.
Proof.
  induction k as [|k IH]; intros p rows rest i Hchain Hi Hk; [lia|].
  pose proof Hchain as (Hpmax & Hne & Hlen & Hser & (b & Hp & Hwith) & Hnz & Hrest).
  pose proof Hwith as (Hb & _).
  rewrite chain_rows_cons, length_app in Hk.
  cbn [select_loop end_of_table negb page_num cell_num]. unfold mbind, M_bind.
  rewrite (get_page_pg t p b Hp Hpmax).
  rewrite (buf_pg t p b Hp).
  destruct (lookup_lt_is_Some_2 rows i Hi) as [r Hr].
  rewrite (leaf_value_of_cell b (Z.of_nat i) (id r) r);
    [|layout; lia|done|by eapply leaf_holds_cell].
  rewrite deserialize_row_image.
  2:{ rewrite Forall_forall in Hser. apply Hser. by eapply list_elem_of_lookup_2. }
  rewrite (cursor_advance_chain t p b rows _ _ Hp Hwith Hpmax).
  rewrite (drop_S _ _ _ Hr).
  destruct (Z.of_nat i + 1 >=? Z.of_nat (length rows)) eqn:E.
  - rewrite (drop_ge rows (S i)) by lia.
    destruct rest as [|[q rs] rest'].
    + simpl next_page. simpl. destruct k as [|k]; [lia|]. done.
    + simpl next_page. specialize (Hnz ltac:(done)). simpl in Hnz.
      destruct (q =? 0) eqn:Eq; [lia|].
      pose proof Hrest as (_ & Hne' & _).
      change 0 with (Z.of_nat 0).
      rewrite (IH q rs rest' 0%nat Hrest).
      * by rewrite drop_0.
      * destruct rs; [done|simpl; lia].
      * lia.
  - replace (Z.of_nat i + 1) with (Z.of_nat (S i)) by lia.
    rewrite (IH p rows rest (S i) Hchain) by (rewrite ?chain_rows_cons, ?length_app; lia).
    done.
Qed.

(** X10. [internal_node_find_child] on a cached internal node whose keys
    fit the page and never descend returns, without changing the table
    and within the 33 rounds the search is given, the index of the first
    key that is not smaller than the key looked for (the number of keys,
    that is the right child, when there is none). *)
Theorem internal_node_find_child_position (t : Table) (p : Z) (b : bytes)
    (key : Z) :
  pg t p b → blen b = PAGE_SIZE →
  u32_at b INTERNAL_NODE_NUM_KEYS_OFFSET ≤ internal_node_capacity →
  internal_keys_sorted b (u32_at b INTERNAL_NODE_NUM_KEYS_OFFSET) →
  ∃ c, internal_node_find_child p key t = Ok c t
       ∧ child_index b (u32_at b INTERNAL_NODE_NUM_KEYS_OFFSET) key c.
Proof.
  intros Hp Hb Hn Hsorted.
  destruct (internal_node_find_child_bracket t p b key Hp Hb Hn)
    as (c & Hrun & Hc & Hl & Hr).
  exists c. split; [done|]. split; [done|]. split.
  - intros i Hi. destruct Hl as [->|Hl]; [lia|].
    pose proof (Hsorted i (c - 1)). lia.
  - intros i Hi. destruct Hr as [->|Hr]; [lia|].
    pose proof (Hsorted c i). lia.
Qed.

Lemma internal_node_find_child_position_witness :
  ∃ c, internal_node_find_child 0 9 two_leaf_table = Ok c two_leaf_table
       ∧ child_index (page_bytes two_leaf_table 0)
           (u32_at (page_bytes two_leaf_table 0) INTERNAL_NODE_NUM_KEYS_OFFSET)
           9 c.
Proof.
  apply (internal_node_find_child_position two_leaf_table 0
           (page_bytes two_leaf_table 0) 9).
  - reflexivity.
  - reflexivity.
  - vm_compute. congruence.
  - intros i j Hi Hij Hj.
    change (u32_at (page_bytes two_leaf_table 0) INTERNAL_NODE_NUM_KEYS_OFFSET)
      with 1 in Hj.
    assert (i = 0) as -> by lia. assert (j = 0) as -> by lia. lia.
Defined.

(** X11. Whatever the shape of the tree above them, [execute_select]
    scans the chain of leaves: when following first children from the
    root through cached pages reaches a leaf, and that leaf starts a chain
    of cached, non-empty leaves linked by their next-leaf fields, the
    select returns the rows of these leaves in the order of the chain and
    leaves the table as it is. *)
Theorem execute_select_scans_leaves (d k : nat) (t : Table) (leaf : Z)
    (rows : list Row) (rest : list (Z * list Row)) :
  leftmost_leaf (S d) t (root_page_num t) leaf →
  leaf_chain t ((leaf, rows) :: rest) →
  ascending (id <$> rows) →
  (length (chain_rows ((leaf, rows) :: rest)) < k)%nat →
  execute_select_rows d k t = Ok (chain_rows ((leaf, rows) :: rest)) t.
Proof.
  intros Hleft Hchain Hasc Hk.
  pose proof Hchain as (Hpmax & Hne & Hlen & Hser & (b & Hp & Hwith) & _).
  unfold execute_select_rows, mbind, M_bind.
  rewrite (table_start_first t leaf b rows _ Hp Hwith Hser Hasc Hlen Hpmax d Hne Hleft).
  change 0 with (Z.of_nat 0).
  rewrite (select_loop_chain t k leaf rows rest 0 Hchain).
  - by rewrite drop_0.
  - destruct rows; [done|simpl; lia].
  - lia.
Qed.

Lemma execute_select_scans_leaves_witness :
  execute_select_rows 1 15 two_leaf_table
  = Ok (chain_rows [(2, example_row <$> seqZ 1 7);
                    (1, example_row <$> seqZ 8 7)]) two_leaf_table.
Proof.
  apply (execute_select_scans_leaves 1 15 two_leaf_table 2).
  - exists (page_bytes two_leaf_table 0).
    split; [reflexivity|]. split; [reflexivity|].
    split; [vm_compute; congruence|]. right.
    split; [reflexivity|]. split; [vm_compute; congruence|].
    exists (page_bytes two_leaf_table 2).
    split; [reflexivity|]. split; [reflexivity|].
    split; [vm_compute; congruence|]. left. split; reflexivity.
  - split; [vm_compute; congruence|]. split; [discriminate|].
    split; [simpl; lia|].
    split; [apply example_row_serializable_check; by vm_compute|].
    split; [exists (page_bytes two_leaf_table 2); split; [reflexivity|by vm_compute]|].
    split; [intros _; simpl; lia|].
    split; [vm_compute; congruence|]. split; [discriminate|].
    split; [simpl; lia|].
    split; [apply example_row_serializable_check; by vm_compute|].
    split; [exists (page_bytes two_leaf_table 1); split; [reflexivity|by vm_compute]|].
    split; [done|exact I].
  - vm_compute. repeat split; intros k' Hk'; repeat
      (apply elem_of_cons in Hk' as [->|Hk']; [done|]);
      by apply elem_of_nil in Hk'.
  - simpl. lia.
Defined.
(** * The insert that splits the root leaf *)

Lemma execute_select_rows_chain (d k : nat) (t : Table) (leaf : Z)
    (rows : list Row) (rest : list (Z * list Row)) :
  leftmost_leaf (S d) t (root_page_num t) leaf →
  leaf_chain t ((leaf, rows) :: rest) →
  ascending (id <$> rows) →
  (length (chain_rows ((leaf, rows) :: rest)) < k)%nat →
  execute_select_rows d k t = Ok (chain_rows ((leaf, rows) :: rest)) t.
Proof.
  intros Hleft Hchain Hasc Hk.
  pose proof Hchain as (Hpmax & Hne & Hlen & Hser & (b & Hp & Hwith) & _).
  unfold execute_select_rows, mbind, M_bind.
  rewrite (table_start_first t leaf b rows _ Hp Hwith Hser Hasc Hlen Hpmax d Hne Hleft).
  change 0 with (Z.of_nat 0).
  rewrite (select_loop_chain t k leaf rows rest 0 Hchain).
  - by rewrite drop_0.
  - destruct rows; [done|simpl; lia].
  - lia.
Qed.

Lemma ascending_take (l : list Z) n : ascending l → ascending (take n l).
Proof.
  intros Hasc. apply ascending_of_lookup. intros i j x y Hij Hx Hy.
  apply lookup_take_Some in Hx as [Hx _]. apply lookup_take_Some in Hy as [Hy _].
  by eapply ascending_lookup.
Qed.

(** What the cells of a leaf and a new row give at target index [i]. *)
Lemma split_target_rows (b : bytes) (rows : list Row) next (c : nat) (r x : Row)
    (i : nat) :
  leaf_with b rows next → (c ≤ length rows)%nat →
  (take c rows ++ r :: drop c rows) !! i = Some x →
  split_target b (Z.of_nat c) (id r) r (Z.of_nat i) = row_cell x.
Proof.
  intros Hwith Hc Hx. unfold split_target.
  destruct (Z.of_nat i =? Z.of_nat c) eqn:E1.
  { apply Z.eqb_eq in E1. assert (i = c) as -> by lia.
    rewrite lookup_app_r in Hx by (rewrite length_take; lia).
    rewrite length_take in Hx.
    replace (c - c `min` length rows)%nat with 0%nat in Hx by lia.
    simpl in Hx. by injection Hx as <-. }
  apply Z.eqb_neq in E1.
  destruct (Z.of_nat i >? Z.of_nat c) eqn:E2.
  - rewrite lookup_app_r in Hx by (rewrite length_take; lia).
    rewrite length_take in Hx.
    replace (i - c `min` length rows)%nat with (S (i - c - 1)) in Hx by lia.
    simpl in Hx. rewrite lookup_drop in Hx.
    replace (Z.of_nat i - 1) with (Z.of_nat (c + (i - c - 1))) by lia.
    by eapply leaf_holds_cell.
  - rewrite lookup_app_l in Hx by (rewrite length_take; lia).
    rewrite lookup_take_lt in Hx by lia.
    by eapply leaf_holds_cell.
Qed.

Lemma leaf_with_cells (b : bytes) (rows : list Row) next :
  blen b = PAGE_SIZE → u8_at b NODE_TYPE_OFFSET = 1 →
  u32_at b LEAF_NODE_NUM_CELLS_OFFSET = Z.of_nat (length rows) →
  u32_at b LEAF_NODE_NEXT_LEAF_OFFSET = next →
  (∀ (i : nat) x, rows !! i = Some x → leaf_cell b (Z.of_nat i) = row_cell x) →
  leaf_with b rows next.
Proof.
  intros Hb Hty Hnum Hnext Hcells. repeat (split; [done|]).
  apply list_eq. intros i. rewrite list_lookup_fmap.
  destruct (decide (i < length rows)%nat) as [Hi|Hi].
  - rewrite leaf_cells_lookup by lia.
    destruct (lookup_lt_is_Some_2 rows i Hi) as [x Hx]. rewrite Hx. simpl.
    f_equal. by apply Hcells.
  - rewrite !lookup_ge_None_2; [done|lia|].
    unfold leaf_cells. rewrite length_fmap, length_seqZ. lia.
Qed.

Section RootSplit.

Context (t : Table) (b : bytes) (rows : list Row) (r : Row).
Context (Hsingle : single_leaf t b) (Hholds : leaf_holds b rows).
Context (Hser : Forall serializable rows) (Hasc : ascending (id <$> rows)).
Context (Hfull : length rows = 13%nat).
Context (Hroot : u8_at b IS_ROOT_OFFSET ≠ 0).
Context (Hr : serializable r) (Hnew : id r ∉ id <$> rows).
Context (Hroom : num_pages (pager t) + 1 ≤ TABLE_MAX_PAGES).

Notation np := (num_pages (pager t)).
Notation rows' := (insert_row r rows).

(** The tree the split leaves: an internal root over two leaves. *)
Lemma execute_insert_splits_root d fuel :
  returns (execute_insert (S d) fuel (insert_statement r))
    (λ res t',
       res = EXECUTE_SUCCESS
       ∧ root_page_num t' = 0
       ∧ num_pages (pager t') = np + 2
       ∧ ∃ root lo hi,
           pg t' 0 root ∧ pg t' (np + 1) lo ∧ pg t' np hi
           ∧ blen root = PAGE_SIZE
           ∧ root_of_two root (np + 1) (leaf_key lo 6) np
           ∧ leaf_with lo (take 7 rows') np
           ∧ leaf_with hi (drop 7 rows') 0
           ∧ (u8_at lo IS_ROOT_OFFSET = 0 ∧ u32_at lo PARENT_POINTER_OFFSET = 0)
           ∧ (u8_at hi IS_ROOT_OFFSET = 0 ∧ u32_at hi PARENT_POINTER_OFFSET = 0)
           ∧ cache_ok t') t.
Proof.
  pose proof Hsingle as (Hcache & Hrootp & Hp).
  pose proof Hholds as (Hb & Hty & Hnum & Hnext & Hcells).
  pose proof (leaf_holds_ascending b rows Hholds Hser Hasc) as Hkasc.
  assert (length rows ≤ 13)%nat as Hlen0 by lia.
  pose proof (leaf_holds_max b rows Hholds Hlen0) as Hmax.
  destruct (table_find_leaf (S d) t b (id r) Hsingle Hb Hty Hmax Hkasc)
    as (c & Hfind & Hlb).
  pose proof (lower_bound_member b rows Hholds Hser (id r) c Hasc Hlb) as Hmem.
  pose proof Hlb as (Hc & Hlow & Hhigh).
  assert (u32_at b LEAF_NODE_NUM_CELLS_OFFSET = LEAF_NODE_MAX_CELLS) as Hn13.
  { rewrite Hnum, Hfull. done. }
  rewrite Hn13 in Hc, Hhigh.
  assert (∀ i, c ≤ i < LEAF_NODE_MAX_CELLS → id r < leaf_key b i) as Hhigh'.
  { intros i Hi. pose proof (Hhigh i Hi) as Hle.
    destruct (decide (leaf_key b i = id r)) as [Heq|]; [|lia].
    exfalso. apply Hnew.
    destruct (leaf_holds_row b rows Hholds Hser i) as (x & Hx & Hk & _);
      [rewrite Hn13; layout; lia|].
    apply list_elem_of_fmap. exists x. split; [congruence|].
    by eapply list_elem_of_lookup_2. }
  assert (np ≤ TABLE_MAX_PAGES) as Hroom' by lia.
  assert (0 < np) as Hnp.
  { apply Hcache in Hp as [_ Hp]. lia. }
  assert (rows' = take (Z.to_nat c) rows ++ r :: drop (Z.to_nat c) rows) as Hrows'.
  { apply insert_row_at.
    - layout. lia.
    - intros i x Hi Hx.
      rewrite <- (leaf_holds_key b rows Hholds Hser i x Hx). apply Hlow. lia.
    - intros x Hx.
      pose proof (leaf_holds_key b rows Hholds Hser _ x Hx) as Hk.
      rewrite Z2Nat.id in Hk by lia. rewrite <- Hk. apply Hhigh'.
      apply lookup_lt_Some in Hx. layout. lia. }
  assert (length rows' = 14%nat) as Hlen' by (rewrite insert_row_length; lia).
  unfold returns, execute_insert. simpl row_to_insert.
  apply wp_bind. eapply wp_of_eq; [exact Hfind|].
  cbn [page_num cell_num].
  apply wp_bind. eapply wp_get_page_hit; [done|layout; lia|].
  unfold leaf_node_num_cells.
  apply wp_bind. eapply wp_read_u32; [done|len..|]. rewrite Hn13.
  apply wp_bind.
  eapply wp_mono with (Q := λ dup t1, dup = false ∧ t1 = t).
  { destruct (c <? LEAF_NODE_MAX_CELLS) eqn:Ecn; [|by apply wp_ret].
    apply wp_bind. unfold leaf_node_key.
    eapply wp_read_u32; [done|len..|]. fold (leaf_key b c). apply wp_ret.
    split; [|done]. apply Z.eqb_neq. pose proof (Hhigh' c). lia. }
  intros dup t1 [-> ->].
  apply wp_bind. unfold leaf_node_insert. cbn [page_num cell_num].
  apply wp_bind. eapply wp_get_page_hit; [done|layout; lia|].
  unfold leaf_node_num_cells.
  apply wp_bind. eapply wp_read_u32; [done|len..|]. rewrite Hn13.
  change (LEAF_NODE_MAX_CELLS >=? LEAF_NODE_MAX_CELLS) with true. cbv iota.
  unfold leaf_node_split_and_insert. apply wp_bind.
  eapply wp_mono.
  { apply (leaf_node_split_cells_spec t 0 b c (id r) r Hcache Hp Hroom' Hty
             Hn13 Hc (proj1 Hr) Hr d (mkCursor 0 c false) eq_refl eq_refl). }
  intros res t' (bo & bn & -> & -> & Hpost).
  eapply wp_mono.
  { apply (leaf_node_split_link_root_cache t 0 b Hcache Hp Hrootp Hroom
             d fuel c (id r) r bo bn); done. }
  intros _ t' (root & Hpr & Hplo & Hphi & Hroot2 & Hnum' & Hroot' & Hbroot
               & Hcache').
  apply wp_ret. split; [done|]. split; [done|]. split; [done|].
  destruct Hpost as (Hbo & Hbn & Hto & Htn & Hro & Hrn & Hpo & Hpn & Hco & Hcn
                     & Hno & Hnn & Hold & Hnew').
  eexists root, _, _. split; [done|]. split; [exact Hplo|]. split; [exact Hphi|].
  split; [done|]. split; [|split; [|split; [|split; [|split; [|done]]]]].
  - revert Hroot2. unfold leaf_key. fld. done.
  - apply leaf_with_cells.
    + len.
    + fld. done.
    + fld. rewrite Hco, length_take, Hlen'. done.
    + fld. done.
    + intros i x Hx. apply lookup_take_Some in Hx as [Hx Hi].
      rewrite !leaf_cell_header_blit by len.
      rewrite Hold by (layout; lia).
      rewrite Hrows' in Hx.
      rewrite <- (split_target_rows b rows 0 (Z.to_nat c) r x i Hholds);
        [by rewrite Z2Nat.id by lia|layout; lia|done].
  - apply leaf_with_cells.
    + len.
    + fld. done.
    + fld. rewrite Hcn, length_drop, Hlen'. done.
    + fld. congruence.
    + intros i x Hx. rewrite lookup_drop in Hx.
      pose proof (lookup_lt_Some _ _ _ Hx) as Hi.
      rewrite !leaf_cell_header_blit by len.
      rewrite Hnew' by (layout; lia).
      rewrite Hrows' in Hx.
      rewrite <- (split_target_rows b rows 0 (Z.to_nat c) r x (7 + i) Hholds);
        [|layout; lia|done].
      rewrite Z2Nat.id by lia. f_equal. layout. lia.
  - split; fld; done.
  - split; fld; done.
Qed.

End RootSplit.

(** X12. In a database that is a full root leaf (13 rows in ascending
    order of id), [execute_insert] of a row with a new id returns
    EXECUTE_SUCCESS and leaves a tree of two levels: page 0 is an internal
    root with one key, the id of the 7th row, over two new-linked leaves
    that hold the first 7 and the last 7 of the 14 rows in ascending
    order of id; a select afterwards returns these 14 rows in that
    order. *)
Theorem insert_splits_root_leaf (d fuel k : nat) (t : Table) (b : bytes)
    (rows : list Row) (r : Row) :
  single_leaf t b → leaf_holds b rows →
  Forall serializable rows → ascending (id <$> rows) →
  length rows = 13%nat → u8_at b IS_ROOT_OFFSET ≠ 0 →
  serializable r → id r ∉ id <$> rows →
  num_pages (pager t) + 1 ≤ TABLE_MAX_PAGES → (14 < k)%nat →
  ∃ t', execute_insert (S d) fuel (insert_statement r) t
        = Ok EXECUTE_SUCCESS t'
      ∧ num_pages (pager t') = num_pages (pager t) + 2
      ∧ (∃ root x, pg t' 0 root ∧ insert_row r rows !! 6%nat = Some x
           ∧ root_of_two root (num_pages (pager t) + 1) (id x)
               (num_pages (pager t)))
      ∧ leaf_chain t' [(num_pages (pager t) + 1, take 7 (insert_row r rows));
                       (num_pages (pager t), drop 7 (insert_row r rows))]
      ∧ execute_select_rows (S d) k t' = Ok (insert_row r rows) t'.
Proof.
  intros Hsingle Hholds Hser Hasc Hfull Hroot Hr Hnew Hroom Hk.
  destruct (returns_Ok _ _ _
    (execute_insert_splits_root t b rows r Hsingle Hholds Hser Hasc Hfull Hroot
       Hr Hnew Hroom d fuel))
    as (res & t' & Hrun & -> & Hroot' & Hnum' & root & lo & hi & Hpr & Hplo & Hphi
        & Hbroot & Hroot2 & Hlo & Hhi & _).
  set (np := num_pages (pager t)) in *.
  set (rows' := insert_row r rows) in *.
  assert (length rows' = 14%nat) as Hlen'.
  { unfold rows'. rewrite insert_row_length. lia. }
  assert (Forall serializable rows') as Hser'
    by (by apply insert_row_serializable).
  assert (ascending (id <$> rows')) as Hasc' by (by apply insert_row_ascending).
  assert (0 < np) as Hnp.
  { destruct Hsingle as (Hcache & _ & Hp). apply Hcache in Hp as [_ Hp].
    unfold np. lia. }
  assert (leaf_chain t' [(np + 1, take 7 rows'); (np, drop 7 rows')]) as Hchain.
  { split; [lia|]. split.
    { intros H. apply (f_equal length) in H.
      rewrite length_take, Hlen' in H. done. }
    split; [rewrite length_take; lia|]. split; [by apply Forall_take|].
    split; [by exists lo|]. split; [intros _; simpl; lia|].
    split; [lia|]. split.
    { intros H. apply (f_equal length) in H.
      rewrite length_drop, Hlen' in H. done. }
    split; [rewrite length_drop; lia|]. split; [by apply Forall_drop|].
    split; [by exists hi|]. done. }
  destruct Hroot2 as (Hrty & Hrroot & Hrkeys & Hrchild & Hrkey & Hrright).
  exists t'. split; [done|]. split; [done|]. split; [|split; [done|]].
  - destruct (lookup_lt_is_Some_2 rows' 6) as [x Hx]; [lia|].
    exists root, x. split; [done|]. split; [done|].
    repeat split; try done.
    rewrite Hrkey.
    assert (Forall serializable (take 7 rows')) as Hser7 by (by apply Forall_take).
    apply (leaf_holds_key lo (take 7 rows') Hlo Hser7 6%nat x).
    by rewrite lookup_take_lt by lia.
  - assert (chain_rows [(np + 1, take 7 rows'); (np, drop 7 rows')] = rows')
      as Hall.
    { unfold chain_rows. cbn [fmap list_fmap snd concat].
      by rewrite app_nil_r, take_drop. }
    rewrite <- Hall.
    apply (execute_select_rows_chain (S d) k t' (np + 1) (take 7 rows')
             [(np, drop 7 rows')]).
    + rewrite Hroot'. exists root. split; [done|]. split; [done|].
      split; [layout; lia|]. right. split; [done|]. split.
      { rewrite Hrkeys. by vm_compute. }
      assert (first_child root = np + 1) as ->.
      { unfold first_child. by rewrite Hrkeys. }
      exists lo. split; [done|]. split; [apply Hlo|]. split; [lia|].
      left. split; [apply Hlo|done].
    + done.
    + rewrite fmap_take. by apply ascending_take.
    + rewrite Hall. lia.
Qed.

Lemma insert_splits_root_leaf_witness :
  ∃ t', execute_insert 1 1 (insert_statement (example_row 7)) full_root_table
        = Ok EXECUTE_SUCCESS t'
      ∧ num_pages (pager t') = num_pages (pager full_root_table) + 2
      ∧ (∃ root x, pg t' 0 root
           ∧ insert_row (example_row 7)
               (example_row <$> ((λ i, 2 * i) <$> seqZ 1 13)) !! 6%nat = Some x
           ∧ root_of_two root (num_pages (pager full_root_table) + 1) (id x)
               (num_pages (pager full_root_table)))
      ∧ leaf_chain t'
          [(num_pages (pager full_root_table) + 1,
            take 7 (insert_row (example_row 7)
                      (example_row <$> ((λ i, 2 * i) <$> seqZ 1 13))));
           (num_pages (pager full_root_table),
            drop 7 (insert_row (example_row 7)
                      (example_row <$> ((λ i, 2 * i) <$> seqZ 1 13))))]
      ∧ execute_select_rows 1 15 t'
        = Ok (insert_row (example_row 7)
                (example_row <$> ((λ i, 2 * i) <$> seqZ 1 13))) t'.
Proof.
  apply (insert_splits_root_leaf 0 1 15 full_root_table full_root_leaf).
  - split; [by apply cache_ok_singleton|done].
  - by vm_compute.
  - apply example_row_serializable_check. by vm_compute.
  - vm_compute. repeat split; intros k' Hk'; repeat
      (apply elem_of_cons in Hk' as [->|Hk']; [done|]);
      by apply elem_of_nil in Hk'.
  - reflexivity.
  - vm_compute. congruence.
  - split; [simpl; lia|split; reflexivity].
  - apply (bool_decide_unpack _). by vm_compute.
  - vm_compute. congruence.
  - lia.
Defined.
(** * Trees of two levels *)

Lemma leaf_chain_lookup t chain (j : nat) p rows :
  leaf_chain t chain → chain !! j = Some (p, rows) →
  p ≤ TABLE_MAX_PAGES ∧ rows ≠ [] ∧ (length rows ≤ 13)%nat
  ∧ Forall serializable rows
  ∧ ∃ b, pg t p b ∧ leaf_with b rows (next_page (drop (S j) chain)).
Proof.
  revert j. induction chain as [|[q rs] rest IH]; intros j Hchain Hj; [done|].
  destruct Hchain as (H1 & H2 & H3 & H4 & H5 & _ & Hrest).
  destruct j as [|j].
  - simpl in Hj. injection Hj as -> ->. simpl. by repeat split.
  - simpl in Hj. by apply IH.
Qed.

Lemma elem_of_chain_rows x chain :
  x ∈ chain_rows chain
  ↔ ∃ (j : nat) p rows, chain !! j = Some (p, rows) ∧ x ∈ rows.
Proof.
  unfold chain_rows. induction chain as [|[q rs] rest IH].
  { simpl. split; [by intros H%elem_of_nil|by intros (j & p & rows & H & _)]. }
  rewrite fmap_cons. cbn [concat snd]. rewrite elem_of_app, IH. split.
  - intros [H|(j & p & rows & Hj & Hx)].
    + by exists 0%nat, q, rs.
    + by exists (S j), p, rows.
  - intros ([|j] & p & rows & Hj & Hx).
    + simpl in Hj. injection Hj as -> ->. by left.
    + right. by exists j, p, rows.
Qed.

Section TwoLevels.

Context (t : Table) (root : bytes) (chain : list (Z * list Row)).
Context (Htree : two_levels t root chain).

Notation nk := (u32_at root INTERNAL_NODE_NUM_KEYS_OFFSET).

(** [table_find] goes to the leaf whose index among the children is the
    index the search in the root gives, and to the lower bound of the key
    in that leaf. *)
Lemma table_find_two_levels (d : nat) key :
  ∃ (j : nat) p rows b c,
    chain !! j = Some (p, rows) ∧ pg t p b
    ∧ leaf_with b rows (next_page (drop (S j) chain))
    ∧ table_find (S d) key t = Ok (mkCursor p c false) t
    ∧ lower_bound b (Z.of_nat (length rows)) key c
    ∧ (Z.of_nat j = 0 ∨ internal_key root (Z.of_nat j - 1) < key)
    ∧ (Z.of_nat j = nk ∨ key ≤ internal_key root (Z.of_nat j)).
Proof.
  destruct Htree as (Hp & Hb & Hpmax & Hty & Hlen & Hn & Hchild & Hsep & Hchain
                     & Hasc & Hnd).
  destruct (internal_node_find_child_bracket t _ root key Hp Hb Hn)
    as (c & Hrun & Hc & Hl & Hr).
  destruct (lookup_lt_is_Some_2 chain (Z.to_nat c)) as [[p rows] Hj]; [lia|].
  destruct (leaf_chain_lookup t chain _ p rows Hchain Hj)
    as (Hqmax & Hne & Hrlen & Hser & bl & Hpl & Hwith).
  pose proof Hwith as (Hbl & Htyl & Hnum & _).
  assert (ascending (id <$> rows)) as Hrasc.
  { apply (Hasc p). by eapply list_elem_of_lookup_2. }
  pose proof (leaf_holds_ascending bl rows Hwith Hser Hrasc) as Hkasc.
  pose proof (leaf_holds_max bl rows Hwith Hrlen) as Hcap.
  destruct (leaf_node_find_lower_bound t p bl key Hpl Hbl Hqmax Hcap Hkasc)
    as (cl & Hfind & Hlb).
  rewrite Hnum in Hlb.
  exists (Z.to_nat c), p, rows, bl, cl. rewrite Z2Nat.id by lia.
  split; [done|]. split; [done|]. split; [done|].
  split; [|split; [exact Hlb|by split]].
  unfold table_find, mbind, M_bind, get_root_page_num.
  rewrite (get_page_pg t _ root Hp Hpmax).
  rewrite (get_node_type_pg t _ root Hp Hb) by (by left).
  rewrite Hty. change (0 =? 0) with true. cbv iota beta.
  cbn [internal_node_find]. unfold mbind, M_bind.
  rewrite (get_page_pg t _ root Hp Hpmax).
  rewrite Hrun.
  rewrite (internal_node_child_pg t _ root c Hp Hb Hn Hc).
  fold (child_at root c).
  pose proof (Hchild _ p rows Hj) as Hcp. rewrite Z2Nat.id in Hcp by lia.
  rewrite Hcp.
  rewrite (get_page_pg t p bl Hpl Hqmax).
  rewrite (get_node_type_pg t p bl Hpl Hbl) by (by right).
  rewrite Htyl. change (1 =? 0) with false. cbv iota beta. done.
Qed.

(** The leaf [table_find] goes to is the only one that can hold the
    key. *)
Lemma two_levels_member (j : nat) p rows key :
  chain !! j = Some (p, rows) →
  (Z.of_nat j = 0 ∨ internal_key root (Z.of_nat j - 1) < key) →
  (Z.of_nat j = nk ∨ key ≤ internal_key root (Z.of_nat j)) →
  key ∈ id <$> chain_rows chain ↔ key ∈ id <$> rows.
Proof.
  intros Hj Hl Hr.
  destruct Htree as (_ & _ & _ & _ & Hlen & _ & _ & Hsep & _).
  pose proof (lookup_lt_Some _ _ _ Hj) as Hjlt.
  split.
  - intros (x & -> & Hx)%list_elem_of_fmap.
    apply elem_of_chain_rows in Hx as (j' & p' & rows' & Hj' & Hx).
    pose proof (lookup_lt_Some _ _ _ Hj') as Hj'lt.
    destruct (decide (j' = j)) as [->|Hne].
    { rewrite Hj in Hj'. injection Hj' as <- <-.
      apply list_elem_of_fmap. by exists x. }
    exfalso. destruct (decide (j' < j)%nat) as [Hlt|Hge].
    + destruct Hl as [Hl|Hl]; [lia|].
      destruct (Hsep (j - 1)%nat j' p' rows' x) as [Hle _]; [lia|done|done|].
      specialize (Hle ltac:(lia)).
      replace (Z.of_nat (j - 1)) with (Z.of_nat j - 1) in Hle by lia. lia.
    + destruct Hr as [Hr|Hr]; [lia|].
      destruct (Hsep j j' p' rows' x) as [_ Hgt]; [lia|done|done|].
      specialize (Hgt ltac:(lia)). lia.
  - intros (x & -> & Hx)%list_elem_of_fmap.
    apply list_elem_of_fmap. exists x. split; [done|].
    apply elem_of_chain_rows. by exists j, p, rows.
Qed.

End TwoLevels.

(** ** Inserting into a leaf of the tree *)

Lemma insert_row_before (r : Row) (A l : list Row) :
  (∀ x, x ∈ A → id x < id r) → insert_row r (A ++ l) = A ++ insert_row r l.
Proof.
  induction A as [|a A IH]; intros HA; [done|].
  simpl. destruct (id r <? id a) eqn:E.
  - apply Z.ltb_lt in E. pose proof (HA a ltac:(left)). lia.
  - f_equal. apply IH. intros x Hx. apply HA. by right.
Qed.

Lemma insert_row_after (r : Row) (l B : list Row) :
  (∀ x, x ∈ B → id r < id x) → insert_row r (l ++ B) = insert_row r l ++ B.
Proof.
  intros HB. induction l as [|y l IH].
  - simpl. destruct B as [|z B]; [done|]. simpl.
    rewrite (proj2 (Z.ltb_lt _ _)); [done|]. apply HB. left.
  - simpl. destruct (id r <? id y); [done|]. by rewrite IH.
Qed.

Lemma next_page_insert (chain : list (Z * list Row)) (j : nat) p rows rows' :
  chain !! j = Some (p, rows) →
  next_page (<[j := (p, rows')]> chain) = next_page chain.
Proof.
  intros Hj. destruct chain as [|[q rs] rest]; [done|].
  destruct j as [|j]; [|done]. simpl in Hj. by injection Hj as -> _.
Qed.

Lemma leaf_chain_other t chain p (b' : bytes) :
  leaf_chain t chain → p ∉ fst <$> chain → leaf_chain (set_page t p b') chain.
Proof.
  induction chain as [|[q rs] rest IH]; intros Hchain Hp; [done|].
  destruct Hchain as (H1 & H2 & H3 & H4 & (b & Hq & Hwith) & H6 & Hrest).
  rewrite fmap_cons, not_elem_of_cons in Hp. destruct Hp as [Hpq Hp].
  split; [done|]. split; [done|]. split; [done|]. split; [done|].
  split; [exists b; split; [by apply pg_set_page_ne|done]|].
  split; [done|]. by apply IH.
Qed.

Lemma leaf_chain_insert t chain (j : nat) p rows rows' (b' : bytes) :
  leaf_chain t chain → chain !! j = Some (p, rows) →
  NoDup (fst <$> chain) →
  rows' ≠ [] → (length rows' ≤ 13)%nat → Forall serializable rows' →
  leaf_with b' rows' (next_page (drop (S j) chain)) →
  leaf_chain (set_page t p b') (<[j := (p, rows')]> chain).
Proof.
  revert j. induction chain as [|[q rs] rest IH];
    intros j Hchain Hj Hnd Hne Hlen Hser Hwith; [done|].
  destruct Hchain as (H1 & H2 & H3 & H4 & (b & Hq & Hwith0) & H6 & Hrest).
  rewrite fmap_cons in Hnd. apply NoDup_cons in Hnd as [Hq' Hnd].
  destruct j as [|j].
  - simpl in Hj. injection Hj as -> ->. simpl in Hwith |- *.
    split; [done|]. split; [done|]. split; [done|]. split; [done|].
    split; [exists b'; split; [apply pg_set_page_eq|done]|].
    split; [done|]. by apply leaf_chain_other.
  - simpl in Hj. cbn [list_insert]. 
    assert (p ≠ q) as Hpq.
    { intros ->. apply Hq'. apply list_elem_of_fmap. exists (q, rows).
      split; [done|]. by eapply list_elem_of_lookup_2. }
    assert (<[j:=(p, rows')]> rest ≠ [] ↔ rest ≠ []) as Hnil.
    { destruct rest; [done|]. destruct j; done. }
    split; [done|]. split; [done|]. split; [done|]. split; [done|].
    split.
    { exists b. split; [by apply pg_set_page_ne|].
      by rewrite (next_page_insert rest j p rows rows'). }
    split.
    { rewrite (next_page_insert rest j p rows rows') by done.
      intros H. apply H6. by apply Hnil. }
    by apply (IH j).
Qed.

Lemma chain_rows_insert (chain : list (Z * list Row)) (j : nat) p rows rows' :
  chain !! j = Some (p, rows) →
  chain_rows chain
  = chain_rows (take j chain) ++ rows ++ chain_rows (drop (S j) chain)
  ∧ chain_rows (<[j := (p, rows')]> chain)
    = chain_rows (take j chain) ++ rows' ++ chain_rows (drop (S j) chain).
Proof.
  intros Hj. pose proof (lookup_lt_Some _ _ _ Hj) as Hlt.
  unfold chain_rows. split.
  - rewrite <- (take_drop_middle chain j (p, rows) Hj) at 1.
    by rewrite fmap_app, concat_app, fmap_cons.
  - rewrite insert_take_drop by done.
    by rewrite fmap_app, concat_app, fmap_cons.
Qed.

Section TwoLevelsInsert.

Context (t : Table) (root : bytes) (chain : list (Z * list Row)).
Context (Htree : two_levels t root chain) (Hcache : cache_ok t).
Context (r : Row) (Hr : serializable r).

Notation nk := (u32_at root INTERNAL_NODE_NUM_KEYS_OFFSET).

Lemma two_levels_keys_ascend (i j : nat) :
  (i < j)%nat → Z.of_nat j < nk →
  internal_key root (Z.of_nat i) < internal_key root (Z.of_nat j).
Proof.
  intros Hij Hj.
  destruct Htree as (_ & _ & _ & _ & Hlen & _ & _ & Hsep & Hchain & _).
  destruct (lookup_lt_is_Some_2 chain j) as [[p rows] Hp]; [lia|].
  destruct (leaf_chain_lookup t chain j p rows Hchain Hp) as (_ & Hne & _).
  destruct rows as [|x rows]; [done|].
  destruct (Hsep i j p (x :: rows) x) as [_ H1]; [lia|done|left|].
  destruct (Hsep j j p (x :: rows) x) as [H2 _]; [lia|done|left|].
  specialize (H1 Hij). specialize (H2 ltac:(lia)). lia.
Qed.

(** The tree after a row with a new id went into leaf [j]. *)
Lemma two_levels_insert (j : nat) p rows (b' : bytes) :
  chain !! j = Some (p, rows) →
  (Z.of_nat j = 0 ∨ internal_key root (Z.of_nat j - 1) < id r) →
  (Z.of_nat j = nk ∨ id r ≤ internal_key root (Z.of_nat j)) →
  id r ∉ id <$> rows → (length rows < 13)%nat →
  leaf_with b' (insert_row r rows) (next_page (drop (S j) chain)) →
  two_levels (set_page t p b') root (<[j := (p, insert_row r rows)]> chain)
  ∧ chain_rows (<[j := (p, insert_row r rows)]> chain)
    = insert_row r (chain_rows chain).
Proof.
  intros Hj Hl Hrr Hnew Hlen Hwith.
  pose proof Htree as (Hp & Hb & Hpmax & Hty & Hclen & Hn & Hchild & Hsep & Hchain
                       & Hasc & Hnd).
  pose proof (lookup_lt_Some _ _ _ Hj) as Hjlt.
  destruct (leaf_chain_lookup t chain j p rows Hchain Hj)
    as (Hqmax & Hne & Hrlen & Hser & bl & Hpl & Hwithl).
  apply NoDup_cons in Hnd as [Hrootnd Hnd].
  assert (p ≠ root_page_num t) as Hproot.
  { intros ->. apply Hrootnd. apply list_elem_of_fmap. exists (root_page_num t, rows).
    split; [done|]. by eapply list_elem_of_lookup_2. }
  assert (∀ (i j' : nat) q rs x,
    Z.of_nat i < nk → chain !! j' = Some (q, rs) → x ∈ rs →
    ((j' ≤ i)%nat → id x ≤ internal_key root (Z.of_nat i))
    ∧ ((i < j')%nat → internal_key root (Z.of_nat i) < id x)) as Hsep' by done.
  assert (∀ i : nat, Z.of_nat i < nk →
    ((j ≤ i)%nat → id r ≤ internal_key root (Z.of_nat i))
    ∧ ((i < j)%nat → internal_key root (Z.of_nat i) < id r)) as Hsepr.
  { intros i Hi. split; intros Hij.
    - destruct Hrr as [Hrr|Hrr]; [lia|].
      destruct (decide (i = j)) as [->|Hne']; [done|].
      pose proof (two_levels_keys_ascend j i ltac:(lia) Hi). lia.
    - destruct Hl as [Hl|Hl]; [lia|].
      destruct (decide (i = j - 1)%nat) as [->|Hne'].
      + replace (Z.of_nat (j - 1)) with (Z.of_nat j - 1) by lia. done.
      + pose proof (two_levels_keys_ascend i (j - 1) ltac:(lia) ltac:(lia)) as H.
        replace (Z.of_nat (j - 1)) with (Z.of_nat j - 1) in H by lia. lia. }
  split.
  - split; [by apply pg_set_page_ne|]. split; [done|]. split; [done|].
    split; [done|]. split; [by rewrite length_insert|]. split; [done|].
    split; [|split; [|split; [|split]]].
    + intros i q rs Hi. destruct (decide (i = j)) as [->|Hij].
      * rewrite list_lookup_insert_eq in Hi by done. injection Hi as <- <-.
        by eapply Hchild.
      * rewrite list_lookup_insert_ne in Hi by done. by eapply Hchild.
    + intros i j' q rs x Hi Hj' Hx.
      destruct (decide (j' = j)) as [->|Hjj].
      * rewrite list_lookup_insert_eq in Hj' by done. injection Hj' as <- <-.
        apply insert_row_elem in Hx as [->|Hx]; [by apply Hsepr|].
        by apply (Hsep' i j p rows x).
      * rewrite list_lookup_insert_ne in Hj' by done.
        by apply (Hsep' i j' q rs x).
    + apply (leaf_chain_insert t chain j p rows); try done.
      * intros H. apply (f_equal length) in H.
        by rewrite insert_row_length in H.
      * rewrite insert_row_length. lia.
      * by apply insert_row_serializable.
    + intros q rs [i Hi]%list_elem_of_lookup_1.
      destruct (decide (i = j)) as [->|Hij].
      * rewrite list_lookup_insert_eq in Hi by done. injection Hi as <- <-.
        apply insert_row_ascending; [|done].
        apply (Hasc p). by eapply list_elem_of_lookup_2.
      * rewrite list_lookup_insert_ne in Hi by done.
        apply (Hasc q). by eapply list_elem_of_lookup_2.
    + simpl root_page_num. rewrite list_fmap_insert. simpl fst.
      rewrite list_insert_id; [by apply NoDup_cons|].
      by rewrite list_lookup_fmap, Hj.
  - destruct (chain_rows_insert chain j p rows (insert_row r rows) Hj)
      as [-> ->].
    rewrite insert_row_before, insert_row_after; [done| |].
    + intros x (j' & q & rs & Hj' & Hx)%elem_of_chain_rows.
      rewrite lookup_drop in Hj'.
      pose proof (lookup_lt_Some _ _ _ Hj') as Hlt'.
      destruct Hrr as [Hrr|Hrr]; [lia|].
      destruct (Hsep' j (S j + j')%nat q rs x) as [_ H]; [lia|done|done|].
      specialize (H ltac:(lia)). lia.
    + intros x (j' & q & rs & Hj' & Hx)%elem_of_chain_rows.
      apply lookup_take_Some in Hj' as [Hj' Hlt].
      destruct Hl as [Hl|Hl]; [lia|].
      destruct (Hsep' (j - 1)%nat j' q rs x) as [H _]; [lia|done|done|].
      specialize (H ltac:(lia)).
      replace (Z.of_nat (j - 1)) with (Z.of_nat j - 1) in H by lia. lia.
Qed.

End TwoLevelsInsert.

Lemma two_levels_select (d k : nat) t root chain :
  two_levels t root chain → (length (chain_rows chain) < k)%nat →
  execute_select_rows (S d) k t = Ok (chain_rows chain) t.
Proof.
  intros (Hp & Hb & Hpmax & Hty & Hclen & Hn & Hchild & Hsep & Hchain & Hasc & Hnd)
         Hk.
  pose proof (u32_at_range root INTERNAL_NODE_NUM_KEYS_OFFSET) as Hnk.
  destruct chain as [|[p rows] rest]; [simpl in Hclen; lia|].
  pose proof Hchain as (Hqmax & Hne & Hrlen & Hser & (bl & Hpl & Hwith) & _).
  apply execute_select_rows_chain; try done.
  - exists root. split; [done|]. split; [done|]. split; [done|]. right.
    split; [done|]. split; [done|].
    assert (first_child root = p) as ->.
    { rewrite <- (Hchild 0%nat p rows eq_refl). unfold first_child, child_at.
      by rewrite (Z.eqb_sym 0). }
    exists bl. split; [done|]. split; [apply Hwith|]. split; [done|].
    left. split; [apply Hwith|done].
  - apply (Hasc p). left.
Qed.

Lemma two_leaf_table_cache_ok : cache_ok two_leaf_table.
Proof.
  assert (map_Forall (λ n (b : bytes), blen b = PAGE_SIZE ∧ 0 ≤ n < 3)
            (pages (pager two_leaf_table))) as H.
  { apply (bool_decide_unpack _). by vm_compute. }
  intros n b Hn. by apply H in Hn.
Qed.

Lemma two_leaf_table_two_levels :
  two_levels two_leaf_table (page_bytes two_leaf_table 0) two_leaf_chain.
Proof.
  split; [reflexivity|]. split; [reflexivity|].
  split; [vm_compute; congruence|]. split; [reflexivity|].
  split; [reflexivity|]. split; [vm_compute; congruence|].
  split; [|split; [|split; [|split]]].
  - intros [|[|i]] p rows Hi; try done; simpl in Hi; by injection Hi as <- <-.
  - intros i j p rows x Hi Hj Hx.
    change (u32_at (page_bytes two_leaf_table 0) INTERNAL_NODE_NUM_KEYS_OFFSET)
      with 1 in Hi.
    assert (i = 0%nat) as -> by lia.
    change (internal_key (page_bytes two_leaf_table 0) (Z.of_nat 0)) with 7.
    destruct j as [|[|j]]; try done; simpl in Hj; injection Hj as <- <-;
      repeat (apply elem_of_cons in Hx as [->|Hx];
              [split; intros; [try lia; by vm_compute..]|]);
      by apply elem_of_nil in Hx.
  - split; [vm_compute; congruence|]. split; [discriminate|].
    split; [simpl; lia|].
    split; [apply example_row_serializable_check; by vm_compute|].
    split; [exists (page_bytes two_leaf_table 2); split; [reflexivity|by vm_compute]|].
    split; [intros _; simpl; lia|].
    split; [vm_compute; congruence|]. split; [discriminate|].
    split; [simpl; lia|].
    split; [apply example_row_serializable_check; by vm_compute|].
    split; [exists (page_bytes two_leaf_table 1); split; [reflexivity|by vm_compute]|].
    split; [done|exact I].
  - intros p rows Hp.
    repeat (apply elem_of_cons in Hp as [Hp|Hp];
      [injection Hp as -> ->; vm_compute; repeat split; intros k' Hk'; repeat
         (apply elem_of_cons in Hk' as [->|Hk']; [done|]);
         by apply elem_of_nil in Hk'|]).
    by apply elem_of_nil in Hp.
  - apply (bool_decide_unpack _). by vm_compute.
Qed.

(** X13. In a tree of two levels whose root keys separate the leaves,
    [table_find] returns, without changing the table, a cursor on one of
    the leaves, at the lower bound of the key among the ids of that leaf;
    the key is stored in the tree exactly when the cursor is on a cell
    and that cell holds the key. *)
Theorem table_find_two_level_tree (d : nat) (t : Table) (root : bytes)
    (chain : list (Z * list Row)) (key : Z) :
  two_levels t root chain →
  ∃ (j : nat) p rows b c,
    chain !! j = Some (p, rows) ∧ pg t p b
    ∧ table_find (S d) key t = Ok (mkCursor p c false) t
    ∧ lower_bound b (Z.of_nat (length rows)) key c
    ∧ (key ∈ id <$> chain_rows chain
       ↔ c < Z.of_nat (length rows) ∧ leaf_key b c = key).
Proof.
  intros Htree.
  destruct (table_find_two_levels t root chain Htree d key)
    as (j & p & rows & b & c & Hj & Hp & Hwith & Hfind & Hlb & Hl & Hr).
  exists j, p, rows, b, c. repeat (split; [done|]).
  rewrite (two_levels_member t root chain Htree j p rows key Hj Hl Hr).
  destruct Htree as (_ & _ & _ & _ & _ & _ & _ & _ & Hchain & Hasc & _).
  destruct (leaf_chain_lookup t chain j p rows Hchain Hj) as (_ & _ & _ & Hser & _).
  pose proof Hwith as (_ & _ & Hnum & _).
  rewrite <- Hnum in Hlb |- *.
  apply (lower_bound_member b rows Hwith Hser key c); [|done].
  apply (Hasc p). by eapply list_elem_of_lookup_2.
Qed.

Lemma table_find_two_level_tree_witness :
  ∃ (j : nat) p rows b c,
    two_leaf_chain !! j = Some (p, rows) ∧ pg two_leaf_table p b
    ∧ table_find 1 9 two_leaf_table = Ok (mkCursor p c false) two_leaf_table
    ∧ lower_bound b (Z.of_nat (length rows)) 9 c
    ∧ (9 ∈ id <$> chain_rows two_leaf_chain
       ↔ c < Z.of_nat (length rows) ∧ leaf_key b c = 9).
Proof.
  apply (table_find_two_level_tree 0 two_leaf_table
           (page_bytes two_leaf_table 0) two_leaf_chain 9).
  apply two_leaf_table_two_levels.
Defined.

(** X14. In a tree of two levels whose root keys separate the leaves and
    none of whose leaves is full, [execute_insert] behaves as an insert
    into the list of all rows in ascending order of id: for an id that is
    stored it returns DUPLICATE_KEY and leaves the table as it is; for a
    new id it returns EXECUTE_SUCCESS and leaves a tree of two levels with
    the same root whose leaves hold the old rows and the new one at its
    place in that order; a select afterwards returns exactly these
    rows. *)
Theorem execute_insert_two_level_tree (d fuel k : nat) (t : Table)
    (root : bytes) (chain : list (Z * list Row)) (r : Row) :
  two_levels t root chain → cache_ok t → serializable r →
  (∀ p rows, (p, rows) ∈ chain → (length rows < 13)%nat) →
  (length (chain_rows chain) + 1 < k)%nat →
  ∃ t' chain',
    execute_insert (S d) fuel (insert_statement r) t
    = Ok (db_insert r (chain_rows chain)).1 t'
    ∧ two_levels t' root chain' ∧ cache_ok t'
    ∧ chain_rows chain' = (db_insert r (chain_rows chain)).2
    ∧ (id r ∈ id <$> chain_rows chain → t' = t)
    ∧ execute_select_rows (S d) k t' = Ok (db_insert r (chain_rows chain)).2 t'.
Proof.
  intros Htree Hcache Hr Hroom Hk.
  destruct (table_find_two_levels t root chain Htree d (id r))
    as (j & p & rows & b & c & Hj & Hp & Hwith & Hfind & Hlb & Hl & Hrr).
  pose proof (two_levels_member t root chain Htree j p rows (id r) Hj Hl Hrr)
    as Hmem.
  pose proof Htree as (_ & _ & _ & _ & _ & _ & _ & _ & Hchain & Hasc & _).
  destruct (leaf_chain_lookup t chain j p rows Hchain Hj)
    as (Hpmax & _ & _ & Hser & _).
  assert (ascending (id <$> rows)) as Hrasc.
  { apply (Hasc p). by eapply list_elem_of_lookup_2. }
  assert (length rows < 13)%nat as Hlen.
  { apply (Hroom p). by eapply list_elem_of_lookup_2. }
  pose proof Hwith as (Hb & _ & Hnum & _).
  destruct (execute_insert_found (S d) fuel t p b rows _ r c Hcache Hp Hpmax
              Hwith Hser Hrasc Hr Hfind) as (b' & Hrun & Hwith' & Hsame).
  { by rewrite Hnum. }
  { unfold db_insert. case_bool_decide; simpl; [lia|].
    rewrite insert_row_length. lia. }
  unfold db_insert in *.
  destruct (decide (id r ∈ id <$> rows)) as [Hin|Hnew].
  - rewrite bool_decide_true in Hrun by done.
    rewrite bool_decide_true by (by apply Hmem).
    rewrite (Hsame Hin), set_page_id in Hrun by done.
    exists t, chain. split; [done|]. split; [done|]. split; [done|].
    split; [done|]. split; [done|]. cbn [snd].
    apply (two_levels_select d k t root chain Htree). lia.
  - rewrite bool_decide_false in Hrun, Hwith' by done.
    rewrite bool_decide_false by (by rewrite Hmem).
    destruct (two_levels_insert t root chain Htree r Hr j p rows b' Hj Hl Hrr
                Hnew Hlen Hwith') as [Htree' Hrows'].
    exists (set_page t p b'), (<[j := (p, insert_row r rows)]> chain).
    split; [done|]. split; [done|].
    split; [apply (cache_ok_set_page t p b b' Hcache Hp); apply Hwith'|].
    split; [done|]. split; [by rewrite Hmem|]. cbn [snd].
    rewrite <- Hrows'.
    apply (two_levels_select d k _ root _ Htree').
    rewrite Hrows', insert_row_length. lia.
Qed.

Lemma execute_insert_two_level_tree_witness :
  ∃ t' chain',
    execute_insert 1 1 (insert_statement (example_row 20)) two_leaf_table
    = Ok (db_insert (example_row 20) (chain_rows two_leaf_chain)).1 t'
    ∧ two_levels t' (page_bytes two_leaf_table 0) chain' ∧ cache_ok t'
    ∧ chain_rows chain'
      = (db_insert (example_row 20) (chain_rows two_leaf_chain)).2
    ∧ (id (example_row 20) ∈ id <$> chain_rows two_leaf_chain
       → t' = two_leaf_table)
    ∧ execute_select_rows 1 16 t'
      = Ok (db_insert (example_row 20) (chain_rows two_leaf_chain)).2 t'.
Proof.
  apply (execute_insert_two_level_tree 0 1 16 two_leaf_table
           (page_bytes two_leaf_table 0) two_leaf_chain (example_row 20)).
  - apply two_leaf_table_two_levels.
  - apply two_leaf_table_cache_ok.
  - split; [simpl; lia|split; reflexivity].
  - intros p rows Hp.
    repeat (apply elem_of_cons in Hp as [Hp|Hp];
            [injection Hp as -> ->; simpl; lia|]).
    by apply elem_of_nil in Hp.
  - simpl. lia.
Defined.
(** * Splitting a leaf below the root *)

Lemma child_index_unique (b : bytes) n key j c :
  child_index b n key j → 0 ≤ c ≤ n →
  (c = 0 ∨ internal_key b (c - 1) < key) →
  (c = n ∨ key ≤ internal_key b c) → c = j.
Proof.
  intros (Hj & Hlow & Hhigh) Hc Hl Hr.
  destruct (decide (c = j)) as [|Hne]; [done|]. exfalso.
  destruct (decide (c < j)).
  - destruct Hr as [Hr|Hr]; [lia|]. pose proof (Hlow c). lia.
  - destruct Hl as [Hl|Hl]; [lia|]. pose proof (Hhigh (c - 1)). lia.
Qed.

Lemma wp_internal_node_find_child F U G t p (b : bytes) key j
    (Q : Z → Table → Prop) :
  pg t p b → blen b = PAGE_SIZE →
  u32_at b INTERNAL_NODE_NUM_KEYS_OFFSET ≤ internal_node_capacity →
  child_index b (u32_at b INTERNAL_NODE_NUM_KEYS_OFFSET) key j →
  Q j t → wp_gen F U G (internal_node_find_child p key) Q t.
Proof.
  intros Hp Hb Hn Hidx HQ.
  destruct (internal_node_find_child_bracket t p b key Hp Hb Hn)
    as (c & Hrun & Hc & Hl & Hr).
  rewrite (child_index_unique b _ key j c Hidx Hc Hl Hr) in Hrun.
  by eapply wp_of_eq.
Qed.

Lemma wp_get_node_max_key_leaf F U G d t p (b : bytes) (Q : Z → Table → Prop) :
  pg t p b → blen b = PAGE_SIZE → u8_at b NODE_TYPE_OFFSET = 1 →
  1 ≤ u32_at b LEAF_NODE_NUM_CELLS_OFFSET ≤ LEAF_NODE_MAX_CELLS →
  Q (leaf_key b (u32_at b LEAF_NODE_NUM_CELLS_OFFSET - 1)) t →
  wp_gen F U G (get_node_max_key (S d) p) Q t.
Proof.
  intros Hp Hb Hty Hn HQ. cbn [get_node_max_key].
  apply wp_bind. eapply wp_of_eq.
  { apply (get_node_type_pg t p b Hp Hb). by right. }
  rewrite Hty. change (1 =? 0) with false. cbv iota.
  unfold leaf_node_num_cells.
  apply wp_bind. eapply wp_read_u32; [done|len..|].
  unfold leaf_node_key. eapply wp_read_u32; [done|len..|]. done.
Qed.

Lemma internal_key_blit_same (b : bytes) i v :
  0 ≤ i → internal_node_cell_offset i + 8 ≤ blen b → 0 ≤ v < 4294967296 →
  internal_key (blit b (internal_node_cell_offset i + INTERNAL_NODE_CHILD_SIZE)
                  (le_bytes_of_u32 v)) i = v.
Proof. intros. unfold internal_key. apply u32_at_blit_same; len. Qed.

(** Reading a field of a cell that was copied from another place. *)
Lemma u32_at_blit_copy (b b0 : bytes) src dest off :
  0 ≤ src → src + 8 ≤ blen b0 → 0 ≤ dest → dest + 8 ≤ blen b →
  dest ≤ off → off + 4 ≤ dest + 8 →
  u32_at (blit b dest (take 8 (drop (Z.to_nat src) b0))) off
  = u32_at b0 (src + (off - dest)).
Proof.
  intros Hs Hsb Hd Hdb Ho1 Ho2. unfold u32_at. f_equal.
  assert (length (take 8 (drop (Z.to_nat src) b0)) = 8%nat) as Hlen.
  { rewrite length_take, length_drop. unfold blen in *. lia. }
  apply list_eq. intros i. destruct (decide (i < 4)%nat) as [Hi|Hi].
  2:{ by rewrite !lookup_take_ge by lia. }
  rewrite !lookup_take_lt, !lookup_drop by done.
  rewrite blit_lookup by (unfold blen in *; lia).
  rewrite decide_True by lia.
  rewrite lookup_take_lt by lia. rewrite lookup_drop. f_equal. lia.
Qed.

Section LinkLeaf.

Context (t1 : Table) (rootp p np : Z) (root bo bn : bytes).
Context (Hroot : pg t1 rootp root) (Hbroot : blen root = PAGE_SIZE).
Context (Hpo : pg t1 p bo) (Hbo : blen bo = PAGE_SIZE).
Context (Hpn : pg t1 np bn) (Hbn : blen bn = PAGE_SIZE).
Context (Hrootmax : 0 ≤ rootp ≤ TABLE_MAX_PAGES) (Hpmax : 0 ≤ p ≤ TABLE_MAX_PAGES).
Context (Hnpmax : 0 ≤ np ≤ TABLE_MAX_PAGES).
Context (Hrp : rootp ≠ p) (Hrn : rootp ≠ np) (Hpn' : p ≠ np).
Context (Hoty : u8_at bo NODE_TYPE_OFFSET = 1)
        (Horoot : u8_at bo IS_ROOT_OFFSET = 0)
        (Hopar : u32_at bo PARENT_POINTER_OFFSET = rootp)
        (Hocells : u32_at bo LEAF_NODE_NUM_CELLS_OFFSET = 7).
Context (Hnty : u8_at bn NODE_TYPE_OFFSET = 1)
        (Hncells : u32_at bn LEAF_NODE_NUM_CELLS_OFFSET = 7).
Context (Hrty : u8_at root NODE_TYPE_OFFSET = 0).

Notation nk := (u32_at root INTERNAL_NODE_NUM_KEYS_OFFSET).
Notation rc := (u32_at root INTERNAL_NODE_RIGHT_CHILD_OFFSET).
Notation new_max := (leaf_key bo 6).
Notation M := (leaf_key bn 6).

Context (Hnk : nk < INTERNAL_NODE_MAX_KEYS).
Context (j old_max : Z) (Hj : 0 ≤ j ≤ nk) (Hchild : child_at root j = p).
Context (Hidx1 : child_index root nk old_max j).
Context (Hlt : new_max < M).
Context (Hbelow : ∀ i, 0 ≤ i < j → internal_key root i < M).
Context (Habove : ∀ i, j < i < nk → M ≤ internal_key root i).
Context (brc : bytes).
Context (Hrc : j < nk → pg t1 rc brc ∧ blen brc = PAGE_SIZE
                        ∧ rc ≠ rootp ∧ rc ≤ TABLE_MAX_PAGES
                        ∧ u8_at brc NODE_TYPE_OFFSET = 1
                        ∧ 1 ≤ u32_at brc LEAF_NODE_NUM_CELLS_OFFSET
                            ≤ LEAF_NODE_MAX_CELLS
                        ∧ M ≤ leaf_key brc (u32_at brc LEAF_NODE_NUM_CELLS_OFFSET - 1)).

Lemma link_leaf_cases :
  (nk = 0 ∧ j = 0) ∨ (nk = 1 ∧ j = 1) ∨ (nk = 2 ∧ j = 2)
  ∨ (nk = 1 ∧ j = 0) ∨ (nk = 2 ∧ j = 0) ∨ (nk = 2 ∧ j = 1).
Proof.
  pose proof (u32_at_range root INTERNAL_NODE_NUM_KEYS_OFFSET).
  revert Hnk. change INTERNAL_NODE_MAX_KEYS with 3. lia.
Qed.

Lemma leaf_node_split_link_child d fuel :
  returns (leaf_node_split_link (S d) (S fuel) p old_max np)
    (λ _ t', ∃ root', t' = set_page t1 rootp root'
                      ∧ root_after_split root root' j np new_max M) t1.
Proof.
  pose proof (u32_at_range root INTERNAL_NODE_NUM_KEYS_OFFSET) as Hnk0.
  pose proof link_leaf_cases as Hcases6.
  pose proof Hchild as Hchild'.
  pose proof (u32_at_range bo (leaf_node_cell_offset 6)) as Hnmr.
  pose proof (u32_at_range bn (leaf_node_cell_offset 6)) as HMr.
  fold (leaf_key bo 6) in Hnmr. fold (leaf_key bn 6) in HMr.
  assert (nk ≤ internal_node_capacity) as Hcap.
  { revert Hnk. change INTERNAL_NODE_MAX_KEYS with 3.
    change internal_node_capacity with 510. lia. }
  unfold returns, leaf_node_split_link, is_node_root.
  apply wp_bind. apply wp_bind.
  eapply wp_read_u8; [done|len..|]. apply wp_ret.
  rewrite Horoot. change (negb (0 =? 0)) with false. cbv iota.
  unfold node_parent.
  apply wp_bind. eapply wp_read_u32; [done|len..|]. rewrite Hopar.
  apply wp_bind. eapply wp_get_node_max_key_leaf; [done|done|done| |].
  { rewrite Hocells. layout. lia. }
  rewrite Hocells. change (7 - 1) with 6.
  apply wp_bind. eapply wp_get_page_hit; [done|lia|].
  (* update_internal_node_key *)
  unfold update_internal_node_key.
  apply wp_bind. apply wp_bind.
  eapply wp_internal_node_find_child; [done|done|done|done|].
  unfold set_internal_node_key.
  eapply wp_write_u32; [done|len..|].
  set (root1 := blit root _ _).
  assert (blen root1 = PAGE_SIZE) as Hb1 by (unfold root1; len).
  assert (u32_at root1 INTERNAL_NODE_NUM_KEYS_OFFSET = nk) as Hnk1.
  { unfold root1. fld. done. }
  assert (u32_at root1 INTERNAL_NODE_RIGHT_CHILD_OFFSET = rc) as Hrc1.
  { unfold root1. fld. done. }
  assert (∀ i, 0 ≤ i < nk → internal_key root1 i
            = if i =? j then new_max else internal_key root i) as Hkeys1.
  { intros i Hi. unfold root1, internal_key.
    destruct (i =? j) eqn:E.
    - apply Z.eqb_eq in E. subst i. apply u32_at_blit_same; len.
    - apply Z.eqb_neq in E. apply u32_at_blit_other; [len..|].
      destruct (decide (i < j)); [left|right]; len. }
  (* internal_node_insert *)
  cbn [internal_node_insert].
  apply wp_bind. eapply wp_get_page_hit; [pgs|lia|].
  apply wp_bind. eapply wp_get_page_hit; [pgs|lia|].
  apply wp_bind. eapply wp_get_node_max_key_leaf; [pgs|done|done| |].
  { rewrite Hncells. layout. lia. }
  rewrite Hncells. change (7 - 1) with 6.
  apply wp_bind.
  eapply (wp_internal_node_find_child _ _ _ _ _ root1 M
            (if j =? nk then nk else j + 1)); [pgs|done|by rewrite Hnk1| |].
  { rewrite Hnk1. destruct Hidx1 as (_ & Hlow1 & Hhigh1).
    destruct (j =? nk) eqn:E.
    - apply Z.eqb_eq in E. split; [lia|]. split; [|intros i Hi; lia].
      intros i Hi. rewrite Hkeys1 by lia.
      destruct (i =? j) eqn:E'; [lia|]. apply Z.eqb_neq in E'.
      apply Hbelow. lia.
    - apply Z.eqb_neq in E. split; [lia|]. split.
      + intros i Hi. rewrite Hkeys1 by lia.
        destruct (i =? j) eqn:E'; [lia|]. apply Z.eqb_neq in E'.
        apply Hbelow. lia.
      + intros i Hi. rewrite Hkeys1 by lia.
        destruct (i =? j) eqn:E'; [apply Z.eqb_eq in E'; lia|].
        apply Habove. lia. }
  unfold internal_node_num_keys.
  apply wp_bind. eapply wp_read_u32; [pgs|len..|]. rewrite Hnk1.
  destruct (nk >=? INTERNAL_NODE_MAX_KEYS) eqn:Efull; [lia|].
  unfold internal_node_right_child.
  apply wp_bind. eapply wp_read_u32; [pgs|len..|]. rewrite Hrc1.
  assert (rc = child_at root nk) as Hrcat.
  { unfold child_at. by rewrite Z.eqb_refl. }
  assert (rc ≤ TABLE_MAX_PAGES) as Hrcmax.
  { destruct (decide (j = nk)) as [->|Hne]; [rewrite Hrcat, Hchild; lia|].
    apply Hrc. lia. }
  destruct (rc =? INVALID_PAGE_NUM) eqn:Einv.
  { apply Z.eqb_eq in Einv. revert Hrcmax. rewrite Einv. layout. lia. }
  unfold set_internal_node_num_keys, set_internal_node_child,
    set_internal_node_right_child, set_internal_node_key,
    internal_node_num_keys.
  destruct (decide (j = nk)) as [Hjn|Hjn].
  - (* the rightmost leaf was split: the new leaf becomes the right child *)
    rewrite (proj2 (Z.eqb_eq j nk) Hjn). rewrite Hjn in Hchild'.
    rewrite Hchild' in Hrcat.
    apply wp_bind. eapply wp_get_page_hit; [rewrite Hrcat; pgs|done|].
    apply wp_bind. eapply wp_write_u32; [pgs|len..|].
    rewrite set_page_set_page.
    apply wp_bind. rewrite Hrcat.
    eapply wp_get_node_max_key_leaf; [pgs|done|done| |].
    { rewrite Hocells. layout. lia. }
    rewrite Hocells. change (7 - 1) with 6.
    rewrite (proj2 (Z.gtb_lt _ _)) by lia.
    apply wp_bind. apply wp_bind. eapply wp_read_u32; [pgs|len..|].
    unfold root1 at 1. fld.
    rewrite (proj2 (Z.eqb_neq nk (nk + 1))) by lia.
    eapply wp_write_u32; [pgs|len..|]. rewrite set_page_set_page.
    apply wp_bind. eapply wp_get_node_max_key_leaf; [pgs|done|done| |].
    { rewrite Hocells. layout. lia. }
    rewrite Hocells. change (7 - 1) with 6.
    apply wp_bind. eapply wp_write_u32; [pgs|len..|]. rewrite set_page_set_page.
    eapply wp_write_u32; [pgs|len..|]. rewrite set_page_set_page.
    eexists. split; [done|].
    clear Hkeys1 Hnk1 Hrc1 Hb1.
    unfold root_after_split, child_at, internal_child, internal_key.
    unfold root1; clear root1.
    destruct Hcases6 as [[E1 E2]|[[E1 E2]|[[E1 E2]|[[E1 E2]|[[E1 E2]|[E1 E2]]]]]];
      try lia; rewrite ?E1, ?E2;
      (split; [len|]); (split; [fld; done|]); (split; [fld; done|]);
      (split; [fld; done|]); split.
    all: intros i Hi.
    all: assert (i = 0 ∨ i = 1 ∨ i = 2 ∨ i = 3) as Hcases by lia.
    all: destruct Hcases as [->|[->|[->| ->]]]; try lia; fld; simpl; try done.
  - (* a leaf before the right child was split: make room in the root *)
    assert (j < nk) as Hjlt by lia.
    rewrite (proj2 (Z.eqb_neq j nk)) by done.
    destruct (Hrc Hjlt) as (Hprc & Hbrc & Hrcroot & _ & Hrcty & Hrcn & HrcM).
    apply wp_bind. eapply wp_get_page_hit; [pgs|done|].
    apply wp_bind. eapply wp_write_u32; [pgs|len..|].
    rewrite set_page_set_page.
    apply wp_bind. eapply wp_get_node_max_key_leaf; [pgs|done|done|done|].
    rewrite Z.gtb_ltb. rewrite (proj2 (Z.ltb_ge _ _)) by lia.
    clear Hkeys1 Hnk1 Hrc1 Hb1.
    unfold root_after_split, child_at, internal_child, internal_key.
    unfold root1; clear root1.
    destruct Hcases6 as [[E1 E2]|[[E1 E2]|[[E1 E2]|[[E1 E2]|[[E1 E2]|[E1 E2]]]]]];
      try lia; rewrite ?E1, ?E2.
    + (* one key, the first leaf *)
      change (py_range_down 1 (0 + 1)) with (@nil Z). cbn [for_each].
      apply wp_bind, wp_ret.
      apply wp_bind. apply wp_bind. eapply wp_read_u32; [pgs|len..|].
      fld. change (0 + 1 =? 1 + 1) with false. cbv iota.
      eapply wp_write_u32; [pgs|len..|]. rewrite set_page_set_page.
      eapply wp_write_u32; [pgs|len..|]. rewrite set_page_set_page.
      eexists. split; [done|].
      (split; [len|]); (split; [fld; done|]); (split; [fld; done|]);
      (split; [fld; done|]); split.
      all: intros i Hi.
      all: assert (i = 0 ∨ i = 1 ∨ i = 2 ∨ i = 3) as Hcases by lia.
      all: destruct Hcases as [->|[->|[->| ->]]]; try lia; fld; simpl; try done.
    + (* two keys, the first leaf: the second cell moves up *)
      change (py_range_down 2 (0 + 1)) with [2]. cbn [for_each].
      apply wp_bind. apply wp_bind. apply wp_bind. eapply wp_buf_pg; [pgs|].
      eapply wp_set_buf_pg; [pgs|]. rewrite set_page_set_page.
      apply wp_ret.
      rewrite (getslice_in _ (internal_node_cell_offset (2 - 1)))
        by len.
      change (Z.to_nat INTERNAL_NODE_CELL_SIZE) with 8%nat.
      match goal with |- context [setslice ?b ?a _ ?chunk] =>
        assert (blen chunk = INTERNAL_NODE_CELL_SIZE) as Hchunk;
        [unfold blen; rewrite length_take, length_drop;
         assert (blen b = PAGE_SIZE) as Hbb by len;
         unfold blen in Hbb; revert Hbb; len|];
        rewrite <- Hchunk at 1;
        rewrite (setslice_in b a chunk) by (rewrite ?Hchunk; len)
      end.
      apply wp_bind. apply wp_bind. eapply wp_read_u32; [pgs|len..|].
      fld. change (0 + 1 =? 2 + 1) with false. cbv iota.
      eapply wp_write_u32; [pgs|len..|]. rewrite set_page_set_page.
      eapply wp_write_u32; [pgs|len..|]. rewrite set_page_set_page.
      eexists. split; [done|].
      (split; [len|]); (split; [fld; done|]); (split; [fld; done|]);
      (split; [fld; done|]); split.
      all: intros i Hi.
      all: assert (i = 0 ∨ i = 1 ∨ i = 2 ∨ i = 3) as Hcases by lia.
      all: destruct Hcases as [->|[->|[->| ->]]]; try lia; fld; simpl; try done.
      all: rewrite u32_at_blit_copy by len; fld; f_equal; len.
    + (* two keys, the second leaf *)
      change (py_range_down 2 (1 + 1)) with (@nil Z). cbn [for_each].
      apply wp_bind, wp_ret.
      apply wp_bind. apply wp_bind. eapply wp_read_u32; [pgs|len..|].
      fld. change (1 + 1 =? 2 + 1) with false. cbv iota.
      eapply wp_write_u32; [pgs|len..|]. rewrite set_page_set_page.
      eapply wp_write_u32; [pgs|len..|]. rewrite set_page_set_page.
      eexists. split; [done|].
      (split; [len|]); (split; [fld; done|]); (split; [fld; done|]);
      (split; [fld; done|]); split.
      all: intros i Hi.
      all: assert (i = 0 ∨ i = 1 ∨ i = 2 ∨ i = 3) as Hcases by lia.
      all: destruct Hcases as [->|[->|[->| ->]]]; try lia; fld; simpl; try done.
Qed.

End LinkLeaf.
(** * The tree after the split of a leaf *)

Lemma ascending_drop (l : list Z) n : ascending l → ascending (drop n l).
Proof.
  intros Hasc. apply ascending_of_lookup. intros i j x y Hij Hx Hy.
  rewrite lookup_drop in Hx, Hy.
  eapply (ascending_lookup l (n + i) (n + j)); [done|lia|done|done].
Qed.

Lemma elem_of_take_in {A} (x : A) n (l : list A) : x ∈ take n l → x ∈ l.
Proof.
  intros [i Hi]%list_elem_of_lookup_1. apply lookup_take_Some in Hi as [Hi _].
  by eapply list_elem_of_lookup_2.
Qed.

Lemma elem_of_drop_in {A} (x : A) n (l : list A) : x ∈ drop n l → x ∈ l.
Proof.
  intros [i Hi]%list_elem_of_lookup_1. rewrite lookup_drop in Hi.
  by eapply list_elem_of_lookup_2.
Qed.

Lemma pg_split_other t p (bo bn b : bytes) q :
  q ≠ p → q ≠ num_pages (pager t) → pg t q b → pg (split_pages t p bo bn) q b.
Proof.
  intros H1 H2 Hq. unfold pg, split_pages. simpl.
  by rewrite !lookup_insert_ne by done.
Qed.

Lemma cache_ok_split_pages t p (b bo bn : bytes) :
  cache_ok t → pg t p b → blen bo = PAGE_SIZE → blen bn = PAGE_SIZE →
  cache_ok (split_pages t p bo bn).
Proof.
  intros Hc Hp Hbo Hbn q x. unfold split_pages. simpl.
  destruct (Hc _ _ Hp) as [_ Hpr].
  intros [[<- <-]|[Hne [[<- <-]|[Hne' Hq]]%lookup_insert_Some]]%lookup_insert_Some.
  - split; [done|lia].
  - split; [done|lia].
  - apply Hc in Hq. split; [apply Hq|lia].
Qed.

(** The two halves after the split hold the rows of the leaf and the new
    row, in ascending order of id. *)
Lemma split_post_leaves (b bo bn : bytes) (rows : list Row) next np (c : nat)
    (r : Row) :
  leaf_with b rows next → length rows = 13%nat → (c ≤ 13)%nat →
  split_post b np (Z.of_nat c) (id r) r bo bn →
  leaf_with bo (take 7 (take c rows ++ r :: drop c rows)) np
  ∧ leaf_with bn (drop 7 (take c rows ++ r :: drop c rows)) next.
Proof.
  intros Hwith Hlen Hc
    (Hbo & Hbn & Hto & Htn & Hro & Hrn & Hpo & Hpn & Hco & Hcn
     & Hno & Hnn & Hold & Hnew).
  pose proof Hwith as (_ & _ & _ & Hnext & _).
  assert (length (take c rows ++ r :: drop c rows) = 14%nat) as Hlen'.
  { rewrite length_app, length_take, length_cons, length_drop. lia. }
  split.
  - apply leaf_with_cells; try done.
    + rewrite Hco, length_take, Hlen'. done.
    + intros i x Hx. apply lookup_take_Some in Hx as [Hx Hi].
      rewrite Hold by (layout; lia).
      by apply (split_target_rows b rows next c r x i Hwith); [lia|].
  - apply leaf_with_cells; try done.
    + rewrite Hcn, length_drop, Hlen'. done.
    + congruence.
    + intros i x Hx. rewrite lookup_drop in Hx.
      pose proof (lookup_lt_Some _ _ _ Hx) as Hi.
      rewrite Hnew by (layout; lia).
      rewrite <- (split_target_rows b rows next c r x (7 + i) Hwith);
        [|lia|done].
      f_equal. layout. lia.
Qed.

(** ** The chain of leaves *)

Lemma leaf_chain_frame t t' chain :
  leaf_chain t chain →
  (∀ q b, q ∈ fst <$> chain → pg t q b → pg t' q b) →
  leaf_chain t' chain.
Proof.
  induction chain as [|[q rs] rest IH]; intros Hchain Hframe; [done|].
  destruct Hchain as (H1 & H2 & H3 & H4 & (b & Hq & Hwith) & H6 & Hrest).
  split; [done|]. split; [done|]. split; [done|]. split; [done|].
  split.
  { exists b. split; [|done]. apply Hframe; [|done]. rewrite fmap_cons. left. }
  split; [done|]. apply IH; [done|].
  intros q' b' Hq'. apply Hframe. rewrite fmap_cons. by right.
Qed.

Lemma leaf_chain_split t t' chain (j : nat) p rows np lo hi (bo bn : bytes) :
  leaf_chain t chain → chain !! j = Some (p, rows) →
  (∀ q b, q ∈ fst <$> chain → q ≠ p → pg t q b → pg t' q b) →
  NoDup (fst <$> chain) →
  pg t' p bo → pg t' np bn → np ≠ 0 → np ≤ TABLE_MAX_PAGES →
  lo ≠ [] → hi ≠ [] → (length lo ≤ 13)%nat → (length hi ≤ 13)%nat →
  Forall serializable lo → Forall serializable hi →
  leaf_with bo lo np → leaf_with bn hi (next_page (drop (S j) chain)) →
  leaf_chain t' (take j chain ++ (p, lo) :: (np, hi) :: drop (S j) chain).
Proof.
  revert j. induction chain as [|[q rs] rest IH];
    intros j Hchain Hj Hframe Hnd Hpo Hpn Hnp0 Hnpmax Hlo Hhi Hllo Hlhi Hslo Hshi
           Hwlo Hwhi; [done|].
  destruct Hchain as (H1 & H2 & H3 & H4 & (b & Hq & Hwith0) & H6 & Hrest).
  rewrite fmap_cons in Hnd. apply NoDup_cons in Hnd as [Hq' Hnd].
  destruct j as [|j].
  - simpl in Hj. injection Hj as -> ->. simpl in Hwhi |- *.
    split; [done|]. split; [done|]. split; [done|]. split; [done|].
    split; [by exists bo|]. split; [done|].
    split; [done|]. split; [done|]. split; [done|]. split; [done|].
    split; [by exists bn|]. split; [done|].
    apply (leaf_chain_frame t); [done|].
    intros q' b' Hq'' Hpg. apply Hframe; [rewrite fmap_cons; by right| |done].
    intros ->. done.
  - simpl in Hj. cbn [take drop app].
    assert (p ≠ q) as Hpq.
    { intros ->. apply Hq'. apply list_elem_of_fmap. exists (q, rows).
      split; [done|]. by eapply list_elem_of_lookup_2. }
    assert (next_page (take j rest ++ (p, lo) :: (np, hi) :: drop (S j) rest)
            = next_page rest) as Hnext.
    { destruct rest as [|[q1 r1] rest1]; [done|].
      destruct j as [|j]; [|done]. simpl in Hj. by injection Hj as -> _. }
    split; [done|]. split; [done|]. split; [done|]. split; [done|].
    split.
    { exists b. split; [|by rewrite Hnext].
      apply Hframe; [rewrite fmap_cons; left|done|done]. }
    split.
    { rewrite Hnext. intros _. apply H6. intros ->. done. }
    apply (IH j); try done.
    intros q' b' Hq'' Hne. apply Hframe; [|done]. rewrite fmap_cons. by right.
Qed.

Lemma chain_rows_split chain (j : nat) p rows np rows' :
  chain !! j = Some (p, rows) →
  chain_rows (split_chain chain j p np rows')
  = chain_rows (take j chain) ++ rows' ++ chain_rows (drop (S j) chain).
Proof.
  intros Hj. unfold split_chain, chain_rows.
  rewrite fmap_app, concat_app, !fmap_cons. cbn [concat snd].
  by rewrite (app_assoc (take 7 rows')), take_drop.
Qed.

Lemma split_chain_lookup chain (j : nat) p rows np rows' (i : nat) q rs :
  chain !! j = Some (p, rows) →
  split_chain chain j p np rows' !! i = Some (q, rs) →
  ((i < j)%nat ∧ chain !! i = Some (q, rs))
  ∨ (i = j ∧ q = p ∧ rs = take 7 rows')
  ∨ (i = S j ∧ q = np ∧ rs = drop 7 rows')
  ∨ ((S j < i)%nat ∧ chain !! (i - 1)%nat = Some (q, rs)).
Proof.
  intros Hj Hi. pose proof (lookup_lt_Some _ _ _ Hj) as Hjlt.
  unfold split_chain in Hi.
  destruct (decide (i < j)%nat) as [Hlt|Hge].
  { left. split; [done|].
    rewrite lookup_app_l in Hi by (rewrite length_take; lia).
    by rewrite lookup_take_lt in Hi. }
  rewrite lookup_app_r in Hi by (rewrite length_take; lia).
  rewrite length_take in Hi.
  replace (j `min` length chain)%nat with j in Hi by lia.
  destruct (i - j)%nat as [|[|k]] eqn:E.
  - right. left. simpl in Hi. injection Hi as <- <-. split; [lia|done].
  - right. right. left. simpl in Hi. injection Hi as <- <-. split; [lia|done].
  - right. right. right. simpl in Hi. rewrite lookup_drop in Hi.
    split; [lia|]. rewrite <- Hi. f_equal. lia.
Qed.

(** ** The root over the split chain *)

(** The 7th and the 14th of 14 rows in ascending order of id bound the
    two halves. *)
Lemma split_rows_bounds (l : list Row) :
  ascending (id <$> l) → length l = 14%nat →
  ∃ x6 x13, l !! 6%nat = Some x6 ∧ l !! 13%nat = Some x13
      ∧ id x6 < id x13
      ∧ (∀ x, x ∈ take 7 l → id x ≤ id x6)
      ∧ (∀ x, x ∈ drop 7 l → id x6 < id x ≤ id x13)
      ∧ (∀ x, x ∈ l → id x ≤ id x13).
Proof.
  intros Hasc' Hlen.
  destruct (lookup_lt_is_Some_2 l 6) as [x6 H6]; [lia|].
  destruct (lookup_lt_is_Some_2 l 13) as [x13 H13]; [lia|].
  assert (∀ (a b : nat) x y, (a < b)%nat → l !! a = Some x →
            l !! b = Some y → id x < id y) as Hlt.
  { intros a b x y Hab Hx Hy.
    apply (ascending_lookup (id <$> l) a b); [done|done|..];
      by rewrite list_lookup_fmap, ?Hx, ?Hy. }
  exists x6, x13. split; [done|]. split; [done|].
  split; [apply (Hlt 6%nat 13%nat); [lia|done|done]|]. split; [|split].
  - intros x [a Ha]%list_elem_of_lookup_1.
    apply lookup_take_Some in Ha as [Ha Ha7].
    destruct (decide (a = 6%nat)) as [->|Hne]; [simplify_eq; lia|].
    pose proof (Hlt a 6%nat x x6 ltac:(lia) Ha H6). lia.
  - intros x [a Ha]%list_elem_of_lookup_1. rewrite lookup_drop in Ha.
    pose proof (lookup_lt_Some _ _ _ Ha) as Halt.
    split; [apply (Hlt 6%nat (7 + a)%nat); [lia|done|done]|].
    destruct (decide (7 + a = 13)%nat) as [Heq|Hne].
    + rewrite Heq in Ha. simplify_eq. lia.
    + pose proof (Hlt (7 + a)%nat 13%nat x x13 ltac:(lia) Ha H13). lia.
  - intros x [a Ha]%list_elem_of_lookup_1.
    pose proof (lookup_lt_Some _ _ _ Ha) as Halt.
    destruct (decide (a = 13%nat)) as [->|Hne]; [simplify_eq; lia|].
    pose proof (Hlt a 13%nat x x13 ltac:(lia) Ha H13). lia.
Qed.

Section TreeSplit.

Context (t : Table) (root : bytes) (chain : list (Z * list Row)).
Context (Htree : two_levels t root chain).
Context (r : Row) (Hr : serializable r).
Context (j : nat) (p : Z) (rows : list Row).
Context (Hj : chain !! j = Some (p, rows)).

Notation nk := (u32_at root INTERNAL_NODE_NUM_KEYS_OFFSET).
Notation key i := (internal_key root (Z.of_nat i)).

Context (Hl : Z.of_nat j = 0 ∨ internal_key root (Z.of_nat j - 1) < id r).
Context (Hrr : Z.of_nat j = nk ∨ id r ≤ internal_key root (Z.of_nat j)).
Context (Hnew : id r ∉ id <$> rows) (Hfull : length rows = 13%nat).

Notation rows' := (insert_row r rows).

Notation stands_at x a := (stands_at root x a).

Lemma old_rows_stand (a : nat) q rs x :
  chain !! a = Some (q, rs) → x ∈ rs → stands_at x a.
Proof.
  intros Ha Hx i Hi.
  destruct Htree as (_ & _ & _ & _ & _ & _ & _ & Hsep & _).
  by apply (Hsep i a q rs x).
Qed.

Lemma new_rows_stand x : x ∈ rows' → stands_at x j.
Proof.
  intros [->|Hx]%insert_row_elem; [|by eapply old_rows_stand].
  intros i Hi.
  pose proof (lookup_lt_Some _ _ _ Hj) as Hjlt.
  destruct Htree as (_ & _ & _ & _ & Hlen & _).
  split; intros Hij.
  - destruct Hrr as [Hrr'|Hrr']; [lia|].
    destruct (decide (i = j)) as [->|Hne']; [done|].
    pose proof (two_levels_keys_ascend t root chain Htree j i ltac:(lia) Hi). lia.
  - destruct Hl as [Hl'|Hl']; [lia|].
    destruct (decide (i = j - 1)%nat) as [->|Hne'].
    + replace (Z.of_nat (j - 1)) with (Z.of_nat j - 1) by lia. done.
    + pose proof (two_levels_keys_ascend t root chain Htree i (j - 1)
                    ltac:(lia) ltac:(lia)) as H.
      replace (Z.of_nat (j - 1)) with (Z.of_nat j - 1) in H by lia. lia.
Qed.

Lemma rows'_facts :
  length rows' = 14%nat ∧ Forall serializable rows'
  ∧ ascending (id <$> rows')
  ∧ ∃ x6 x13, rows' !! 6%nat = Some x6 ∧ rows' !! 13%nat = Some x13
      ∧ id x6 < id x13
      ∧ (∀ x, x ∈ take 7 rows' → id x ≤ id x6)
      ∧ (∀ x, x ∈ drop 7 rows' → id x6 < id x ≤ id x13)
      ∧ (∀ x, x ∈ rows' → id x ≤ id x13).
Proof.
  destruct Htree as (_ & _ & _ & _ & _ & _ & _ & _ & Hchain & Hasc & _).
  destruct (leaf_chain_lookup t chain j p rows Hchain Hj)
    as (_ & _ & _ & Hser & _).
  assert (ascending (id <$> rows)) as Hrasc.
  { apply (Hasc p). by eapply list_elem_of_lookup_2. }
  assert (length rows' = 14%nat) as Hlen by (rewrite insert_row_length; lia).
  assert (ascending (id <$> rows')) as Hasc' by (by apply insert_row_ascending).
  split; [done|]. split; [by apply insert_row_serializable|]. split; [done|].
  by apply split_rows_bounds.
Qed.

Lemma two_levels_split t' (root' bo bn : bytes) x6 x13 :
  rows' !! 6%nat = Some x6 → rows' !! 13%nat = Some x13 →
  root_after_split root root' (Z.of_nat j) (num_pages (pager t)) (id x6) (id x13) →
  cache_ok t → u32_at root INTERNAL_NODE_NUM_KEYS_OFFSET < INTERNAL_NODE_MAX_KEYS →
  root_page_num t' = root_page_num t →
  pg t' (root_page_num t) root' → pg t' p bo → pg t' (num_pages (pager t)) bn →
  (∀ q b, q ∈ fst <$> chain → q ≠ p → pg t q b → pg t' q b) →
  num_pages (pager t) ≤ TABLE_MAX_PAGES →
  leaf_with bo (take 7 rows') (num_pages (pager t)) →
  leaf_with bn (drop 7 rows') (next_page (drop (S j) chain)) →
  two_levels t' root' (split_chain chain j p (num_pages (pager t)) rows')
  ∧ chain_rows (split_chain chain j p (num_pages (pager t)) rows')
    = insert_row r (chain_rows chain).
Proof.
  intros H6 H13 (Hb' & Hty' & _ & Hnk' & Hchild' & Hkeys') Hcache Hnk Hroot' Hpr Hpo
         Hpn Hframe Hnpmax Hwlo Hwhi.
  set (np := num_pages (pager t)) in *.
  pose proof Htree as (Hp & Hb & Hpmax & Hty & Hclen & Hn & Hchild & Hsep & Hchain
                       & Hasc & Hnd).
  pose proof (lookup_lt_Some _ _ _ Hj) as Hjlt.
  destruct rows'_facts as (Hlen' & Hser' & Hasc' & y6 & y13 & Hy6 & Hy13 & Hlt613
                           & Hlo & Hhi & Hall).
  assert (y6 = x6) as -> by congruence. assert (y13 = x13) as -> by congruence.
  destruct (leaf_chain_lookup t chain j p rows Hchain Hj)
    as (Hqmax & Hne & Hrlen & Hser & bl & Hpl & Hwithl).
  apply NoDup_cons in Hnd as [Hrootnd Hnd].
  assert (∀ q, q ∈ fst <$> chain → q < np) as Hpages.
  { intros q ((q' & rs) & -> & [a Ha]%list_elem_of_lookup_1)%list_elem_of_fmap.
    destruct (leaf_chain_lookup t chain a q' rs Hchain Ha)
      as (_ & _ & _ & _ & bq & Hbq & _).
    apply Hcache in Hbq. simpl. unfold np. lia. }
  assert (0 < np ∧ root_page_num t < np) as [Hnp0 Hrootnp].
  { apply Hcache in Hp. unfold np. lia. }
  assert (p ∈ fst <$> chain) as Hpin.
  { apply list_elem_of_fmap. exists (p, rows). split; [done|].
    by eapply list_elem_of_lookup_2. }
  pose proof (Hpages p Hpin) as Hpnp.
  split.
  - split; [by rewrite Hroot'|]. split; [done|]. split; [by rewrite Hroot'|].
    split; [congruence|].
    split.
    { rewrite Hnk'. unfold split_chain.
      rewrite length_app, length_take, !length_cons, length_drop. lia. }
    split.
    { rewrite Hnk'. revert Hnk. change INTERNAL_NODE_MAX_KEYS with 3.
      change internal_node_capacity with 510. lia. }
    split; [|split; [|split; [|split]]].
    + intros i q rs Hi.
      pose proof (lookup_lt_Some _ _ _ Hi) as Hilt.
      unfold split_chain in Hilt.
      rewrite length_app, length_take, !length_cons, length_drop in Hilt.
      rewrite Hchild' by lia.
      destruct (split_chain_lookup chain j p rows np rows' i q rs Hj Hi)
        as [[Hlt Hold]|[(-> & -> & ->)|[(-> & -> & ->)|[Hgt Hold]]]].
      * rewrite (proj2 (Z.leb_le _ _)) by lia. by eapply Hchild.
      * rewrite (proj2 (Z.leb_le _ _)) by lia. by eapply Hchild.
      * rewrite (proj2 (Z.leb_gt _ _)) by lia.
        by rewrite (proj2 (Z.eqb_eq _ _)) by lia.
      * rewrite (proj2 (Z.leb_gt _ _)) by lia.
        rewrite (proj2 (Z.eqb_neq _ _)) by lia.
        replace (Z.of_nat i - 1) with (Z.of_nat (i - 1)) by lia.
        by eapply Hchild.
    + intros i j' q rs x Hi Hj' Hx. rewrite Hnk' in Hi.
      rewrite Hkeys' by lia.
      (* where the row stood, and how it compares with the two new keys *)
      assert (∃ a : nat, stands_at x a
                ∧ ((j' < j)%nat ∧ a = j' ∧ id x < id x6
                   ∨ j' = j ∧ a = j ∧ id x ≤ id x6
                   ∨ j' = S j ∧ a = j ∧ id x6 < id x ≤ id x13
                   ∨ (S j < j')%nat ∧ a = (j' - 1)%nat ∧ id x13 < id x))
        as (a & Hst & Hcase).
      { destruct (split_chain_lookup chain j p rows np rows' j' q rs Hj Hj')
          as [[Hlt Hold]|[(-> & -> & ->)|[(-> & -> & ->)|[Hgt Hold]]]].
        - exists j'. split; [by eapply old_rows_stand|]. left.
          split; [done|]. split; [done|].
          pose proof (old_rows_stand j' q rs x Hold Hx j' ltac:(lia)) as [H1 _].
          assert (x6 ∈ rows') as Hx6 by (by eapply list_elem_of_lookup_2).
          pose proof (new_rows_stand x6 Hx6 j' ltac:(lia)) as [_ H2].
          specialize (H1 ltac:(lia)). specialize (H2 ltac:(lia)). lia.
        - exists j. split.
          { apply new_rows_stand. by eapply elem_of_take_in. }
          right. left. split; [done|]. split; [done|]. by apply Hlo.
        - exists j. split.
          { apply new_rows_stand. by eapply elem_of_drop_in. }
          right. right. left. split; [done|]. split; [done|]. by apply Hhi.
        - exists (j' - 1)%nat. split; [by eapply old_rows_stand|].
          right. right. right. split; [done|]. split; [done|].
          pose proof (lookup_lt_Some _ _ _ Hold) as Holdlt.
          pose proof (old_rows_stand (j' - 1) q rs x Hold Hx j ltac:(lia))
            as [_ H1].
          assert (x13 ∈ rows') as Hx13 by (by eapply list_elem_of_lookup_2).
          pose proof (new_rows_stand x13 Hx13 j ltac:(lia)) as [H2 _].
          specialize (H1 ltac:(lia)). specialize (H2 ltac:(lia)). lia. }
      destruct (Z.of_nat i <? Z.of_nat j) eqn:E1.
      { apply Z.ltb_lt in E1. destruct (Hst i ltac:(lia)) as [H1 H2].
        destruct Hcase as [(?&->&?)|[(->&->&?)|[(->&->&?)|(?&->&?)]]];
          split; intros; try lia; first [apply H1; lia|apply H2; lia]. }
      apply Z.ltb_ge in E1.
      destruct (Z.of_nat i =? Z.of_nat j) eqn:E2.
      { apply Z.eqb_eq in E2.
        destruct Hcase as [(?&->&?)|[(->&->&?)|[(->&->&?)|(?&->&?)]]];
          split; intros; lia. }
      apply Z.eqb_neq in E2.
      destruct (Z.of_nat i =? Z.of_nat j + 1) eqn:E3.
      { apply Z.eqb_eq in E3.
        destruct Hcase as [(?&->&?)|[(->&->&?)|[(->&->&?)|(?&->&?)]]];
          split; intros; lia. }
      apply Z.eqb_neq in E3.
      replace (Z.of_nat i - 1) with (Z.of_nat (i - 1)) by lia.
      destruct (Hst (i - 1)%nat ltac:(lia)) as [H1 H2].
      destruct Hcase as [(?&->&?)|[(->&->&?)|[(->&->&?)|(?&->&?)]]];
        split; intros; try lia; first [apply H1; lia|apply H2; lia].
    + unfold split_chain.
      apply (leaf_chain_split t t' chain j p rows np _ _ bo bn);
        try done; try lia.
      * intros H. apply (f_equal length) in H.
        rewrite length_take, Hlen' in H. done.
      * intros H. apply (f_equal length) in H.
        rewrite length_drop, Hlen' in H. done.
      * rewrite length_take. lia.
      * rewrite length_drop. lia.
      * by apply Forall_take.
      * by apply Forall_drop.
    + intros q rs [i Hi]%list_elem_of_lookup_1.
      destruct (split_chain_lookup chain j p rows np rows' i q rs Hj Hi)
        as [[Hlt Hold]|[(-> & -> & ->)|[(-> & -> & ->)|[Hgt Hold]]]].
      * apply (Hasc q). by eapply list_elem_of_lookup_2.
      * rewrite fmap_take. by apply ascending_take.
      * rewrite fmap_drop. by apply ascending_drop.
      * apply (Hasc q). by eapply list_elem_of_lookup_2.
    + rewrite Hroot'. unfold split_chain.
      rewrite fmap_app, !fmap_cons. cbn [fst].
      rewrite <- (take_drop_middle chain j (p, rows) Hj) in Hnd, Hrootnd, Hpages.
      rewrite fmap_app, fmap_cons in Hnd, Hrootnd, Hpages. cbn [fst] in *.
      apply NoDup_cons. split.
      { intros [H|[Heq|[Heq|H]%elem_of_cons]%elem_of_cons]%elem_of_app.
        - apply Hrootnd, elem_of_app. by left.
        - apply Hrootnd, elem_of_app. right. rewrite Heq. left.
        - lia.
        - apply Hrootnd, elem_of_app. right. by right. }
      apply NoDup_app in Hnd as (Hnd1 & Hnd2 & Hnd3).
      apply NoDup_cons in Hnd3 as [Hnd3 Hnd4].
      apply NoDup_app. split; [done|]. split.
      { intros x Hx1 [Heq|[Heq|Hx2]%elem_of_cons]%elem_of_cons.
        - apply (Hnd2 x Hx1). rewrite Heq. left.
        - pose proof (Hpages x) as H. rewrite elem_of_app in H.
          specialize (H ltac:(by left)). lia.
        - apply (Hnd2 x Hx1). by right. }
      apply NoDup_cons. split.
      { intros [Heq|H]%elem_of_cons; [lia|done]. }
      apply NoDup_cons. split; [|done].
      intros H. pose proof (Hpages np) as H'. rewrite elem_of_app in H'.
      specialize (H' ltac:(right; by right)). lia.
  - rewrite (chain_rows_split chain j p rows np rows' Hj).
    destruct (chain_rows_insert chain j p rows rows' Hj) as [-> _].
    rewrite insert_row_before, insert_row_after; [done| |].
    + intros x (j' & q & rs & Hj' & Hx)%elem_of_chain_rows.
      rewrite lookup_drop in Hj'.
      pose proof (lookup_lt_Some _ _ _ Hj') as Hlt'.
      pose proof (old_rows_stand _ q rs x Hj' Hx j ltac:(lia)) as [_ H1].
      assert (r ∈ rows') as Hrin by (apply insert_row_elem; by left).
      pose proof (new_rows_stand r Hrin j ltac:(lia)) as [H2 _].
      specialize (H1 ltac:(lia)). specialize (H2 ltac:(lia)). lia.
    + intros x (j' & q & rs & Hj' & Hx)%elem_of_chain_rows.
      apply lookup_take_Some in Hj' as [Hj' Hlt].
      pose proof (old_rows_stand _ q rs x Hj' Hx j' ltac:(lia)) as [H1 _].
      assert (r ∈ rows') as Hrin by (apply insert_row_elem; by left).
      pose proof (new_rows_stand r Hrin j' ltac:(lia)) as [_ H2].
      specialize (H1 ltac:(lia)). specialize (H2 ltac:(lia)). lia.
Qed.

End TreeSplit.

(** ** The insert that splits a leaf below the root *)

Section InsertSplit.

Context (t : Table) (root : bytes) (chain : list (Z * list Row)).
Context (Htree : two_levels t root chain) (Hcache : cache_ok t).
Context (Hlinked : leaves_linked t chain).
Context (r : Row) (Hr : serializable r).
Context (Hnk : u32_at root INTERNAL_NODE_NUM_KEYS_OFFSET < INTERNAL_NODE_MAX_KEYS).
Context (Hroom : num_pages (pager t) ≤ TABLE_MAX_PAGES).
Context (j : nat) (p : Z) (rows : list Row) (b : bytes) (c : Z).
Context (Hj : chain !! j = Some (p, rows)) (Hp : pg t p b).
Context (Hwith : leaf_with b rows (next_page (drop (S j) chain))).
Context (Hlb : lower_bound b (Z.of_nat (length rows)) (id r) c).
Context (Hl : Z.of_nat j = 0 ∨ internal_key root (Z.of_nat j - 1) < id r).
Context (Hrr : Z.of_nat j = u32_at root INTERNAL_NODE_NUM_KEYS_OFFSET
               ∨ id r ≤ internal_key root (Z.of_nat j)).
Context (Hnew : id r ∉ id <$> rows) (Hfull : length rows = 13%nat).

Notation nk := (u32_at root INTERNAL_NODE_NUM_KEYS_OFFSET).
Notation np := (num_pages (pager t)).
Notation rows' := (insert_row r rows).
Notation chain' := (split_chain chain j p np rows').

Lemma leaf_split_in_tree d fuel :
  returns (leaf_node_split_and_insert (S d) (S fuel) (mkCursor p c false)
             (id r) r)
    (λ _ t', ∃ root',
       two_levels t' root' chain' ∧ cache_ok t' ∧ leaves_linked t' chain'
       ∧ chain_rows chain' = insert_row r (chain_rows chain)
       ∧ num_pages (pager t') = np + 1
       ∧ u32_at root' INTERNAL_NODE_NUM_KEYS_OFFSET = nk + 1) t.
Proof.
  pose proof Htree as (Hproot & Hbroot & Hrootmax & Hrty & Hclen & Hn & Hchild
                       & Hsep & Hchain & Hasc & Hnd).
  pose proof (lookup_lt_Some _ _ _ Hj) as Hjlt.
  destruct (leaf_chain_lookup t chain j p rows Hchain Hj)
    as (Hpmax & Hne & Hrlen & Hser & bl & Hpl & _).
  assert (bl = b) as -> by (unfold pg in *; congruence). clear Hpl.
  pose proof Hwith as (Hb & Hty & Hnum & Hnext & Hcells).
  assert (ascending (id <$> rows)) as Hrasc.
  { apply (Hasc p). by eapply list_elem_of_lookup_2. }
  pose proof Hlb as (Hc & Hlow & Hhigh).
  rewrite Hfull in Hc, Hhigh.
  assert (u32_at b LEAF_NODE_NUM_CELLS_OFFSET = LEAF_NODE_MAX_CELLS) as Hn13.
  { rewrite Hnum, Hfull. done. }
  assert (∀ i, c ≤ i < LEAF_NODE_MAX_CELLS → id r < leaf_key b i) as Hhigh'.
  { intros i Hi. pose proof (Hhigh i ltac:(layout; lia)) as Hle.
    destruct (decide (leaf_key b i = id r)) as [Heq|]; [|lia].
    exfalso. apply Hnew.
    destruct (leaf_holds_row b rows Hwith Hser i) as (x & Hx & Hk & _);
      [rewrite Hn13; layout; lia|].
    apply list_elem_of_fmap. exists x. split; [congruence|].
    by eapply list_elem_of_lookup_2. }
  assert (rows' = take (Z.to_nat c) rows ++ r :: drop (Z.to_nat c) rows) as Hrows'.
  { apply insert_row_at.
    - lia.
    - intros i x Hi Hx.
      rewrite <- (leaf_holds_key b rows Hwith Hser i x Hx). apply Hlow. lia.
    - intros x Hx.
      pose proof (leaf_holds_key b rows Hwith Hser _ x Hx) as Hk.
      rewrite Z2Nat.id in Hk by lia. rewrite <- Hk. apply Hhigh'.
      apply lookup_lt_Some in Hx. layout. lia. }
  destruct (rows'_facts t root chain Htree r Hr j p rows Hj Hnew Hfull)
    as (Hlen' & Hser' & Hasc' & x6 & x13 & H6 & H13 & Hlt613 & Hlo & Hhi & Hall).
  apply NoDup_cons in Hnd as [Hrootnd Hnd].
  assert (∀ q, q ∈ fst <$> chain → 0 ≤ q < np) as Hpages.
  { intros q ((q' & rs) & -> & [a Ha]%list_elem_of_lookup_1)%list_elem_of_fmap.
    destruct (leaf_chain_lookup t chain a q' rs Hchain Ha)
      as (_ & _ & _ & _ & bq & Hbq & _).
    apply Hcache in Hbq. simpl. lia. }
  assert (0 ≤ root_page_num t < np) as Hrootnp.
  { apply Hcache in Hproot. lia. }
  assert (p ∈ fst <$> chain) as Hpin.
  { apply list_elem_of_fmap. exists (p, rows). split; [done|].
    by eapply list_elem_of_lookup_2. }
  pose proof (Hpages p Hpin) as Hpnp.
  assert (root_page_num t ≠ p) as Hrootp.
  { intros Heq. apply Hrootnd. by rewrite Heq. }
  destruct (Hlinked p rows b) as [Hbroot0 Hbpar];
    [by eapply list_elem_of_lookup_2|done|].
  (* the split *)
  unfold returns, leaf_node_split_and_insert. apply wp_bind.
  eapply wp_mono.
  { apply (leaf_node_split_cells_spec t p b c (id r) r Hcache Hp Hroom Hty
             Hn13 ltac:(layout; lia) (proj1 Hr) Hr d (mkCursor p c false)
             eq_refl eq_refl). }
  intros res t1 (bo & bn & -> & -> & Hpost).
  destruct (split_post_leaves b bo bn rows _ np (Z.to_nat c) r Hwith Hfull)
    as [Hwlo Hwhi]; [lia|by rewrite Z2Nat.id by lia|].
  rewrite <- Hrows' in Hwlo, Hwhi.
  pose proof Hpost as (Hbo & Hbn & Hto & Htn & Hro & Hrn & Hpo & Hpn & Hco & Hcn
                       & Hno & Hnn & _ & _).
  assert (leaf_key bo 6 = id x6) as Hk6.
  { change 6 with (Z.of_nat 6).
    apply (leaf_holds_key bo (take 7 rows') Hwlo); [by apply Forall_take|].
    by rewrite lookup_take_lt by lia. }
  assert (leaf_key bn 6 = id x13) as Hk13.
  { change 6 with (Z.of_nat 6).
    apply (leaf_holds_key bn (drop 7 rows') Hwhi); [by apply Forall_drop|].
    by rewrite lookup_drop. }
  assert (x6 ∈ rows' ∧ x13 ∈ rows') as [Hx6 Hx13].
  { split; by eapply list_elem_of_lookup_2. }
  pose proof (new_rows_stand t root chain Htree r j p rows Hj Hl Hrr Hfull) as Hstand.
  (* the last row of the leaf before the split *)
  destruct (lookup_lt_is_Some_2 rows 12) as [x12 H12]; [lia|].
  assert (leaf_key b (LEAF_NODE_MAX_CELLS - 1) = id x12) as Hk12.
  { change (LEAF_NODE_MAX_CELLS - 1) with (Z.of_nat 12).
    by apply (leaf_holds_key b rows Hwith Hser). }
  assert (x12 ∈ rows') as Hx12.
  { apply insert_row_elem. right. by eapply list_elem_of_lookup_2. }
  assert (∀ x, x ∈ rows' →
            child_index root nk (id x) (Z.of_nat j)) as Hidx.
  { intros x Hx. split; [lia|]. split.
    - intros i Hi. destruct (Hstand x Hx (Z.to_nat i)) as [_ H]; [lia|].
      rewrite Z2Nat.id in H by lia. apply H. lia.
    - intros i Hi. destruct (Hstand x Hx (Z.to_nat i)) as [H _]; [lia|].
      rewrite Z2Nat.id in H by lia. apply H. lia. }
  (* the right child of the root *)
  assert (∃ brc, Z.of_nat j < nk →
            pg (split_pages t p bo bn) (u32_at root INTERNAL_NODE_RIGHT_CHILD_OFFSET) brc
            ∧ blen brc = PAGE_SIZE
            ∧ u32_at root INTERNAL_NODE_RIGHT_CHILD_OFFSET ≠ root_page_num t
            ∧ u32_at root INTERNAL_NODE_RIGHT_CHILD_OFFSET ≤ TABLE_MAX_PAGES
            ∧ u8_at brc NODE_TYPE_OFFSET = 1
            ∧ 1 ≤ u32_at brc LEAF_NODE_NUM_CELLS_OFFSET ≤ LEAF_NODE_MAX_CELLS
            ∧ leaf_key bn 6
              ≤ leaf_key brc (u32_at brc LEAF_NODE_NUM_CELLS_OFFSET - 1))
    as [brc Hrc].
  { destruct (decide (Z.of_nat j < nk)) as [Hjnk|]; [|by exists b].
    destruct (lookup_lt_is_Some_2 chain (Z.to_nat nk)) as [[q rs] Hq]; [lia|].
    destruct (leaf_chain_lookup t chain _ q rs Hchain Hq)
      as (Hqmax & Hqne & Hqlen & Hqser & bq & Hpq & Hwq).
    pose proof (Hchild _ q rs Hq) as Hcq. rewrite Z2Nat.id in Hcq by lia.
    unfold child_at in Hcq. rewrite Z.eqb_refl in Hcq.
    assert (q ∈ fst <$> chain) as Hqin.
    { apply list_elem_of_fmap. exists (q, rs). split; [done|].
      by eapply list_elem_of_lookup_2. }
    assert (q ≠ p) as Hqp.
    { intros ->.
      assert (Z.to_nat nk = j); [|lia].
      apply (NoDup_lookup (fst <$> chain) _ _ p Hnd);
        by rewrite list_lookup_fmap, ?Hq, ?Hj. }
    pose proof Hwq as (Hbq & Htq & Hnq & _).
    assert (length rs ≠ 0%nat) as Hrs0 by (by destruct rs).
    exists bq. intros _. rewrite Hcq.
    split; [apply pg_split_other; [done|pose proof (Hpages q Hqin); lia|done]|].
    split; [done|]. split; [by intros ->|]. split; [done|]. split; [done|].
    split.
    { rewrite Hnq. layout. lia. }
    rewrite Hk13, Hnq.
    destruct (lookup_lt_is_Some_2 rs (length rs - 1)) as [y Hy]; [lia|].
    replace (Z.of_nat (length rs) - 1) with (Z.of_nat (length rs - 1)) by lia.
    rewrite (leaf_holds_key bq rs Hwq Hqser _ y Hy).
    assert (y ∈ rs) as Hyin by (by eapply list_elem_of_lookup_2).
    pose proof (old_rows_stand t root chain Htree _ q rs y Hq Hyin j
                  ltac:(lia)) as [_ H1].
    pose proof (Hstand x13 Hx13 j ltac:(lia)) as [H2 _].
    specialize (H1 ltac:(lia)). specialize (H2 ltac:(lia)). lia. }
  eapply wp_mono.
  { eapply (leaf_node_split_link_child (split_pages t p bo bn)
              (root_page_num t) p np root bo bn)
      with (brc := brc) (j := Z.of_nat j);
      [apply pg_split_other; [done|lia|done] | done | apply pg_split_old
      | done | apply pg_split_new; lia | done | lia | lia | lia | done | lia
      | lia | done | congruence | congruence | done | done | done | done
      | lia | by eapply Hchild | rewrite Hk12; by apply Hidx
      | by rewrite Hk6, Hk13 | rewrite Hk13; apply (Hidx x13 Hx13)
      | rewrite Hk13; intros i Hi; apply (Hidx x13 Hx13); lia
      | exact Hrc ]. }
  intros _ t' (root' & -> & Hafter).
  rewrite Hk6, Hk13 in Hafter.
  pose proof Hafter as (Hbroot' & _ & _ & Hnk' & _).
  assert (pg (split_pages t p bo bn) (root_page_num t) root) as Hproot1.
  { apply pg_split_other; [done|lia|done]. }
  set (t' := set_page (split_pages t p bo bn) (root_page_num t) root').
  assert (∀ q bq, q ∈ fst <$> chain → q ≠ p → pg t q bq → pg t' q bq)
    as Hframe.
  { intros q bq Hq Hqp Hpq. unfold t'. pose proof (Hpages q Hq).
    apply pg_set_page_ne; [by intros <-|].
    apply pg_split_other; [done|lia|done]. }
  assert (pg t' p bo) as Hpo'.
  { unfold t'. apply pg_set_page_ne; [done|apply pg_split_old]. }
  assert (pg t' np bn) as Hpn'.
  { unfold t'. apply pg_set_page_ne; [lia|apply pg_split_new; lia]. }
  destruct (two_levels_split t root chain Htree r Hr j p rows Hj Hl Hrr Hnew
              Hfull t' root' bo bn x6 x13 H6 H13 Hafter Hcache Hnk)
    as [Htree' Hrows'']; try done.
  { unfold t'. apply pg_set_page_eq. }
  exists root'. split; [done|]. split.
  { unfold t'. eapply cache_ok_set_page; [|exact Hproot1|done].
    by eapply cache_ok_split_pages. }
  split; [|split; [done|split; [done|done]]].
  intros q rs bq [i Hi]%list_elem_of_lookup_1 Hpq.
  change (root_page_num t') with (root_page_num t).
  destruct (split_chain_lookup chain j p rows np rows' i q rs Hj Hi)
    as [[Hlt Hold]|[(-> & -> & ->)|[(-> & -> & ->)|[Hgt Hold]]]].
  - destruct (leaf_chain_lookup t chain i q rs Hchain Hold)
      as (_ & _ & _ & _ & bq0 & Hpq0 & _).
    assert (q ≠ p) as Hqp.
    { intros ->. assert (i = j); [|lia].
      apply (NoDup_lookup (fst <$> chain) _ _ p Hnd);
        by rewrite list_lookup_fmap, ?Hold, ?Hj. }
    assert (q ∈ fst <$> chain) as Hqin.
    { apply list_elem_of_fmap. exists (q, rs). split; [done|].
      by eapply list_elem_of_lookup_2. }
    pose proof (Hframe q bq0 Hqin Hqp Hpq0) as Hpq'.
    assert (bq = bq0) as -> by (unfold pg in *; congruence).
    apply (Hlinked q rs); [by eapply list_elem_of_lookup_2|done].
  - assert (bq = bo) as -> by (unfold pg in *; congruence).
    split; congruence.
  - assert (bq = bn) as -> by (unfold pg in *; congruence).
    split; congruence.
  - destruct (leaf_chain_lookup t chain _ q rs Hchain Hold)
      as (_ & _ & _ & _ & bq0 & Hpq0 & _).
    assert (q ≠ p) as Hqp.
    { intros ->. assert ((i - 1)%nat = j); [|lia].
      apply (NoDup_lookup (fst <$> chain) _ _ p Hnd);
        by rewrite list_lookup_fmap, ?Hold, ?Hj. }
    assert (q ∈ fst <$> chain) as Hqin.
    { apply list_elem_of_fmap. exists (q, rs). split; [done|].
      by eapply list_elem_of_lookup_2. }
    pose proof (Hframe q bq0 Hqin Hqp Hpq0) as Hpq'.
    assert (bq = bq0) as -> by (unfold pg in *; congruence).
    apply (Hlinked q rs); [by eapply list_elem_of_lookup_2|done].
Qed.

End InsertSplit.

Lemma execute_insert_full_leaf_found (d fuel : nat) (t : Table) (root : bytes)
    (chain : list (Z * list Row)) (r : Row) (j : nat) (p : Z)
    (rows : list Row) (b : bytes) (c : Z) :
  two_levels t root chain → cache_ok t → leaves_linked t chain →
  serializable r →
  chain !! j = Some (p, rows) → pg t p b →
  leaf_with b rows (next_page (drop (S j) chain)) →
  table_find (S d) (id r) t = Ok (mkCursor p c false) t →
  lower_bound b (Z.of_nat (length rows)) (id r) c →
  (Z.of_nat j = 0 ∨ internal_key root (Z.of_nat j - 1) < id r) →
  (Z.of_nat j = u32_at root INTERNAL_NODE_NUM_KEYS_OFFSET
   ∨ id r ≤ internal_key root (Z.of_nat j)) →
  length rows = 13%nat → id r ∉ id <$> rows →
  u32_at root INTERNAL_NODE_NUM_KEYS_OFFSET < INTERNAL_NODE_MAX_KEYS →
  num_pages (pager t) ≤ TABLE_MAX_PAGES →
  ∃ t' root',
    execute_insert (S d) (S fuel) (insert_statement r) t
    = Ok EXECUTE_SUCCESS t'
    ∧ two_levels t' root'
        (split_chain chain j p (num_pages (pager t)) (insert_row r rows))
    ∧ cache_ok t'
    ∧ leaves_linked t'
        (split_chain chain j p (num_pages (pager t)) (insert_row r rows))
    ∧ chain_rows
        (split_chain chain j p (num_pages (pager t)) (insert_row r rows))
      = insert_row r (chain_rows chain)
    ∧ num_pages (pager t') = num_pages (pager t) + 1
    ∧ u32_at root' INTERNAL_NODE_NUM_KEYS_OFFSET
      = u32_at root INTERNAL_NODE_NUM_KEYS_OFFSET + 1.
Proof.
  intros Htree Hcache Hlinked Hr Hj Hp Hwith Hfind Hlb Hl Hrr Hfull Hnew Hnk
         Hroom.
  pose proof Hwith as (Hb & Hty & Hnum & _).
  pose proof Htree as (_ & _ & _ & _ & _ & _ & _ & _ & Hchain & _).
  destruct (leaf_chain_lookup t chain j p rows Hchain Hj)
    as (Hpmax & _ & _ & Hser & _).
  pose proof Hlb as (Hc & Hlow & Hhigh).
  cut (returns (execute_insert (S d) (S fuel) (insert_statement r))
         (λ res t', res = EXECUTE_SUCCESS ∧ ∃ root',
            two_levels t' root'
              (split_chain chain j p (num_pages (pager t)) (insert_row r rows))
            ∧ cache_ok t'
            ∧ leaves_linked t'
                (split_chain chain j p (num_pages (pager t)) (insert_row r rows))
            ∧ chain_rows
                (split_chain chain j p (num_pages (pager t)) (insert_row r rows))
              = insert_row r (chain_rows chain)
            ∧ num_pages (pager t') = num_pages (pager t) + 1
            ∧ u32_at root' INTERNAL_NODE_NUM_KEYS_OFFSET
              = u32_at root INTERNAL_NODE_NUM_KEYS_OFFSET + 1) t).
  { intros (res & t' & Hrun & -> & root' & H)%returns_Ok. by exists t', root'. }
  assert (u32_at b LEAF_NODE_NUM_CELLS_OFFSET = LEAF_NODE_MAX_CELLS) as Hn13.
  { rewrite Hnum, Hfull. done. }
  unfold returns, execute_insert. simpl row_to_insert.
  apply wp_bind. eapply wp_of_eq; [exact Hfind|].
  cbn [page_num cell_num].
  apply wp_bind. eapply wp_get_page_hit; [done|done|].
  unfold leaf_node_num_cells.
  apply wp_bind. eapply wp_read_u32; [done|len..|]. rewrite Hn13.
  apply wp_bind.
  eapply wp_mono with (Q := λ dup t1, dup = false ∧ t1 = t).
  { destruct (c <? LEAF_NODE_MAX_CELLS) eqn:Ecn; [|by apply wp_ret].
    apply wp_bind. unfold leaf_node_key.
    eapply wp_read_u32; [done|len..|]. fold (leaf_key b c). apply wp_ret.
    split; [|done]. apply Z.eqb_neq. intros Heq. apply Hnew.
    destruct (leaf_holds_row b rows Hwith Hser c) as (x & Hx & Hk & _);
      [rewrite Hn13; lia|].
    apply list_elem_of_fmap. exists x. split; [congruence|].
    by eapply list_elem_of_lookup_2. }
  intros dup t1 [-> ->].
  apply wp_bind. unfold leaf_node_insert. cbn [page_num cell_num].
  apply wp_bind. eapply wp_get_page_hit; [done|done|].
  unfold leaf_node_num_cells.
  apply wp_bind. eapply wp_read_u32; [done|len..|]. rewrite Hn13.
  change (LEAF_NODE_MAX_CELLS >=? LEAF_NODE_MAX_CELLS) with true. cbv iota.
  eapply wp_mono.
  { apply (leaf_split_in_tree t root chain Htree Hcache Hlinked r Hr Hnk Hroom
             j p rows b c Hj Hp Hwith Hlb Hl Hrr Hnew Hfull d fuel). }
  intros _ t' (root' & H). apply wp_ret. split; [done|]. by exists root'.
Qed.

Lemma execute_insert_full_leaf (d fuel : nat) (t : Table) (root : bytes)
    (chain : list (Z * list Row)) (r : Row) (j : nat) (p : Z)
    (rows : list Row) :
  two_levels t root chain → cache_ok t → leaves_linked t chain →
  serializable r →
  chain !! j = Some (p, rows) →
  child_index root (u32_at root INTERNAL_NODE_NUM_KEYS_OFFSET) (id r)
    (Z.of_nat j) →
  length rows = 13%nat → id r ∉ id <$> rows →
  u32_at root INTERNAL_NODE_NUM_KEYS_OFFSET < INTERNAL_NODE_MAX_KEYS →
  num_pages (pager t) ≤ TABLE_MAX_PAGES →
  ∃ t' root',
    execute_insert (S d) (S fuel) (insert_statement r) t
    = Ok EXECUTE_SUCCESS t'
    ∧ two_levels t' root'
        (split_chain chain j p (num_pages (pager t)) (insert_row r rows))
    ∧ cache_ok t'
    ∧ leaves_linked t'
        (split_chain chain j p (num_pages (pager t)) (insert_row r rows))
    ∧ chain_rows
        (split_chain chain j p (num_pages (pager t)) (insert_row r rows))
      = insert_row r (chain_rows chain)
    ∧ num_pages (pager t') = num_pages (pager t) + 1
    ∧ u32_at root' INTERNAL_NODE_NUM_KEYS_OFFSET
      = u32_at root INTERNAL_NODE_NUM_KEYS_OFFSET + 1.
Proof.
  intros Htree Hcache Hlinked Hr Hj Hidx Hfull Hnew Hnk Hroom.
  destruct (table_find_two_levels t root chain Htree d (id r))
    as (j' & p' & rows' & b & c & Hj' & Hp & Hwith & Hfind & Hlb & Hl & Hrr).
  assert (j' = j) as ->.
  { pose proof Htree as (_ & _ & _ & _ & Hclen & _).
    apply lookup_lt_Some in Hj'.
    assert (Z.of_nat j' = Z.of_nat j); [|lia].
    apply (child_index_unique root _ (id r) _ _ Hidx); [lia|done|done]. }
  rewrite Hj in Hj'. injection Hj' as <- <-.
  by apply (execute_insert_full_leaf_found d fuel t root chain r j p rows b c).
Qed.

(** X15. In a tree of two levels whose root has fewer than
    INTERNAL_NODE_MAX_KEYS keys, [execute_insert] of a row with a new id
    that belongs, by the keys of the root, to a full leaf (13 rows)
    returns EXECUTE_SUCCESS and splits that leaf: its page keeps the first
    7 of the 14 rows, a new page (the next unused page number) gets the
    last 7 and comes next in the chain of leaves, and the root gets one
    more key.  The table is again a tree of two levels, and a select
    afterwards returns the old rows and the new one in ascending order of
    id. *)
Theorem execute_insert_splits_leaf (d fuel k : nat) (t : Table) (root : bytes)
    (chain : list (Z * list Row)) (r : Row) (j : nat) (p : Z)
    (rows : list Row) :
  two_levels t root chain → cache_ok t → leaves_linked t chain →
  serializable r →
  chain !! j = Some (p, rows) →
  child_index root (u32_at root INTERNAL_NODE_NUM_KEYS_OFFSET) (id r)
    (Z.of_nat j) →
  length rows = 13%nat → id r ∉ id <$> rows →
  u32_at root INTERNAL_NODE_NUM_KEYS_OFFSET < INTERNAL_NODE_MAX_KEYS →
  num_pages (pager t) ≤ TABLE_MAX_PAGES →
  (length (chain_rows chain) + 1 < k)%nat →
  ∃ t' root',
    execute_insert (S d) (S fuel) (insert_statement r) t
    = Ok EXECUTE_SUCCESS t'
    ∧ two_levels t' root'
        (split_chain chain j p (num_pages (pager t)) (insert_row r rows))
    ∧ u32_at root' INTERNAL_NODE_NUM_KEYS_OFFSET
      = u32_at root INTERNAL_NODE_NUM_KEYS_OFFSET + 1
    ∧ num_pages (pager t') = num_pages (pager t) + 1
    ∧ execute_select_rows (S d) k t'
      = Ok (insert_row r (chain_rows chain)) t'.
Proof.
  intros Htree Hcache Hlinked Hr Hj Hidx Hfull Hnew Hnk Hroom Hk.
  destruct (execute_insert_full_leaf d fuel t root chain r j p rows Htree
              Hcache Hlinked Hr Hj Hidx Hfull Hnew Hnk Hroom)
    as (t' & root' & Hrun & Htree' & _ & _ & Hrows & Hnum & Hkeys).
  exists t', root'. split; [done|]. split; [done|]. split; [done|].
  split; [done|]. rewrite <- Hrows.
  apply (two_levels_select d k _ root' _ Htree').
  rewrite Hrows, insert_row_length. lia.
Qed.

Lemma full_leaf_table_cache_ok : cache_ok full_leaf_table.
Proof.
  assert (map_Forall (λ n (b : bytes), blen b = PAGE_SIZE ∧ 0 ≤ n < 3)
            (pages (pager full_leaf_table))) as H.
  { apply (bool_decide_unpack _). by vm_compute. }
  intros n b Hn. by apply H in Hn.
Qed.

Lemma full_leaf_table_two_levels :
  two_levels full_leaf_table (page_bytes full_leaf_table 0) full_leaf_chain.
Proof.
  split; [reflexivity|]. split; [reflexivity|].
  split; [vm_compute; congruence|]. split; [reflexivity|].
  split; [reflexivity|]. split; [vm_compute; congruence|].
  split; [|split; [|split; [|split]]].
  - intros [|[|i]] p rows Hi; try done; simpl in Hi; by injection Hi as <- <-.
  - intros i j p rows x Hi Hj Hx.
    change (u32_at (page_bytes full_leaf_table 0) INTERNAL_NODE_NUM_KEYS_OFFSET)
      with 1 in Hi.
    assert (i = 0%nat) as -> by lia.
    change (internal_key (page_bytes full_leaf_table 0) (Z.of_nat 0)) with 7.
    destruct j as [|[|j]]; try done; simpl in Hj; injection Hj as <- <-;
      repeat (apply elem_of_cons in Hx as [->|Hx];
              [split; intros; [try lia; by vm_compute..]|]);
      by apply elem_of_nil in Hx.
  - split; [vm_compute; congruence|]. split; [discriminate|].
    split; [simpl; lia|].
    split; [apply example_row_serializable_check; by vm_compute|].
    split; [exists (page_bytes full_leaf_table 2); split; [reflexivity|by vm_compute]|].
    split; [intros _; simpl; lia|].
    split; [vm_compute; congruence|]. split; [discriminate|].
    split; [simpl; lia|].
    split; [apply example_row_serializable_check; by vm_compute|].
    split; [exists (page_bytes full_leaf_table 1); split; [reflexivity|by vm_compute]|].
    split; [done|exact I].
  - intros p rows Hp.
    repeat (apply elem_of_cons in Hp as [Hp|Hp];
      [injection Hp as -> ->; vm_compute; repeat split; intros k' Hk'; repeat
         (apply elem_of_cons in Hk' as [->|Hk']; [done|]);
         by apply elem_of_nil in Hk'|]).
    by apply elem_of_nil in Hp.
  - apply (bool_decide_unpack _). by vm_compute.
Qed.

Lemma full_leaf_table_linked : leaves_linked full_leaf_table full_leaf_chain.
Proof.
  intros p rows b Hp Hb.
  repeat (apply elem_of_cons in Hp as [Hp|Hp];
    [injection Hp as -> ->; vm_compute in Hb; injection Hb as <-;
     split; reflexivity|]).
  by apply elem_of_nil in Hp.
Qed.

Lemma execute_insert_splits_leaf_witness :
  ∃ t' root',
    execute_insert 1 1 (insert_statement (example_row 21)) full_leaf_table
    = Ok EXECUTE_SUCCESS t'
    ∧ two_levels t' root'
        (split_chain full_leaf_chain 1 1 (num_pages (pager full_leaf_table))
           (insert_row (example_row 21) (example_row <$> seqZ 8 13)))
    ∧ u32_at root' INTERNAL_NODE_NUM_KEYS_OFFSET
      = u32_at (page_bytes full_leaf_table 0) INTERNAL_NODE_NUM_KEYS_OFFSET + 1
    ∧ num_pages (pager t') = num_pages (pager full_leaf_table) + 1
    ∧ execute_select_rows 1 22 t'
      = Ok (insert_row (example_row 21) (chain_rows full_leaf_chain)) t'.
Proof.
  apply (execute_insert_splits_leaf 0 0 22 full_leaf_table
           (page_bytes full_leaf_table 0) full_leaf_chain (example_row 21)
           1 1 (example_row <$> seqZ 8 13)).
  - exact full_leaf_table_two_levels.
  - exact full_leaf_table_cache_ok.
  - exact full_leaf_table_linked.
  - split; [simpl; lia|split; reflexivity].
  - reflexivity.
  - split; [vm_compute; split; congruence|].
    split; intros i Hi.
    + assert (i = 0) as -> by lia. by vm_compute.
    + change (u32_at (page_bytes full_leaf_table 0)
                INTERNAL_NODE_NUM_KEYS_OFFSET) with 1 in Hi. lia.
  - reflexivity.
  - apply (bool_decide_unpack _). by vm_compute.
  - by vm_compute.
  - vm_compute. congruence.
  - vm_compute. lia.
Defined.
(** * A database of at most 34 rows *)

(** ** The split of the root leaf leaves a tree *)

Lemma execute_insert_root_split d fuel t (b : bytes) (rows : list Row)
    (r : Row) :
  single_leaf t b → leaf_holds b rows →
  Forall serializable rows → ascending (id <$> rows) →
  length rows = 13%nat → u8_at b IS_ROOT_OFFSET ≠ 0 →
  serializable r → id r ∉ id <$> rows → num_pages (pager t) = 1 →
  ∃ t' root,
    execute_insert (S d) fuel (insert_statement r) t = Ok EXECUTE_SUCCESS t'
    ∧ tree_ok t' root
        [(2, take 7 (insert_row r rows)); (1, drop 7 (insert_row r rows))].
Proof.
  intros Hsingle Hholds Hser Hasc Hfull Hroot Hr Hnew Hnp.
  assert (num_pages (pager t) + 1 ≤ TABLE_MAX_PAGES) as Hroom.
  { rewrite Hnp. by vm_compute. }
  destruct (returns_Ok _ _ _
    (execute_insert_splits_root t b rows r Hsingle Hholds Hser Hasc Hfull Hroot
       Hr Hnew Hroom d fuel))
    as (res & t' & Hrun & -> & Hroot' & Hnum' & root & lo & hi & Hpr & Hplo & Hphi
        & Hbroot & Hroot2 & Hlo & Hhi & Hlo' & Hhi' & Hcache').
  rewrite Hnp in *. change (1 + 1) with 2 in *. change (1 + 2) with 3 in *.
  set (rows' := insert_row r rows) in *.
  assert (length rows' = 14%nat) as Hlen'.
  { unfold rows'. rewrite insert_row_length. lia. }
  assert (Forall serializable rows') as Hser'
    by (by apply insert_row_serializable).
  assert (ascending (id <$> rows')) as Hasc' by (by apply insert_row_ascending).
  destruct (split_rows_bounds rows' Hasc' Hlen')
    as (x6 & x13 & H6 & H13 & Hlt & Hlow & Hhigh & _).
  destruct Hroot2 as (Hrty & Hrroot & Hrkeys & Hrchild & Hrkey & Hrright).
  assert (internal_key root 0 = id x6) as Hkey0.
  { rewrite Hrkey.
    assert (Forall serializable (take 7 rows')) as Hser7 by (by apply Forall_take).
    apply (leaf_holds_key lo (take 7 rows') Hlo Hser7 6%nat x6).
    by rewrite lookup_take_lt by lia. }
  exists t', root. split; [done|].
  split; [|split; [done|split; [|split]]].
  - (* the tree *)
    split; [by rewrite Hroot'|]. split; [done|].
    split; [rewrite Hroot'; by vm_compute|]. split; [done|].
    split; [by rewrite Hrkeys|].
    split; [rewrite Hrkeys; by vm_compute|].
    split; [|split; [|split; [|split]]].
    + intros [|[|i]] q rs Hi; try done; simpl in Hi; injection Hi as <- <-;
        unfold child_at; rewrite Hrkeys; simpl; done.
    + intros i j q rs x Hi Hj Hx. rewrite Hrkeys in Hi.
      assert (i = 0%nat) as -> by lia.
      change (Z.of_nat 0) with 0. rewrite Hkey0.
      destruct j as [|[|j]]; try done; simpl in Hj; injection Hj as <- <-.
      * split; [intros _; by apply Hlow|lia].
      * split; [lia|intros _; by apply Hhigh].
    + split; [by vm_compute|]. split.
      { intros H. apply (f_equal length) in H.
        rewrite length_take, Hlen' in H. done. }
      split; [rewrite length_take; lia|]. split; [by apply Forall_take|].
      split; [by exists lo|]. split; [intros _; simpl; lia|].
      split; [by vm_compute|]. split.
      { intros H. apply (f_equal length) in H.
        rewrite length_drop, Hlen' in H. done. }
      split; [rewrite length_drop; lia|]. split; [by apply Forall_drop|].
      split; [by exists hi|]. done.
    + intros q rs Hq.
      apply elem_of_cons in Hq as [Hq|Hq]; [injection Hq as -> ->|].
      { rewrite fmap_take. by apply ascending_take. }
      apply elem_of_cons in Hq as [Hq|Hq]; [injection Hq as -> ->|].
      { rewrite fmap_drop. by apply ascending_drop. }
      by apply elem_of_nil in Hq.
    + rewrite Hroot'. apply (bool_decide_unpack _). by vm_compute.
  - (* the leaves are children of the root *)
    intros q rs bq Hq Hpq. rewrite Hroot'.
    apply elem_of_cons in Hq as [Hq|Hq]; [injection Hq as -> ->|].
    { assert (bq = lo) as -> by (unfold pg in *; congruence). done. }
    apply elem_of_cons in Hq as [Hq|Hq]; [injection Hq as -> ->|].
    { assert (bq = hi) as -> by (unfold pg in *; congruence). done. }
    by apply elem_of_nil in Hq.
  - by rewrite Hnum'.
  - intros q rs Hq.
    apply elem_of_cons in Hq as [Hq|Hq]; [injection Hq as -> ->|].
    { rewrite length_take. lia. }
    apply elem_of_cons in Hq as [Hq|Hq]; [injection Hq as -> ->|].
    { rewrite length_drop. lia. }
    by apply elem_of_nil in Hq.
Qed.

(** ** Inserts into a tree *)

Lemma execute_insert_tree_room d fuel t root chain (r : Row) (j : nat) p
    (rows : list Row) (b : bytes) c :
  tree_ok t root chain → serializable r →
  chain !! j = Some (p, rows) → pg t p b →
  leaf_with b rows (next_page (drop (S j) chain)) →
  table_find (S d) (id r) t = Ok (mkCursor p c false) t →
  lower_bound b (Z.of_nat (length rows)) (id r) c →
  (Z.of_nat j = 0 ∨ internal_key root (Z.of_nat j - 1) < id r) →
  (Z.of_nat j = u32_at root INTERNAL_NODE_NUM_KEYS_OFFSET
   ∨ id r ≤ internal_key root (Z.of_nat j)) →
  (length (db_insert r rows).2 ≤ 13)%nat →
  ∃ t' chain',
    execute_insert (S d) fuel (insert_statement r) t
    = Ok (db_insert r (chain_rows chain)).1 t'
    ∧ tree_ok t' root chain'
    ∧ chain_rows chain' = (db_insert r (chain_rows chain)).2.
Proof.
  intros (Htree & Hcache & Hlinked & Hpages & Hmin) Hr Hj Hp Hwith Hfind Hlb
         Hl Hrr Hlen.
  pose proof (two_levels_member t root chain Htree j p rows (id r) Hj Hl Hrr)
    as Hmem.
  pose proof Htree as (_ & _ & _ & _ & _ & _ & _ & _ & Hchain & Hasc & Hnd).
  destruct (leaf_chain_lookup t chain j p rows Hchain Hj)
    as (Hpmax & _ & _ & Hser & _).
  assert (ascending (id <$> rows)) as Hrasc.
  { apply (Hasc p). by eapply list_elem_of_lookup_2. }
  pose proof Hwith as (Hb & _ & Hnum & _).
  destruct (execute_insert_found_hdr (S d) fuel t p b rows _ r c Hcache Hp Hpmax
              Hwith Hser Hrasc Hr Hfind)
    as (b' & Hrun & Hwith' & Hsame & Hroot' & Hpar'); [by rewrite Hnum|done|].
  unfold db_insert in *.
  destruct (decide (id r ∈ id <$> rows)) as [Hin|Hnew].
  { rewrite bool_decide_true in Hrun by done.
    rewrite bool_decide_true by (by apply Hmem).
    rewrite (Hsame Hin), set_page_id in Hrun by done.
    exists t, chain. done. }
  rewrite bool_decide_false in Hrun, Hwith', Hlen by done.
  rewrite bool_decide_false by (by rewrite Hmem).
  cbn [fst snd] in *. rewrite insert_row_length in Hlen.
  destruct (two_levels_insert t root chain Htree r Hr j p rows b' Hj Hl Hrr
              Hnew ltac:(lia) Hwith') as [Htree' Hrows'].
  pose proof (lookup_lt_Some _ _ _ Hj) as Hjlt.
  apply NoDup_cons in Hnd as [_ Hnd].
  assert (∀ (i : nat) q rs, i ≠ j → chain !! i = Some (q, rs) → q ≠ p) as Hother.
  { intros i q rs Hne Hi ->. apply Hne.
    apply (NoDup_lookup (fst <$> chain) _ _ p Hnd);
      by rewrite list_lookup_fmap, ?Hi, ?Hj. }
  exists (set_page t p b'), (<[j := (p, insert_row r rows)]> chain).
  split; [done|]. split; [|done].
  split; [done|].
  split; [apply (cache_ok_set_page t p b b' Hcache Hp); apply Hwith'|].
  split; [|split].
  - intros q rs bq [i Hi]%list_elem_of_lookup_1 Hpq.
    change (root_page_num (set_page t p b')) with (root_page_num t).
    destruct (decide (i = j)) as [->|Hne].
    + rewrite list_lookup_insert_eq in Hi by done. injection Hi as <- <-.
      assert (bq = b') as ->.
      { pose proof (pg_set_page_eq t p b'). unfold pg in *. congruence. }
      rewrite Hroot', Hpar'. apply (Hlinked p rows); [|done].
      by eapply list_elem_of_lookup_2.
    + rewrite list_lookup_insert_ne in Hi by done.
      apply (Hlinked q rs); [by eapply list_elem_of_lookup_2|].
      pose proof (Hother i q rs Hne Hi) as Hqp.
      unfold pg, set_page in *. simpl in Hpq.
      by rewrite lookup_insert_ne in Hpq.
  - rewrite length_insert. done.
  - intros q rs [i Hi]%list_elem_of_lookup_1.
    destruct (decide (i = j)) as [->|Hne].
    + rewrite list_lookup_insert_eq in Hi by done. injection Hi as <- <-.
      rewrite insert_row_length.
      pose proof (Hmin p rows ltac:(by eapply list_elem_of_lookup_2)). lia.
    + rewrite list_lookup_insert_ne in Hi by done.
      apply (Hmin q). by eapply list_elem_of_lookup_2.
Qed.

(** The rows of a chain whose leaves hold at least 7 rows each. *)
Lemma chain_rows_length (chain : list (Z * list Row)) (j : nat) p rows :
  (∀ q rs, (q, rs) ∈ chain → (7 ≤ length rs)%nat) →
  chain !! j = Some (p, rows) →
  (7 * (length chain - 1) + length rows ≤ length (chain_rows chain))%nat.
Proof.
  revert j. induction chain as [|[q rs] rest IH]; intros j Hmin Hj; [done|].
  unfold chain_rows. rewrite fmap_cons. cbn [concat snd].
  rewrite length_app. fold (chain_rows rest).
  assert (∀ q' rs', (q', rs') ∈ rest → (7 ≤ length rs')%nat) as Hmin'.
  { intros q' rs' H. apply (Hmin q'). by right. }
  destruct j as [|j].
  - simpl in Hj. injection Hj as -> ->. simpl.
    clear IH Hmin. induction rest as [|[q' rs'] rest IH]; [simpl; lia|].
    unfold chain_rows. rewrite fmap_cons. cbn [concat snd].
    rewrite length_app. fold (chain_rows rest).
    pose proof (Hmin' q' rs' ltac:(left)).
    assert (∀ q'' rs'', (q'', rs'') ∈ rest → (7 ≤ length rs'')%nat) as Hmin''.
    { intros q'' rs'' H'. apply (Hmin' q''). by right. }
    specialize (IH Hmin''). simpl length in *. lia.
  - simpl in Hj. specialize (IH j Hmin' Hj).
    pose proof (Hmin q rs ltac:(left)).
    pose proof (lookup_lt_Some _ _ _ Hj). simpl length. lia.
Qed.

Lemma execute_insert_tree_split d fuel t root chain (r : Row) (j : nat) p
    (rows : list Row) (b : bytes) c :
  tree_ok t root chain → serializable r →
  chain !! j = Some (p, rows) → pg t p b →
  leaf_with b rows (next_page (drop (S j) chain)) →
  table_find (S d) (id r) t = Ok (mkCursor p c false) t →
  lower_bound b (Z.of_nat (length rows)) (id r) c →
  (Z.of_nat j = 0 ∨ internal_key root (Z.of_nat j - 1) < id r) →
  (Z.of_nat j = u32_at root INTERNAL_NODE_NUM_KEYS_OFFSET
   ∨ id r ≤ internal_key root (Z.of_nat j)) →
  length rows = 13%nat → id r ∉ id <$> rows →
  (length (chain_rows chain) < 34)%nat →
  ∃ t' root' chain',
    execute_insert (S d) (S fuel) (insert_statement r) t
    = Ok (db_insert r (chain_rows chain)).1 t'
    ∧ tree_ok t' root' chain'
    ∧ chain_rows chain' = (db_insert r (chain_rows chain)).2.
Proof.
  intros (Htree & Hcache & Hlinked & Hpages & Hmin) Hr Hj Hp Hwith Hfind Hlb
         Hl Hrr Hfull Hnew Hcount.
  pose proof (two_levels_member t root chain Htree j p rows (id r) Hj Hl Hrr)
    as Hmem.
  pose proof Htree as (_ & _ & _ & _ & Hclen & _).
  pose proof (chain_rows_length chain j p rows Hmin Hj) as Hrows.
  pose proof (lookup_lt_Some _ _ _ Hj) as Hjlt.
  assert (u32_at root INTERNAL_NODE_NUM_KEYS_OFFSET < INTERNAL_NODE_MAX_KEYS)
    as Hnk.
  { change INTERNAL_NODE_MAX_KEYS with 3. lia. }
  assert (num_pages (pager t) ≤ TABLE_MAX_PAGES) as Hroom.
  { rewrite Hpages. change TABLE_MAX_PAGES with 400.
    change INTERNAL_NODE_MAX_KEYS with 3 in Hnk. lia. }
  destruct (execute_insert_full_leaf_found d fuel t root chain r j p rows b c
              Htree Hcache Hlinked Hr Hj Hp Hwith Hfind Hlb Hl Hrr Hfull Hnew
              Hnk Hroom)
    as (t' & root' & Hrun & Htree' & Hcache' & Hlinked' & Hrows' & Hnum & Hkeys).
  unfold db_insert. rewrite bool_decide_false by (by rewrite Hmem).
  cbn [fst snd].
  exists t', root', (split_chain chain j p (num_pages (pager t))
                       (insert_row r rows)).
  split; [done|]. split; [|done].
  split; [done|]. split; [done|]. split; [done|].
  assert (length (insert_row r rows) = 14%nat) as Hlen'.
  { rewrite insert_row_length. lia. }
  split.
  - rewrite Hnum, Hpages. unfold split_chain.
    rewrite length_app, length_take. cbn [length]. rewrite length_drop. lia.
  - intros q rs. unfold split_chain.
    intros [Hq|Hq]%elem_of_app.
    { apply (Hmin q). by eapply elem_of_take_in. }
    apply elem_of_cons in Hq as [Hq|Hq]; [injection Hq as -> ->|].
    { rewrite length_take. lia. }
    apply elem_of_cons in Hq as [Hq|Hq]; [injection Hq as -> ->|].
    { rewrite length_drop. lia. }
    apply (Hmin q). by eapply elem_of_drop_in.
Qed.

(** ** One insert, any shape *)

Lemma execute_insert_holds d fuel t (rows : list Row) (r : Row) :
  holds_rows t rows → serializable r →
  (length (db_insert r rows).2 ≤ 34)%nat →
  ∃ t', execute_insert (S d) (S fuel) (insert_statement r) t
        = Ok (db_insert r rows).1 t'
        ∧ holds_rows t' (db_insert r rows).2.
Proof.
  intros [(b & Hsingle & Hholds & Hroot & Hnp & Hser & Hasc & Hlen)
         |(root & chain & Htree & <-)] Hr Hcount.
  - destruct (db_insert_inv r rows Hr Hser Hasc) as (Hser' & Hasc' & _).
    destruct (decide (length (db_insert r rows).2 ≤ 13)%nat) as [Hroom|Hfull].
    + pose proof Hsingle as (Hcache & Hrootp & Hp).
      pose proof Hholds as (Hb & Hty & _).
      pose proof (leaf_holds_ascending b rows Hholds Hser Hasc) as Hkasc.
      pose proof (leaf_holds_max b rows Hholds Hlen) as Hmax.
      destruct (table_find_leaf (S d) t b (id r) Hsingle Hb Hty Hmax Hkasc)
        as (c & Hfind & Hlb).
      destruct (execute_insert_found_hdr (S d) (S fuel) t 0 b rows 0 r c Hcache
                  Hp ltac:(by vm_compute) Hholds Hser Hasc Hr Hfind Hlb Hroom)
        as (b' & Hrun & Hholds' & _ & Hroot' & _).
      exists (set_page t 0 b'). split; [done|]. left. exists b'.
      split; [apply (single_leaf_set_page t b b' Hsingle); apply Hholds'|].
      split; [done|]. split; [by rewrite Hroot'|]. done.
    + unfold db_insert in *. case_bool_decide as Hin; cbn [fst snd] in *; [lia|].
      rewrite insert_row_length in Hfull.
      destruct (execute_insert_root_split d (S fuel) t b rows r)
        as (t' & root & Hrun & Htree'); try done; [lia|].
      exists t'. split; [done|]. right.
      exists root, [(2, take 7 (insert_row r rows));
                    (1, drop 7 (insert_row r rows))].
      split; [done|]. unfold chain_rows. cbn [fmap list_fmap snd concat].
      by rewrite app_nil_r, take_drop.
  - pose proof Htree as (Htl & _ & _ & _ & _).
    destruct (table_find_two_levels t root chain Htl d (id r))
      as (j & p & rows & b & c & Hj & Hp & Hwith & Hfind & Hlb & Hl & Hrr).
    destruct (decide (length (db_insert r rows).2 ≤ 13)%nat) as [Hroom|Hfull].
    + destruct (execute_insert_tree_room d (S fuel) t root chain r j p rows b c
                  Htree Hr Hj Hp Hwith Hfind Hlb Hl Hrr Hroom)
        as (t' & chain' & Hrun & Htree' & Hrows').
      exists t'. split; [done|]. right. by exists root, chain'.
    + pose proof (two_levels_member t root chain Htl j p rows (id r) Hj Hl Hrr)
        as Hmem.
      pose proof Htl as (_ & _ & _ & _ & _ & _ & _ & _ & Hchain & _).
      destruct (leaf_chain_lookup t chain j p rows Hchain Hj)
        as (_ & _ & Hrlen & _).
      unfold db_insert in Hfull, Hcount.
      case_bool_decide as Hin; cbn [fst snd] in Hfull; [lia|].
      rewrite insert_row_length in Hfull.
      rewrite bool_decide_false in Hcount by (by rewrite Hmem).
      cbn [fst snd] in Hcount. rewrite insert_row_length in Hcount.
      destruct (execute_insert_tree_split d fuel t root chain r j p rows b c
                  Htree Hr Hj Hp Hwith Hfind Hlb Hl Hrr)
        as (t' & root' & chain' & Hrun & Htree' & Hrows'); [lia|done|lia|].
      exists t'. split; [done|]. right. by exists root', chain'.
Qed.

Lemma db_inserts_length (rs rows : list Row) :
  (length rows ≤ length (db_inserts rs rows).2)%nat.
Proof.
  revert rows. induction rs as [|r rs IH]; intros rows; [done|].
  change (db_inserts (r :: rs) rows)
    with (let '(res, rows') := db_insert r rows in
          let '(ress, rows'') := db_inserts rs rows' in (res :: ress, rows'')).
  assert (length rows ≤ length (db_insert r rows).2)%nat as H1.
  { unfold db_insert. case_bool_decide; cbn [snd]; [done|].
    rewrite insert_row_length. lia. }
  destruct (db_insert r rows) as [res rows'] eqn:E1.
  specialize (IH rows').
  destruct (db_inserts rs rows') as [ress rows''] eqn:E2. cbn [fst snd] in *.
  lia.
Qed.

Lemma execute_inserts_holds d fuel (rs : list Row) :
  ∀ t (rows : list Row),
  holds_rows t rows → Forall serializable rs →
  (length (db_inserts rs rows).2 ≤ 34)%nat →
  ∃ t', execute_inserts (S d) (S fuel) (insert_statement <$> rs) t
        = Ok (db_inserts rs rows).1 t'
        ∧ holds_rows t' (db_inserts rs rows).2.
Proof.
  induction rs as [|r rs IH]; intros t rows Hholds Hrs Hcount.
  { by exists t. }
  apply Forall_cons in Hrs as [Hr Hrs].
  revert Hcount.
  change (db_inserts (r :: rs) rows)
    with (let '(res, rows') := db_insert r rows in
          let '(ress, rows'') := db_inserts rs rows' in (res :: ress, rows'')).
  intros Hcount.
  destruct (execute_insert_holds d fuel t rows r Hholds Hr)
    as (t1 & Hrun & Hholds1).
  { pose proof (db_inserts_length rs (db_insert r rows).2).
    destruct (db_insert r rows) as [res rows']. cbn [fst snd] in *.
    destruct (db_inserts rs rows') as [ress rows'']. cbn [fst snd] in *. lia. }
  rewrite fmap_cons.
  change (execute_inserts (S d) (S fuel)
            (insert_statement r :: (insert_statement <$> rs)))
    with (x ← execute_insert (S d) (S fuel) (insert_statement r);
          xs ← execute_inserts (S d) (S fuel) (insert_statement <$> rs);
          mret (x :: xs)).
  unfold mbind, M_bind. rewrite Hrun.
  destruct (db_insert r rows) as [res rows'] eqn:E1. cbn [fst snd] in *.
  destruct (IH t1 rows' Hholds1 Hrs) as (t' & Hrun' & Hholds').
  { destruct (db_inserts rs rows'). done. }
  rewrite Hrun'.
  destruct (db_inserts rs rows') as [ress rows''] eqn:E2. cbn [fst snd] in *.
  by exists t'.
Qed.

Lemma execute_select_holds d k t (rows : list Row) :
  holds_rows t rows → (length rows < k)%nat →
  execute_select_rows (S d) k t = Ok rows t.
Proof.
  intros [(b & Hsingle & Hholds & Hroot & Hnp & Hser & Hasc & Hlen)
         |(root & chain & Htree & <-)] Hk.
  - by rewrite (execute_select_rows_leaf t b rows) by (done || lia).
  - destruct Htree as (Htl & _). by apply (two_levels_select d k t root chain).
Qed.

Lemma fresh_table_holds_rows : holds_rows fresh_table [].
Proof.
  destruct fresh_table_single_leaf as (_ & Hsingle & Hholds).
  left. exists empty_leaf. split; [done|]. split; [done|].
  split; [by vm_compute|]. split; [reflexivity|]. split; [done|].
  split; [done|]. simpl. lia.
Qed.

(** X16. A fresh database into which rows are inserted, as long as it
    holds at most 34 rows, behaves as a list of rows kept in ascending
    order of id, whatever the order of the inserts and through the
    splits of the root leaf and of the leaves below the root: each insert
    answers DUPLICATE_KEY when its id was inserted before and
    EXECUTE_SUCCESS otherwise, and a select afterwards returns the
    accepted rows in strictly ascending order of id. *)
Theorem database_up_to_34_rows (d fuel k : nat) (rs : list Row) :
  Forall serializable rs → (length (db_inserts rs []).2 ≤ 34)%nat →
  (34 < k)%nat →
  ∃ t', on_fresh_table (
          res ← execute_inserts (S d) (S fuel) (insert_statement <$> rs);
          rows ← execute_select_rows (S d) k;
          mret (res, rows))
        = Ok (db_inserts rs []) t'
      ∧ ascending (id <$> (db_inserts rs []).2).
Proof.
  intros Hrs Hlen Hk.
  destruct fresh_table_single_leaf as (Hinit & _ & _).
  destruct (execute_inserts_holds d fuel rs fresh_table []
              fresh_table_holds_rows Hrs Hlen) as (t' & Hrun & Hholds).
  destruct (db_inserts_inv rs []) as (_ & Hasc' & _); try done.
  exists t'. split; [|done].
  unfold on_fresh_table. rewrite Hinit. unfold mbind, M_bind. rewrite Hrun.
  rewrite (execute_select_holds d k t' _ Hholds) by lia.
  by destruct (db_inserts rs []).
Qed.

Lemma database_up_to_34_rows_witness :
  ∃ t', on_fresh_table (
          res ← execute_inserts 1 1
                  (insert_statement
                   <$> (example_row <$> ((λ i, (i * 11) `mod` 34) <$> seqZ 0 40)));
          rows ← execute_select_rows 1 35;
          mret (res, rows))
        = Ok (db_inserts
                (example_row <$> ((λ i, (i * 11) `mod` 34) <$> seqZ 0 40)) []) t'
      ∧ ascending
          (id <$> (db_inserts
                     (example_row <$> ((λ i, (i * 11) `mod` 34) <$> seqZ 0 40))
                     []).2).
Proof.
  apply (database_up_to_34_rows 0 0 35
           (example_row <$> ((λ i, (i * 11) `mod` 34) <$> seqZ 0 40))).
  - apply example_row_serializable_check. by vm_compute.
  - vm_compute. lia.
  - lia.
Defined.

(** * Concrete scenarios *)

Lemma layout_constants :
  ROW_SIZE = 291 ∧ LEAF_NODE_HEADER_SIZE = 14 ∧ LEAF_NODE_CELL_SIZE = 295
  ∧ LEAF_NODE_MAX_CELLS = 13 ∧ LEAF_NODE_RIGHT_SPLIT_COUNT = 7
  ∧ LEAF_NODE_LEFT_SPLIT_COUNT = 7 ∧ INTERNAL_NODE_HEADER_SIZE = 14
  ∧ INTERNAL_NODE_CELL_SIZE = 8.
Proof. by vm_compute. Qed.

(** C5. Starting from an empty database, inserting ids 1 .. 14
    (= LEAF_NODE_MAX_CELLS + 1) in ascending order leaves an internal root
    with one key, equal to LEAF_NODE_LEFT_SPLIT_COUNT = 7, and two leaf
    children; [.btree] shows that tree and [select] prints the rows in the
    order 1 .. 14. *)
Theorem leaf_split_scenario :
  LEAF_NODE_MAX_CELLS + 1 = 14
  ∧ result_of (on_fresh_table (
      execute_inserts 4 4 (statement_of_line ∘ insert_line <$> seqZ 1 14);;
      root_shape))
    = Some (INTERNAL, 1, LEAF_NODE_LEFT_SPLIT_COUNT, LEAF, LEAF)
  ∧ insert_then_select 4 4 20 (seqZ 1 14)
    = Some (replicate 14 EXECUTE_SUCCESS, seqZ 1 14)
  ∧ result_of (session 4 4 20 []
      ((insert_line <$> seqZ 1 14) ++ [".btree"; "select"]))
    = Some (replicate 14 "Executed."
            ++ ["Tree:"; "- internal (size 1)";
                "  - leaf (size 7)";
                "    - 1"; "    - 2"; "    - 3"; "    - 4"; "    - 5";
                "    - 6"; "    - 7";
                "  - key 7";
                "  - leaf (size 7)";
                "    - 8"; "    - 9"; "    - 10"; "    - 11"; "    - 12";
                "    - 13"; "    - 14"]
            ++ ((Row_repr ∘ (λ i, mkRow i ("user" +:+ str_of_Z i)
                                   ("person" +:+ str_of_Z i +:+ "@example.com")))
                  <$> seqZ 1 14)
            ++ ["Executed."]).
Proof. repeat split; by vm_compute. Qed.

(** C1, at a failing input.  The 111 distinct ids [skewed_ids ++ [2236]]
    are all accepted and inserted with success, yet [select] prints id 2236
    between 2220 and 2221: 111 rows, not in ascending order. *)
Theorem select_out_of_order :
  NoDup (skewed_ids ++ [2236])
  ∧ forallb (accepted ∘ insert_line) (skewed_ids ++ [2236]) = true
  ∧ insert_then_select 6 6 200 (skewed_ids ++ [2236])
    = Some (replicate 111 EXECUTE_SUCCESS,
            ((λ i, 100 * i) <$> seqZ 1 22) ++ seqZ 2201 20 ++ [2236]
            ++ seqZ 2221 15 ++ ((λ i, 100 * i) <$> seqZ 23 53)).
Proof.
  split; [|split]; [|by vm_compute..].
  apply (bool_decide_unpack _). by vm_compute.
Qed.

(** C2, at a failing input.  Id 2228 is among the 110 ids of [skewed_ids],
    all inserted with success; inserting 2228 once more returns success
    again instead of DUPLICATE_KEY, and [select] then prints 111 rows. *)
Theorem duplicate_accepted :
  2228 ∈ skewed_ids
  ∧ insert_then_select 6 6 200 (skewed_ids ++ [2228])
    = Some (replicate 111 EXECUTE_SUCCESS,
            ((λ i, 100 * i) <$> seqZ 1 22) ++ seqZ 2201 20 ++ [2228]
            ++ seqZ 2221 15 ++ ((λ i, 100 * i) <$> seqZ 23 53)).
Proof.
  split; [|by vm_compute].
  apply (bool_decide_unpack _). by vm_compute.
Qed.
